(* ===== verification/_CoqProject ===== *)
-Q . S2P
Prelude.v
Heap.v
ByteStorage.v
Types.v
MessageBuffer.v
Field.v
Message.v
Codec.v
EncodeFrame.v
RoundTrip.v
Built.v
DecodeTotal.v
Subject.v
Url.v
Options.v
Printing.v
Output.v
Logger.v
RingBuffer.v
MultiRing.v
Semaphore.v
SemaphorePorts.v
BlockingRing.v
RWLock.v
RWHolders.v
Pool.v
Arena.v
Allocators.v
Transport.v
Router.v
Shm.v
ShmInvariant.v
ShmRoute.v
ShmSafety.v
Listener.v
Poll.v
PollSelect.v
Kqueue.v
Events.v
Timers.v
EventQueue.v
EventDelivery.v
InlineCallbacks.v
TimedDispatch.v
Session.v
SessionWake.v
Affinity.v
Sockets.v
SocketLife.v
Reconnect.v
ShmConnect.v
Endpoints.v
Notifiers.v
Bootstrap.v
RouterLife.v
Programs.v
Performance.v
Statistics.v
PerfPrograms.v
EndToEnd.v
PubSub.v
Samples.v
ShmFaults.v
SystemSamples.v
ProgramSamples.v
