(* ===== verification/Prelude.v ===== *)
(** * FastPath: a verification of the message bus of this repository

    FastPath is a publish/subscribe message bus in C++: clients build messages,
    a codec turns them into bytes, a TCP transport moves the bytes, a router
    forwards every message to the connections that have subscribed to its
    subject, and an event system calls the clients back.  This library models
    that code function by function and proves what makes it correct.

    ** The parts and how they interact

    A client adds fields to a [MutableMessage] (messages/) and hands it to
    [TCPTransport::sendMessage] (transport/), which encodes it into a
    [MessageBuffer] over a [MutableByteStorage] and writes it to a socket.  The
    router (router/) reads the bytes, decodes the addressing part only, and sends
    the unchanged bytes to the peers whose [subscription] matches.  At the
    receiving client [createReceiverEvent] reads the stream in pieces of one MTU
    and decodes the messages; [MessageListener] (event/) queues each for the
    observers that are interested.  The event system (event/) stands under all of
    this: a poll manager on top of epoll, event managers with tables of handlers,
    and queues that dispatch.  The containers, locks and allocators of utils/ are
    used throughout.

    ** Files

    - [Prelude]: outcomes of C++ code (value, exception, assertion failure,
      undefined behaviour, termination, fuel), machine integers, bytes, the
      notations of [cpp_scope], the hint databases [bytes] and [lens].
    - [Heap]: memory as numbered blocks of possibly indeterminate bytes; loads
      and stores outside a block or in a freed block are undefined behaviour.
    - [ByteStorage]: ByteStorage.h and MutableByteStorage.h.  The record has the
      members of the class; every method is a function on it and on the heap.
    - [Types]: status.h, StorageTypes.h, FieldTraits.h, EventType.h.
    - [MessageBuffer]: MessageBuffer.h, the window over a storage.
    - [Field], [Message]: the field classes, BaseMessage, Message and
      MutableMessage; the payload is a list and the index a map from identifiers
      to positions, as in the code.
    - [Codec]: MessageCodec.h and the encoders and decoders of the fields; the
      wire format ([wire_message]) as the specification, and [encode] against it.
      [EncodeFrame]: what [encode] leaves alone.
    - [RoundTrip]: [decode] against the wire format.  [Built]: the messages the
      API can build, [removeField] included, and which of them are in the domain of
      these theorems.  [DecodeTotal]: decoding ends on arbitrary bytes.
    - [Subject]: stringhash.h, subject.h, subscription.h, for any hasher (the
      class [Hasher]) and for the hash of the library.
    - [Url]: URL.cpp.  [Options]: tfoptions.h.
    - [Printing]: the output stream with its formatting state, numbers, and the
      dumps of ByteStorage.h and MessageBuffer.h.  [Output]: the [output] methods
      of messages and fields against a reference without a stream, and those of
      URLs and options.  [Logger]: logger.h and console_colors.h.
    - [RingBuffer]: tfringbuffer.h, sequentially against the class [BoundedFifo]
      and as a producer and a consumer that interleave.  [MultiRing]:
      tfmultiringbuffer.h, any number of producers and consumers.
    - [Semaphore]: semaphore_light.h, any number of threads, over a kernel semaphore
      that counts or an eventfd.  [SemaphorePorts]:
      the class [OsSemaphore] it relies on, for every system.  [BlockingRing]:
      blocking_ringbuffer.h, a ring buffer of any kind with either semaphore.
    - [RWLock]: rwlock.h and tfspinlock.h under any interleaving.  [RWHolders]:
      the scoped holders of rwlock.h.
    - [Pool]: tfpool.h, with the class [Reusable].  [Arena]:
      fast_linear_allocator.h and allocate_polymorphic.h.  [Allocators]: the class
      [AllocatorResource], the generic allocator proved against it, the default
      resource, the allocator over the shared segment, linear_allocator and
      ref_count_ptr.h.
    - [Transport]: TCPTransport.cpp and Socket.cpp.  [Router]:
      peer_connection.cpp, tcp_peer_connection.cpp, bootstrap.cpp.  [Listener]:
      MessageListener.cpp, Subscriber and MessageEvent.
    - [Shm]: SharedMemoryBuffer.h, SharedMemoryManager.h, SHMTransport.cpp,
      shm_peer_connection.cpp and message_wrapper.cpp: the segment that clients and
      router share, with counted pointers and queues.  [ShmInvariant]: the counts.
      [ShmRoute]: messages from client to client.  [ShmSafety]: every segment that
      operations which return can reach.  [ShmFaults]: where it fails, and the samples.
    - [Poll]: arch/linux/PollManager.cpp over the class [Epoll].  [PollSelect]:
      PollManager_select.h over the answers of select(2).  [Kqueue]:
      arch/mac/PollManager.cpp over the class [Kernel_queue].  [Events]: the
      events and both event managers (the record [ManagerOps]).  [Timers]:
      TimerEvent.cpp and SignalEvent.cpp over the class [TimerKernel].  [EventQueue]:
      Queue.cpp and the queue classes over any [BoundedFifo].  [EventDelivery]:
      the theorems that span manager, queue and events.  [InlineCallbacks]: callbacks
      that use the inline queue while it runs them.  [TimedDispatch]:
      dispatch with a timeout on the three queues.  [Session]: Session.cpp,
      the start and the end of the event loop thread.  [SessionWake]: how stop
      wakes that thread out of waitForEvent, a refinement of [Session].
      [Affinity]: tfthread_utils.h.
    - [Sockets]: transport/socket/, the socket objects as owners of descriptors over
      the class [SocketKernel].  [SocketLife]: the constructors and the destructor
      of TCPSocket.cpp with the address lists of the class [Resolver].  [Reconnect]:
      the constructor, the background attempts, the state handler and the shutdown
      of TCPTransport.cpp, one shared access per step, and BackoffStrategy.h.
      [ShmConnect]: the same of SHMTransport.cpp.  [Endpoints]: notifier.h,
      InterprocessNotifier*.cpp, tcp_server_transport.cpp and realm_transport.cpp.
      [Notifiers]: the class [Notifier], proved of the eventfd and of the pipe, and
      the descriptors of the pipe.
    - [Bootstrap]: bootstrap.cpp, the life of the router as a loop over what its
      queue reports.  The loop of the model has three ends ([run_end]): a signal, no
      more reports (the queue still waits), and a connection that ended in the
      callback of its own event, after which the manager's iterators are invalid.  A
      connection carries what its next sends will come to ([p_sends]): taken whole,
      or written in part and failed, which closes its socket.  [RouterLife]: the
      events that the server transports and the connections register and give back,
      from the start of run to the end of the router; a connection goes in the
      callback of one of its events, inside [InlineCallbacks].  [EndToEnd]: the
      router against an abstract router that handles whole messages.  [PubSub]:
      publishers, router and subscriber composed. [Programs]: the main functions of
      fprouter, fpsend and fplisten, which put options, logger, transport, router
      and output together.  [Performance]: the two programs that measure the way of
      a message, as a system.  [Statistics]: what the source computes of the times.
      [PerfPrograms]: the main functions of both, over these two.
    - [Samples], [SystemSamples], [ProgramSamples]: concrete messages, storages,
      connections, routers and command lines to which the theorems are applied.

    ** What the theorems show

    - Messages: the fields a client adds read back; every message it can build
      without an empty nested one is well formed; [encode] writes the wire format
      and [decode] reads it back whatever follows; a prefix of a message is left
      alone; decoding ends.
    - Connections: a stream of messages, however it is cut into reads, arrives
      complete and in order; sender and receiver compose; a transport never gives
      up connecting, can always connect without being shut down, and stops when it is
      told to; a shared memory transport that
      is valid has its segment and queues; a socket object leaks no
      descriptor, whatever its state handler does with it.
    - Routing: a subscription matches exactly the subjects its pattern covers; the
      router forwards each message to exactly those who asked; a subscription
      reaches the router and an observer gets exactly what it subscribed to.
    - The whole: from [sendMessage] in the publishers to the queues of the observers
      every message goes its way complete and in order; the router's handlers refine
      a router of whole messages, its tables stay consistent up to the first
      connection that ends, and until then one peer cannot disturb another; if it is
      stopped before, it gives back every event; what fpsend sends is the line
      fplisten prints if the subject of its own command line covers it, and the
      performance programs measure every message, end, and print the statistics of
      what they measured.
    - Output: the text of a message is that of the reference, here and at its
      receiver; a dump reads back; a log line fits its buffer and reads the same
      with and without colours.
    - Events: a readiness report reaches the interested handlers once, reports are
      coalesced, an event that is unregistered alone is gone everywhere, a wait with
      a timeout on an inline queue leaves the tables as they were, and the event
      loop thread starts and ends in step with its session, unless its wake-up falls
      between two steps of the loop; a notification arrives over either kind of
      notifier.
    - Shared memory: a message sent by one client reaches the interested clients,
      and its memory is given back exactly when the last reference goes.
    - Concurrency: both ring buffers are first in, first out without data races,
      the locks exclude, holders never leak or double-release a lock, the semaphore
      loses no wake-up (an eventfd with one sleeper), and a consumer never sleeps beside
      an element.
    - Memory: allocations of the arena do not overlap, polymorphic deallocation
      gives back exactly what was taken, the pool never hands out an object twice.
    - Input: URLs and command lines parse back to what they were written from.
    - A last group states where the code departs from this: encoding into too small
      a buffer, [removeField], partial writes, unsubscription, a full event queue,
      shared descriptors, removal of a waiting event, malformed administration
      messages, sends that fail, URLs with an empty query parameter, the router's
      command line in the README, the end of a session, messages from TCP to shared
      memory, the end of a shared memory client, the races of a reconnecting
      transport and of the shutdown of a shared memory transport, the lost wake-up
      of stop, callbacks that unregister what an inline queue is iterating, a router
      that ends before its shared memory clients, a timeout of a blocking queue, the
      filters and timers of kqueue.

    ** Bounds and fuel

    [decode] recurses into nested messages with a fuel that [decode_terminates]
    shows to be enough when it exceeds the bytes left, and [fields_in] bounds it by
    the number of fields for a well-formed message; the receive and dispatch loops
    take a number of turns that the theorems bound by the messages they deliver.
    [Url] needs no more fuel than the length of the string.  Storage sizes stay
    below [max_stored] ([2^58]), so that no [size_t] computation of the code
    wraps; counters of locks and rings are bounded by their width, stated in each
    theorem.  The percentiles are those of exact arithmetic for up to [max_results]
    (1024) latencies, which is checked for every number of them.  Asserts are those
    of the Debug configuration.

    ** Not modelled

    Operating system calls are parameters that answer (epoll, sockets, eventfd,
    pipes, timerfd, signalfd, CPU affinity).  Boost is a parameter: its queue
    is any [BoundedFifo], its shared pointer is modelled by its documented
    behaviour.  The clock, the numbers of threads and the text of a command line
    error are arguments.  The vendored lock-free queue and short allocator, the
    Windows service, the tests and the playground are left out. *)
From stdpp Require Export base tactics option list numbers gmap strings.
From Stdlib Require Export ZArith Lia.

#[global] Open Scope Z_scope.

(** ** Outcomes of C++ code

    A run of a modelled function either returns, throws a C++ exception,
    stops at a failed [assert] (the Debug configuration of the root
    CMakeLists.txt; a run that meets no failed [assert] is also a run of the
    Release configuration), meets undefined behaviour, calls
    [std::terminate], or has used up the fuel of its model. *)
Inductive ub_kind :=
  | UseAfterFree | OutOfBounds | IndeterminateRead | NullDeref
  | InvalidFree | TypeConfusion | InvalidIterator | DivideByZero.

Inductive exn_kind :=
  | FpException | EventExceptionKind | InvalidArgument | SocketError | LengthError.

Inductive fault :=
  | Throw (e : exn_kind)
  | AssertFail
  | UB (k : ub_kind)
  | Terminate
  | OutOfFuel.

Inductive outcome (A : Type) :=
  | Ok (a : A)
  | Err (f : fault).
Arguments Ok {A} _.
Arguments Err {A} _.

#[export] Instance ub_kind_eq_dec : EqDecision ub_kind.
Proof. solve_decision. Defined.
#[export] Instance exn_kind_eq_dec : EqDecision exn_kind.
Proof. solve_decision. Defined.
#[export] Instance fault_eq_dec : EqDecision fault.
Proof. solve_decision. Defined.
#[export] Instance outcome_eq_dec `{EqDecision A} : EqDecision (outcome A).
Proof. solve_decision. Defined.

#[export] Instance outcome_ret : MRet outcome := fun A a => Ok a.
#[export] Instance outcome_bind : MBind outcome := fun A B k m =>
  match m with Ok a => k a | Err f => Err f end.
#[export] Instance outcome_map : FMap outcome := fun A B g m =>
  match m with Ok a => Ok (g a) | Err f => Err f end.

(** Notations for the two faults the code meets most. *)
Declare Scope cpp_scope.
Delimit Scope cpp_scope with cpp.
Notation "'throw' e" := (Err (Throw e)) (at level 10, e at level 9) : cpp_scope.
Notation "'undefined' k" := (Err (UB k)) (at level 10, k at level 9) : cpp_scope.
#[global] Open Scope cpp_scope.

(** [assert(b)] in the Debug configuration. *)
Definition assert_ (b : bool) : outcome unit := if b then Ok tt else Err AssertFail.

Definition is_Ok {A} (m : outcome A) : bool :=
  match m with Ok _ => true | Err _ => false end.

Lemma bind_Ok_inv {A B} (m : outcome A) (k : A -> outcome B) b :
  (m ≫= k) = Ok b -> exists a, m = Ok a /\ k a = Ok b.
Proof. destruct m; simpl; [eauto | discriminate]. Qed.

Lemma bind_Ok_eq {A B} (m : outcome A) (k : A -> outcome B) a :
  m = Ok a -> (m ≫= k) = k a.
Proof. by intros ->. Qed.

Lemma bind_assoc {A B C} (m : outcome A) (f : A -> outcome B) (g : B -> outcome C) :
  ((m ≫= f) ≫= g) = (m ≫= fun a => f a ≫= g).
Proof. by destruct m. Qed.

(** Split a successful [bind] in the hypotheses, as often as possible. *)
Ltac inv_bind :=
  repeat match goal with
  | H : Ok _ = Ok _ |- _ => injection H as H
  | H : Err _ = Ok _ |- _ => discriminate H
  | H : Ok _ = Err _ |- _ => discriminate H
  | H : (_ ≫= _) = Ok _ |- _ =>
      apply bind_Ok_inv in H; destruct H as (? & ? & H)
  | H : mret _ = Ok _ |- _ => unfold mret, outcome_ret in H
  end; simplify_eq.

(** Run the [bind] whose first part is a value. *)
Tactic Notation "run_bind" := cbn [mbind outcome_bind].
Tactic Notation "run_bind" "in" hyp(H) := cbn [mbind outcome_bind] in H.

(** ** Machine integers *)

Definition size_t_max : Z := 2 ^ 64 - 1.
Definition wrap (w v : Z) : Z := v mod 2 ^ w.
Definition to_signed (w v : Z) : Z :=
  if wrap w v <? 2 ^ (w - 1) then wrap w v else wrap w v - 2 ^ w.
Abbreviation u64 := (wrap 64).
Abbreviation u32 := (wrap 32).
Abbreviation u16 := (wrap 16).
Abbreviation u8 := (wrap 8).

Lemma wrap_range w v : 0 <= w -> 0 <= wrap w v < 2 ^ w.
Proof. intros. apply Z.mod_pos_bound. lia. Qed.

Lemma wrap_small w v : 0 <= v < 2 ^ w -> wrap w v = v.
Proof. apply Z.mod_small. Qed.

Lemma wrap_wrap w v : wrap w (wrap w v) = wrap w v.
Proof. apply Zmod_mod. Qed.

Lemma to_signed_wrap w v : to_signed w (wrap w v) = to_signed w v.
Proof. unfold to_signed. by rewrite wrap_wrap. Qed.

Lemma to_signed_small w v :
  0 < w -> - 2 ^ (w - 1) <= v < 2 ^ (w - 1) -> to_signed w v = v.
Proof.
  intros Hw Hv. unfold to_signed, wrap.
  assert (2 ^ w = 2 * 2 ^ (w - 1)) as E.
  { rewrite <- Z.pow_succ_r by lia. f_equal. lia. }
  destruct (Z_lt_dec v 0).
  - assert (v mod 2 ^ w = v + 2 ^ w) as ->.
    { symmetry. apply Z.mod_unique with (-1); lia. }
    destruct (Z.ltb_spec (v + 2 ^ w) (2 ^ (w - 1))); lia.
  - rewrite Z.mod_small by lia.
    destruct (Z.ltb_spec v (2 ^ (w - 1))); lia.
Qed.

Lemma wrap_to_signed w v : 0 <= w -> wrap w (to_signed w v) = wrap w v.
Proof.
  intros Hw. unfold to_signed.
  destruct (_ <? _); [apply wrap_wrap|].
  unfold wrap at 1. rewrite <- (Z_mod_plus_full _ 1).
  replace (_ + 1 * 2 ^ w) with (wrap w v) by lia. apply wrap_wrap.
Qed.

(** ** Bytes and little-endian words *)

Abbreviation byte := Z (only parsing).
Definition is_byte (b : Z) : Prop := 0 <= b < 256.
#[export] Instance is_byte_dec b : Decision (is_byte b).
Proof. unfold is_byte. apply _. Defined.

Fixpoint le_bytes (n : nat) (v : Z) : list Z :=
  match n with
  | O => []
  | S n => v mod 256 :: le_bytes n (v / 256)
  end.

Fixpoint le_val (bs : list Z) : Z :=
  match bs with
  | [] => 0
  | b :: bs => b + 256 * le_val bs
  end.

Lemma length_le_bytes n v : length (le_bytes n v) = n.
Proof. revert v; induction n; intros; simpl; auto. Qed.

Lemma le_bytes_is_byte n v : Forall is_byte (le_bytes n v).
Proof.
  revert v; induction n; intros v; simpl; constructor; auto.
  unfold is_byte. apply Z.mod_pos_bound. lia.
Qed.

Lemma le_val_le_bytes n v : le_val (le_bytes n v) = v mod 256 ^ Z.of_nat n.
Proof.
  revert v; induction n as [|n IH]; intros v; cbn [le_bytes le_val].
  - by rewrite Z.mod_1_r.
  - rewrite IH, Nat2Z.inj_succ, Z.pow_succ_r, Z.rem_mul_r by lia. lia.
Qed.

Lemma le_val_range bs :
  Forall is_byte bs -> 0 <= le_val bs < 256 ^ Z.of_nat (length bs).
Proof.
  induction 1 as [|b bs Hb _ IH]; cbn [le_val length]; [simpl; lia|].
  rewrite Nat2Z.inj_succ, Z.pow_succ_r by lia. unfold is_byte in Hb. lia.
Qed.

Lemma le_bytes_le_val bs :
  Forall is_byte bs -> le_bytes (length bs) (le_val bs) = bs.
Proof.
  induction 1 as [|b bs Hb _ IH]; cbn [le_val le_bytes length]; [done|].
  unfold is_byte in Hb. f_equal.
  - rewrite Z.mul_comm, Z_mod_plus_full. by apply Z.mod_small.
  - rewrite Z.mul_comm, Z.div_add, Z.div_small by lia. by rewrite Z.add_0_l.
Qed.

Lemma pow256 n : 256 ^ Z.of_nat n = 2 ^ (8 * Z.of_nat n).
Proof. rewrite Z.pow_mul_r by lia. done. Qed.

Lemma le_val_le_bytes_small n v :
  0 <= v < 2 ^ (8 * Z.of_nat n) -> le_val (le_bytes n v) = v.
Proof. intros. rewrite le_val_le_bytes, pow256. by apply Z.mod_small. Qed.

Lemma le_bytes_mod n v : le_bytes n (v mod 256 ^ Z.of_nat n) = le_bytes n v.
Proof.
  rewrite <- le_val_le_bytes.
  rewrite <- (length_le_bytes n v) at 1.
  apply le_bytes_le_val, le_bytes_is_byte.
Qed.

(** [bytes]: lists of bytes are put together from lists of bytes. *)
Create HintDb bytes.
#[export] Hint Resolve le_bytes_is_byte Forall_app_2 Forall_nil_2 Forall_take Forall_drop : bytes.

(** [lens]: the lengths of what the code appends. *)
Create Rewrite HintDb lens.
#[export] Hint Rewrite @length_app @length_le_bytes @length_replicate @length_rev : lens.
Ltac lens := autorewrite with lens; lia.

Arguments le_bytes : simpl never.
Arguments le_val : simpl never.
Arguments wrap : simpl never.
Arguments to_signed : simpl never.

(** ** Lists *)

Lemma drop_app_len {A} (l1 l2 : list A) n : n = length l1 -> drop n (l1 ++ l2) = l2.
Proof. intros ->. apply drop_app_length. Qed.

Lemma take_app_len {A} (l1 l2 : list A) n : n = length l1 -> take n (l1 ++ l2) = l1.
Proof. intros ->. apply take_app_length. Qed.

(** Sums over the threads of an interleaving, when one of them moves. *)
Section sums.
Context {A : Type} (f : A -> nat).

Lemma sum_insert l i x y :
  l !! i = Some x -> (sum_list_with f (<[i := y]> l) + f x = sum_list_with f l + f y)%nat.
Proof.
  revert i. induction l as [|a l IH]; intros [|i] Hi; simpl in *; [done|done| |].
  - injection Hi as ->. lia.
  - specialize (IH _ Hi). lia.
Qed.

Lemma sum_lookup l i x : l !! i = Some x -> (f x <= sum_list_with f l)%nat.
Proof.
  revert i. induction l as [|a l IH]; intros [|i] Hi; simpl in *; [done|done| |].
  - injection Hi as ->. lia.
  - specialize (IH _ Hi). lia.
Qed.

Lemma sum_replicate n x : f x = 0%nat -> sum_list_with f (replicate n x) = 0%nat.
Proof. intros Hx. induction n; simpl; lia. Qed.

Lemma sum_bound c l : (forall x, f x <= c)%nat -> (sum_list_with f l <= c * length l)%nat.
Proof. intros Hf. induction l as [|x l IH]; simpl; [lia|]. specialize (Hf x). lia. Qed.

Lemma sum_zero l : sum_list_with f l = 0%nat -> forall i x, l !! i = Some x -> f x = 0%nat.
Proof. intros Hl i x Hi. pose proof (sum_lookup l i x Hi). lia. Qed.
End sums.

(** Characters of a literal as bytes. *)
Definition bytes_of_string (s : string) : list Z :=
  (fun c => Z.of_N (Ascii.N_of_ascii c)) <$> String.list_ascii_of_string s.

(** ** Descriptors

    A number above all that are in use. *)
Definition above (s : gset Z) : Z := foldr (fun fd m => Z.max (fd + 1) m) 0 (elements s).

Lemma above_fresh s : 0 <= above s /\ (above s ∉ s).
Proof.
  unfold above. assert (0 <= foldr (fun fd m => Z.max (fd + 1) m) 0 (elements s) /\
    forall fd, fd ∈ elements s -> fd < foldr (fun fd m => Z.max (fd + 1) m) 0 (elements s)) as [H0 Hl].
  { induction (elements s) as [|fd l [IH0 IH]]; cbn; [split; [lia|set_solver]|].
    split; [lia|]. intros fd' [->|Hf]%elem_of_cons; [lia|]. specialize (IH _ Hf). lia. }
  split; [done|]. intros Hi. apply elem_of_elements, Hl in Hi. lia.
Qed.
