(* ===== verification/Heap.v ===== *)
(** * Heap: the C++ memory the byte storages live in

    Blocks of bytes obtained from [std::allocator], by block identifier.  A
    byte that was allocated and not yet written is [None] (an indeterminate
    value).  A pointer is a block with an offset, so a pointer kept across a
    reallocation is a pointer into a block that is no longer live, and a store
    or load through it is [UB UseAfterFree].  Identifiers are never reused. *)
From S2P Require Import Prelude.

Abbreviation cells := (list (option Z)).

Record heap := Heap { h_next : positive; h_blocks : gmap positive cells }.

Inductive ptr := null | Ptr (b : positive) (off : Z).
#[export] Instance ptr_eq_dec : EqDecision ptr.
Proof. solve_decision. Defined.

Definition empty_heap : heap := Heap 1%positive ∅.

Definition set_block (h : heap) (b : positive) (c : cells) : heap :=
  Heap (h_next h) (<[b := c]> (h_blocks h)).

(** [std::allocator<T>::allocate(n)] for a one-byte [T]. *)
Definition alloc (h : heap) (n : Z) : ptr * heap :=
  (Ptr (h_next h) 0,
   Heap (Pos.succ (h_next h)) (<[h_next h := replicate (Z.to_nat n) None]> (h_blocks h))).

(** [std::allocator<T>::deallocate(p, n)]: [p] is null, or what [allocate(n)]
    returned and not yet deallocated. *)
Definition free (h : heap) (p : ptr) (n : Z) : outcome heap :=
  match p with
  | null => Ok h
  | Ptr b off =>
      match h_blocks h !! b with
      | None => undefined UseAfterFree
      | Some c =>
          if bool_decide (off = 0 /\ Z.of_nat (length c) = n)
          then Ok (Heap (h_next h) (delete b (h_blocks h)))
          else undefined InvalidFree
      end
  end.

(** Pointer arithmetic ([std::advance], indexing). *)
Definition advance (p : ptr) (d : Z) : ptr :=
  match p with null => null | Ptr b off => Ptr b (off + d) end.

(** [n] bytes at [p], as they are (the source of a [memmove]). *)
Definition load_cells (h : heap) (p : ptr) (n : Z) : outcome cells :=
  if n <=? 0 then Ok [] else
  match p with
  | null => undefined NullDeref
  | Ptr b off =>
      match h_blocks h !! b with
      | None => undefined UseAfterFree
      | Some c =>
          if bool_decide (0 <= off /\ off + n <= Z.of_nat (length c))
          then Ok (take (Z.to_nat n) (drop (Z.to_nat off) c))
          else undefined OutOfBounds
      end
  end.

Definition determinate (c : cells) : outcome (list Z) :=
  match mapM id c with Some bs => Ok bs | None => undefined IndeterminateRead end.

(** [n] bytes at [p] used as values. *)
Definition load (h : heap) (p : ptr) (n : Z) : outcome (list Z) :=
  c ← load_cells h p n; determinate c.

Definition splice (c : cells) (off : nat) (new : cells) : cells :=
  take off c ++ new ++ drop (off + length new) c.

Definition store_cells (h : heap) (p : ptr) (new : cells) : outcome heap :=
  if bool_decide (new = []) then Ok h else
  match p with
  | null => undefined NullDeref
  | Ptr b off =>
      match h_blocks h !! b with
      | None => undefined UseAfterFree
      | Some c =>
          if bool_decide (0 <= off /\ off + Z.of_nat (length new) <= Z.of_nat (length c))
          then Ok (set_block h b (splice c (Z.to_nat off) new))
          else undefined OutOfBounds
      end
  end.

Definition store (h : heap) (p : ptr) (bs : list Z) : outcome heap :=
  store_cells h p (Some <$> bs).

(** Every block identifier in use is below the next one. *)
Definition heap_wf (h : heap) : Prop :=
  forall b, is_Some (h_blocks h !! b) -> (b < h_next h)%positive.

(** A block that was live once and is not any more. *)
Definition dead (h : heap) (b : positive) : Prop :=
  (b < h_next h)%positive /\ h_blocks h !! b = None.

(** ** Determinate bytes *)

Lemma determinate_some bs : determinate (Some <$> bs) = Ok bs.
Proof.
  unfold determinate. replace (mapM id (Some <$> bs)) with (Some bs); [done|].
  induction bs as [|x bs IH]; [done|]. cbn. by rewrite <- IH.
Qed.

Lemma determinate_inv c bs : determinate c = Ok bs -> c = Some <$> bs.
Proof.
  unfold determinate. destruct (mapM id c) as [l|] eqn:E; [|done].
  intros [= ->]. revert bs E. induction c as [|x c IH]; intros bs E.
  - by injection E as <-.
  - cbn in E. destruct x as [x|]; [|done]. cbn in E.
    destruct (mapM id c) as [l|] eqn:E'; [|done]. cbn in E.
    injection E as <-. cbn. f_equal. by apply IH.
Qed.

(** ** Blocks *)

Lemma set_block_lookup h b c : h_blocks (set_block h b c) !! b = Some c.
Proof. apply lookup_insert_eq. Qed.

Lemma set_block_lookup_ne h b b' c :
  b <> b' -> h_blocks (set_block h b c) !! b' = h_blocks h !! b'.
Proof. intros. by apply lookup_insert_ne. Qed.

Lemma set_block_set_block h b c c' :
  set_block (set_block h b c) b c' = set_block h b c'.
Proof. unfold set_block; simpl. by rewrite insert_insert_eq. Qed.

Lemma set_block_id h b c : h_blocks h !! b = Some c -> set_block h b c = h.
Proof. intros. destruct h. unfold set_block; simpl in *. by rewrite insert_id. Qed.

Lemma set_block_wf h b c :
  heap_wf h -> is_Some (h_blocks h !! b) -> heap_wf (set_block h b c).
Proof.
  intros Hwf Hb b' Hb'. simpl in *. apply Hwf.
  destruct (decide (b = b')) as [->|]; [done|]. by rewrite lookup_insert_ne in Hb'.
Qed.

Lemma set_block_dead h b c k : b <> k -> dead h k -> dead (set_block h b c) k.
Proof. intros Hne [Hlt Hn]. split; [done|]. simpl. by rewrite lookup_insert_ne. Qed.

Lemma alloc_wf h n : heap_wf h -> heap_wf (alloc h n).2.
Proof.
  intros Hwf b Hb. simpl in *.
  destruct (decide (h_next h = b)) as [<-|]; [lia|].
  rewrite lookup_insert_ne in Hb by done. specialize (Hwf b Hb). lia.
Qed.

Lemma heap_wf_next h : heap_wf h -> h_blocks h !! h_next h = None.
Proof.
  intros Hwf. apply eq_None_not_Some. intros Hs. specialize (Hwf _ Hs). lia.
Qed.

(** ** Loads and stores in a live block *)

Lemma load_cells_block h b c off n :
  h_blocks h !! b = Some c -> 0 <= off -> off + n <= Z.of_nat (length c) ->
  load_cells h (Ptr b off) n = Ok (take (Z.to_nat n) (drop (Z.to_nat off) c)).
Proof.
  intros Hb Hoff Hn. unfold load_cells. destruct (Z.leb_spec n 0).
  - by replace (Z.to_nat n) with 0%nat by lia.
  - rewrite Hb. by rewrite bool_decide_eq_true_2.
Qed.

Lemma load_some h b c off n bs :
  h_blocks h !! b = Some c -> 0 <= off -> off + n <= Z.of_nat (length c) ->
  take (Z.to_nat n) (drop (Z.to_nat off) c) = Some <$> bs ->
  load h (Ptr b off) n = Ok bs.
Proof.
  intros Hb Hoff Hn Ht. unfold load. rewrite (load_cells_block _ _ _ _ _ Hb) by done.
  cbn. rewrite Ht. apply determinate_some.
Qed.

(** Loading the middle of a block whose contents are known around it. *)
Lemma load_middle h b pre bs post off n :
  h_blocks h !! b = Some (pre ++ (Some <$> bs) ++ post) ->
  off = Z.of_nat (length pre) -> n = Z.of_nat (length bs) ->
  load h (Ptr b off) n = Ok bs.
Proof.
  intros Hb -> ->. eapply load_some; [done|lia| |].
  - rewrite !length_app, length_fmap. lia.
  - rewrite !Nat2Z.id, drop_app_length. apply take_app_len. by rewrite length_fmap.
Qed.

Lemma store_cells_block h b c off new :
  h_blocks h !! b = Some c -> 0 <= off ->
  off + Z.of_nat (length new) <= Z.of_nat (length c) ->
  store_cells h (Ptr b off) new = Ok (set_block h b (splice c (Z.to_nat off) new)).
Proof.
  intros Hb Hoff Hn. unfold store_cells. case_bool_decide as E.
  - subst new. unfold splice; simpl. rewrite Nat.add_0_r, take_drop. by rewrite set_block_id.
  - rewrite Hb. by rewrite bool_decide_eq_true_2.
Qed.

Lemma splice_app pre mid post new :
  length mid = length new ->
  splice (pre ++ mid ++ post) (length pre) new = pre ++ new ++ post.
Proof.
  intros Hl. unfold splice. rewrite take_app_length. do 2 f_equal.
  rewrite drop_app_add. apply drop_app_len. lia.
Qed.

Lemma length_splice c off new :
  (off + length new <= length c)%nat -> length (splice c off new) = length c.
Proof. intros. unfold splice. rewrite !length_app, length_take, length_drop. lia. Qed.

(** Storing over the middle of a block. *)
Lemma store_middle h b pre mid post bs off :
  h_blocks h !! b = Some (pre ++ mid ++ post) ->
  off = Z.of_nat (length pre) -> length mid = length bs ->
  store h (Ptr b off) bs = Ok (set_block h b (pre ++ (Some <$> bs) ++ post)).
Proof.
  intros Hb -> Hl. unfold store. erewrite store_cells_block; [|done|lia|].
  - rewrite Nat2Z.id, splice_app; [done|]. by rewrite length_fmap.
  - rewrite !length_app, length_fmap. lia.
Qed.

Lemma store_dead h b off bs :
  dead h b -> bs <> [] -> store h (Ptr b off) bs = undefined UseAfterFree.
Proof.
  intros [_ Hd] Hbs. unfold store, store_cells.
  rewrite bool_decide_eq_false_2; [by rewrite Hd|]. by destruct bs.
Qed.

Lemma free_block h b c n :
  h_blocks h !! b = Some c -> Z.of_nat (length c) = n ->
  free h (Ptr b 0) n = Ok (Heap (h_next h) (delete b (h_blocks h))).
Proof. intros Hb Hn. unfold free. rewrite Hb. by rewrite bool_decide_eq_true_2. Qed.

(** ** Frames: what happens in one block does not show in another *)

Lemma load_frame h h' b off n :
  h_blocks h' !! b = h_blocks h !! b -> load h' (Ptr b off) n = load h (Ptr b off) n.
Proof. intros Hb. unfold load, load_cells. by rewrite Hb. Qed.

Lemma advance_advance p d1 d2 : advance (advance p d1) d2 = advance p (d1 + d2).
Proof. destruct p; simpl; [done|]. f_equal. lia. Qed.

Lemma advance_0 p : advance p 0 = p.
Proof. destruct p; simpl; [done|]. f_equal. lia. Qed.

Arguments load : simpl never.
Arguments load_cells : simpl never.
