(* ===== verification/ByteStorage.v ===== *)
(** * ByteStorage: src/fastpath/ByteStorage.h and src/fastpath/MutableByteStorage.h

    A byte storage is a block of memory with a stored length, an ownership
    option word and two cursors ([m_read_ptr], [m_mark_ptr]).  Operations take
    and return the object and the heap. *)
From S2P Require Import Prelude Heap.

(** ** Scalars in memory (endianScalar) *)

(** The byte order of the platform: [true] where [__BIG_ENDIAN__] is defined. *)
Class Platform := big_endian : bool.

(** Object representation of an [n]-byte integer, and the value it has. *)
Definition obj_repr `{Platform} (n : nat) (v : Z) : list Z :=
  if big_endian then rev (le_bytes n v) else le_bytes n v.
Definition obj_value `{Platform} (bs : list Z) : Z :=
  if big_endian then le_val (rev bs) else le_val bs.

(** [__builtin_bswap16/32/64]. *)
Definition bswap (n : nat) (v : Z) : Z := le_val (rev (le_bytes n v)).

Definition endianScalar `{Platform} (n : nat) (t : Z) : Z :=
  if big_endian then (if (n =? 1)%nat then t else bswap n t) else t.

Section scalars.
Context `{Platform}.

Lemma length_obj_repr n v : length (obj_repr n v) = n.
Proof. unfold obj_repr. destruct big_endian; rewrite ?length_rev; apply length_le_bytes. Qed.

Lemma rev_le_bytes_1 v : rev (le_bytes 1 v) = le_bytes 1 v.
Proof. done. Qed.

(** What [writeScalar] and [appendScalar] put in memory is little-endian on
    every platform. *)
Lemma obj_repr_endianScalar n v : obj_repr n (endianScalar n v) = le_bytes n v.
Proof.
  unfold obj_repr, endianScalar. destruct big_endian; [|done].
  destruct (Nat.eqb_spec n 1) as [->|]; [done|].
  unfold bswap. rewrite <- (length_le_bytes n v) at 1.
  rewrite <- length_rev. rewrite le_bytes_le_val; [apply rev_involutive|].
  apply Forall_rev, le_bytes_is_byte.
Qed.

(** What [readScalar] returns is the little-endian value of the bytes. *)
Lemma endianScalar_obj_value bs :
  Forall is_byte bs -> endianScalar (length bs) (obj_value bs) = le_val bs.
Proof.
  intros Hb. unfold obj_value, endianScalar. destruct big_endian; [|done].
  destruct (Nat.eqb_spec (length bs) 1) as [E|].
  - destruct bs as [|b [|]]; done.
  - unfold bswap. rewrite <- length_rev, le_bytes_le_val by by apply Forall_rev.
    by rewrite rev_involutive.
Qed.
End scalars.

(** ** ByteStorage *)

Definition TRANSIENT : Z := Z.shiftl 1 0.
Definition COPY_ON_CONSTRUCT : Z := Z.shiftl 1 1.
Definition TAKE_OWNERSHIP : Z := Z.shiftl 1 2.

Record ByteStorage := mkByteStorage {
  m_first : ptr;           (* m_storage.first *)
  m_second : Z;            (* m_storage.second: the capacity *)
  m_storedLength : Z;
  m_options : Z;
  m_read_ptr : ptr;
  m_mark_ptr : ptr
}.

Definition set_storage (b : ByteStorage) (p : ptr) (cap : Z) : ByteStorage :=
  mkByteStorage p cap (m_storedLength b) (m_options b) (m_read_ptr b) (m_mark_ptr b).
Definition set_storedLength (b : ByteStorage) (n : Z) : ByteStorage :=
  mkByteStorage (m_first b) (m_second b) n (m_options b) (m_read_ptr b) (m_mark_ptr b).
Definition set_read_ptr (b : ByteStorage) (p : ptr) : ByteStorage :=
  mkByteStorage (m_first b) (m_second b) (m_storedLength b) (m_options b) p (m_mark_ptr b).
Definition set_mark_ptr (b : ByteStorage) (p : ptr) : ByteStorage :=
  mkByteStorage (m_first b) (m_second b) (m_storedLength b) (m_options b) (m_read_ptr b) p.
Definition set_options (b : ByteStorage) (o : Z) : ByteStorage :=
  mkByteStorage (m_first b) (m_second b) (m_storedLength b) o (m_read_ptr b) (m_mark_ptr b).

(** The capacity [allocateStorage] computes from the requested length. *)
Definition smear_step (k s : Z) : Z := Z.lor s (Z.shiftr s k).
Definition round_storage (length : Z) : Z :=
  let s := u64 (length - 1) in
  let s := smear_step 1 s in
  let s := smear_step 2 s in
  let s := smear_step 4 s in
  let s := smear_step 8 s in
  let s := smear_step 16 s in
  u64 (s + 1).

Definition allocateStorage (h : heap) (b : ByteStorage) (length : Z) : ByteStorage * heap :=
  let cap := round_storage length in
  let '(p, h) := alloc h cap in
  (set_storage b p cap, h).

(** [explicit ByteStorage(const size_t allocation, ...)]; the members the
    initialiser list leaves out are written before they are read. *)
Definition ByteStorage_new (h : heap) (allocation : Z) : ByteStorage * heap :=
  let b := mkByteStorage null 0 0 0 null null in
  let '(b, h) := allocateStorage h b allocation in
  let b := set_read_ptr b (m_first b) in
  (set_mark_ptr b (m_read_ptr b), h).

(** [std::copy(src, &src[n], dst)] for bytes. *)
Definition copy_bytes (h : heap) (src : ptr) (n : Z) (dst : ptr) : outcome heap :=
  c ← load_cells h src n; store_cells h dst c.

(** [explicit ByteStorage(const T *bytes, size_t length, int options, ...)] *)
Definition ByteStorage_bytes (h : heap) (bytes : ptr) (length options : Z)
    : outcome (ByteStorage * heap) :=
  let b := mkByteStorage null 0 0 options null null in
  '(b, h) ←
    (if Z.land options COPY_ON_CONSTRUCT =? COPY_ON_CONSTRUCT then
       let '(b, h) := allocateStorage h b length in
       h ← copy_bytes h bytes length (m_first b);
       Ok (set_storedLength b length, h)
     else
       Ok (set_storedLength (set_storage b bytes 0) length, h));
  let b := set_read_ptr b (m_first b) in
  Ok (set_mark_ptr b (m_read_ptr b), h).

(** Move constructor: the new object and what is left of [orig]. *)
Definition ByteStorage_move (orig : ByteStorage) : ByteStorage * ByteStorage :=
  let b := mkByteStorage (m_first orig) (m_second orig) (m_storedLength orig)
             (m_options orig) (m_first orig) (m_first orig) in
  (b, mkByteStorage null 0 0 0 null null).

(** Destructor. *)
Definition ByteStorage_destroy (h : heap) (b : ByteStorage) : outcome heap :=
  if Z.land (m_options b) TAKE_OWNERSHIP =? TAKE_OWNERSHIP
  then free h (m_first b) (m_second b)
  else Ok h.

Definition release_ownership (b : ByteStorage) : ByteStorage :=
  let b := set_options b (Z.land (m_options b) (Z.lnot TAKE_OWNERSHIP)) in
  set_storage b (m_first b) 0.

(** [bytes(&data)]: the data pointer (null when nothing is stored) and the length. *)
Definition bytes (b : ByteStorage) : ptr * Z :=
  (if 0 <? m_storedLength b then m_first b else null, m_storedLength b).
Definition length_ (b : ByteStorage) : Z := m_storedLength b.
Definition owns_copy (b : ByteStorage) : bool :=
  Z.land (m_options b) TAKE_OWNERSHIP =? TAKE_OWNERSHIP.
Definition index_ (h : heap) (b : ByteStorage) (i : Z) : outcome Z :=
  bs ← load h (advance (m_first b) i) 1;
  Ok (default 0 (head bs)).

Definition mark (b : ByteStorage) : ByteStorage := set_mark_ptr b (m_read_ptr b).
Definition resetRead (b : ByteStorage) : ByteStorage := set_read_ptr b (m_mark_ptr b).
Definition advanceRead (b : ByteStorage) (distance : Z) : ByteStorage :=
  set_read_ptr b (advance (m_read_ptr b) distance).

(** Difference of two pointers: defined for pointers into one block. *)
Definition ptr_diff (p q : ptr) : outcome Z :=
  match p, q with
  | null, null => Ok 0
  | Ptr b1 o1, Ptr b2 o2 =>
      if bool_decide (b1 = b2) then Ok (o1 - o2) else undefined UseAfterFree
  | _, _ => undefined NullDeref
  end.

Definition bytesRead (b : ByteStorage) : outcome Z :=
  d ← ptr_diff (m_read_ptr b) (m_first b); Ok (u64 d).
Definition remainingReadLength (b : ByteStorage) : outcome Z :=
  r ← bytesRead b; Ok (u64 (m_storedLength b - r)).
Definition readBytes (b : ByteStorage) : ptr := m_read_ptr b.

(** [readScalar<S>()] with [sizeof(S) = n]; the value is unsigned. *)
Definition readScalar `{Platform} (h : heap) (b : ByteStorage) (n : nat)
    : outcome (Z * ByteStorage) :=
  let p := m_read_ptr b in
  let b := set_read_ptr b (advance (m_read_ptr b) (Z.of_nat n)) in
  bs ← load h p (Z.of_nat n);
  Ok (endianScalar n (obj_value bs), b).

(** [segment(length)]: a transient storage over the next bytes (the third
    constructor argument [true] converts to the option word 1), and the
    storage with its read cursor advanced. *)
Definition segment (h : heap) (b : ByteStorage) (length : Z)
    : outcome (ByteStorage * ByteStorage * heap) :=
  rem ← remainingReadLength b;
  _ ← assert_ (length <=? rem);
  let p := m_read_ptr b in
  let b := advanceRead b length in
  '(s, h) ← ByteStorage_bytes h p length 1;
  Ok (s, b, h).

(** [operator==]: the byte loop, [n] bytes from index [i]. *)
Fixpoint equal_loop (h : heap) (a b : ByteStorage) (i : Z) (n : nat) : outcome bool :=
  match n with
  | O => Ok true
  | S n =>
      x ← index_ h a i;
      y ← index_ h b i;
      if x =? y then equal_loop h a b (i + 1) n else Ok false
  end.
Definition ByteStorage_eq (h : heap) (a b : ByteStorage) : outcome bool :=
  if m_storedLength a =? m_storedLength b
  then equal_loop h a b 0 (Z.to_nat (m_storedLength a))
  else Ok false.

(** ** MutableByteStorage *)

Definition setData (h : heap) (b : ByteStorage) (data : ptr) (length : Z)
    : outcome (ByteStorage * heap) :=
  '(b, h) ←
    (if m_second b <? length then
       h ← free h (m_first b) (m_second b);
       Ok (allocateStorage h b (Z.max length (u64 (m_second b * 2))))
     else Ok (b, h));
  h ← copy_bytes h data length (m_first b);
  Ok (set_storedLength b length, h).

(** [allocate(length)]: the pointer to the new bytes, the object, the heap. *)
Definition allocate (h : heap) (b : ByteStorage) (length : Z)
    : outcome (ptr * ByteStorage * heap) :=
  '(b, h) ←
    (if m_second b <? u64 (m_storedLength b + length) then
       let old_data := m_first b in
       let old_length := m_second b in
       let '(b, h) := allocateStorage h b (u64 (m_second b + length)) in
       d ← ptr_diff (m_read_ptr b) old_data;
       let b := set_read_ptr b (advance (m_first b) d) in
       d ← ptr_diff (m_mark_ptr b) old_data;
       let b := set_mark_ptr b (advance (m_first b) d) in
       c ← load_cells h old_data old_length;
       h ← store_cells h (m_first b) c;
       h ← free h old_data old_length;
       Ok (b, h)
     else Ok (b, h));
  let pref_length := m_storedLength b in
  let b := set_storedLength b (u64 (m_storedLength b + length)) in
  Ok (advance (m_first b) pref_length, b, h).

Definition capacity (b : ByteStorage) : Z := m_second b.
Definition truncate (b : ByteStorage) (length : Z) : ByteStorage := set_storedLength b length.
Definition mutableBytes (b : ByteStorage) : ptr := m_first b.

(** [append(const T *buffer, length)] where the buffer is an object outside the
    heap (a member array, a string) that holds the bytes [bs]. *)
Definition append (h : heap) (b : ByteStorage) (bs : list Z) : outcome (ByteStorage * heap) :=
  '(s, b, h) ← allocate h b (Z.of_nat (length bs));
  h ← store h s bs;
  Ok (b, h).

(** The same call where the buffer is itself in the heap: it is read after
    [allocate] has run. *)
Definition append_ptr (h : heap) (b : ByteStorage) (buffer : ptr) (length : Z)
    : outcome (ByteStorage * heap) :=
  '(s, b, h) ← allocate h b length;
  h ← copy_bytes h buffer length s;
  Ok (b, h).

(** [append(const ByteStorage &src, length)]. *)
Definition append_storage (h : heap) (b src : ByteStorage) (length : Z)
    : outcome (ByteStorage * heap) :=
  let '(data, len) := bytes src in
  append_ptr h b data (Z.min len length).

(** [appendScalar<S>(s)] with [sizeof(S) = n]. *)
Definition appendScalar `{Platform} (h : heap) (b : ByteStorage) (n : nat) (s : Z)
    : outcome (ByteStorage * heap) :=
  '(t, b, h) ← allocate h b (Z.of_nat n);
  h ← store h t (obj_repr n (endianScalar n s));
  Ok (b, h).

Definition clear (b : ByteStorage) : ByteStorage :=
  let b := set_storedLength b 0 in
  set_read_ptr (set_mark_ptr b (m_first b)) (m_first b).

Lemma bytes_nonempty b : 0 < m_storedLength b -> bytes b = (m_first b, m_storedLength b).
Proof. intros Hl. unfold bytes. by rewrite (proj2 (Z.ltb_lt _ _) Hl). Qed.

(** ** The capacity computation *)

Lemma testbit_smear_step k s i :
  0 <= k -> 0 <= i -> Z.testbit (smear_step k s) i = Z.testbit s i || Z.testbit s (i + k).
Proof. intros. unfold smear_step. by rewrite Z.lor_spec, Z.shiftr_spec. Qed.

(** [s] has no bit above [m] and every bit in the top [n] places up to [m]. *)
Definition smeared (m n s : Z) : Prop :=
  (forall i, m < i -> Z.testbit s i = false) /\
  (forall i, 0 <= i <= m -> m - i < n -> Z.testbit s i = true).

Lemma smear_step_smeared m n s :
  0 < n -> smeared m n s -> smeared m (2 * n) (smear_step n s).
Proof.
  intros Hn [Hhi Hlo]. split; intros i Hi.
  - destruct (Z_lt_dec i 0); [by apply Z.testbit_neg_r|].
    rewrite testbit_smear_step, !Hhi by lia. done.
  - intros Hd. rewrite testbit_smear_step by lia.
    destruct (Z_lt_dec (m - i) n); [by rewrite Hlo by lia|].
    rewrite (Hlo (i + n)) by lia. apply orb_true_r.
Qed.

Lemma smeared_log2 s : 0 < s -> smeared (Z.log2 s) 1 s.
Proof.
  intros Hs. split; intros i Hi.
  - by apply Z.bits_above_log2; lia.
  - intros. replace i with (Z.log2 s) by lia. by apply Z.bit_log2.
Qed.

Lemma smeared_ones m n s : -1 <= m -> m < n -> smeared m n s -> s = Z.ones (m + 1).
Proof.
  intros Hm Hn [Hhi Hlo]. apply Z.bits_inj'. intros i Hi.
  rewrite Z.testbit_ones_nonneg by lia.
  destruct (Z.ltb_spec i (m + 1)); [apply Hlo|apply Hhi]; lia.
Qed.

Definition smear (s : Z) : Z :=
  smear_step 16 (smear_step 8 (smear_step 4 (smear_step 2 (smear_step 1 s)))).

Lemma smear_smeared s : 0 < s -> smeared (Z.log2 s) 32 (smear s).
Proof.
  intros Hs. unfold smear.
  apply (smear_step_smeared _ 16), (smear_step_smeared _ 8), (smear_step_smeared _ 4),
    (smear_step_smeared _ 2), (smear_step_smeared _ 1), smeared_log2; lia.
Qed.

Lemma smear_step_ge k s : 0 <= s -> 0 <= k -> s <= smear_step k s.
Proof.
  intros Hs Hk. unfold smear_step.
  assert (0 <= Z.shiftr s k) by by apply Z.shiftr_nonneg.
  replace (Z.lor s (Z.shiftr s k)) with (s + Z.ldiff (Z.shiftr s k) s).
  - assert (0 <= Z.ldiff (Z.shiftr s k) s) by (apply Z.ldiff_nonneg; lia). lia.
  - rewrite Z.add_nocarry_lxor.
    + apply Z.bits_inj'. intros i Hi. rewrite Z.lxor_spec, Z.ldiff_spec, Z.lor_spec.
      destruct (Z.testbit s i), (Z.testbit (Z.shiftr s k) i); done.
    + apply Z.bits_inj'. intros i Hi. rewrite Z.land_spec, Z.ldiff_spec, Z.bits_0.
      destruct (Z.testbit s i), (Z.testbit (Z.shiftr s k) i); done.
Qed.

Lemma smear_ge s : 0 <= s -> s <= smear s.
Proof.
  intros Hs. unfold smear.
  assert (forall k t, 0 <= k -> s <= t -> s <= smear_step k t) as Hstep.
  { intros k t Hk Ht. pose proof (smear_step_ge k t). lia. }
  repeat (apply Hstep; [lia|]). lia.
Qed.

Lemma smear_0 : smear 0 = 0.
Proof. done. Qed.

(** The smeared word stays below the next power of two. *)
Lemma smear_upper s : 0 < s -> smear s < 2 ^ (Z.log2 s + 1).
Proof.
  intros Hs. destruct (smear_smeared s Hs) as [Hhi _].
  pose proof (Z.log2_nonneg s).
  pose proof (smear_ge s ltac:(lia)) as Hge.
  destruct (Z_lt_dec (smear s) (2 ^ (Z.log2 s + 1))); [done|]. exfalso.
  assert (Z.log2 s < Z.log2 (smear s)) as Hlog.
  { apply Z.lt_le_trans with (Z.log2 (2 ^ (Z.log2 s + 1))).
    - rewrite Z.log2_pow2; lia.
    - apply Z.log2_le_mono. lia. }
  specialize (Hhi _ Hlog). rewrite Z.bit_log2 in Hhi by lia. done.
Qed.

Lemma round_storage_eq n : round_storage n = u64 (smear (u64 (n - 1)) + 1).
Proof. done. Qed.

(** The capacity is never below the request, and at most twice the request. *)
Lemma round_storage_bounds n :
  1 <= n <= 2 ^ 62 -> n <= round_storage n <= 2 * n.
Proof.
  intros Hn. rewrite round_storage_eq.
  rewrite (wrap_small 64 (n - 1)) by lia.
  destruct (Z.eq_dec n 1) as [->|]; [by vm_compute|].
  pose proof (smear_ge (n - 1) ltac:(lia)) as Hge.
  pose proof (smear_upper (n - 1) ltac:(lia)) as Hup.
  rewrite Z.pow_add_r in Hup by (try apply Z.log2_nonneg; lia).
  pose proof (Z.log2_spec (n - 1) ltac:(lia)) as [Hlog _].
  rewrite wrap_small by lia. lia.
Qed.

Lemma round_storage_0 : round_storage 0 = 0.
Proof. done. Qed.

(** Up to 2^32 bytes it is exactly the least power of two that is enough. *)
Lemma round_storage_pow2 n :
  1 <= n <= 2 ^ 32 -> round_storage n = 2 ^ Z.log2_up n.
Proof.
  intros Hn. rewrite round_storage_eq.
  rewrite (wrap_small 64 (n - 1)) by lia.
  destruct (Z.eq_dec n 1) as [->|]; [done|].
  rewrite Z.log2_up_eqn by lia. rewrite <- Z.sub_1_r.
  set (m := Z.log2 (n - 1)).
  assert (0 <= m < 32) as Hm.
  { split; [apply Z.log2_nonneg|]. apply Z.log2_lt_pow2; lia. }
  rewrite (smeared_ones m 32 (smear (n - 1))) by (try apply smear_smeared; lia).
  rewrite Z.ones_equiv, <- Z.sub_1_r, Z.sub_add.
  rewrite <- Z.add_1_r. apply wrap_small. split; [lia|].
  apply Z.pow_lt_mono_r; lia.
Qed.

(** C31: the shifts and ors of [allocateStorage] compute what its comment asks for:
    the block it takes has the least power of two of bytes that holds the
    request, for every request up to 2^32 bytes. *)
Theorem allocateStorage_pow2 h b n :
  1 <= n <= 2 ^ 32 ->
  exists k, 0 <= k /\ n <= 2 ^ k /\ (forall j, 0 <= j -> n <= 2 ^ j -> k <= j) /\
    allocateStorage h b n = (set_storage b (alloc h (2 ^ k)).1 (2 ^ k), (alloc h (2 ^ k)).2).
Proof.
  intros Hn. exists (Z.log2_up n). split; [apply Z.log2_up_nonneg|].
  split; [|split].
  - destruct (Z.eq_dec n 1) as [->|]; [done|]. apply Z.log2_up_spec. lia.
  - intros j Hj H2. apply Z.log2_up_le_pow2; lia.
  - unfold allocateStorage. by rewrite (round_storage_pow2 n Hn).
Qed.

Lemma allocateStorage_pow2_witness :
  exists k, 1500 <= 2 ^ k /\ (forall j, 0 <= j -> 1500 <= 2 ^ j -> k <= j) /\
    m_second (allocateStorage empty_heap (mkByteStorage null 0 0 0 null null) 1500).1 = 2 ^ k.
Proof.
  destruct (allocateStorage_pow2 empty_heap (mkByteStorage null 0 0 0 null null) 1500) as (k & _ & H1 & H2 & E); [lia|].
  exists k. split; [exact H1|]. split; [exact H2|]. rewrite E. reflexivity.
Defined.

(** A storage of a given size is created without [TAKE_OWNERSHIP], so its
    destructor leaves the block allocated. *)
Theorem ByteStorage_new_leaks h n b h' :
  ByteStorage_new h n = (b, h') -> ByteStorage_destroy h' b = Ok h' /\ is_Some (h_blocks h' !! h_next h).
Proof.
  unfold ByteStorage_new, allocateStorage, alloc. intros [= <- <-]. split; [done|]. cbn. rewrite lookup_insert_eq. eauto.
Qed.

(** ** The representation invariant of a mutable storage

    [mut_rep h b blk pre spare]: the storage owns the whole block [blk], whose
    first [m_storedLength] cells are [pre] and the rest [spare]; the cursors
    point into the same block. *)
Record mut_rep (h : heap) (b : ByteStorage) (blk : positive) (pre spare : cells) : Prop := {
  mr_first : m_first b = Ptr blk 0;
  mr_block : h_blocks h !! blk = Some (pre ++ spare);
  mr_second : m_second b = Z.of_nat (length (pre ++ spare));
  mr_stored : m_storedLength b = Z.of_nat (length pre);
  mr_cap : Z.of_nat (length (pre ++ spare)) <= 2 ^ 61;
  mr_read : exists r, m_read_ptr b = Ptr blk r;
  mr_mark : exists r, m_mark_ptr b = Ptr blk r;
  mr_wf : heap_wf h
}.

(** The limit on stored lengths under which the size computations do not wrap. *)
Definition max_stored : Z := 2 ^ 58.

Lemma mut_rep_wf h b blk pre spare :
  mut_rep h b blk pre spare -> (blk < h_next h)%positive.
Proof. intros R. apply (mr_wf _ _ _ _ _ R). rewrite (mr_block _ _ _ _ _ R). eauto. Qed.

(** A new storage is empty and represents its block. *)
Lemma ByteStorage_new_rep h n b h' :
  heap_wf h -> 0 <= n <= 2 ^ 60 -> ByteStorage_new h n = (b, h') ->
  mut_rep h' b (h_next h) [] (replicate (Z.to_nat (round_storage n)) None).
Proof.
  intros Hwf Hn. unfold ByteStorage_new, allocateStorage. simpl. intros [= <- <-].
  assert (0 <= round_storage n <= 2 ^ 61) as Hr.
  { destruct (Z.eq_dec n 0) as [->|]; [by vm_compute|].
    pose proof (round_storage_bounds n). lia. }
  split; simpl; try done; try (rewrite ?length_replicate; lia); eauto.
  - by rewrite lookup_insert_eq.
  - by apply (alloc_wf h).
Qed.

(** [allocate] within the capacity: nothing moves. *)
Lemma allocate_fits h b blk pre spare n :
  mut_rep h b blk pre spare -> 0 <= n <= Z.of_nat (length spare) ->
  allocate h b n =
    Ok (Ptr blk (m_storedLength b), set_storedLength b (m_storedLength b + n), h).
Proof.
  intros R Hn. pose proof (mr_cap _ _ _ _ _ R) as Hcap. rewrite length_app in Hcap.
  unfold allocate. rewrite (mr_second _ _ _ _ _ R), (mr_stored _ _ _ _ _ R).
  rewrite wrap_small by lia.
  destruct (Z.ltb_spec (Z.of_nat (length (pre ++ spare))) (Z.of_nat (length pre) + n)).
  { rewrite length_app in *. lia. }
  simpl. rewrite (mr_stored _ _ _ _ _ R), (mr_first _ _ _ _ _ R). simpl.
  rewrite wrap_small by lia. done.
Qed.

(** [allocate] beyond the capacity: the block is copied into a larger fresh
    one and the old block is freed; the cursors keep their offsets. *)
Definition grown_cells (c : cells) (cap : Z) : cells :=
  c ++ replicate (Z.to_nat cap - length c) None.

(** The reallocating branch of [allocate], as one heap transformation. *)
Definition grown_heap (h : heap) (blk : positive) (c : cells) (cap : Z) : heap :=
  Heap (Pos.succ (h_next h)) (delete blk (<[h_next h := grown_cells c cap]> (h_blocks h))).

Lemma ptr_diff_same blk x y : ptr_diff (Ptr blk x) (Ptr blk y) = Ok (x - y).
Proof. simpl. by rewrite bool_decide_eq_true_2. Qed.

Lemma realloc_copy h blk c cap :
  heap_wf h -> h_blocks h !! blk = Some c -> Z.of_nat (length c) <= cap ->
  (c' ← load_cells (alloc h cap).2 (Ptr blk 0) (Z.of_nat (length c));
   h' ← store_cells (alloc h cap).2 (Ptr (h_next h) 0) c';
   free h' (Ptr blk 0) (Z.of_nat (length c))) = Ok (grown_heap h blk c cap).
Proof.
  intros Hwf Hblk Hcap.
  assert (blk < h_next h)%positive as Hlt by (apply Hwf; eauto).
  assert (h_blocks (alloc h cap).2 !! blk = Some c) as Hblk2.
  { simpl. by rewrite lookup_insert_ne by lia. }
  rewrite (load_cells_block _ _ _ _ _ Hblk2) by lia. cbn -[store_cells free].
  rewrite Nat2Z.id, drop_0, firstn_all.
  erewrite store_cells_block; [|simpl; apply lookup_insert_eq|lia|
    rewrite length_replicate; lia].
  cbn -[free]. erewrite free_block; [|simpl; rewrite !lookup_insert_ne by lia; done|done].
  unfold grown_heap, grown_cells, splice. simpl.
  by rewrite insert_insert_eq, drop_replicate.
Qed.

Lemma allocate_grows h b blk pre spare n :
  mut_rep h b blk pre spare -> Z.of_nat (length spare) < n ->
  Z.of_nat (length pre) + n <= max_stored ->
  exists b',
    allocate h b n = Ok (Ptr (h_next h) (m_storedLength b), b',
      grown_heap h blk (pre ++ spare) (round_storage (m_second b + n))) /\
    m_storedLength b' = m_storedLength b + n /\
    m_first b' = Ptr (h_next h) 0 /\
    m_second b' = round_storage (m_second b + n) /\
    bytesRead b' = bytesRead b /\
    (exists r, m_read_ptr b' = Ptr (h_next h) r) /\
    (exists r, m_mark_ptr b' = Ptr (h_next h) r).
Proof.
  intros R Hn Hmax. destruct R as [Hf Hb Hsec Hst Hcap [r Hr] [m Hm] Hwf].
  unfold max_stored in Hmax. rewrite length_app in Hcap.
  pose proof Hsec as Hsec'. rewrite length_app in Hsec'.
  pose proof (round_storage_bounds (m_second b + n) ltac:(lia)) as Hrnd.
  unfold allocate. rewrite (wrap_small 64 (m_storedLength b + n)) by lia.
  rewrite (wrap_small 64 (m_second b + n)) by lia.
  destruct (Z.ltb_spec (m_second b) (m_storedLength b + n)); [|lia].
  pose proof (realloc_copy h blk (pre ++ spare) (round_storage (m_second b + n)) Hwf Hb
    ltac:(lia)) as Hcopy. rewrite <- Hsec in Hcopy.
  unfold allocateStorage. cbn -[round_storage store_cells load_cells free ptr_diff] in *.
  rewrite Hf, Hr, ptr_diff_same. cbn -[round_storage store_cells load_cells free ptr_diff].
  rewrite Hm, ptr_diff_same. cbn -[round_storage store_cells load_cells free ptr_diff].
  inv_bind. rewrite H0. cbn -[round_storage store_cells free].
  rewrite H1. cbn -[round_storage free]. rewrite Hcopy. cbn -[round_storage].
  rewrite wrap_small by lia. eexists. split; [done|].
  repeat split; simpl; eauto.
  unfold bytesRead. cbn -[ptr_diff]. rewrite Hr, Hf, !ptr_diff_same. simpl.
  do 2 f_equal. lia.
Qed.

(** ** Appending *)

Section append.
Context `{Platform}.

Lemma set_stored_rep h b blk pre new spare :
  mut_rep h b blk pre (new ++ spare) ->
  mut_rep h (set_storedLength b (m_storedLength b + Z.of_nat (length new))) blk
    (pre ++ new) spare.
Proof.
  intros [Hf Hb Hsec Hst Hcap Hr Hm Hwf].
  split; simpl; rewrite <- ?app_assoc; try done.
  rewrite Hst, length_app. lia.
Qed.

(** Overwriting cells of the block keeps the representation. *)
Lemma overwrite_rep h b blk pre spare c :
  mut_rep h b blk pre spare -> length c = length pre ->
  mut_rep (set_block h blk (c ++ spare)) b blk c spare.
Proof.
  intros [Hf Hb Hsec Hst Hcap Hr Hm Hwf] Hl.
  assert (length (c ++ spare) = length (pre ++ spare)) as E by (rewrite !length_app; lia).
  split; simpl; try done; try (rewrite E; done); [|by rewrite Hl|].
  - by rewrite lookup_insert_eq.
  - apply set_block_wf; eauto.
Qed.

(** The state after [bs] has been appended in place. *)
Definition appended_heap (h : heap) (blk : positive) (pre : cells) (bs : list Z)
    (spare : cells) : heap :=
  set_block h blk (pre ++ (Some <$> bs) ++ drop (length bs) spare).
Definition appended (b : ByteStorage) (bs : list Z) : ByteStorage :=
  set_storedLength b (m_storedLength b + Z.of_nat (length bs)).

Lemma append_fits h b blk pre spare bs :
  mut_rep h b blk pre spare -> (length bs <= length spare)%nat ->
  append h b bs = Ok (appended b bs, appended_heap h blk pre bs spare) /\
  mut_rep (appended_heap h blk pre bs spare) (appended b bs) blk
    (pre ++ (Some <$> bs)) (drop (length bs) spare).
Proof.
  intros R Hl. rewrite <- (take_drop (length bs) spare) in R.
  assert (length (take (length bs) spare) = length bs) as Ht by (rewrite length_take; lia).
  unfold append. erewrite allocate_fits; [|done|rewrite take_drop; lia].
  cbn -[store]. erewrite store_middle; [|apply R|by apply R|lia]. split; [done|].
  pose proof (set_stored_rep _ _ _ _ _ _ R) as R2. rewrite Ht in R2.
  apply (overwrite_rep _ _ _ _ _ (pre ++ (Some <$> bs))) in R2.
  - unfold appended_heap. by rewrite app_assoc.
  - by rewrite !length_app, length_fmap, Ht.
Qed.

Lemma appendScalar_append h b n v :
  appendScalar h b n v = append h b (le_bytes n v).
Proof.
  unfold appendScalar, append. by rewrite length_le_bytes, obj_repr_endianScalar.
Qed.

(** After a reallocation the storage represents the grown block. *)
Lemma grown_rep h b blk pre spare n b' :
  mut_rep h b blk pre spare -> Z.of_nat (length spare) < n ->
  Z.of_nat (length pre) + n <= max_stored ->
  m_storedLength b' = m_storedLength b + n ->
  m_first b' = Ptr (h_next h) 0 ->
  m_second b' = round_storage (m_second b + n) ->
  (exists r, m_read_ptr b' = Ptr (h_next h) r) ->
  (exists r, m_mark_ptr b' = Ptr (h_next h) r) ->
  exists new spare', length new = Z.to_nat n /\
    mut_rep (grown_heap h blk (pre ++ spare) (round_storage (m_second b + n))) b'
      (h_next h) (pre ++ new) spare'.
Proof.
  intros [Hf Hb Hsec Hst Hcap Hr Hm Hwf] Hn Hmax Hst' Hf' Hsec' Hr' Hm'.
  unfold max_stored in Hmax. set (cap := round_storage (m_second b + n)) in *.
  rewrite length_app in Hcap, Hsec.
  pose proof (round_storage_bounds (m_second b + n) ltac:(lia)) as Hrnd. fold cap in Hrnd.
  set (rest := spare ++ replicate (Z.to_nat cap - length (pre ++ spare)) None).
  assert (grown_cells (pre ++ spare) cap = (pre ++ take (Z.to_nat n) rest) ++ drop (Z.to_nat n) rest)
    as E. { rewrite <- !app_assoc, take_drop. unfold grown_cells, rest. by rewrite app_assoc. }
  assert (length rest = Z.to_nat cap - length pre)%nat as Hrest.
  { unfold rest. rewrite !length_app, length_replicate. lia. }
  assert (length (grown_cells (pre ++ spare) cap) = Z.to_nat cap) as Hgl.
  { unfold grown_cells. rewrite !length_app, length_replicate. lia. }
  assert (blk < h_next h)%positive as Hlt by (apply Hwf; eauto).
  exists (take (Z.to_nat n) rest), (drop (Z.to_nat n) rest).
  split; [rewrite length_take; lia|].
  split; try done; rewrite <- ?E, ?Hgl; simpl; try lia.
  - rewrite lookup_delete_ne, lookup_insert_eq by lia. done.
  - rewrite Hst', Hst, length_app, length_take. lia.
  - intros k [c Hk]. simpl in *. destruct (decide (blk = k)) as [->|]; [lia|].
    rewrite lookup_delete_ne in Hk by done.
    destruct (decide (h_next h = k)) as [->|]; [lia|].
    rewrite lookup_insert_ne in Hk by done. pose proof (Hwf k ltac:(eauto)). lia.
Qed.

Lemma grown_heap_dead h blk c cap :
  heap_wf h -> is_Some (h_blocks h !! blk) -> dead (grown_heap h blk c cap) blk.
Proof.
  intros Hwf Hs. specialize (Hwf blk Hs). split; simpl; [lia|]. apply lookup_delete_eq.
Qed.

Lemma grown_heap_keeps_dead h blk c cap k :
  dead h k -> dead (grown_heap h blk c cap) k.
Proof.
  intros [Hlt Hn]. split; simpl; [lia|].
  destruct (decide (blk = k)) as [->|]; [apply lookup_delete_eq|].
  rewrite lookup_delete_ne, lookup_insert_ne by (done || lia). done.
Qed.

(** [append] when the block has to move. *)
Lemma append_grows h b blk pre spare bs :
  mut_rep h b blk pre spare -> (length spare < length bs)%nat ->
  Z.of_nat (length pre + length bs) <= max_stored ->
  exists b' h' spare',
    append h b bs = Ok (b', h') /\
    mut_rep h' b' (h_next h) (pre ++ (Some <$> bs)) spare' /\
    dead h' blk /\ (forall k, dead h k -> dead h' k) /\
    bytesRead b' = bytesRead b.
Proof.
  intros R Hl Hmax.
  destruct (allocate_grows _ _ _ _ _ (Z.of_nat (length bs)) R ltac:(lia) ltac:(lia))
    as (b' & Ha & Hst & Hf & Hsec & Hbr & Hr & Hm).
  destruct (grown_rep _ _ _ _ _ (Z.of_nat (length bs)) b' R ltac:(lia) ltac:(lia) Hst Hf Hsec Hr Hm)
    as (new & spare' & Hnew & R'). rewrite Nat2Z.id in Hnew.
  unfold append. rewrite Ha. cbn -[store grown_heap].
  erewrite store_middle; [|rewrite app_assoc; apply R'|apply R|done].
  do 3 eexists. split; [done|]. split; [|split; [|split]].
  - rewrite app_assoc. apply (overwrite_rep _ _ _ _ _ _ R'). by rewrite !length_app, length_fmap, Hnew.
  - apply set_block_dead; [|apply grown_heap_dead; [apply R|rewrite (mr_block _ _ _ _ _ R); eauto]].
    pose proof (mut_rep_wf _ _ _ _ _ R). lia.
  - intros k Hk. apply set_block_dead; [destruct Hk; lia|]. by apply grown_heap_keeps_dead.
  - done.
Qed.
End append.

(** ** Extension of a storage: both branches of [allocate] in one statement *)

(** The storage has been extended by the cells [new]: in place when they fit
    in the spare capacity, in a fresh block (the old one freed) when not. *)
Record extends (h : heap) (blk : positive) (pre spare new : cells)
    (b' : ByteStorage) (h' : heap) (blk' : positive) (spare' : cells) : Prop := {
  ex_rep : mut_rep h' b' blk' (pre ++ new) spare';
  ex_dead : forall k, dead h k -> dead h' k;
  ex_fits : (length new <= length spare)%nat ->
    blk' = blk /\ (length spare' + length new = length spare)%nat;
  ex_moves : (length spare < length new)%nat -> dead h' blk
}.

Lemma dead_live h b blk pre spare k : mut_rep h b blk pre spare -> dead h k -> k <> blk.
Proof. intros R [_ Hd] ->. by rewrite (mr_block _ _ _ _ _ R) in Hd. Qed.

Lemma append_extends h b blk pre spare bs :
  mut_rep h b blk pre spare -> Z.of_nat (length pre + length bs) <= max_stored ->
  exists b' h' blk' spare', append h b bs = Ok (b', h') /\
    extends h blk pre spare (Some <$> bs) b' h' blk' spare'.
Proof.
  intros R Hmax. destruct (decide (length bs <= length spare)%nat) as [Hfit|Hfit].
  - destruct (append_fits _ _ _ _ _ _ R Hfit) as [-> R']. do 4 eexists. split; [done|].
    split; [exact R'| |rewrite length_fmap, length_drop; split; [done|lia]|
      rewrite length_fmap; lia].
    intros k Hk. apply set_block_dead; [|done]. intros E.
    by apply (dead_live _ _ _ _ _ _ R Hk).
  - destruct (append_grows _ _ _ _ _ bs R ltac:(lia) ltac:(lia))
      as (b' & h' & sp & -> & R' & Hd & Hk & _).
    do 4 eexists. split; [done|]. split; [exact R'|done|rewrite length_fmap; lia|done].
Qed.

Lemma allocate_extends h b blk pre spare n :
  mut_rep h b blk pre spare -> 0 <= n -> Z.of_nat (length pre) + n <= max_stored ->
  exists b' h' blk' new spare', length new = Z.to_nat n /\
    allocate h b n = Ok (Ptr blk' (Z.of_nat (length pre)), b', h') /\
    extends h blk pre spare new b' h' blk' spare'.
Proof.
  intros R Hn Hmax. destruct (decide (n <= Z.of_nat (length spare))) as [Hfit|Hfit].
  - rewrite (allocate_fits _ _ _ _ _ n R) by lia. rewrite (mr_stored _ _ _ _ _ R).
    assert (length (take (Z.to_nat n) spare) = Z.to_nat n) as Hl by (rewrite length_take; lia).
    exists (set_storedLength b (m_storedLength b + n)), h, blk,
      (take (Z.to_nat n) spare), (drop (Z.to_nat n) spare).
    split; [done|]. split; [by rewrite (mr_stored _ _ _ _ _ R)|].
    split; [|done|rewrite Hl, length_drop; split; [done|lia]|rewrite Hl; lia].
    replace n with (Z.of_nat (length (take (Z.to_nat n) spare))) at 1 by lia.
    apply set_stored_rep. by rewrite take_drop.
  - destruct (allocate_grows _ _ _ _ _ n R ltac:(lia) Hmax)
      as (b' & -> & Hst & Hf & Hsec & _ & Hr & Hm).
    destruct (grown_rep _ _ _ _ _ n b' R ltac:(lia) Hmax Hst Hf Hsec Hr Hm)
      as (new & spare' & Hnew & R').
    do 5 eexists. split; [exact Hnew|]. split; [by rewrite (mr_stored _ _ _ _ _ R)|].
    split; [exact R'|intros k; apply grown_heap_keeps_dead|rewrite Hnew; lia|].
    intros _. apply grown_heap_dead; [apply R|]. rewrite (mr_block _ _ _ _ _ R). eauto.
Qed.

Lemma extends_trans h blk pre spare new1 new2 b1 h1 blk1 spare1 b2 h2 blk2 spare2 :
  extends h blk pre spare new1 b1 h1 blk1 spare1 ->
  extends h1 blk1 (pre ++ new1) spare1 new2 b2 h2 blk2 spare2 ->
  extends h blk pre spare (new1 ++ new2) b2 h2 blk2 spare2.
Proof.
  intros [R1 Hk1 Hf1 Hm1] [R2 Hk2 Hf2 Hm2]. rewrite <- app_assoc in R2.
  split; [done|auto| |]; rewrite length_app; intros Hl.
  - destruct (Hf1 ltac:(lia)) as [-> ?]. destruct (Hf2 ltac:(lia)) as [-> ?]. split; [done|lia].
  - destruct (decide (length new1 <= length spare)%nat) as [Hle|Hgt].
    + destruct (Hf1 Hle) as [-> ?]. apply Hm2. lia.
    + apply Hk2, Hm1. lia.
Qed.

(** ** Reading

    [rview h b blk base data r]: a storage over [data], which lies at offset
    [base] of the live block [blk]; [r] bytes of it have been read. *)
Record rview (h : heap) (b : ByteStorage) (blk : positive) (base : nat)
    (data : list Z) (r : nat) : Prop := {
  rv_first : m_first b = Ptr blk (Z.of_nat base);
  rv_block : exists pre post, length pre = base /\
               h_blocks h !! blk = Some (pre ++ (Some <$> data) ++ post);
  rv_stored : m_storedLength b = Z.of_nat (length data);
  rv_read : m_read_ptr b = Ptr blk (Z.of_nat (base + r));
  rv_bytes : Forall is_byte data;
  rv_small : Z.of_nat (length data) <= max_stored
}.

Section reading.
Context `{Platform}.

Lemma rview_bytesRead h b blk base data r :
  rview h b blk base data r -> (r <= length data)%nat -> bytesRead b = Ok (Z.of_nat r).
Proof.
  intros [Hf _ _ Hr _ Hs] Hle. unfold max_stored in Hs. unfold bytesRead.
  rewrite Hr, Hf, ptr_diff_same. simpl.
  replace (_ - _) with (Z.of_nat r) by lia. by rewrite wrap_small by lia.
Qed.

Lemma rview_remaining h b blk base data r :
  rview h b blk base data r -> (r <= length data)%nat ->
  remainingReadLength b = Ok (Z.of_nat (length (drop r data))).
Proof.
  intros V Hle. unfold remainingReadLength. rewrite (rview_bytesRead _ _ _ _ _ _ V Hle).
  simpl. rewrite (rv_stored _ _ _ _ _ _ V). pose proof (rv_small _ _ _ _ _ _ V).
  unfold max_stored in *. rewrite length_drop, wrap_small by lia. f_equal. lia.
Qed.

(** Loading the next bytes: the unread part starts with [bs]. *)
Lemma rview_load h b blk base data r bs rest :
  rview h b blk base data r -> (r <= length data)%nat -> drop r data = bs ++ rest ->
  load h (m_read_ptr b) (Z.of_nat (length bs)) = Ok bs.
Proof.
  intros [Hf (pre & post & Hp & Hb) _ Hr _ _] Hle Hd. rewrite Hr.
  apply load_middle with (pre ++ (Some <$> take r data)) ((Some <$> rest) ++ post).
  - rewrite Hb. f_equal. rewrite <- (take_drop r data) at 1. rewrite Hd.
    by rewrite !fmap_app, !app_assoc.
  - rewrite length_app, length_fmap, length_take. lia.
  - done.
Qed.

Lemma rview_advance h b blk base data r n :
  rview h b blk base data r -> rview h (advanceRead b (Z.of_nat n)) blk base data (r + n).
Proof.
  intros [Hf Hb Hst Hr By Hs]. split; try done. simpl. rewrite Hr. simpl. f_equal. lia.
Qed.

Lemma drop_app_next {A} (data : list A) r bs rest :
  drop r data = bs ++ rest -> drop (r + length bs) data = rest.
Proof. intros E. rewrite <- drop_drop, E. apply drop_app_length. Qed.

Lemma drop_app_bound {A} (data : list A) r bs rest :
  (r <= length data)%nat -> drop r data = bs ++ rest -> (r + length bs <= length data)%nat.
Proof.
  intros Hle E. apply (f_equal length) in E. rewrite length_drop, length_app in E. lia.
Qed.

(** [readScalar] returns the little-endian value of the next bytes and
    consumes exactly them. *)
Lemma rview_readScalar h b blk base data r n bs rest :
  rview h b blk base data r -> (r <= length data)%nat ->
  drop r data = bs ++ rest -> length bs = n ->
  readScalar h b n = Ok (le_val bs, advanceRead b (Z.of_nat n)).
Proof.
  intros V Hle Hd <-. unfold readScalar.
  rewrite (rview_load _ _ _ _ _ _ _ _ V Hle Hd). simpl.
  rewrite endianScalar_obj_value; [done|].
  pose proof (rv_bytes _ _ _ _ _ _ V) as Hb. rewrite <- (take_drop r data), Hd in Hb.
  apply Forall_app in Hb as [_ Hb]. by apply Forall_app in Hb as [Hb _].
Qed.

Lemma rview_readScalar_le h b blk base data r n v rest :
  rview h b blk base data r -> (r <= length data)%nat ->
  drop r data = le_bytes n v ++ rest ->
  readScalar h b n = Ok (wrap (8 * Z.of_nat n) v, advanceRead b (Z.of_nat n)).
Proof.
  intros V Hle Hd. rewrite (rview_readScalar _ _ _ _ _ _ _ _ _ V Hle Hd) by apply length_le_bytes.
  by rewrite le_val_le_bytes, pow256.
Qed.

(** [unread h b tail]: [b] is a readable storage whose unread bytes are [tail]. *)
Definition unread (h : heap) (b : ByteStorage) (tail : list Z) : Prop :=
  exists blk base data r, rview h b blk base data r /\ (r <= length data)%nat /\
    drop r data = tail.

Lemma unread_remaining h b tail :
  unread h b tail -> remainingReadLength b = Ok (Z.of_nat (length tail)).
Proof. intros (blk & base & data & r & V & Hle & <-). by eapply rview_remaining. Qed.

Lemma unread_small h b tail : unread h b tail -> Z.of_nat (length tail) <= max_stored.
Proof.
  intros (blk & base & data & r & V & Hle & <-). pose proof (rv_small _ _ _ _ _ _ V).
  rewrite length_drop. lia.
Qed.

Lemma unread_length h b tail : unread h b tail -> Z.of_nat (length tail) <= length_ b.
Proof.
  intros (blk & base & data & r & V & Hle & <-). unfold length_.
  rewrite (rv_stored _ _ _ _ _ _ V), length_drop. lia.
Qed.

Lemma unread_is_byte h b tail : unread h b tail -> Forall is_byte tail.
Proof.
  intros (blk & base & data & r & V & Hle & <-). apply Forall_drop, V.
Qed.

Lemma unread_load h b bs rest n :
  unread h b (bs ++ rest) -> n = Z.of_nat (length bs) -> load h (m_read_ptr b) n = Ok bs.
Proof. intros (blk & base & data & r & V & Hle & Hd) ->. by eapply rview_load. Qed.

Lemma unread_advance h b bs rest n :
  unread h b (bs ++ rest) -> n = Z.of_nat (length bs) -> unread h (advanceRead b n) rest.
Proof.
  intros (blk & base & data & r & V & Hle & Hd) ->.
  exists blk, base, data, (r + length bs)%nat. split; [by apply rview_advance|].
  split; [by eapply drop_app_bound|by eapply drop_app_next].
Qed.

Lemma unread_readScalar h b bs rest n :
  unread h b (bs ++ rest) -> length bs = n ->
  readScalar h b n = Ok (le_val bs, advanceRead b (Z.of_nat n)).
Proof. intros (blk & base & data & r & V & Hle & Hd) Hn. by eapply rview_readScalar. Qed.

Lemma unread_readScalar_le h b n v rest :
  unread h b (le_bytes n v ++ rest) ->
  readScalar h b n = Ok (wrap (8 * Z.of_nat n) v, advanceRead b (Z.of_nat n)).
Proof. intros (blk & base & data & r & V & Hle & Hd). by eapply rview_readScalar_le. Qed.

Lemma advanceRead_advanceRead b m n : advanceRead (advanceRead b m) n = advanceRead b (m + n).
Proof. unfold advanceRead, set_read_ptr. simpl. by rewrite advance_advance. Qed.
End reading.

Arguments remainingReadLength : simpl never.
Arguments bytesRead : simpl never.
Arguments advanceRead : simpl never.
Arguments readScalar {_} _ _ _ : simpl never.
