(* ===== verification/Types.v ===== *)
(** * Types: the enumerations and type tables

    src/fastpath/status.h, src/fastpath/types.h,
    src/fastpath/messages/StorageTypes.h, src/fastpath/messages/FieldTraits.h
    and src/fastpath/event/EventType.h. *)
From S2P Require Import Prelude.

(** ** status.h *)

Inductive status :=
  | OK | EVM_NOTRUNNING | NO_EVENTS | INTERNAL_ERROR | CANNOT_SEND | ALREADY_ACTIVE
  | NOT_ACTIVE | CANNOT_CREATE | CANNOT_DESTROY | CANNOT_CONNECT | NOT_VALID
  | INVALID_SERVICE | INVALID_DAEMON | INVALID_MSG | INVALID_SUBJECT | INVALID_NAME
  | INVALID_QUEUE | INVALID_EVENT | INVALID_TRANSPORT | INVALID_TRANSPORT_STATE
  | NOT_FOUND | CONVERSION_FAILED | UPDATE_FAILED | TIMEOUT.
#[export] Instance status_eq_dec : EqDecision status.
Proof. solve_decision. Defined.

(** The values the compiler gives the enumerators; [TIMEOUT] has an explicit one. *)
Definition status_value (s : status) : Z :=
  match s with
  | OK => 0 | EVM_NOTRUNNING => 1 | NO_EVENTS => 2 | INTERNAL_ERROR => 3
  | CANNOT_SEND => 4 | ALREADY_ACTIVE => 5 | NOT_ACTIVE => 6 | CANNOT_CREATE => 7
  | CANNOT_DESTROY => 8 | CANNOT_CONNECT => 9 | NOT_VALID => 10 | INVALID_SERVICE => 11
  | INVALID_DAEMON => 12 | INVALID_MSG => 13 | INVALID_SUBJECT => 14 | INVALID_NAME => 15
  | INVALID_QUEUE => 16 | INVALID_EVENT => 17 | INVALID_TRANSPORT => 18
  | INVALID_TRANSPORT_STATE => 19 | NOT_FOUND => 20 | CONVERSION_FAILED => 21
  | UPDATE_FAILED => 22 | TIMEOUT => 19
  end.

Definition str_status : list string :=
  [ "Everything is OK and successful";
    "The event manager is not running";
    "There has been a severe internal error";
    "Message cannot be sent on selected transport";
    "Object cannot be created";
    "Object cannot be destroyed, maybe invalid";
    "Cannot connect to daemon";
    "Object not valid";
    "Service not valid for transport";
    "Daemon not valid for transport";
    "Message invalid and cannot be constructed";
    "The subject is not valid for this message";
    "The queue is invalid";
    "Teh event is not valid";
    "The transport is invalid";
    "The callack is invalid";
    "Field not found in message";
    "Requested conversion is illegal";
    "Cannot requested update";
    "Request timed out" ]%string.

(** [str_status[s]]: [None] is an index outside the array. *)
Definition status_description (s : status) : option string :=
  str_status !! Z.to_nat (status_value s).

(** ** StorageTypes.h *)

Inductive storage_type :=
  | unknown | string_ | date_time | boolean | uint8 | uint16 | uint32 | uint64
  | int8 | int16 | int32 | int64 | float32 | float64 | data | message_.
#[export] Instance storage_type_eq_dec : EqDecision storage_type.
Proof. solve_decision. Defined.

Definition storage_types : list storage_type :=
  [ unknown; string_; date_time; boolean; uint8; uint16; uint32; uint64;
    int8; int16; int32; int64; float32; float64; data; message_ ].

Definition storage_type_value (t : storage_type) : Z :=
  match t with
  | unknown => 0 | string_ => 1 | date_time => 2 | boolean => 3 | uint8 => 4
  | uint16 => 5 | uint32 => 6 | uint64 => 7 | int8 => 8 | int16 => 9 | int32 => 10
  | int64 => 11 | float32 => 12 | float64 => 13 | data => 14 | message_ => 15
  end.

Definition StorageTypeDescription : list string :=
  [ "unknown"; "string"; "date_time"; "boolean"; "uint8"; "uint16"; "uint32"; "uint64";
    "int8"; "int16"; "int32"; "int64"; "float32"; "float64"; "data"; "message" ]%string.

(** [message_flags] *)
Definition standard : Z := 0.
Definition administration : Z := Z.shiftl 1 0.
Definition guaranteed : Z := Z.shiftl 1 1.

(** ** FieldTraits.h: the C++ types a field can hold *)

Inductive ctype :=
  | T_bool | T_uint8 | T_uint16 | T_uint32 | T_uint64
  | T_int8 | T_int16 | T_int32 | T_int64 | T_float32 | T_float64.
#[export] Instance ctype_eq_dec : EqDecision ctype.
Proof. solve_decision. Defined.

Definition field_traits_type (t : ctype) : storage_type :=
  match t with
  | T_bool => boolean
  | T_uint8 => uint8 | T_uint16 => uint16 | T_uint32 => uint32 | T_uint64 => uint64
  | T_int8 => int8 | T_int16 => int16 | T_int32 => int32 | T_int64 => int64
  | T_float32 => float32 | T_float64 => float64
  end.

Definition field_traits_size (t : ctype) : nat :=
  match t with
  | T_bool | T_uint8 | T_int8 => 1
  | T_uint16 | T_int16 => 2
  | T_uint32 | T_int32 | T_float32 => 4
  | T_uint64 | T_int64 | T_float64 => 8
  end.

Definition field_traits_description (t : ctype) : string :=
  match t with
  | T_bool => "boolean"
  | T_uint8 => "uint8" | T_uint16 => "uint16" | T_uint32 => "uint32" | T_uint64 => "uint64"
  | T_int8 => "int8" | T_int16 => "int16" | T_int32 => "int32" | T_int64 => "int64"
  | T_float32 => "float32" | T_float64 => "float64"
  end%string.

Definition ctype_signed (t : ctype) : bool :=
  match t with T_int8 | T_int16 | T_int32 | T_int64 => true | _ => false end.

(** The values of a type: integers in range; a float is its bit pattern. *)
Definition ctype_range (t : ctype) (v : Z) : Prop :=
  let w := 8 * Z.of_nat (field_traits_size t) in
  match t with
  | T_bool => 0 <= v <= 1
  | _ => if ctype_signed t then - 2 ^ (w - 1) <= v < 2 ^ (w - 1) else 0 <= v < 2 ^ w
  end.

(** The value of type [t] with a given unsigned bit pattern. *)
Definition ctype_value (t : ctype) (u : Z) : Z :=
  if ctype_signed t then to_signed (8 * Z.of_nat (field_traits_size t)) u else u.

Lemma ctype_value_wrap t v :
  ctype_range t v -> ctype_value t (wrap (8 * Z.of_nat (field_traits_size t)) v) = v.
Proof.
  intros Hr. unfold ctype_value, ctype_range in *.
  destruct t; cbn [ctype_signed field_traits_size] in *;
    rewrite ?to_signed_wrap; first [apply to_signed_small; lia | apply wrap_small; lia].
Qed.

Lemma field_traits_size_le t : (1 <= field_traits_size t <= 8)%nat.
Proof. destruct t; simpl; lia. Qed.

(** ** EventType.h *)

Definition EventType_NONE : Z := 0.
Definition EventType_READ : Z := Z.shiftl 1 0.
Definition EventType_WRITE : Z := Z.shiftl 1 1.
Definition EventType_ALL : Z := Z.lor EventType_READ EventType_WRITE.
