(* ===== verification/MessageBuffer.v ===== *)
(** * MessageBuffer: src/fastpath/MessageBuffer.h

    A mutable byte storage with a start index, used as the send and receive
    buffer of a connection.  [visible] is the abstract content: the bytes from
    the start index to the stored length.  The theorems show that the buffer
    refines a byte queue ([append]/[allocate] at the back, [erase_front] and
    [erase_back] at the ends), reallocation and compaction included. *)
From S2P Require Import Prelude Heap ByteStorage.

(** ** Wire layout constants *)

Definition MsgAddressing_msg_length_offset : Z := 1 + 8.
Definition MsgAddressing_size : Z := 1 + 8 + 1 + 4 + 2.
Definition MsgHeader_size : Z := 1 + 4.
Definition MsgField_size : Z := 1 + 1 + 4.

Record MessageBuffer := mkMessageBuffer {
  m_startIndex : Z;
  m_storage : ByteStorage
}.

Definition visible_length (mb : MessageBuffer) : Z :=
  if m_startIndex mb <? length_ (m_storage mb)
  then length_ (m_storage mb) - m_startIndex mb else 0.

(** [explicit MessageBuffer(const size_t initialAllocation)] *)
Definition MessageBuffer_new (h : heap) (initialAllocation : Z) : MessageBuffer * heap :=
  let '(s, h) := ByteStorage_new h initialAllocation in (mkMessageBuffer 0 s, h).

(** [MessageBuffer(MessageBuffer &&orig)]: the new buffer and the moved-from one. *)
Definition MessageBuffer_move (orig : MessageBuffer) : MessageBuffer * MessageBuffer :=
  let '(s, s') := ByteStorage_move (m_storage orig) in
  (mkMessageBuffer (m_startIndex orig) s, mkMessageBuffer 0 s').

(** [mutableBuffer()]: hands out the storage, with its start index check. *)
Definition mutableBuffer (mb : MessageBuffer) : outcome ByteStorage :=
  _ ← assert_ (m_startIndex mb <=? length_ (m_storage mb));
  Ok (m_storage mb).
Definition with_storage (mb : MessageBuffer) (s : ByteStorage) : MessageBuffer :=
  mkMessageBuffer (m_startIndex mb) s.

(** [byteStorage()]: a transient view of the visible bytes (the option word
    [true] is 1, neither copied nor owned). *)
Definition byteStorage (h : heap) (mb : MessageBuffer) : outcome (ByteStorage * heap) :=
  let '(bs, _) := bytes (m_storage mb) in
  ByteStorage_bytes h (advance bs (m_startIndex mb)) (visible_length mb) 1.

(** [memmove(bytes, &bytes[start], n)] inside the buffer. *)
Definition compact (h : heap) (mb : MessageBuffer) : outcome (MessageBuffer * heap) :=
  let bs := mutableBytes (m_storage mb) in
  let n := length_ (m_storage mb) - m_startIndex mb in
  c ← load_cells h (advance bs (m_startIndex mb)) n;
  h ← store_cells h bs c;
  Ok (mkMessageBuffer 0 (truncate (m_storage mb) n), h).

Definition mb_allocate (h : heap) (mb : MessageBuffer) (length : Z)
    : outcome (ptr * MessageBuffer * heap) :=
  '(mb, h) ←
    (if negb (m_startIndex mb =? 0) &&
        (capacity (m_storage mb) <? u64 (length_ (m_storage mb) + length))
     then compact h mb else Ok (mb, h));
  let previous_length := length_ (m_storage mb) in
  '(_, s, h) ← allocate h (m_storage mb) length;
  Ok (advance (mutableBytes s) previous_length, with_storage mb s, h).

Definition increaseLengthBy (h : heap) (mb : MessageBuffer) (length : Z)
    : outcome (MessageBuffer * heap) :=
  '(_, mb, h) ← mb_allocate h mb length; Ok (mb, h).

Definition mb_append (h : heap) (mb : MessageBuffer) (data : list Z)
    : outcome (MessageBuffer * heap) :=
  '(s, h) ← append h (m_storage mb) data;
  Ok (with_storage mb s, h).

Definition erase_back (mb : MessageBuffer) (length : Z) : outcome MessageBuffer :=
  if 0 <? length then
    _ ← assert_ (length <=? visible_length mb);
    Ok (with_storage mb (truncate (m_storage mb) (u64 (length_ (m_storage mb) - length))))
  else Ok mb.

Definition erase_front (mb : MessageBuffer) (length : Z) : outcome MessageBuffer :=
  let s := m_storage mb in
  _ ← assert_ (length <=? visible_length mb);
  _ ← assert_ (u64 (length + m_startIndex mb) <=? length_ s);
  if length_ s <=? u64 (length + m_startIndex mb) then
    Ok (mkMessageBuffer 0 (clear s))
  else if length_ s =? 0 then
    Ok (mkMessageBuffer 0 s)
  else
    let start := u64 (m_startIndex mb + length) in
    _ ← assert_ (start <=? length_ s);
    Ok (mkMessageBuffer start s).

(** [bytes(&data)] *)
Definition mb_bytes (mb : MessageBuffer) : outcome (ptr * Z) :=
  let '(bs, len) := bytes (m_storage mb) in
  _ ← assert_ (m_startIndex mb <=? length_ (m_storage mb));
  Ok (advance bs (m_startIndex mb), len - m_startIndex mb).

Definition mb_length (mb : MessageBuffer) : Z := visible_length mb.

(** [append(const MessageBuffer &src, length)]: the [length] argument of the
    source is not used. *)
Definition mb_append_buffer (h : heap) (mb src : MessageBuffer) (length : Z)
    : outcome (MessageBuffer * heap) :=
  '(b, l) ← mb_bytes src;
  '(s, h) ← append_ptr h (m_storage mb) b (Z.min l (mb_length src));
  Ok (with_storage mb s, h).

Definition mb_clear (mb : MessageBuffer) : MessageBuffer :=
  mkMessageBuffer 0 (clear (m_storage mb)).

Definition mb_index (h : heap) (mb : MessageBuffer) (i : Z) : outcome Z :=
  let '(bs, _) := bytes (m_storage mb) in
  _ ← assert_ (m_startIndex mb <=? length_ (m_storage mb));
  l ← load h (advance (advance bs (m_startIndex mb)) i) 1;
  Ok (default 0 (head l)).

(** ** Refinement of a byte queue *)

(** [mb_rep h mb vis]: the buffer is well formed and its visible cells are [vis]. *)
Record mb_rep (h : heap) (mb : MessageBuffer) (vis : cells) : Prop := {
  mb_storage : exists blk pre spare,
    mut_rep h (m_storage mb) blk pre spare /\
    0 <= m_startIndex mb <= Z.of_nat (length pre) /\
    vis = drop (Z.to_nat (m_startIndex mb)) pre
}.

Lemma mb_rep_intro h mb blk pre spare :
  mut_rep h (m_storage mb) blk pre spare ->
  0 <= m_startIndex mb <= Z.of_nat (length pre) ->
  mb_rep h mb (drop (Z.to_nat (m_startIndex mb)) pre).
Proof. intros. split. eauto 10. Qed.

Lemma mb_rep_visible h mb vis :
  mb_rep h mb vis -> visible_length mb = Z.of_nat (length vis).
Proof.
  intros [(blk & pre & spare & R & Hs & ->)]. unfold visible_length, length_.
  rewrite (mr_stored _ _ _ _ _ R), length_drop.
  destruct (Z.ltb_spec (m_startIndex mb) (Z.of_nat (length pre))); lia.
Qed.

(** The result of a step that keeps the start index. *)
Lemma mb_rep_extend mb pre new s h' blk' spare' :
  0 <= m_startIndex mb <= Z.of_nat (length pre) ->
  mut_rep h' s blk' (pre ++ new) spare' ->
  mb_rep h' (with_storage mb s) (drop (Z.to_nat (m_startIndex mb)) pre ++ new).
Proof.
  intros Hs R. split. exists blk', (pre ++ new), spare'. split; [done|].
  simpl. rewrite length_app, drop_app_le by lia. split; [lia|done].
Qed.

Lemma mb_append_spec h mb vis bs :
  mb_rep h mb vis ->
  m_storedLength (m_storage mb) + Z.of_nat (length bs) <= max_stored ->
  exists mb' h', mb_append h mb bs = Ok (mb', h') /\ mb_rep h' mb' (vis ++ (Some <$> bs)).
Proof.
  intros [(blk & pre & spare & R & Hs & ->)] Hmax. unfold mb_append.
  rewrite (mr_stored _ _ _ _ _ R) in Hmax.
  destruct (append_extends _ _ _ _ _ bs R ltac:(lia)) as (b' & h' & blk' & sp & -> & [R' _ _ _]).
  do 2 eexists. split; [done|]. by eapply mb_rep_extend.
Qed.

Lemma compact_spec h mb blk pre spare :
  mut_rep h (m_storage mb) blk pre spare ->
  0 <= m_startIndex mb <= Z.of_nat (length pre) ->
  exists mb' h' spare',
    compact h mb = Ok (mb', h') /\ m_startIndex mb' = 0 /\
    mut_rep h' (m_storage mb') blk (drop (Z.to_nat (m_startIndex mb)) pre) spare'.
Proof.
  intros R Hs. set (k := Z.to_nat (m_startIndex mb)).
  pose proof R as [Hf Hb Hsec Hst Hcap Hr Hm Hwf].
  unfold compact, mutableBytes, length_. rewrite Hf, Hst. simpl.
  erewrite load_cells_block; [|done|lia|rewrite length_app; lia].
  replace (Z.to_nat (Z.of_nat (length pre) - m_startIndex mb)) with (length (drop k pre))
    by (rewrite length_drop; lia).
  fold k. rewrite drop_app_le, take_app_length by lia. cbn -[store_cells].
  erewrite store_cells_block; [|done|lia|rewrite length_app, length_drop; lia].
  set (c := drop k pre) in *. cbn.
  eexists _, _, (drop (length c) (pre ++ spare)). split; [done|]. split; [done|].
  unfold splice. rewrite take_0, Nat.add_0_l. cbn [app].
  assert (length (c ++ drop (length c) (pre ++ spare)) = length (pre ++ spare)) as E.
  { rewrite length_app, length_drop. unfold c. rewrite length_drop, length_app. lia. }
  split; simpl; rewrite ?E; try done.
  - apply lookup_insert_eq.
  - unfold c. rewrite length_drop. lia.
  - apply set_block_wf; eauto.
Qed.

Lemma mb_allocate_at h mb vis n :
  mb_rep h mb vis -> 0 <= n -> m_storedLength (m_storage mb) + n <= max_stored ->
  exists mb' h' blk pre new spare,
    mb_allocate h mb n = Ok (Ptr blk (Z.of_nat (length pre)), mb', h') /\
    length new = Z.to_nat n /\ mut_rep h' (m_storage mb') blk (pre ++ new) spare /\
    0 <= m_startIndex mb' <= Z.of_nat (length pre) /\
    vis = drop (Z.to_nat (m_startIndex mb')) pre /\
    Z.of_nat (length pre) <= m_storedLength (m_storage mb).
Proof.
  intros [(blk & pre & spare & R & Hs & ->)] Hn Hmax. unfold mb_allocate.
  assert (exists mb1 h1 pre1 spare1,
    (if negb (m_startIndex mb =? 0) && (capacity (m_storage mb) <? u64 (length_ (m_storage mb) + n))
     then compact h mb else Ok (mb, h)) = Ok (mb1, h1) /\
    mut_rep h1 (m_storage mb1) blk pre1 spare1 /\
    0 <= m_startIndex mb1 <= Z.of_nat (length pre1) /\ (length pre1 <= length pre)%nat /\
    drop (Z.to_nat (m_startIndex mb1)) pre1 = drop (Z.to_nat (m_startIndex mb)) pre)
    as (mb1 & h1 & pre1 & spare1 & -> & R1 & Hs1 & Hle & <-).
  { destruct (_ && _); [|eauto 10].
    destruct (compact_spec _ _ _ _ _ R Hs) as (mb1 & h1 & sp & -> & H0 & R1).
    do 4 eexists. split; [done|]. split; [exact R1|]. rewrite H0. simpl.
    rewrite length_drop. split; [lia|]. split; [lia|done]. }
  rewrite (mr_stored _ _ _ _ _ R) in *. cbn -[allocate].
  destruct (allocate_extends _ _ _ _ _ n R1 Hn ltac:(lia)) as
    (b' & h' & blk' & new & sp & Hnew & -> & [R' _ _ _]).
  unfold length_, mutableBytes. cbn. rewrite (mr_first _ _ _ _ _ R'), (mr_stored _ _ _ _ _ R1).
  cbn. exists (with_storage mb1 b'), h', blk', pre1, new, sp. split; [done|].
  split; [exact Hnew|]. split; [exact R'|]. split; [done|]. split; [done|lia].
Qed.

(** [m_storage] after a read from a socket: the code reserves [room] bytes,
    lets the kernel write [chunk] into them and gives back the rest. *)
Definition mb_receive (h : heap) (mb : MessageBuffer) (room : Z) (chunk : list Z)
    : outcome (MessageBuffer * heap) :=
  '(p, mb, h) ← mb_allocate h mb room;
  h ← store h p chunk;
  mb ← erase_back mb (room - Z.of_nat (length chunk));
  Ok (mb, h).

Lemma erase_front_spec h mb vis n :
  mb_rep h mb vis -> 0 <= n <= Z.of_nat (length vis) ->
  exists mb', erase_front mb n = Ok mb' /\ mb_rep h mb' (drop (Z.to_nat n) vis) /\
    m_storedLength (m_storage mb') <= m_storedLength (m_storage mb).
Proof.
  intros Rep Hn. pose proof (mb_rep_visible _ _ _ Rep) as Hv.
  destruct Rep as [(blk & pre & spare & R & Hs & ->)]. rewrite length_drop in Hn, Hv.
  pose proof (mr_cap _ _ _ _ _ R) as Hcap. rewrite length_app in Hcap.
  pose proof (mr_stored _ _ _ _ _ R) as Hst.
  unfold erase_front, assert_, length_. rewrite Hv, Hst, !wrap_small by lia.
  destruct (Z.leb_spec n (Z.of_nat (length pre - Z.to_nat (m_startIndex mb)))); [|lia].
  destruct (Z.leb_spec (n + m_startIndex mb) (Z.of_nat (length pre))); [|lia]. simpl.
  destruct (Z.leb_spec (Z.of_nat (length pre)) (n + m_startIndex mb)).
  - eexists. split; [done|]. rewrite drop_drop, drop_ge by lia. split; [|simpl; lia].
    apply (mb_rep_intro _ (mb_clear mb) blk [] (pre ++ spare)); simpl; [|lia].
    destruct R as [Hf Hb Hsec Hst' Hcap' Hr Hm Hwf]. split; simpl; eauto.
  - destruct (Z.eqb_spec (Z.of_nat (length pre)) 0); [lia|].
    destruct (Z.leb_spec (m_startIndex mb + n) (Z.of_nat (length pre))); [|lia].
    eexists. split; [done|]. rewrite drop_drop. split; [|simpl; lia].
    replace (Z.to_nat (m_startIndex mb) + Z.to_nat n)%nat with (Z.to_nat (m_startIndex mb + n)) by lia.
    apply (mb_rep_intro _ (mkMessageBuffer (m_startIndex mb + n) (m_storage mb)) blk pre spare);
      simpl; [done|lia].
Qed.

Lemma erase_back_spec h mb vis n :
  mb_rep h mb vis -> 0 <= n <= Z.of_nat (length vis) ->
  exists mb', erase_back mb n = Ok mb' /\
    mb_rep h mb' (take (length vis - Z.to_nat n) vis) /\
    m_storedLength (m_storage mb') = m_storedLength (m_storage mb) - n.
Proof.
  intros Rep Hn. pose proof (mb_rep_visible _ _ _ Rep) as Hv. unfold erase_back.
  destruct (Z.ltb_spec 0 n).
  2:{ eexists. split; [done|]. rewrite take_ge by lia. split; [done|lia]. }
  rewrite Hv. unfold assert_. destruct (Z.leb_spec n (Z.of_nat (length vis))); [|lia]. simpl.
  eexists. split; [done|]. destruct Rep as [(blk & pre & spare & R & Hs & ->)].
  rewrite length_drop in *. pose proof (mr_cap _ _ _ _ _ R) as Hcap. rewrite length_app in Hcap.
  split; [|simpl; unfold length_; rewrite (mr_stored _ _ _ _ _ R), wrap_small; lia].
  set (k := (length pre - Z.to_nat n)%nat).
  replace (take _ (drop _ pre)) with (drop (Z.to_nat (m_startIndex mb)) (take k pre)).
  2:{ rewrite take_drop_commute. f_equal. f_equal. lia. }
  apply (mb_rep_intro _ (with_storage _ _) blk (take k pre) (drop k pre ++ spare)); simpl.
  2:{ rewrite length_take. lia. }
  destruct R as [Hf Hb Hsec Hst Hcap' Hr Hm Hwf]. unfold length_.
  split; simpl; rewrite ?app_assoc, ?take_drop; try done.
  rewrite Hst, length_take, wrap_small by lia. lia.
Qed.

(** A socket read appends the bytes read. *)
Lemma mb_receive_spec h mb vis room chunk :
  mb_rep h mb vis -> Z.of_nat (length chunk) <= room ->
  m_storedLength (m_storage mb) + room <= max_stored ->
  exists mb' h', mb_receive h mb room chunk = Ok (mb', h') /\
    mb_rep h' mb' (vis ++ (Some <$> chunk)) /\
    m_storedLength (m_storage mb') <= m_storedLength (m_storage mb) + Z.of_nat (length chunk).
Proof.
  intros Rep Hc Hmax. unfold mb_receive.
  destruct (mb_allocate_at _ _ _ room Rep ltac:(lia) Hmax)
    as (mb1 & h1 & blk & pre & new & sp & -> & Hnew & R1 & Hs & -> & Hpre). cbn -[store erase_back].
  set (c := (Some <$> chunk) ++ drop (length chunk) new).
  assert (length c = length new) as Hlc
    by (unfold c; rewrite length_app, length_fmap, length_drop; lia).
  assert (store h1 (Ptr blk (Z.of_nat (length pre))) chunk =
    Ok (set_block h1 blk ((pre ++ c) ++ sp))) as ->.
  { rewrite (store_middle h1 blk pre (take (length chunk) new) (drop (length chunk) new ++ sp));
      [unfold c; by rewrite <- !app_assoc| |done|rewrite length_take; lia].
    rewrite (mr_block _ _ _ _ _ R1), <- app_assoc. f_equal. f_equal. by rewrite app_assoc, take_drop. }
  cbn -[erase_back]. apply (overwrite_rep _ _ _ _ _ (pre ++ c)) in R1 as R2;
    [|rewrite !length_app; lia].
  assert (mb_rep (set_block h1 blk ((pre ++ c) ++ sp)) mb1
    (drop (Z.to_nat (m_startIndex mb1)) pre ++ c)) as Rep2.
  { rewrite <- drop_app_le by lia. eapply mb_rep_intro; [exact R2|]. rewrite length_app. lia. }
  destruct (erase_back_spec _ _ _ (room - Z.of_nat (length chunk)) Rep2) as (mb2 & -> & Rep3 & Hst).
  { rewrite length_app. lia. }
  cbn. do 2 eexists. split; [done|]. split.
  - rewrite length_app, Hlc, Hnew in Rep3. rewrite take_app_ge in Rep3 by lia.
    unfold c in Rep3. rewrite take_app_len in Rep3; [done|]. rewrite length_fmap. lia.
  - rewrite Hst, (mr_stored _ _ _ _ _ R2), length_app, Hlc. lia.
Qed.

(** The view handed to the decoder reads exactly the visible bytes. *)
Lemma byteStorage_spec h mb data :
  mb_rep h mb (Some <$> data) -> data <> [] -> Forall is_byte data ->
  Z.of_nat (length data) <= max_stored ->
  exists b, byteStorage h mb = Ok (b, h) /\ unread h b data /\
    m_storedLength b = Z.of_nat (length data) /\ m_mark_ptr b = m_read_ptr b.
Proof.
  intros Rep Hne Hb Hmax. pose proof (mb_rep_visible _ _ _ Rep) as Hv. rewrite length_fmap in Hv.
  destruct Rep as [(blk & pre & spare & R & Hs & E)].
  assert (0 < m_storedLength (m_storage mb)) as Hpos.
  { apply (f_equal length) in E. rewrite length_fmap, length_drop in E.
    rewrite (mr_stored _ _ _ _ _ R). destruct data; [done|]. cbn [length] in E. lia. }
  unfold byteStorage. rewrite (bytes_nonempty _ Hpos). unfold ByteStorage_bytes. rewrite (mr_first _ _ _ _ _ R), Hv. cbn.
  eexists. split; [done|]. split; [|done].
  exists blk, (Z.to_nat (m_startIndex mb)), data, 0%nat. split; [|split; [lia|apply drop_0]].
  split; cbn; try done; try (f_equal; lia).
  exists (take (Z.to_nat (m_startIndex mb)) pre), spare. split; [rewrite length_take; lia|].
  rewrite (mr_block _ _ _ _ _ R). f_equal. rewrite E, app_assoc. by rewrite take_drop.
Qed.
