(* ===== verification/Field.v ===== *)
(** * Field: the typed fields of a message

    src/fastpath/messages/Field.h, ScalarField.h, DataField.h,
    SmallDataField.h, LargeDataField.h, DateTimeField.h, MessageField.h/.cpp,
    FieldAllocator.h and Serializable.h.  The arrays inside a field object are
    values; the buffers fields are encoded to and decoded from are storages in
    the heap. *)
From S2P Require Import Prelude Heap ByteStorage MessageBuffer Types.

(** The contents of a C string held in [bs]: the bytes before the first NUL. *)
Fixpoint cstr (bs : list Z) : list Z :=
  match bs with
  | [] => []
  | b :: bs => if b =? 0 then [] else b :: cstr bs
  end.

Definition is_cstr (s : list Z) : Prop := Forall (fun c => 0 < c < 256) s.
#[export] Instance is_cstr_dec s : Decision (is_cstr s).
Proof. unfold is_cstr. apply _. Defined.

(** ** Serializable.h: scalars in byte arrays *)

Section serializable.
Context `{Platform}.

(** [readScalar<T>(p)] of the bytes at [p], as an unsigned value. *)
Definition readScalar_at (bs : list Z) : Z := endianScalar (length bs) (obj_value bs).
(** The bytes [writeScalar(p, t)] stores. *)
Definition writeScalar_bytes (n : nat) (t : Z) : list Z := obj_repr n (endianScalar n t).
(** [writeScalar(p, t)] through a pointer into the heap. *)
Definition writeScalar (h : heap) (p : ptr) (n : nat) (t : Z) : outcome heap :=
  store h p (writeScalar_bytes n t).
End serializable.

(** ** The field classes *)

Record FieldHeader := mkFieldHeader {
  m_identifier : list Z;    (* the C string in m_identifier[256] *)
  m_type : Z;               (* the storage_type's value *)
  m_data_length : Z
}.

Inductive Field :=
  | ScalarField (hd : FieldHeader) (m_raw : list Z)
  | SmallDataField (hd : FieldHeader) (m_store : list Z)
  | LargeDataField (hd : FieldHeader) (m_store : list Z)
  | DateTimeField (hd : FieldHeader) (seconds microseconds : Z)
  | MessageField (hd : FieldHeader) (m_msg : Message)
with Message :=
  | mkMessage (m_hasAddressing : bool) (m_flags : Z) (m_subject : list Z)
      (m_payload : list Field) (m_keys : gmap (list Z) nat).

Definition m_hasAddressing (m : Message) : bool := let '(mkMessage a _ _ _ _) := m in a.
Definition m_flags (m : Message) : Z := let '(mkMessage _ f _ _ _) := m in f.
Definition m_subject (m : Message) : list Z := let '(mkMessage _ _ s _ _) := m in s.
Definition m_payload (m : Message) : list Field := let '(mkMessage _ _ _ p _) := m in p.
Definition m_keys (m : Message) : gmap (list Z) nat := let '(mkMessage _ _ _ _ k) := m in k.

Definition header (f : Field) : FieldHeader :=
  match f with
  | ScalarField hd _ | SmallDataField hd _ | LargeDataField hd _
  | DateTimeField hd _ _ | MessageField hd _ => hd
  end.
Definition identifier (f : Field) : list Z := m_identifier (header f).
Definition type (f : Field) : Z := m_type (header f).
Definition size (f : Field) : Z := m_data_length (header f).

(** [Field(identifier, type, data_length)]: [strcpy] into a 256 byte array. *)
Definition Field_new (id : list Z) (t : storage_type) (data_length : Z) : outcome FieldHeader :=
  if (length id <? 256)%nat
  then Ok (mkFieldHeader id (storage_type_value t) data_length)
  else undefined OutOfBounds.

(** *** ScalarField *)

Definition float64_size : nat := 8.

Section scalar_field.
Context `{Platform}.

Definition ScalarField_new (id : list Z) (t : ctype) (value : Z) : outcome Field :=
  let n := field_traits_size t in
  hd ← Field_new id (field_traits_type t) (Z.of_nat n);
  let m_raw := replicate float64_size 0 in
  Ok (ScalarField hd (writeScalar_bytes n value ++ drop n m_raw)).

(** [get<T>()] on the raw array of a field with type [t]. *)
Definition scalar_get (hd : FieldHeader) (m_raw : list Z) (t : ctype) : outcome Z :=
  _ ← assert_ (m_type hd =? storage_type_value (field_traits_type t));
  Ok (ctype_value t (readScalar_at (take (field_traits_size t) m_raw))).
End scalar_field.

(** *** Data fields *)

Definition SmallDataField_max_size : Z := 256.

Definition SmallDataField_string (id value : list Z) : outcome Field :=
  hd ← Field_new id string_ (Z.of_nat (length value) + 1);
  if m_data_length hd <=? SmallDataField_max_size
  then Ok (SmallDataField hd (value ++ [0]))
  else undefined OutOfBounds.

Definition SmallDataField_data (id value : list Z) : outcome Field :=
  hd ← Field_new id data (Z.of_nat (length value));
  if m_data_length hd <=? SmallDataField_max_size
  then Ok (SmallDataField hd value)
  else undefined OutOfBounds.

Definition LargeDataField_string (id value : list Z) : outcome Field :=
  hd ← Field_new id string_ (Z.of_nat (length value) + 1);
  Ok (LargeDataField hd (value ++ [0])).

Definition LargeDataField_data (id value : list Z) : outcome Field :=
  hd ← Field_new id data (Z.of_nat (length value));
  Ok (LargeDataField hd value).

(** The virtual [DataField::get] for [char] ([string_]) and [byte] ([data])
    destinations: the stored bytes and the returned length.  A call on an object
    of another class goes through a virtual table that has no such entry. *)
Definition DataField_get (expected : storage_type) (f : Field) : outcome (list Z * Z) :=
  match f with
  | SmallDataField hd st =>
      _ ← assert_ (m_type hd =? storage_type_value expected);
      Ok (st, m_data_length hd)
  | LargeDataField hd st =>
      _ ← assert_ (m_type hd =? storage_type_value expected);
      Ok (st, Z.of_nat (length st))
  | _ => undefined TypeConfusion
  end.

(** *** DateTimeField *)

Definition date_time_size : Z := 8 + 8.
Definition microseconds_den : Z := 1000000.

(** From [uint64_t] seconds and microseconds, stored as [int64_t]. *)
Definition DateTimeField_parts (id : list Z) (seconds microseconds : Z) : outcome Field :=
  hd ← Field_new id date_time date_time_size;
  Ok (DateTimeField hd (to_signed 64 seconds) (to_signed 64 microseconds)).

(** From a [std::chrono::microseconds] count; [duration_cast] to seconds and
    [%] truncate toward zero. *)
Definition DateTimeField_duration (id : list Z) (value : Z) : outcome Field :=
  hd ← Field_new id date_time date_time_size;
  Ok (DateTimeField hd (Z.quot value microseconds_den) (Z.rem value microseconds_den)).

(** From a [system_clock::time_point], whose count since the epoch is in
    nanoseconds. *)
Definition DateTimeField_time_point (id : list Z) (nanoseconds : Z) : outcome Field :=
  let time := Z.quot nanoseconds 1000 in
  hd ← Field_new id date_time date_time_size;
  Ok (DateTimeField hd (Z.quot time microseconds_den) (Z.rem time microseconds_den)).

(** [get()]: microseconds since the epoch, in [int64_t] arithmetic. *)
Definition date_time_get (seconds microseconds : Z) : Z :=
  seconds * microseconds_den + microseconds.
(** [get(uint64_t &seconds, uint64_t &microseconds)] *)
Definition date_time_get_parts (seconds microseconds : Z) : Z * Z :=
  (u64 seconds, u64 microseconds).

(** *** MessageField *)

Definition MessageField_new (id : list Z) (m : Message) : outcome Field :=
  hd ← Field_new id message_ 0;
  Ok (MessageField hd m).

(** *** FieldAllocator.h *)

Definition createDataField_string (id value : list Z) : outcome Field :=
  if Z.of_nat (length value) + 1 <=? SmallDataField_max_size
  then SmallDataField_string id value else LargeDataField_string id value.
Definition createDataField_data (id value : list Z) : outcome Field :=
  if Z.of_nat (length value) <=? SmallDataField_max_size
  then SmallDataField_data id value else LargeDataField_data id value.

(** ** Equality

    [std::equal] with three iterators reads as many elements of the second
    range as the first one has. *)
Definition equal3 {A} (eq : A -> A -> outcome bool) : list A -> list A -> outcome bool :=
  fix go l1 l2 :=
    match l1 with
    | [] => Ok true
    | x :: l1 =>
        match l2 with
        | [] => undefined OutOfBounds
        | y :: l2 => r ← eq x y; if (r : bool) then go l1 l2 else Ok false
        end
    end.

Definition header_eq (a b : FieldHeader) : bool :=
  bool_decide (m_identifier a = m_identifier b) && (m_type a =? m_type b)
  && (m_data_length a =? m_data_length b).

(** [Field::operator==] with the [isEqual] of each class ([typeid] equality is
    equality of constructors). *)
Fixpoint Field_eq (a b : Field) : outcome bool :=
  if header_eq (header a) (header b) then
    match a, b with
    | ScalarField _ r1, ScalarField _ r2 => Ok (bool_decide (r1 = r2))
    | SmallDataField h1 s1, SmallDataField _ s2 =>
        Ok (bool_decide (take (Z.to_nat (m_data_length h1)) s1 =
                         take (Z.to_nat (m_data_length h1)) s2))
    | LargeDataField h1 s1, LargeDataField h2 s2 =>
        Ok ((m_type h1 =? m_type h2) && bool_decide (s1 = s2))
    | DateTimeField _ s1 u1, DateTimeField _ s2 u2 => Ok ((s1 =? s2) && (u1 =? u2))
    | MessageField _ (mkMessage _ f1 s1 p1 _), MessageField _ (mkMessage _ f2 s2 p2 _) =>
        if (f1 =? f2) && bool_decide (s1 = s2) then equal3 Field_eq p1 p2 else Ok false
    | _, _ => Ok false
    end
  else Ok false.

(** ** Field headers on the wire *)

Section wire.
Context `{Platform}.

(** [Field(const ByteStorageType &buffer)] *)
Definition Field_read (h : heap) (b : ByteStorage) : outcome (FieldHeader * ByteStorage) :=
  rem ← remainingReadLength b;
  if MsgField_size <=? rem then
    '(t, b) ← readScalar h b 1;
    '(identifier_length, b) ← readScalar h b 1;
    '(data_length, b) ← readScalar h b 4;
    rem ← remainingReadLength b;
    if identifier_length <=? rem then
      id ← load h (readBytes b) identifier_length;
      let b := advanceRead b identifier_length in
      rem ← remainingReadLength b;
      if data_length <=? rem
      then Ok (mkFieldHeader (cstr id) (to_signed 8 t) data_length, b)
      else throw FpException
    else throw FpException
  else throw FpException.

(** [Field::peek_field_header]: type, identifier length, data size; there is
    no check of the remaining length. *)
Definition peek_field_header (h : heap) (b : ByteStorage) : outcome (Z * Z * Z) :=
  let p := readBytes b in
  t ← load h p 1;
  il ← load h (advance p 1) 1;
  ds ← load h (advance p (1 + 1)) 4;
  Ok (to_signed 8 (readScalar_at t), readScalar_at il, readScalar_at ds).

(** [Field::encode(buffer, data, data_length)] *)
Definition Field_encode_data (h : heap) (b : ByteStorage) (hd : FieldHeader) (dat : list Z)
    : outcome (Z * ByteStorage * heap) :=
  '(b, h) ← appendScalar h b 1 (m_type hd);
  let identifier_length := Z.of_nat (length (m_identifier hd)) in
  '(b, h) ← appendScalar h b 1 identifier_length;
  '(b, h) ← appendScalar h b 4 (Z.of_nat (length dat));
  '(b, h) ← append h b (m_identifier hd);
  '(b, h) ← append h b dat;
  Ok (MsgField_size + identifier_length + Z.of_nat (length dat), b, h).

(** *** The constructors that read a field from a buffer *)

Definition ScalarField_read (h : heap) (b : ByteStorage) : outcome (Field * ByteStorage) :=
  '(hd, b) ← Field_read h b;
  if m_data_length hd <=? Z.of_nat float64_size then
    raw ← load h (readBytes b) (m_data_length hd);
    let m_raw := raw ++ drop (length raw) (replicate float64_size 0) in
    Ok (ScalarField hd m_raw, advanceRead b (m_data_length hd))
  else undefined OutOfBounds.

Definition SmallDataField_read (h : heap) (b : ByteStorage) : outcome (Field * ByteStorage) :=
  '(hd, b) ← Field_read h b;
  if m_data_length hd <=? SmallDataField_max_size then
    st ← load h (readBytes b) (m_data_length hd);
    Ok (SmallDataField hd st, advanceRead b (m_data_length hd))
  else undefined OutOfBounds.

Definition LargeDataField_read (h : heap) (b : ByteStorage) : outcome (Field * ByteStorage) :=
  '(hd, b) ← Field_read h b;
  st ← load h (readBytes b) (m_data_length hd);
  Ok (LargeDataField hd st, advanceRead b (m_data_length hd)).

Definition DateTimeField_read (h : heap) (b : ByteStorage) : outcome (Field * ByteStorage) :=
  '(hd, b) ← Field_read h b;
  '(s, b) ← readScalar h b 8;
  '(u, b) ← readScalar h b 8;
  Ok (DateTimeField hd (to_signed 64 s) (to_signed 64 u), b).

Definition createDataField_read (h : heap) (b : ByteStorage) (data_size : Z)
    : outcome (Field * ByteStorage) :=
  if data_size <=? SmallDataField_max_size
  then SmallDataField_read h b else LargeDataField_read h b.
End wire.
