(* ===== verification/Message.v ===== *)
(** * Message: BaseMessage, Message and MutableMessage

    src/fastpath/messages/BaseMessage.h/.cpp, Message.h/.cpp and
    MutableMessage.h/.cpp.  [m_payload] is the vector of fields in insertion
    order, [m_keys] the hash map from identifier to index, keyed by C string
    contents ([tf::string_hash], [tf::string_comparator]). *)
From S2P Require Import Prelude Heap ByteStorage MessageBuffer Types Field.

Definition max_subject_length : Z := 65535.

Definition set_fields (m : Message) (p : list Field) (k : gmap (list Z) nat) : Message :=
  mkMessage (m_hasAddressing m) (m_flags m) (m_subject m) p k.
Definition set_flags (m : Message) (f : Z) : Message :=
  mkMessage (m_hasAddressing m) f (m_subject m) (m_payload m) (m_keys m).
Definition set_subject (m : Message) (s : list Z) : Message :=
  mkMessage (m_hasAddressing m) (m_flags m) s (m_payload m) (m_keys m).

(** ** BaseMessage and Message *)

(** [Message()]: [m_flags(-1)] in a [uint8_t]. *)
Definition Message_new : Message := mkMessage true (u8 (-1)) [] [] ∅.

(** [BaseMessage::size()] *)
Definition message_size (m : Message) : Z := u32 (Z.of_nat (length (m_payload m))).

(** [BaseMessage::clear()] and [Message::clear()]. *)
Definition BaseMessage_clear (m : Message) : Message := set_fields m [] ∅.
Definition Message_clear (m : Message) : Message :=
  BaseMessage_clear (set_subject (set_flags m (u8 (-1))) []).
Definition prepareForReuse (m : Message) : Message := Message_clear m.

(** Move constructor: the new message and what is left of [other]. *)
Definition BaseMessage_move (other : Message)
    : list Field * gmap (list Z) nat * Message :=
  (m_payload other, m_keys other, set_fields other [] ∅).
Definition Message_move (other : Message) : Message * Message :=
  let '(p, k, other) := BaseMessage_move other in
  (mkMessage (m_hasAddressing other) (m_flags other) (m_subject other) p k,
   set_subject other []).

(** [operator==] *)
Definition BaseMessage_eq (a b : Message) : outcome bool :=
  equal3 Field_eq (m_payload a) (m_payload b).
Definition Message_eq (a b : Message) : outcome bool :=
  if (m_flags a =? m_flags b) && bool_decide (m_subject a = m_subject b)
  then BaseMessage_eq a b else Ok false.

(** [m_payload[i]] *)
Definition payload_at (m : Message) (i : nat) : outcome Field :=
  match m_payload m !! i with Some f => Ok f | None => undefined OutOfBounds end.

(** [storageType(field)]: [std::out_of_range] leaves a [noexcept] function. *)
Definition storageType (m : Message) (field : list Z) : outcome Z :=
  match m_keys m !! field with
  | Some i => f ← payload_at m i; Ok (type f)
  | None => Err Terminate
  end.

Section accessors.
Context `{Platform}.

(** The eleven [getScalarField(field, T &value)]: [Some v] is the return value
    [true] with [value = v]; a null [field] is [None]. *)
Definition getScalarField (m : Message) (field : option (list Z)) (t : ctype)
    : outcome (option Z) :=
  match field with
  | None => Ok None
  | Some k =>
      match m_keys m !! k with
      | Some i =>
          f ← payload_at m i;
          match f with
          | ScalarField hd raw => v ← scalar_get hd raw t; Ok (Some v)
          | _ =>
              (* the assert of get<T> reads m_type of whatever object it is *)
              _ ← assert_ (type f =? storage_type_value (field_traits_type t));
              undefined TypeConfusion
          end
      | None => Ok None
      end
  end.

(** [getDataField(field, const char **value, length)] *)
Definition getDataField (m : Message) (field : option (list Z))
    : outcome (option (list Z * Z)) :=
  match field with
  | None => Ok None
  | Some k =>
      match m_keys m !! k with
      | Some i => f ← payload_at m i; r ← DataField_get string_ f; Ok (Some r)
      | None => Ok None
      end
  end.

(** ** MutableMessage *)

Definition setSubject (m : Message) (subject : list Z) : bool * Message :=
  if Z.of_nat (length subject) <? max_subject_length
  then (true, set_subject m subject) else (false, m).

(** The body shared by every [add...Field] once the field object exists:
    [m_keys.insert], then [emplace_back] or [destroyField]. *)
Definition insert_field (m : Message) (e : Field) : bool * Message :=
  match m_keys m !! identifier e with
  | Some _ => (false, m)
  | None =>
      (true, set_fields m (m_payload m ++ [e])
               (<[identifier e := length (m_payload m)]> (m_keys m)))
  end.

Definition addScalarField (m : Message) (field : list Z) (t : ctype) (value : Z)
    : outcome (bool * Message) :=
  e ← ScalarField_new field t value; Ok (insert_field m e).
Definition addDataField_data (m : Message) (field value : list Z) : outcome (bool * Message) :=
  e ← createDataField_data field value; Ok (insert_field m e).
Definition addDataField_string (m : Message) (field value : list Z) : outcome (bool * Message) :=
  e ← createDataField_string field value; Ok (insert_field m e).
Definition addMessageField (m : Message) (field : list Z) (msg : Message)
    : outcome (bool * Message) :=
  e ← MessageField_new field msg; Ok (insert_field m e).
Definition addDateTimeField_time_point (m : Message) (field : list Z) (ns : Z)
    : outcome (bool * Message) :=
  e ← DateTimeField_time_point field ns; Ok (insert_field m e).
Definition addDateTimeField_duration (m : Message) (field : list Z) (us : Z)
    : outcome (bool * Message) :=
  e ← DateTimeField_duration field us; Ok (insert_field m e).
Definition addDateTimeField_parts (m : Message) (field : list Z) (seconds microseconds : Z)
    : outcome (bool * Message) :=
  e ← DateTimeField_parts field seconds microseconds; Ok (insert_field m e).
End accessors.

(** [removeField(field)].  The code reads [index->second] after
    [m_keys.erase(field)] has destroyed that node; [erased_node_value] is what
    the read yields for the value the node held. *)
Definition removeField (erased_node_value : nat -> nat) (m : Message)
    (field : option (list Z)) : outcome (bool * Message) :=
  match field with
  | None => Ok (false, m)
  | Some k =>
      match m_keys m !! k with
      | None => Ok (false, m)
      | Some i =>
          let keys := delete k (m_keys m) in
          let it := erased_node_value i in
          if (it <? length (m_payload m))%nat
          then Ok (true, set_fields m (take it (m_payload m) ++ drop (S it) (m_payload m)) keys)
          else undefined OutOfBounds
      end
  end.

(** ** The index invariant *)

(** [m_keys] is exactly the index of [m_payload] by identifier; in particular
    identifiers are distinct. *)
Definition keyed (m : Message) : Prop :=
  forall k i, m_keys m !! k = Some i <->
    exists f, m_payload m !! i = Some f /\ identifier f = k.

Lemma keyed_new : keyed Message_new.
Proof.
  intros k i. simpl. split; [by rewrite lookup_empty|]. intros (f & Hf & _).
  by rewrite lookup_nil in Hf.
Qed.

Lemma keyed_lookup m k i :
  keyed m -> m_keys m !! k = Some i -> exists f, m_payload m !! i = Some f /\ identifier f = k.
Proof. intros K Hk. by apply K. Qed.

Lemma keyed_absent m k f i :
  keyed m -> m_keys m !! k = None -> m_payload m !! i = Some f -> identifier f <> k.
Proof. intros K Hk Hf E. assert (m_keys m !! k = Some i) by (apply K; eauto). congruence. Qed.

Lemma keyed_inj m i j f g :
  keyed m -> m_payload m !! i = Some f -> m_payload m !! j = Some g ->
  identifier f = identifier g -> i = j.
Proof.
  intros K Hf Hg E.
  assert (m_keys m !! identifier f = Some i) by (apply K; eauto).
  assert (m_keys m !! identifier f = Some j) by (apply K; eauto). congruence.
Qed.

Lemma insert_field_keyed m e : keyed m -> keyed (insert_field m e).2.
Proof.
  intros K. unfold insert_field. destruct (m_keys m !! identifier e) as [j|] eqn:Hk; [done|].
  intros k i. destruct m as [ha fl su p ks]. simpl in *.
  destruct (decide (identifier e = k)) as [<-|Hne].
  - rewrite lookup_insert_eq. split.
    + intros [= <-]. exists e. rewrite lookup_app_r, Nat.sub_diag by lia. done.
    + intros (f & Hf & E). f_equal.
      destruct (decide (i < length p)%nat) as [Hlt|Hge].
      * rewrite lookup_app_l in Hf by done. by destruct (keyed_absent _ _ _ _ K Hk Hf).
      * apply lookup_lt_Some in Hf. rewrite length_app in Hf. simpl in Hf. lia.
  - rewrite lookup_insert_ne by done. rewrite (K k i). simpl. split; intros (f & Hf & E).
    + exists f. rewrite lookup_app_l by (by eapply lookup_lt_Some). done.
    + exists f. destruct (decide (i < length p)%nat) as [Hlt|Hge].
      * by rewrite lookup_app_l in Hf.
      * rewrite lookup_app_r in Hf by lia. apply list_lookup_singleton_Some in Hf as [_ <-]. done.
Qed.

(** An identifier is accepted exactly when it is not in the message yet. *)
Lemma insert_field_result m e :
  (insert_field m e).1 = true <-> m_keys m !! identifier e = None.
Proof. unfold insert_field. by destruct (m_keys m !! identifier e). Qed.

(** What a look-up finds after an insertion. *)
Lemma insert_field_lookup m e k :
  keyed m -> m_keys m !! identifier e = None ->
  (i ← m_keys (insert_field m e).2 !! k; m_payload (insert_field m e).2 !! i) =
  if decide (k = identifier e) then Some e else (i ← m_keys m !! k; m_payload m !! i).
Proof.
  intros K Hk. unfold insert_field. rewrite Hk. destruct m as [ha fl su p ks]. simpl in *.
  case_decide as E.
  - subst k. rewrite lookup_insert_eq. simpl.
    by rewrite lookup_app_r, Nat.sub_diag by lia.
  - rewrite lookup_insert_ne by done. destruct (ks !! k) as [i|] eqn:Hi; [|done]. simpl.
    destruct (keyed_lookup _ _ _ K Hi) as (f & Hf & _). simpl in Hf.
    rewrite lookup_app_l by (by eapply lookup_lt_Some). done.
Qed.

(** ** Adding and reading fields *)

Section add_get.
Context `{Platform}.

Lemma readScalar_at_write n v rest :
  readScalar_at (take n (writeScalar_bytes n v ++ rest)) = wrap (8 * Z.of_nat n) v.
Proof.
  unfold writeScalar_bytes. rewrite obj_repr_endianScalar.
  rewrite take_app_len by by rewrite length_le_bytes.
  unfold readScalar_at. rewrite endianScalar_obj_value by apply le_bytes_is_byte.
  by rewrite le_val_le_bytes, pow256.
Qed.

Lemma scalar_get_new id t v f :
  ctype_range t v -> ScalarField_new id t v = Ok f ->
  exists hd raw, f = ScalarField hd raw /\ m_identifier hd = id /\ scalar_get hd raw t = Ok v.
Proof.
  intros Hr Hf. unfold ScalarField_new, Field_new in Hf.
  destruct (_ <? _)%nat; [|done]. cbn -[writeScalar_bytes replicate] in Hf. inv_bind.
  do 2 eexists. split; [done|]. split; [done|]. unfold scalar_get. cbn -[readScalar_at].
  rewrite Z.eqb_refl. cbn -[readScalar_at]. rewrite readScalar_at_write.
  by rewrite ctype_value_wrap.
Qed.

Lemma ScalarField_new_ok id t v :
  (length id < 256)%nat -> exists f, ScalarField_new id t v = Ok f.
Proof.
  intros Hl. unfold ScalarField_new, Field_new.
  destruct (Nat.ltb_spec (length id) 256); [simpl; eauto|lia].
Qed.

(** [getScalarField] through the field that a look-up finds. *)
Lemma getScalarField_found m k t :
  keyed m -> getScalarField m (Some k) t =
  match (i ← m_keys m !! k; m_payload m !! i) with
  | Some (ScalarField hd raw) => v ← scalar_get hd raw t; Ok (Some v)
  | Some f => _ ← assert_ (type f =? storage_type_value (field_traits_type t));
              undefined TypeConfusion
  | None => Ok None
  end.
Proof.
  intros K. unfold getScalarField, payload_at.
  destruct (m_keys m !! k) as [i|] eqn:Hi; [|done]. cbn.
  destruct (keyed_lookup _ _ _ K Hi) as (f & -> & _). cbn. by destruct f.
Qed.

(** A scalar field that is added reads back; the other fields stay. *)
Lemma add_scalar_spec m field t v :
  keyed m -> m_keys m !! field = None -> (length field < 256)%nat -> ctype_range t v ->
  exists m', addScalarField m field t v = Ok (true, m') /\ keyed m' /\
    getScalarField m' (Some field) t = Ok (Some v) /\
    forall k t', k <> field -> getScalarField m' (Some k) t' = getScalarField m (Some k) t'.
Proof.
  intros K Hk Hl Hr. destruct (ScalarField_new_ok field t v Hl) as [f Hf].
  destruct (scalar_get_new _ _ _ _ Hr Hf) as (hd & raw & -> & Hid & Hget).
  unfold addScalarField. rewrite Hf. cbn -[getScalarField insert_field].
  assert (m_keys m !! identifier (ScalarField hd raw) = None) as Hk' by (by rewrite <- Hid in Hk).
  pose proof (insert_field_keyed m (ScalarField hd raw) K) as K'.
  exists (insert_field m (ScalarField hd raw)).2. split; [|split; [done|split]].
  - apply insert_field_result in Hk'. destruct (insert_field _ _). simpl in *. by subst.
  - rewrite (getScalarField_found _ _ _ K'), insert_field_lookup by done.
    rewrite decide_True by done. by rewrite Hget.
  - intros k t' Hne. rewrite (getScalarField_found _ _ _ K'), insert_field_lookup by done.
    rewrite decide_False by (unfold identifier; simpl; congruence).
    by rewrite (getScalarField_found _ _ _ K).
Qed.

(** A scalar field that is added under a new identifier is accepted, reads
    back with exactly the value added (for every scalar type and every value of
    that type), keeps the index of the message consistent and does not change
    what any other identifier reads. *)
Theorem add_get_scalar m field t v :
  keyed m -> m_keys m !! field = None -> (length field < 256)%nat -> ctype_range t v ->
  exists m', addScalarField m field t v = Ok (true, m') /\ keyed m' /\
    getScalarField m' (Some field) t = Ok (Some v) /\
    forall k t', k <> field -> getScalarField m' (Some k) t' = getScalarField m (Some k) t'.
Proof. apply add_scalar_spec. Qed.

End add_get.

Lemma add_get_scalar_witness :
  exists m', @addScalarField false Message_new (bytes_of_string "age") T_int16 (-21) = Ok (true, m') /\
    @getScalarField false m' (Some (bytes_of_string "age")) T_int16 = Ok (Some (-21)).
Proof.
  destruct (@add_get_scalar false Message_new (bytes_of_string "age") T_int16 (-21))
    as (m' & Ha & _ & Hg & _).
  - apply keyed_new.
  - vm_compute. reflexivity.
  - vm_compute. lia.
  - unfold ctype_range. simpl. lia.
  - exists m'. split; [exact Ha|exact Hg].
Defined.

(** ** Removing fields *)

Lemma removeField_found ev m k i :
  m_keys m !! k = Some i -> ev i = i -> (i < length (m_payload m))%nat ->
  removeField ev m (Some k) =
    Ok (true, set_fields m (take i (m_payload m) ++ drop (S i) (m_payload m)) (delete k (m_keys m))).
Proof.
  intros Hk Hev Hi. unfold removeField. rewrite Hk. cbv zeta. rewrite Hev.
  by rewrite (proj2 (Nat.ltb_lt _ _) Hi).
Qed.

(** Removal keeps the stored index of every other field. *)
Lemma removed_keys m k i k' :
  m_keys (set_fields m (take i (m_payload m) ++ drop (S i) (m_payload m)) (delete k (m_keys m))) !! k'
  = if decide (k = k') then None else m_keys m !! k'.
Proof.
  simpl. case_decide as E; [subst; apply lookup_delete_eq|]. by rewrite lookup_delete_ne.
Qed.

(** The removal of the last field keeps the index consistent. *)
Lemma removed_last_keyed m k i : keyed m -> m_keys m !! k = Some i -> S i = length (m_payload m) ->
  keyed (set_fields m (take i (m_payload m) ++ drop (S i) (m_payload m)) (delete k (m_keys m))).
Proof.
  intros K Hk Hlast. destruct (keyed_lookup _ _ _ K Hk) as (f & Hf & <-).
  pose proof (lookup_lt_Some _ _ _ Hf) as Hlt. intros k' j.
  rewrite removed_keys. simpl. rewrite drop_ge, app_nil_r by lia.
  case_decide as E.
  + subst k'. split; [done|]. intros (g & Hg & Hgid). exfalso.
    apply lookup_take_Some in Hg as [Hg Hlt']. pose proof (keyed_inj _ _ _ _ _ K Hg Hf Hgid). lia.
  + rewrite (K k' j). split; intros (g & Hg & Hgid); exists g; (split; [|done]).
    * rewrite lookup_take_lt; [done|]. apply lookup_lt_Some in Hg as Hj.
      destruct (decide (j = i)) as [->|]; [congruence|lia].
    * by apply lookup_take_Some in Hg as [Hg _].
Qed.

(** [removeField] of a field in a consistently indexed message keeps the
    index consistent exactly when the field is the last one: the indices of the
    fields behind it are not adjusted (on a platform where the erased node
    still holds its value). *)
Theorem removeField_keyed_iff ev m k i m' :
  (forall n, ev n = n) -> keyed m -> m_keys m !! k = Some i ->
  removeField ev m (Some k) = Ok (true, m') ->
  (keyed m' <-> S i = length (m_payload m)).
Proof.
  intros Hev K Hk Hrm. destruct (keyed_lookup _ _ _ K Hk) as (f & Hf & Hid).
  pose proof (lookup_lt_Some _ _ _ Hf) as Hlt.
  rewrite (removeField_found _ _ _ _ Hk (Hev i) Hlt) in Hrm. inv_bind. split.
  - intros K'. destruct (decide (S i = length (m_payload m))) as [|Hne]; [done|]. exfalso.
    destruct (lookup_lt_is_Some_2 (m_payload m) (S i) ltac:(lia)) as [g Hg].
    assert (identifier g <> identifier f) as Hd.
    { intros E. pose proof (keyed_inj _ _ _ _ _ K Hg Hf E). lia. }
    assert (m_keys m !! identifier g = Some (S i)) as Hgk by (apply K; eauto).
    assert (m_payload (set_fields m (take i (m_payload m) ++ drop (S i) (m_payload m))
              (delete (identifier f) (m_keys m))) !! i = Some g) as Hi.
    { simpl. rewrite lookup_app_r by (rewrite length_take; lia).
      rewrite length_take, lookup_drop. replace (S i + _)%nat with (S i) by lia. done. }
    assert (m_keys (set_fields m (take i (m_payload m) ++ drop (S i) (m_payload m))
              (delete (identifier f) (m_keys m))) !! identifier g = Some i) as Hbad
      by (apply K'; eauto).
    rewrite removed_keys, decide_False in Hbad by congruence. rewrite Hgk in Hbad.
    injection Hbad. lia.
  - intros Hlast. by eapply (removed_last_keyed m (identifier f)).
Qed.
