(* ===== verification/Codec.v ===== *)
(** * Codec: the wire format

    src/fastpath/messages/MessageCodec.h, with the [encode] functions of the
    field classes and MessageField.cpp.  Section [reference] defines the wire
    format as pure functions; the theorems relate the code, which writes
    through a growing storage and patches lengths through saved pointers, to
    them. *)
From S2P Require Import Prelude Heap ByteStorage MessageBuffer Types Field Message.

Definition addressing_flag : Z := 1.
Definition body_flag : Z := 2.

(** The layout structs are declared again inside [MessageCodec]. *)
Definition codec_msg_length_offset : Z := 1 + 8.
Definition codec_addressing_size : Z := 1 + 8 + 1 + 4 + 2.
Definition codec_header_size : Z := 1 + 4.
Definition codec_field_size : Z := 1 + 1 + 4.

Inductive MessageDecodeStatus := CompleteMessage | IncompleteMessage | CorruptMessage.
#[export] Instance MessageDecodeStatus_eq_dec : EqDecision MessageDecodeStatus.
Proof. solve_decision. Defined.

Section codec.
Context `{Platform}.

(** ** Encoding *)

(** The loop over [msg->m_payload]. *)
Definition encode_payload
    (enc : heap -> ByteStorage -> Field -> outcome (Z * ByteStorage * heap))
    : list Field -> heap -> ByteStorage -> Z -> outcome (Z * ByteStorage * heap) :=
  fix go l h b msgLength :=
    match l with
    | [] => Ok (msgLength, b, h)
    | f :: l => '(n, b, h) ← enc h b f; go l h b (u64 (msgLength + n))
    end.

(** [MessageCodec::encode(const BaseMessage *, buffer)] *)
Definition encode_body
    (enc : heap -> ByteStorage -> Field -> outcome (Z * ByteStorage * heap))
    (payload : list Field) (h : heap) (b : ByteStorage) : outcome (Z * ByteStorage * heap) :=
  '(b, h) ← appendScalar h b 1 body_flag;
  '(b, h) ← appendScalar h b 4 (u32 (Z.of_nat (length payload)));
  encode_payload enc payload h b codec_header_size.

(** [Field::encode(buffer)], the virtual function: one branch per class. *)
Fixpoint Field_encode (h : heap) (b : ByteStorage) (f : Field)
    : outcome (Z * ByteStorage * heap) :=
  match f with
  | ScalarField hd raw =>
      Field_encode_data h b hd (take (Z.to_nat (m_data_length hd)) raw)
  | SmallDataField hd st =>
      Field_encode_data h b hd (take (Z.to_nat (m_data_length hd)) st)
  | LargeDataField hd st => Field_encode_data h b hd st
  | DateTimeField hd s u => Field_encode_data h b hd (obj_repr 8 s ++ obj_repr 8 u)
  | MessageField hd (mkMessage _ _ _ payload _) =>
      '(b, h) ← appendScalar h b 1 (m_type hd);
      let identifier_length := Z.of_nat (length (m_identifier hd)) in
      '(b, h) ← appendScalar h b 1 identifier_length;
      '(data_len_ptr, b, h) ← allocate h b 4;
      '(b, h) ← append h b (m_identifier hd);
      '(data_length, b, h) ← encode_body Field_encode payload h b;
      h ← writeScalar h data_len_ptr 4 data_length;
      Ok (MsgField_size + identifier_length + data_length, b, h)
  end.

Definition encode_base (m : Message) (h : heap) (b : ByteStorage)
    : outcome (Z * ByteStorage * heap) :=
  encode_body Field_encode (m_payload m) h b.

(** [MessageCodec::encode(const Message *, buffer)] *)
Definition encode (m : Message) (h : heap) (b : ByteStorage)
    : outcome (Z * ByteStorage * heap) :=
  let addressing_size := codec_addressing_size in
  '(b, h) ← appendScalar h b 1 addressing_flag;
  '(length_ptr, b, h) ← allocate h b 8;
  '(b, h) ← appendScalar h b 1 (m_flags m);
  '(b, h) ← appendScalar h b 4 0;
  let subject_length := Z.of_nat (length (m_subject m)) + 1 in
  '(b, h) ← appendScalar h b 2 subject_length;
  '(b, h) ← append h b (m_subject m ++ [0]);
  let addressing_size := addressing_size + subject_length in
  '(n, b, h) ← encode_base m h b;
  let total_len := u64 (addressing_size + n) in
  h ← writeScalar h length_ptr 8 (u64 (total_len - codec_msg_length_offset));
  Ok (total_len, b, h).

(** ** Decoding *)

(** [have_complete_message(buffer, msg_length)]: the status, and the message
    length when the header was complete. *)
Definition have_complete_message (h : heap) (b : ByteStorage)
    : outcome (MessageDecodeStatus * option Z) :=
  rem ← remainingReadLength b;
  if codec_addressing_size <=? rem then
    chk ← load h (readBytes b) 1;
    if negb (readScalar_at chk =? addressing_flag) then Ok (CorruptMessage, None)
    else
      len ← load h (advance (readBytes b) 1) 8;
      let msg_length := u64 (readScalar_at len + codec_msg_length_offset) in
      rem ← remainingReadLength b;
      if msg_length <=? rem then Ok (CompleteMessage, Some msg_length)
      else Ok (IncompleteMessage, Some msg_length)
  else Ok (IncompleteMessage, None).

(** What [addressing_details] writes to its reference parameters when the
    status is [CompleteMessage]. *)
Record Addressing := mkAddressing {
  a_subject : ptr; a_subject_length : Z; a_flags : Z; a_msg_length : Z
}.

Definition addressing_details (h : heap) (b : ByteStorage)
    : outcome (MessageDecodeStatus * option Addressing * ByteStorage) :=
  '(status, len) ← have_complete_message h b;
  match status, len with
  | CompleteMessage, Some msg_length =>
      let b := advanceRead b 1 in
      let b := advanceRead b 8 in
      flags ← load h (readBytes b) 1;
      let b := advanceRead b 1 in
      let b := advanceRead b 4 in
      sl ← load h (readBytes b) 2;
      let b := advanceRead b 2 in
      let subject := readBytes b in
      let b := advanceRead b (readScalar_at sl) in
      Ok (status,
          Some (mkAddressing subject (readScalar_at sl) (readScalar_at flags) msg_length), b)
  | _, _ => Ok (status, None, b)
  end.

(** [decode(BaseMessage *, buffer)], with the field loop as a parameter: the
    return value, the message and the buffer. *)
Definition decode_base_with
    (loop : Z -> bool -> Message -> ByteStorage -> outcome (bool * Message * ByteStorage))
    (h : heap) (m : Message) (b : ByteStorage) : outcome (bool * Message * ByteStorage) :=
  _ ← assert_ (0 <? length_ b);
  rem ← remainingReadLength b;
  if codec_header_size <? rem then
    '(chk, b) ← readScalar h b 1;
    if negb (chk =? body_flag) then throw FpException
    else
      '(field_count, b) ← readScalar h b 4;
      loop field_count false m b
  else Ok (false, m, b).

(** [m_keys.insert(...)], which keeps an existing entry, and [emplace_back]. *)
Definition decoded_field (m : Message) (f : Field) : Message :=
  set_fields m (m_payload m ++ [f])
    (match m_keys m !! identifier f with
     | Some _ => m_keys m
     | None => <[identifier f := length (m_payload m)]> (m_keys m)
     end).

(** The field loop: [n] fields to go.  One unit of fuel per field, nested
    fields included. *)
Fixpoint decode_fields (fuel : nat) (h : heap) (n : Z) (success : bool) (m : Message)
    (b : ByteStorage) : outcome (bool * Message * ByteStorage) :=
  if n <=? 0 then Ok (success, m, b) else
  match fuel with
  | O => Err OutOfFuel
  | S fuel =>
      '(type, _, data_size) ← peek_field_header h b;
      '(field, b) ←
        (if (type =? storage_type_value string_) || (type =? storage_type_value data) then
           createDataField_read h b data_size
         else if type =? storage_type_value date_time then
           DateTimeField_read h b
         else if type =? storage_type_value message_ then
           (* MessageField(buffer): the result of the inner decode is dropped
              and m_data_length is reset *)
           '(hd, b) ← Field_read h b;
           '(_, inner, b) ← decode_base_with (decode_fields fuel h) h Message_new b;
           Ok (MessageField (mkFieldHeader (m_identifier hd) (m_type hd) 0) inner, b)
         else
           ScalarField_read h b);
      decode_fields fuel h (n - 1) true (decoded_field m field) b
  end.

Definition decode_base (fuel : nat) (h : heap) (m : Message) (b : ByteStorage)
    : outcome (bool * Message * ByteStorage) :=
  decode_base_with (decode_fields fuel h) h m b.

(** [std::copy(subject, &subject[subject_length], msg->m_subject)].  [m_subject]
    is modelled up to its first NUL; without a NUL among the bytes copied the
    text runs on into whatever the array held behind them. *)
Definition copy_subject (m : Message) (subject : list Z) : outcome Message :=
  if bool_decide (0 ∈ subject) then Ok (set_subject m (cstr subject))
  else if bool_decide (subject = []) then Ok m
  else undefined IndeterminateRead.

(** [decode(Message *, buffer)] *)
Definition decode (fuel : nat) (h : heap) (m : Message) (b : ByteStorage)
    : outcome (bool * Message * ByteStorage) :=
  '(status, a, b) ← addressing_details h b;
  match status, a with
  | CompleteMessage, Some a =>
      subject ← load h (a_subject a) (a_subject_length a);
      m ← copy_subject (set_flags m (a_flags a)) subject;
      decode_base fuel h m b
  | CorruptMessage, _ => throw FpException
  | _, _ => Ok (false, m, b)
  end.
End codec.

(** ** The wire format *)

Section reference.

(** Header of a field with [n] bytes of data. *)
Definition wire_header (hd : FieldHeader) (n : nat) : list Z :=
  le_bytes 1 (m_type hd) ++ le_bytes 1 (Z.of_nat (length (m_identifier hd)))
  ++ le_bytes 4 (Z.of_nat n) ++ m_identifier hd.

Definition wire_body_header (n : nat) : list Z :=
  le_bytes 1 body_flag ++ le_bytes 4 (Z.of_nat n).

Fixpoint wire_field (f : Field) : list Z :=
  match f with
  | ScalarField hd raw =>
      let d := take (Z.to_nat (m_data_length hd)) raw in wire_header hd (length d) ++ d
  | SmallDataField hd st =>
      let d := take (Z.to_nat (m_data_length hd)) st in wire_header hd (length d) ++ d
  | LargeDataField hd st => wire_header hd (length st) ++ st
  | DateTimeField hd s u => wire_header hd 16 ++ le_bytes 8 s ++ le_bytes 8 u
  | MessageField hd (mkMessage _ _ _ payload _) =>
      let d := wire_body_header (length payload) ++ concat (wire_field <$> payload) in
      wire_header hd (length d) ++ d
  end.

Definition wire_body (payload : list Field) : list Z :=
  wire_body_header (length payload) ++ concat (wire_field <$> payload).

Definition wire_addressing_tail (m : Message) : list Z :=
  le_bytes 1 (m_flags m) ++ le_bytes 4 0
  ++ le_bytes 2 (Z.of_nat (length (m_subject m)) + 1) ++ m_subject m ++ [0].

(** The bytes after the length word, which the length word counts. *)
Definition wire_counted (m : Message) : list Z :=
  wire_addressing_tail m ++ wire_body (m_payload m).

Definition wire_message (m : Message) : list Z :=
  le_bytes 1 addressing_flag ++ le_bytes 8 (Z.of_nat (length (wire_counted m)))
  ++ wire_counted m.
End reference.
Arguments wire_body : simpl never.
Arguments wire_header : simpl never.
Arguments wire_addressing_tail : simpl never.
Arguments wire_counted : simpl never.
Arguments wire_message : simpl never.

(** ** Induction over nested messages *)

Fixpoint Field_ind_nested (P : Field -> Prop)
    (Hs : forall hd raw, P (ScalarField hd raw))
    (Hsm : forall hd st, P (SmallDataField hd st))
    (Hl : forall hd st, P (LargeDataField hd st))
    (Hd : forall hd s u, P (DateTimeField hd s u))
    (Hm : forall hd ha fl su p ks, Forall P p -> P (MessageField hd (mkMessage ha fl su p ks)))
    (f : Field) : P f :=
  match f with
  | ScalarField hd raw => Hs hd raw
  | SmallDataField hd st => Hsm hd st
  | LargeDataField hd st => Hl hd st
  | DateTimeField hd s u => Hd hd s u
  | MessageField hd (mkMessage ha fl su p ks) =>
      Hm hd ha fl su p ks
        ((fix go (l : list Field) : Forall P l :=
            match l with
            | [] => Forall_nil_2 P
            | f :: l => Forall_cons_2 P f l (Field_ind_nested P Hs Hsm Hl Hd Hm f) (go l)
            end) p)
  end.

(** ** Encoding refines the wire format *)

(** The result of an encoding step that writes [w] and returns [n]: the bytes
    are in the storage, or the step has stored through a pointer into a freed
    block, which happens only when [w] did not fit. *)
Definition writes (h : heap) (blk : positive) (pre spare : cells) (w : list Z) (n : Z)
    (res : outcome (Z * ByteStorage * heap)) : Prop :=
  (exists b' h' blk' spare', res = Ok (n, b', h') /\
     extends h blk pre spare (Some <$> w) b' h' blk' spare') \/
  (res = undefined UseAfterFree /\ (length spare < length w)%nat).

Arguments writes : simpl never.

Lemma writes_bind h blk pre spare w1 w2 n b1 h1 blk1 spare1 res :
  extends h blk pre spare (Some <$> w1) b1 h1 blk1 spare1 ->
  writes h1 blk1 (pre ++ (Some <$> w1)) spare1 w2 n res ->
  writes h blk pre spare (w1 ++ w2) n res.
Proof.
  intros E1 [(b2 & h2 & blk2 & spare2 & -> & E2)|[-> Hl]].
  - left. do 4 eexists. split; [done|]. rewrite fmap_app. by eapply extends_trans.
  - right. split; [done|]. rewrite length_app. destruct E1 as [_ _ Hf _].
    rewrite !length_fmap in Hf. destruct (decide (length w1 <= length spare)%nat) as [Hle|]; [|lia].
    destruct (Hf Hle). lia.
Qed.

(** The rule for one [append] in front of a continuation. *)
Lemma writes_append h b blk pre spare bs w n k :
  mut_rep h b blk pre spare -> Z.of_nat (length pre + length bs) <= max_stored ->
  (forall b1 h1 blk1 spare1, mut_rep h1 b1 blk1 (pre ++ (Some <$> bs)) spare1 ->
     writes h1 blk1 (pre ++ (Some <$> bs)) spare1 w n (k (b1, h1))) ->
  writes h blk pre spare (bs ++ w) n (append h b bs ≫= k).
Proof.
  intros R Hmax Hk. destruct (append_extends _ _ _ _ _ _ R Hmax) as (b1 & h1 & blk1 & sp1 & -> & E).
  eapply writes_bind; [exact E|]. apply Hk, E.
Qed.

(** The end of an encoding step. *)
Lemma writes_nil h b blk pre spare n :
  mut_rep h b blk pre spare -> writes h blk pre spare [] n (Ok (n, b, h)).
Proof.
  intros R. left. exists b, h, blk, spare. split; [done|].
  split; simpl; [by rewrite app_nil_r|done|lia|lia].
Qed.

(** *** Saved pointers: [allocate], write more, then store through the pointer *)

(** Storing [val] over the cells reserved by [allocate], when the storage still
    is in the block it was in then. *)
Lemma patch_in_place h b blk pre new w spare val :
  mut_rep h b blk ((pre ++ new) ++ (Some <$> w)) spare -> length new = length val ->
  exists h', store h (Ptr blk (Z.of_nat (length pre))) val = Ok h' /\
    mut_rep h' b blk (pre ++ (Some <$> (val ++ w))) spare /\
    (forall k, dead h k -> dead h' k).
Proof.
  intros R Hl. eexists. split; [|split].
  - eapply store_middle; [|done|done]. rewrite (mr_block _ _ _ _ _ R), <- !app_assoc. done.
  - rewrite fmap_app, !app_assoc. apply (overwrite_rep _ _ _ _ _ _ R).
    rewrite !length_app, !length_fmap. lia.
  - intros k Hk. apply set_block_dead; [|done]. intros E. by apply (dead_live _ _ _ _ _ _ R Hk).
Qed.

(** The continuation of an [allocate] whose result [p] is stored through at
    the end: it writes [w], then stores [val]. *)
Definition patches (pre : cells) (n : nat) (w val : list Z) (r : Z)
    (k : ptr -> ByteStorage -> heap -> outcome (Z * ByteStorage * heap)) : Prop :=
  forall b1 h1 blk1 new spare1, length new = n -> mut_rep h1 b1 blk1 (pre ++ new) spare1 ->
  (exists b2 h2 blk2 spare2,
     extends h1 blk1 (pre ++ new) spare1 (Some <$> w) b2 h2 blk2 spare2 /\
     k (Ptr blk1 (Z.of_nat (length pre))) b1 h1
       = (h3 ← store h2 (Ptr blk1 (Z.of_nat (length pre))) val; Ok (r, b2, h3))) \/
  (k (Ptr blk1 (Z.of_nat (length pre))) b1 h1 = undefined UseAfterFree /\
   (length spare1 < length w)%nat).

Lemma patches_fits pre n w val r k b1 h1 blk1 new spare1 :
  patches pre n w val r k -> length new = n -> length val = n ->
  mut_rep h1 b1 blk1 (pre ++ new) spare1 -> (length w <= length spare1)%nat ->
  exists b3 h3 spare3, k (Ptr blk1 (Z.of_nat (length pre))) b1 h1 = Ok (r, b3, h3) /\
    mut_rep h3 b3 blk1 (pre ++ (Some <$> (val ++ w))) spare3 /\
    (length spare3 + length w = length spare1)%nat /\ (forall k, dead h1 k -> dead h3 k).
Proof.
  intros Hp Hn Hv R1 Hw. destruct (Hp _ _ _ _ _ Hn R1) as [(b2 & h2 & blk2 & sp2 & E & ->)|[_ Hl]];
    [|lia].
  destruct E as [R2 Hk2 Hf2 Hm2]. rewrite !length_fmap in Hf2. destruct (Hf2 Hw) as [-> Hl2].
  destruct (patch_in_place _ _ _ _ _ _ _ val R2 ltac:(lia)) as (h3 & -> & R3 & Hk3).
  do 3 eexists. split; [done|]. split; [exact R3|]. split; [done|auto].
Qed.

Lemma patches_moves pre n w val r k b1 h1 blk1 new spare1 :
  patches pre n w val r k -> length new = n -> val <> [] ->
  mut_rep h1 b1 blk1 (pre ++ new) spare1 -> (length spare1 < length w)%nat ->
  k (Ptr blk1 (Z.of_nat (length pre))) b1 h1 = undefined UseAfterFree.
Proof.
  intros Hp Hn Hv R1 Hw. destruct (Hp _ _ _ _ _ Hn R1) as [(b2 & h2 & blk2 & sp2 & E & ->)|[-> _]];
    [|done].
  destruct E as [_ _ _ Hm2]. rewrite length_fmap in Hm2.
  by rewrite (store_dead _ _ _ _ (Hm2 Hw) Hv).
Qed.

Lemma writes_patch h b blk pre spare n w val r k :
  mut_rep h b blk pre spare -> Z.of_nat (length pre + n) <= max_stored ->
  length val = n -> (0 < n)%nat -> patches pre n w val r k ->
  writes h blk pre spare (val ++ w) r ('(p, b, h) ← allocate h b (Z.of_nat n); k p b h).
Proof.
  intros R Hmax Hv Hn Hp.
  destruct (allocate_extends _ _ _ _ _ (Z.of_nat n) R ltac:(lia) ltac:(lia))
    as (b1 & h1 & blk1 & new & spare1 & Hnew & -> & [R1 Hk1 Hf1 Hm1]). cbn.
  rewrite Nat2Z.id in Hnew. destruct (decide (length w <= length spare1)%nat) as [Hw|Hw].
  - destruct (patches_fits _ _ _ _ _ _ _ _ _ _ _ Hp Hnew Hv R1 Hw)
      as (b3 & h3 & sp3 & -> & R3 & Hl3 & Hk3).
    left. do 4 eexists. split; [done|]. split; [exact R3|auto| |].
    + rewrite length_fmap, length_app. intros Hle. destruct (Hf1 ltac:(lia)) as [-> ?].
      split; [done|lia].
    + rewrite length_fmap, length_app. intros Hgt. apply Hk3, Hm1.
      destruct (decide (length new <= length spare)%nat) as [Hle|]; [|lia].
      destruct (Hf1 Hle). lia.
  - right. split.
    + eapply patches_moves; [done|done| |done|lia]. destruct val; simpl in *; [lia|done].
    + rewrite length_app. destruct (decide (length new <= length spare)%nat) as [Hle|]; [|lia].
      destruct (Hf1 Hle). lia.
Qed.

(** *** Fields *)

Section encode_proofs.
Context `{Platform} (little_endian : big_endian = false).

(** Chain [append]s: one step of an encoder. *)
Ltac enc_step := rewrite ?appendScalar_append; eapply writes_append;
  [eassumption|rewrite ?length_app, ?length_fmap, ?length_le_bytes in *; lia|];
  intros; cbn -[append allocate writeScalar le_bytes wrap].

Lemma Field_encode_data_writes h b blk pre spare hd dat :
  mut_rep h b blk pre spare ->
  Z.of_nat (length pre + length (wire_header hd (length dat) ++ dat)) <= max_stored ->
  writes h blk pre spare (wire_header hd (length dat) ++ dat)
    (Z.of_nat (length (wire_header hd (length dat) ++ dat))) (Field_encode_data h b hd dat).
Proof.
  intros R Hmax.
  assert (Z.of_nat (length (wire_header hd (length dat) ++ dat)) =
    MsgField_size + Z.of_nat (length (m_identifier hd)) + Z.of_nat (length dat)) as ->.
  { unfold wire_header, MsgField_size. lens. }
  unfold wire_header in *. rewrite <- !app_assoc in *.
  unfold Field_encode_data. rewrite !length_app, !length_le_bytes in Hmax.
  do 4 enc_step. rewrite <- (app_nil_r dat) at 2. enc_step. by apply writes_nil.
Qed.

(** What encoding one field has to do. *)
Definition encodes (f : Field) : Prop := forall h b blk pre spare,
  mut_rep h b blk pre spare ->
  Z.of_nat (length pre + length (wire_field f)) <= max_stored ->
  writes h blk pre spare (wire_field f) (Z.of_nat (length (wire_field f))) (Field_encode h b f).

Lemma encode_payload_writes l : forall h b blk pre spare acc,
  Forall encodes l -> mut_rep h b blk pre spare -> 0 <= acc ->
  acc + Z.of_nat (length (concat (wire_field <$> l))) < 2 ^ 60 ->
  Z.of_nat (length pre + length (concat (wire_field <$> l))) <= max_stored ->
  writes h blk pre spare (concat (wire_field <$> l))
    (acc + Z.of_nat (length (concat (wire_field <$> l))))
    (encode_payload Field_encode l h b acc).
Proof.
  induction l as [|f l IH]; intros h b blk pre spare acc Hall R Hacc Hlt Hmax.
  - simpl. rewrite Z.add_0_r. by apply writes_nil.
  - apply Forall_cons in Hall as [Hf Hl]. rewrite fmap_cons in *. cbn [concat encode_payload] in *.
    rewrite length_app in Hmax, Hlt.
    destruct (Hf _ _ _ _ _ R ltac:(lia)) as [(b1 & h1 & blk1 & sp1 & -> & E)|[-> Hshort]].
    2:{ right. split; [done|]. rewrite length_app. lia. }
    eapply writes_bind; [exact E|]. cbn -[encode_payload].
    rewrite wrap_small, length_app by lia.
    rewrite Nat2Z.inj_add, Z.add_assoc. apply IH; [done|apply E|lia|lia|].
    rewrite length_app, length_fmap. lia.
Qed.

Lemma le_bytes_u32 v : le_bytes 4 (u32 v) = le_bytes 4 v.
Proof. apply (le_bytes_mod 4). Qed.

Lemma length_wire_body l :
  length (wire_body l) = (5 + length (concat (wire_field <$> l)))%nat.
Proof. unfold wire_body, wire_body_header. lens. Qed.

Lemma encode_body_writes l h b blk pre spare :
  Forall encodes l -> mut_rep h b blk pre spare ->
  Z.of_nat (length pre + length (wire_body l)) <= max_stored ->
  writes h blk pre spare (wire_body l) (Z.of_nat (length (wire_body l)))
    (encode_body Field_encode l h b).
Proof.
  intros Hall R Hmax. rewrite length_wire_body in *.
  rewrite Nat2Z.inj_add. change (Z.of_nat 5) with codec_header_size.
  unfold wire_body, wire_body_header, encode_body. rewrite <- !app_assoc.
  enc_step. rewrite appendScalar_append, le_bytes_u32. enc_step. apply encode_payload_writes; try done.
  - unfold max_stored, codec_header_size in *. lia.
  - rewrite !length_app, !length_fmap, !length_le_bytes. lia.
Qed.

Lemma message_field_patches pre hd l :
  Forall encodes l ->
  Z.of_nat (length pre + 4 + length (m_identifier hd ++ wire_body l)) <= max_stored ->
  patches pre 4 (m_identifier hd ++ wire_body l) (le_bytes 4 (Z.of_nat (length (wire_body l))))
    (MsgField_size + Z.of_nat (length (m_identifier hd)) + Z.of_nat (length (wire_body l)))
    (fun p b h =>
      '(b, h) ← append h b (m_identifier hd);
      '(data_length, b, h) ← encode_body Field_encode l h b;
      h ← writeScalar h p 4 data_length;
      Ok (MsgField_size + Z.of_nat (length (m_identifier hd)) + data_length, b, h)).
Proof.
  intros Hall Hmax b1 h1 blk1 new spare1 Hnew R1. rewrite length_app in Hmax.
  destruct (append_extends _ _ _ _ _ (m_identifier hd) R1) as (b2 & h2 & blk2 & sp2 & -> & E2).
  { rewrite length_app. lia. }
  cbn -[encode_body writeScalar].
  destruct (encode_body_writes l _ _ _ _ _ Hall (ex_rep _ _ _ _ _ _ _ _ _ E2))
    as [(b3 & h3 & blk3 & sp3 & -> & E3)|[-> Hl]].
  { rewrite !length_app, length_fmap. lia. }
  - left. do 4 eexists. split; [|].
    + rewrite fmap_app. eapply extends_trans; [exact E2|exact E3].
    + cbn -[writeScalar]. unfold writeScalar, writeScalar_bytes.
      by rewrite obj_repr_endianScalar.
  - right. split; [done|]. rewrite length_app. destruct E2 as [_ _ Hf _].
    rewrite !length_fmap in Hf.
    destruct (decide (length (m_identifier hd) <= length spare1)%nat) as [Hle|]; [|lia].
    destruct (Hf Hle). lia.
Qed.

Lemma Field_encode_writes f : encodes f.
Proof.
  induction f as [hd raw|hd st|hd st|hd s u|hd ha fl su p ks IH] using Field_ind_nested;
    intros h b blk pre spare R Hmax; cbn [wire_field Field_encode] in *.
  1,2,3: by apply Field_encode_data_writes.
  - unfold obj_repr. rewrite little_endian.
    apply (Field_encode_data_writes h b blk pre spare hd (le_bytes 8 s ++ le_bytes 8 u)); [done|].
    exact Hmax.
  - change (wire_body_header (length p) ++ concat (wire_field <$> p)) with (wire_body p) in *.
    assert (Z.of_nat (length (wire_header hd (length (wire_body p)) ++ wire_body p)) =
      MsgField_size + Z.of_nat (length (m_identifier hd)) + Z.of_nat (length (wire_body p))) as ->.
    { unfold wire_header, MsgField_size. lens. }
    unfold wire_header in *. rewrite <- !app_assoc in *.
    rewrite !length_app, !length_le_bytes in Hmax. do 2 enc_step.
    eapply (writes_patch _ _ _ _ _ 4); [eassumption| |apply length_le_bytes|lia|].
    + rewrite !length_app, !length_fmap, !length_le_bytes. lia.
    + apply message_field_patches; [done|].
      rewrite !length_app, !length_fmap, !length_le_bytes. lia.
Qed.
(** *** Messages *)

Lemma payload_encodes l : Forall encodes l.
Proof. apply Forall_true. apply Field_encode_writes. Qed.

Lemma length_wire_counted m :
  length (wire_counted m) = (8 + length (m_subject m) + length (wire_body (m_payload m)))%nat.
Proof.
  unfold wire_counted, wire_addressing_tail. rewrite !length_app, !length_le_bytes. simpl. lia.
Qed.

Lemma length_wire_message m : length (wire_message m) = (9 + length (wire_counted m))%nat.
Proof. unfold wire_message. lens. Qed.

(** The part of [encode] after the length word has been reserved. *)
Definition encode_rest (m : Message) (length_ptr : ptr) (b : ByteStorage) (h : heap)
    : outcome (Z * ByteStorage * heap) :=
  '(b, h) ← appendScalar h b 1 (m_flags m);
  '(b, h) ← appendScalar h b 4 0;
  '(b, h) ← appendScalar h b 2 (Z.of_nat (length (m_subject m)) + 1);
  '(b, h) ← append h b (m_subject m ++ [0]);
  '(n, b, h) ← encode_base m h b;
  let total_len := u64 (codec_addressing_size + (Z.of_nat (length (m_subject m)) + 1) + n) in
  h ← writeScalar h length_ptr 8 (u64 (total_len - codec_msg_length_offset));
  Ok (total_len, b, h).

Lemma encode_eq m h b :
  encode m h b = ('(b, h) ← append h b (le_bytes 1 addressing_flag);
                  '(p, b, h) ← allocate h b (Z.of_nat 8); encode_rest m p b h).
Proof. unfold encode. by rewrite appendScalar_append. Qed.

(** One [append] of the addressing part, with the extension so far. *)
Lemma extends_append h blk pre spare w b1 h1 blk1 spare1 bs :
  extends h blk pre spare (Some <$> w) b1 h1 blk1 spare1 ->
  Z.of_nat (length pre + length w + length bs) <= max_stored ->
  exists b2 h2 blk2 spare2, append h1 b1 bs = Ok (b2, h2) /\
    extends h blk pre spare (Some <$> (w ++ bs)) b2 h2 blk2 spare2.
Proof.
  intros E Hmax. destruct (append_extends _ _ _ _ _ bs (ex_rep _ _ _ _ _ _ _ _ _ E))
    as (b2 & h2 & blk2 & sp2 & -> & E2).
  { rewrite length_app, length_fmap. lia. }
  do 4 eexists. split; [done|]. rewrite fmap_app. by eapply extends_trans.
Qed.

Lemma encode_rest_patches pre m :
  Z.of_nat (length pre + 8 + length (wire_counted m)) <= max_stored ->
  patches pre 8 (wire_counted m) (le_bytes 8 (Z.of_nat (length (wire_counted m))))
    (Z.of_nat (length (wire_message m))) (encode_rest m).
Proof.
  intros Hmax b1 h1 blk1 new spare1 Hnew R1.
  rewrite length_wire_message. pose proof (length_wire_counted m) as Hlen.
  assert (Z.of_nat (length pre + length new + length (wire_counted m)) <= max_stored) as Hmax'
    by lia. clear Hmax.
  destruct (append_extends _ _ _ _ _ (le_bytes 1 (m_flags m)) R1)
    as (b2 & h2 & blk2 & sp2 & Ha & E); [rewrite length_app, length_le_bytes; lia|].
  unfold encode_rest. rewrite !appendScalar_append, Ha. cbn -[append encode_base writeScalar le_bytes].
  clear Ha. do 3
    (rewrite ?appendScalar_append;
     match goal with |- context [append ?h ?b ?bs] =>
       destruct (extends_append _ _ _ _ _ _ _ _ _ bs E) as (? & ? & ? & ? & -> & E')
     end; [rewrite ?length_app, ?length_le_bytes; cbn [length]; lia|];
     clear E; rename E' into E; cbn -[append encode_base writeScalar le_bytes]).
  rewrite <- !app_assoc in E. fold (wire_addressing_tail m) in E.
  destruct (encode_body_writes (m_payload m) _ _ _ _ _ (payload_encodes _)
    (ex_rep _ _ _ _ _ _ _ _ _ E)) as [(b3 & h3 & blk3 & sp3 & Hb & E3)|[Hb Hl]];
    [unfold wire_counted in Hmax'; rewrite !length_app, length_fmap in *; lia| |];
    unfold encode_base; rewrite Hb.
  - left. do 4 eexists. split; [unfold wire_counted; rewrite fmap_app; by eapply extends_trans|].
    cbn -[writeScalar]. unfold writeScalar, writeScalar_bytes. rewrite obj_repr_endianScalar.
    unfold max_stored in Hmax'.
    assert (u64 (codec_addressing_size + (Z.of_nat (length (m_subject m)) + 1) +
      Z.of_nat (length (wire_body (m_payload m)))) = Z.of_nat (9 + length (wire_counted m))) as ->
      by (unfold codec_addressing_size; rewrite wrap_small by lia; lia).
    assert (u64 (Z.of_nat (9 + length (wire_counted m)) - codec_msg_length_offset) =
      Z.of_nat (length (wire_counted m))) as ->
      by (unfold codec_msg_length_offset; rewrite wrap_small by lia; lia).
    done.
  - right. split; [done|]. unfold wire_counted. rewrite length_app.
    destruct E as [_ _ Hf _]. rewrite !length_fmap in Hf.
    destruct (decide (length (wire_addressing_tail m) <= length spare1)%nat) as [Hle|]; [|lia].
    destruct (Hf Hle). lia.
Qed.

Lemma encode_spec m h b blk pre spare :
  mut_rep h b blk pre spare -> (length (wire_message m) <= length spare)%nat ->
  Z.of_nat (length pre + length (wire_message m)) <= max_stored ->
  exists b' h' spare', encode m h b = Ok (Z.of_nat (length (wire_message m)), b', h') /\
    mut_rep h' b' blk (pre ++ (Some <$> wire_message m)) spare' /\
    (length spare' + length (wire_message m) = length spare)%nat.
Proof.
  intros R Hfit Hmax. pose proof (length_wire_message m) as Hl. rewrite encode_eq.
  assert (writes h blk pre spare (wire_message m) (Z.of_nat (length (wire_message m)))
    ('(b, h) ← append h b (le_bytes 1 addressing_flag);
     '(p, b, h) ← allocate h b (Z.of_nat 8); encode_rest m p b h)) as [W|[_ W]]; [| |lia].
  - unfold wire_message at 1. eapply writes_append; [done|rewrite length_le_bytes; lia|].
    intros. cbn -[allocate encode_rest]. eapply (writes_patch _ _ _ _ _ 8);
      [done| |apply length_le_bytes|lia|apply encode_rest_patches];
      rewrite ?length_app, ?length_fmap, ?length_le_bytes; lia.
  - destruct W as (b' & h' & blk' & sp & -> & [R' _ Hf _]). rewrite length_fmap in Hf.
    destruct (Hf Hfit) as [-> Hs]. eauto 10.
Qed.

Lemma encode_moves m h b blk pre spare :
  mut_rep h b blk pre spare -> (9 <= length spare < length (wire_message m))%nat ->
  Z.of_nat (length pre + length (wire_message m)) <= max_stored ->
  encode m h b = undefined UseAfterFree.
Proof.
  intros R Hshort Hmax. pose proof (length_wire_message m) as Hl. rewrite encode_eq.
  destruct (append_extends _ _ _ _ _ (le_bytes 1 addressing_flag) R)
    as (b1 & h1 & blk1 & sp1 & -> & [R1 _ Hf1 _]); [rewrite length_le_bytes; lia|].
  rewrite length_fmap, length_le_bytes in Hf1. destruct (Hf1 ltac:(lia)) as [-> Hs1].
  cbn -[allocate encode_rest].
  destruct (allocate_extends _ _ _ _ _ (Z.of_nat 8) R1) as (b2 & h2 & blk2 & new & sp2 & Hn & -> & [R2 _ Hf2 _]);
    [lia|rewrite length_app, length_fmap, length_le_bytes; lia|].
  rewrite Nat2Z.id in Hn. rewrite Hn in Hf2. destruct (Hf2 ltac:(lia)) as [-> Hs2].
  cbn -[encode_rest]. eapply patches_moves;
    [apply encode_rest_patches|exact Hn| |exact R2|lia].
  - rewrite length_app, length_fmap, length_le_bytes. lia.
  - intros E. apply (f_equal length) in E. by rewrite length_le_bytes in E.
Qed.

(** [MessageCodec::encode] of a message that does not fit in the spare
    capacity (of at least the nine bytes up to the end of the length word)
    stores the length word through a pointer into the block that the growing
    storage has freed: undefined behaviour, for every such message. *)
Theorem encode_overflow m h b blk pre spare :
  mut_rep h b blk pre spare -> (9 <= length spare < length (wire_message m))%nat ->
  Z.of_nat (length pre + length (wire_message m)) <= max_stored ->
  encode m h b = undefined UseAfterFree.
Proof. apply encode_moves. Qed.
End encode_proofs.
