(* ===== verification/EncodeFrame.v ===== *)
(** * EncodeFrame: encoding and the rest of the heap

    [encode] (MessageCodec.h) leaves every block alone that existed before and
    is not the block of the storage it appends to, whatever the storage has to
    move to.  With [encode_spec] of [Codec] this gives the full account of an
    [encode] that fits. *)
From S2P Require Import Prelude Heap ByteStorage MessageBuffer Types Field Message Codec.

Section frame.
Context `{Platform} (X : positive -> Prop).

(** The blocks in [X] are not the storage's, and none is still to be allocated. *)
Definition away_ptr (p : ptr) : Prop := forall x off, X x -> p <> Ptr x off.
Definition away (h : heap) (b : ByteStorage) : Prop :=
  (forall x, X x -> (x < h_next h)%positive) /\ away_ptr (m_first b).

(** Nothing happened to these blocks in [h']. *)
Definition same_blocks (h h' : heap) : Prop := forall x, X x -> h_blocks h' !! x = h_blocks h !! x.

Lemma same_blocks_trans h1 h2 h3 : same_blocks h1 h2 -> same_blocks h2 h3 -> same_blocks h1 h3.
Proof. intros S1 S2 x Hx. rewrite S2, S1; done. Qed.

(** The storage stays in its block and nothing is allocated, or it has moved to
    a block that is new. *)
Definition stays_or_moves (h : heap) (b : ByteStorage) (h' : heap) (b' : ByteStorage) : Prop :=
  (h_next h <= h_next h')%positive /\
  ((m_first b' = m_first b /\ h_next h' = h_next h) \/
   exists k off, m_first b' = Ptr k off /\ (h_next h <= k)%positive).

Lemma stays_or_moves_same h b h' b' :
  m_first b' = m_first b -> h_next h' = h_next h -> stays_or_moves h b h' b'.
Proof. intros E1 E2. split; [by rewrite E2|by left]. Qed.

Lemma stays_or_moves_trans h b h1 b1 h2 b2 :
  stays_or_moves h b h1 b1 -> stays_or_moves h1 b1 h2 b2 -> stays_or_moves h b h2 b2.
Proof.
  intros [L1 [[E1 N1]|(k1 & o1 & E1 & K1)]] [L2 [[E2 N2]|(k2 & o2 & E2 & K2)]]; (split; [lia|]).
  - left. by rewrite E2, N2.
  - right. exists k2, o2. split; [done|lia].
  - right. exists k1, o1. by rewrite E2.
  - right. exists k2, o2. split; [done|lia].
Qed.

Definition frames (h : heap) (b : ByteStorage) (h' : heap) (b' : ByteStorage) : Prop :=
  away h' b' /\ same_blocks h h' /\ stays_or_moves h b h' b'.

Lemma frames_trans h b h1 b1 h2 b2 : frames h b h1 b1 -> frames h1 b1 h2 b2 -> frames h b h2 b2.
Proof.
  intros (_ & S1 & M1) (A2 & S2 & M2). split; [done|]. split; [by eapply same_blocks_trans|].
  by eapply stays_or_moves_trans.
Qed.

(** A step that appends to a storage away from [X] leaves it as it is. *)
Definition framed {A} (h : heap) (b : ByteStorage) (o : outcome (A * ByteStorage * heap)) : Prop :=
  forall a b' h', o = Ok (a, b', h') -> frames h b h' b'.
Definition framed_step (h : heap) (b : ByteStorage) (o : outcome (ByteStorage * heap)) : Prop :=
  forall b' h', o = Ok (b', h') -> frames h b h' b'.

Lemma framed_bind {A B} h b (o : outcome (A * ByteStorage * heap)) (k : A * ByteStorage * heap -> outcome (B * ByteStorage * heap)) :
  framed h b o -> (forall a b' h', away h' b' -> framed h' b' (k (a, b', h'))) -> framed h b (o ≫= k).
Proof.
  intros Ho Hk. destruct o as [[[a b1] h1]|]; [|by intros ???]. run_bind. intros c b2 h2 E.
  pose proof (Ho a b1 h1 eq_refl) as F. eapply frames_trans; [exact F|]. by eapply Hk; [apply F|].
Qed.

Lemma framed_step_bind {B} h b (o : outcome (ByteStorage * heap)) (k : ByteStorage * heap -> outcome (B * ByteStorage * heap)) :
  framed_step h b o -> (forall b' h', away h' b' -> framed h' b' (k (b', h'))) -> framed h b (o ≫= k).
Proof.
  intros Ho Hk. destruct o as [[b1 h1]|]; [|by intros ???]. run_bind. intros c b2 h2 E.
  pose proof (Ho b1 h1 eq_refl) as F. eapply frames_trans; [exact F|]. by eapply Hk; [apply F|].
Qed.

Lemma framed_ret {A} h b (a : A) : away h b -> framed h b (Ok (a, b, h)).
Proof. intros Ha ? ? ? [= <- <- <-]. split; [done|]. split; [done|]. by apply stays_or_moves_same. Qed.

(** A store somewhere else. *)
Lemma store_cells_away h p new h' :
  away_ptr p -> store_cells h p new = Ok h' -> h_next h' = h_next h /\ same_blocks h h'.
Proof.
  intros Hp. unfold store_cells. case_bool_decide; [by intros [= <-]|].
  destruct p as [|k off]; [done|]. destruct (h_blocks h !! k); [|done]. case_bool_decide; [|done].
  intros [= <-]. split; [done|]. intros x Hx. apply set_block_lookup_ne. intros ->. by apply (Hp x off).
Qed.

Lemma framed_store {A} h p bs (k : heap -> outcome (A * ByteStorage * heap)) b :
  away h b -> away_ptr p -> (forall h', away h' b -> framed h' b (k h')) -> framed h b (store h p bs ≫= k).
Proof.
  intros [Hx Hb] Hp Hk a b2 h2 E. apply bind_Ok_inv in E as (h1 & E1 & E2). unfold store in E1.
  destruct (store_cells_away _ _ _ _ Hp E1) as [Hn S1]. assert (away h1 b) as Ha by (split; [by rewrite Hn|done]).
  apply frames_trans with h1 b; [|by eapply Hk]. split; [done|]. split; [done|]. by apply stays_or_moves_same.
Qed.

Lemma free_away h p n h' : away_ptr p -> free h p n = Ok h' -> h_next h' = h_next h /\ same_blocks h h'.
Proof.
  intros Hp. unfold free. destruct p as [|k off]; [by intros [= <-]|].
  destruct (h_blocks h !! k); [|done]. case_bool_decide; [|done]. intros [= <-]. split; [done|].
  intros x Hx. apply lookup_delete_ne. intros ->. by apply (Hp x off).
Qed.

Lemma away_advance p d : away_ptr p -> away_ptr (advance p d).
Proof. destruct p as [|k o]; [done|]. intros Hp x off Hx [= -> _]. by apply (Hp x o). Qed.

(** [allocate]: the object and the pointer it returns stay away from [x]. *)
Lemma allocate_away h b n p b' h' :
  away h b -> allocate h b n = Ok (p, b', h') -> frames h b h' b' /\ away_ptr p.
Proof.
  intros [Hx Hb]. unfold allocate. destruct (m_second b <? _).
  - unfold allocateStorage, alloc. cbn [m_first set_storage set_read_ptr m_read_ptr m_mark_ptr]. intros E.
    apply bind_Ok_inv in E as ([b1 h1] & E & [= <- <- <-]).
    apply bind_Ok_inv in E as (d1 & _ & E). apply bind_Ok_inv in E as (d2 & _ & E).
    apply bind_Ok_inv in E as (c & _ & E). apply bind_Ok_inv in E as (h2 & E2 & E).
    apply bind_Ok_inv in E as (h3 & E3 & [= <- <-]).
    assert (away_ptr (Ptr (h_next h) 0)) as Hnew.
    { intros x off Hx' [= E' _]. specialize (Hx x Hx'). lia. }
    destruct (store_cells_away _ _ _ _ Hnew E2) as [N2 S2]. destruct (free_away _ _ _ _ Hb E3) as [N3 S3].
    cbn in *. split; [|by apply (away_advance (Ptr _ _))]. split; [split; [|done]|split].
    + intros x Hx'. specialize (Hx x Hx'). rewrite N3, N2. lia.
    + intros x Hx'. rewrite S3, S2 by done. cbn. rewrite lookup_insert_ne; [done|]. specialize (Hx x Hx'). lia.
    + split; [rewrite N3, N2; lia|]. right. by exists (h_next h), 0.
  - intros [= <- <- <-]. split; [|by apply away_advance]. split; [done|]. split; [done|]. by apply stays_or_moves_same.
Qed.

Lemma framed_append h b bs : away h b -> framed_step h b (append h b bs).
Proof.
  intros Ha b2 h2 E. unfold append in E. apply bind_Ok_inv in E as ([[p b1] h1] & E1 & E).
  destruct (allocate_away _ _ _ _ _ _ Ha E1) as (F1 & Hp). apply bind_Ok_inv in E as (h3 & E2 & [= <- <-]).
  unfold store in E2. destruct (store_cells_away _ _ _ _ Hp E2) as [N2 S2].
  eapply frames_trans; [exact F1|]. split; [split; [rewrite N2; apply F1|apply F1]|].
  split; [done|]. by apply stays_or_moves_same.
Qed.

Lemma framed_appendScalar h b n v : away h b -> framed_step h b (appendScalar h b n v).
Proof. rewrite appendScalar_append. apply framed_append. Qed.

Lemma framed_allocate {A} h b n (k : ptr * ByteStorage * heap -> outcome (A * ByteStorage * heap)) :
  away h b -> (forall p b' h', away h' b' -> away_ptr p -> framed h' b' (k (p, b', h'))) ->
  framed h b (allocate h b n ≫= k).
Proof.
  intros Ha Hk a b2 h2 E. apply bind_Ok_inv in E as ([[p b1] h1] & E1 & E).
  destruct (allocate_away _ _ _ _ _ _ Ha E1) as (F1 & Hp). eapply frames_trans; [exact F1|].
  by eapply Hk; [apply F1| |].
Qed.

Create HintDb frame.
#[local] Hint Resolve framed_append framed_appendScalar framed_ret : frame.
(** One step of an encoder. *)
Ltac framed :=
  repeat first
    [ solve [auto with frame]
    | apply framed_step_bind; [solve [auto with frame]|intros ???]
    | apply framed_allocate; [done|intros ?????]
    | eapply framed_store; [eassumption|done|intros ??] ].

Lemma framed_encode_data h b hd dat : away h b -> framed h b (Field_encode_data h b hd dat).
Proof. intros Ha. unfold Field_encode_data. framed. Qed.

Definition framed_field (f : Field) : Prop := forall h b, away h b -> framed h b (Field_encode h b f).

Lemma framed_payload l : Forall framed_field l ->
  forall h b n, away h b -> framed h b (encode_payload Field_encode l h b n).
Proof.
  induction 1 as [|f l Hf _ IH]; intros h b n Ha; cbn [encode_payload]; [by apply framed_ret|].
  apply framed_bind; [by apply Hf|]. intros a b' h' Ha'. by apply IH.
Qed.

Lemma framed_body l h b : Forall framed_field l -> away h b -> framed h b (encode_body Field_encode l h b).
Proof. intros Hl Ha. unfold encode_body. framed. by apply framed_payload. Qed.

Lemma framed_fields f : framed_field f.
Proof.
  induction f as [hd raw|hd st|hd st|hd s u|hd ha fl su p ks IH] using Field_ind_nested;
    intros h b Ha; cbn [Field_encode]; try by apply framed_encode_data.
  framed. apply framed_bind; [by apply framed_body|]. intros n b2 h2 Ha2.
  unfold writeScalar. framed.
Qed.

Lemma framed_encode m h b : away h b -> framed h b (encode m h b).
Proof.
  intros Ha. unfold encode. framed. apply framed_bind.
  - apply framed_body; [|done]. apply Forall_forall. intros f _. apply framed_fields.
  - intros n b2 h2 Ha2. unfold writeScalar. framed.
Qed.
End frame.

(** [encode] of a message that fits, with the blocks it leaves alone. *)
Lemma encode_full `{Platform} (little_endian : big_endian = false) m h b blk pre spare :
  mut_rep h b blk pre spare -> (length (wire_message m) <= length spare)%nat ->
  Z.of_nat (length pre + length (wire_message m)) <= max_stored ->
  exists b' h' spare', encode m h b = Ok (Z.of_nat (length (wire_message m)), b', h') /\
    mut_rep h' b' blk (pre ++ (Some <$> wire_message m)) spare' /\
    (length spare' + length (wire_message m) = length spare)%nat /\
    h_next h' = h_next h /\ forall x, x <> blk -> h_blocks h' !! x = h_blocks h !! x.
Proof.
  intros R Hfit Hmax. destruct (encode_spec little_endian m h b blk pre spare R Hfit Hmax) as (b' & h' & sp & E & R' & L).
  pose proof (mut_rep_wf _ _ _ _ _ R) as Hlt.
  destruct (framed_encode (fun x => x <> blk /\ (x < h_next h)%positive) m h b) with (a := Z.of_nat (length (wire_message m)))
    (b' := b') (h' := h') as (_ & S & _ & M); [|done|].
  { split; [by intros x []|]. rewrite (mr_first _ _ _ _ _ R). by intros x off [Hx _] [= ->]. }
  exists b', h', sp. split; [done|]. split; [done|]. split; [done|].
  assert (h_next h' = h_next h) as Hn.
  { destruct M as [[_ ->]|(k & off & E' & Hk)]; [done|]. rewrite (mr_first _ _ _ _ _ R') in E'. injection E' as -> _. lia. }
  split; [done|]. intros x Hx.
  destruct (decide (x < h_next h)%positive) as [Hlt'|Hge]; [by apply S|].
  assert (forall h0, heap_wf h0 -> h_next h0 = h_next h -> h_blocks h0 !! x = None) as Hnone.
  { intros h0 Hwf H0. apply eq_None_not_Some. intros Hs%Hwf. rewrite H0 in Hs. done. }
  rewrite (Hnone h'), (Hnone h); [done|apply R|done|apply R'|done].
Qed.

(** C10: [encode] of a message into a storage with room appends exactly the wire
    format of the message, returns its length, allocates nothing and leaves every
    other block of the heap as it is. *)
Theorem encode_fits `{Platform} (little_endian : big_endian = false) m h b blk pre spare :
  mut_rep h b blk pre spare -> (length (wire_message m) <= length spare)%nat ->
  Z.of_nat (length pre + length (wire_message m)) <= max_stored ->
  exists b' h' spare', encode m h b = Ok (Z.of_nat (length (wire_message m)), b', h') /\
    mut_rep h' b' blk (pre ++ (Some <$> wire_message m)) spare' /\
    (length spare' + length (wire_message m) = length spare)%nat /\
    h_next h' = h_next h /\ forall x, x <> blk -> h_blocks h' !! x = h_blocks h !! x.
Proof. by apply encode_full. Qed.
