(* ===== verification/RoundTrip.v ===== *)
(** * RoundTrip: decoding what was encoded

    The receiving half of src/fastpath/messages/MessageCodec.h: framing
    ([have_complete_message]), the field constructors that read from a buffer,
    and the theorems that [decode] inverts the wire format of Codec.v, waits on
    every incomplete message and terminates on every input. *)
From S2P Require Import Prelude Heap ByteStorage MessageBuffer Types Field Message Codec.

(** ** Decoding what was encoded *)

(** A field object as the constructors build it, in a form the wire carries:
    the representation invariant of the field classes. *)
Definition header_wf (hd : FieldHeader) : Prop :=
  is_cstr (m_identifier hd) /\ (length (m_identifier hd) <= 255)%nat.

Definition scalar_type (t : Z) : Prop :=
  0 <= t < 128 /\ t <> storage_type_value string_ /\ t <> storage_type_value data /\
  t <> storage_type_value date_time /\ t <> storage_type_value message_.

Definition data_type (t : Z) : Prop :=
  t = storage_type_value string_ \/ t = storage_type_value data.

Fixpoint field_wf (f : Field) : Prop :=
  header_wf (header f) /\
  match f with
  | ScalarField hd raw => scalar_type (m_type hd) /\
      exists d, m_data_length hd = Z.of_nat (length d) /\ Forall is_byte d /\
        raw = d ++ replicate (8 - length d) 0 /\ (length d <= 8)%nat
  | SmallDataField hd st => data_type (m_type hd) /\
      m_data_length hd = Z.of_nat (length st) /\ (length st <= 256)%nat /\ Forall is_byte st
  | LargeDataField hd st => data_type (m_type hd) /\
      m_data_length hd = Z.of_nat (length st) /\ 256 < Z.of_nat (length st) < 2 ^ 32 /\
      Forall is_byte st
  | DateTimeField hd s u => m_type hd = storage_type_value date_time /\ m_data_length hd = 16 /\
      - 2 ^ 63 <= s < 2 ^ 63 /\ - 2 ^ 63 <= u < 2 ^ 63
  | MessageField hd (mkMessage _ _ _ p _) => m_type hd = storage_type_value message_ /\
      m_data_length hd = 0 /\ p <> [] /\
      Z.of_nat (length (wire_body p)) < 2 ^ 32 /\
      (fix all (l : list Field) : Prop := match l with [] => True | f :: l => field_wf f /\ all l end) p
  end.

Lemma field_wf_message hd ha fl su p ks :
  field_wf (MessageField hd (mkMessage ha fl su p ks)) <->
  header_wf hd /\ m_type hd = storage_type_value message_ /\ m_data_length hd = 0 /\ p <> [] /\
  Z.of_nat (length (wire_body p)) < 2 ^ 32 /\ Forall field_wf p.
Proof.
  cbn [field_wf header]. assert (forall l, (fix all (l : list Field) : Prop :=
    match l with [] => True | f :: l => field_wf f /\ all l end) l <-> Forall field_wf l) as ->.
  { induction l as [|f l IH]; [by rewrite Forall_nil|]. by rewrite Forall_cons, IH. }
  done.
Qed.

(** What the receiver holds: a nested message travels without its addressing
    part, so its subject and flags are those of a new message. *)
Fixpoint received (f : Field) : Field :=
  match f with
  | MessageField hd (mkMessage _ _ _ p _) =>
      MessageField hd (foldl decoded_field Message_new (received <$> p))
  | f => f
  end.

(** Fuel for [decode_fields]: the number of fields, nested ones included. *)
Fixpoint fields_in (f : Field) : nat :=
  match f with
  | MessageField _ (mkMessage _ _ _ p _) => S (list_sum (fields_in <$> p))
  | _ => 1
  end.

Section decode_proofs.
Context `{Platform}.

Lemma cstr_id s : is_cstr s -> cstr s = s.
Proof.
  induction 1 as [|c s Hc _ IH]; [done|]. simpl. destruct (Z.eqb_spec c 0); [lia|]. by rewrite IH.
Qed.

Lemma readScalar_at_bytes bs : Forall is_byte bs -> readScalar_at bs = le_val bs.
Proof. apply endianScalar_obj_value. Qed.

Lemma readScalar_at_le n v : readScalar_at (le_bytes n v) = wrap (8 * Z.of_nat n) v.
Proof.
  rewrite readScalar_at_bytes by apply le_bytes_is_byte. by rewrite le_val_le_bytes, pow256.
Qed.

(** Read one scalar of the wire format and move on to the rest. *)
Lemma unread_scalar h b n k v rest :
  unread h b (le_bytes n v ++ rest) -> k = Z.of_nat n ->
  readScalar h b n = Ok (wrap (8 * k) v, advanceRead b k) /\ unread h (advanceRead b k) rest.
Proof.
  intros U ->. split; [by eapply unread_readScalar_le|].
  eapply unread_advance; [exact U|by rewrite length_le_bytes].
Qed.

(** The constructor from a buffer reads back the header of the wire format and
    leaves the read pointer at the field's data. *)
Lemma Field_read_wire h b hd n rest :
  unread h b (wire_header hd n ++ rest) -> header_wf hd -> 0 <= m_type hd < 128 ->
  Z.of_nat n < 2 ^ 32 -> (n <= length rest)%nat ->
  exists b', Field_read h b = Ok (mkFieldHeader (m_identifier hd) (m_type hd) (Z.of_nat n), b') /\
    unread h b' rest.
Proof.
  intros U [Hc Hid] Ht Hn Hrest. unfold wire_header in *.
  rewrite <- !app_assoc in U. unfold Field_read.
  rewrite (unread_remaining _ _ _ U). cbn.
  rewrite !length_app, !length_le_bytes. unfold MsgField_size.
  destruct (Z.leb_spec (1 + 1 + 4) (Z.of_nat (1 + (1 + (4 + (length (m_identifier hd) + length rest))))));
    [|lia].
  destruct (unread_scalar _ _ _ 1 _ _ U eq_refl) as [-> U1]. cbn.
  destruct (unread_scalar _ _ _ 1 _ _ U1 eq_refl) as [-> U2]. cbn.
  destruct (unread_scalar _ _ _ 4 _ _ U2 eq_refl) as [-> U3]. cbn.
  rewrite (unread_remaining _ _ _ U3). cbn. rewrite length_app.
  rewrite (wrap_small 8 (Z.of_nat _)), (wrap_small 32) by lia.
  destruct (Z.leb_spec (Z.of_nat (length (m_identifier hd)))
    (Z.of_nat (length (m_identifier hd) + length rest))); [|lia].
  rewrite (unread_load _ _ _ _ _ U3) by done. cbn.
  pose proof (unread_advance _ _ _ _ _ U3 eq_refl) as U4.
  rewrite (unread_remaining _ _ _ U4). cbn.
  destruct (Z.leb_spec (Z.of_nat n) (Z.of_nat (length rest))); [|lia].
  rewrite cstr_id by done. rewrite to_signed_wrap, to_signed_small by lia. eauto.
Qed.

(** A load ahead of the read pointer. *)
Lemma unread_load_at h b skip bs rest k n :
  unread h b (skip ++ bs ++ rest) -> k = Z.of_nat (length skip) -> n = Z.of_nat (length bs) ->
  load h (advance (m_read_ptr b) k) n = Ok bs.
Proof.
  intros U Hk Hn. exact (unread_load _ _ _ _ _ (unread_advance _ _ _ _ _ U Hk) Hn).
Qed.

Lemma peek_wire h b hd n rest :
  unread h b (wire_header hd n ++ rest) -> (length (m_identifier hd) <= 255)%nat ->
  0 <= m_type hd < 128 -> Z.of_nat n < 2 ^ 32 ->
  peek_field_header h b = Ok (m_type hd, Z.of_nat (length (m_identifier hd)), Z.of_nat n).
Proof.
  intros U Hid Ht Hn. unfold wire_header in U. rewrite <- !app_assoc in U.
  unfold peek_field_header, readBytes.
  rewrite (unread_load _ _ _ _ 1 U) by (by rewrite length_le_bytes). cbn -[advance].
  rewrite (unread_load_at _ _ _ _ _ 1 1 U) by (by rewrite length_le_bytes). cbn -[advance].
  rewrite app_assoc in U.
  rewrite (unread_load_at _ _ _ _ _ (1 + 1) 4 U) by (by rewrite ?length_app, !length_le_bytes). cbn.
  rewrite !readScalar_at_le. rewrite to_signed_wrap, to_signed_small by lia.
  by rewrite !wrap_small by lia.
Qed.

(** *** One field *)

Lemma ScalarField_read_wire h b hd raw rest :
  unread h b (wire_field (ScalarField hd raw) ++ rest) -> field_wf (ScalarField hd raw) ->
  exists b', ScalarField_read h b = Ok (ScalarField hd raw, b') /\ unread h b' rest.
Proof.
  intros U (Hh & [Ht _] & d & Hd & _ & -> & Hl). cbn -[Field_read] in *.
  rewrite Hd, Nat2Z.id, take_app_length, <- app_assoc in U.
  destruct (Field_read_wire _ _ _ _ _ U) as (b1 & E & U1); try done; [lia|rewrite length_app; lia|].
  unfold ScalarField_read. rewrite E. cbn -[replicate float64_size]. change (Z.of_nat float64_size) with 8.
  destruct (Z.leb_spec (Z.of_nat (length d)) 8); [|lia].
  unfold readBytes. rewrite (unread_load _ _ _ _ _ U1) by done.
  eexists. split; [|by eapply unread_advance]. cbn -[replicate float64_size].
  rewrite drop_replicate. destruct hd; cbn in *. by subst.
Qed.

Lemma SmallDataField_read_wire h b hd st rest :
  unread h b (wire_field (SmallDataField hd st) ++ rest) -> field_wf (SmallDataField hd st) ->
  exists b', createDataField_read h b (m_data_length hd) = Ok (SmallDataField hd st, b') /\
    unread h b' rest.
Proof.
  intros U (Hh & Ht & Hd & Hl & _). cbn -[Field_read] in *.
  rewrite Hd, Nat2Z.id, take_ge, <- app_assoc in U by lia.
  destruct (Field_read_wire _ _ _ _ _ U) as (b1 & E & U1); try done;
    [destruct Ht as [-> | ->]; done|lia|rewrite length_app; lia|].
  unfold createDataField_read, SmallDataField_read. rewrite Hd, E. cbn.
  unfold SmallDataField_max_size. destruct (Z.leb_spec (Z.of_nat (length st)) 256); [|lia].
  unfold readBytes. rewrite (unread_load _ _ _ _ _ U1) by done. cbn.
  eexists. split; [|by eapply unread_advance]. destruct hd; cbn in *. by subst.
Qed.

Lemma LargeDataField_read_wire h b hd st rest :
  unread h b (wire_field (LargeDataField hd st) ++ rest) -> field_wf (LargeDataField hd st) ->
  exists b', createDataField_read h b (m_data_length hd) = Ok (LargeDataField hd st, b') /\
    unread h b' rest.
Proof.
  intros U (Hh & Ht & Hd & Hl & _). cbn -[Field_read] in *.
  rewrite <- app_assoc in U.
  destruct (Field_read_wire _ _ _ _ _ U) as (b1 & E & U1); try done;
    [destruct Ht as [-> | ->]; done|lia|rewrite length_app; lia|].
  unfold createDataField_read, LargeDataField_read. rewrite Hd, E. cbn.
  unfold SmallDataField_max_size. destruct (Z.leb_spec (Z.of_nat (length st)) 256); [lia|].
  unfold readBytes. rewrite (unread_load _ _ _ _ _ U1) by done. cbn.
  eexists. split; [|by eapply unread_advance]. destruct hd; cbn in *. by subst.
Qed.

Lemma DateTimeField_read_wire h b hd s u rest :
  unread h b (wire_field (DateTimeField hd s u) ++ rest) -> field_wf (DateTimeField hd s u) ->
  exists b', DateTimeField_read h b = Ok (DateTimeField hd s u, b') /\ unread h b' rest.
Proof.
  intros U (Hh & Ht & Hd & Hs & Hu). cbn -[Field_read] in *.
  rewrite <- !app_assoc in U.
  destruct (Field_read_wire _ _ _ _ _ U) as (b1 & E & U1); try done;
    [by rewrite Ht|lens|].
  unfold DateTimeField_read. rewrite E. cbn.
  destruct (unread_scalar _ _ _ 8 _ _ U1 eq_refl) as [-> U2]. cbn.
  destruct (unread_scalar _ _ _ 8 _ _ U2 eq_refl) as [-> U3]. cbn.
  eexists. split; [|exact U3]. rewrite !to_signed_wrap, !to_signed_small by lia.
  destruct hd; cbn in *. by subst.
Qed.

(** *** The field loop *)

Lemma length_wire_header hd n : length (wire_header hd n) = (6 + length (m_identifier hd))%nat.
Proof. unfold wire_header. lens. Qed.

Lemma length_wire_field f : (6 <= length (wire_field f))%nat.
Proof.
  destruct f as [| | | |hd []]; cbn [wire_field]; rewrite length_app, length_wire_header; lia.
Qed.

Lemma length_wire_fields l : (6 * length l <= length (concat (wire_field <$> l)))%nat.
Proof.
  induction l as [|f l IH]; [done|]. rewrite fmap_cons. cbn [concat length]. rewrite length_app.
  pose proof (length_wire_field f). lia.
Qed.

(** One turn of the loop reads back one field. *)
Definition turn_ok (f : Field) : Prop := forall fuel h n success m b rest,
  field_wf f -> unread h b (wire_field f ++ rest) -> (fields_in f <= S fuel)%nat -> 0 < n ->
  exists b', unread h b' rest /\
    decode_fields (S fuel) h n success m b =
      decode_fields fuel h (n - 1) true (decoded_field m (received f)) b'.

Lemma decode_fields_list l : Forall turn_ok l -> forall fuel h success m b rest,
  Forall field_wf l -> unread h b (concat (wire_field <$> l) ++ rest) ->
  (list_sum (fields_in <$> l) <= fuel)%nat ->
  exists b', unread h b' rest /\
    decode_fields fuel h (Z.of_nat (length l)) success m b =
      Ok (success || negb (bool_decide (l = [])), foldl decoded_field m (received <$> l), b').
Proof.
  induction 1 as [|f l Hf _ IH]; intros fuel h success m b rest Hwf U Hfuel.
  - exists b. split; [done|]. destruct fuel; cbn; by rewrite orb_false_r.
  - inversion_clear Hwf as [|? ? Hwf1 Hwf2]. rewrite fmap_cons in U; rewrite fmap_cons in Hfuel. cbn [concat list_sum foldr] in *.
    rewrite <- app_assoc in U. fold (list_sum (fields_in <$> l)) in Hfuel.
    assert (1 <= fields_in f)%nat by (destruct f as [| | | |? []]; cbn; lia).
    destruct fuel as [|fuel]; [lia|].
    destruct (Hf fuel h (Z.of_nat (length (f :: l))) success m b _ Hwf1 U) as (b1 & U1 & ->);
      [lia|cbn [length]; lia|].
    destruct (IH fuel h true (decoded_field m (received f)) b1 rest Hwf2 U1) as (b2 & U2 & E); [lia|].
    exists b2. split; [done|]. rewrite fmap_cons. cbn [foldl length].
    replace (Z.of_nat (S (length l)) - 1) with (Z.of_nat (length l)) by lia.
    rewrite E. by rewrite orb_true_r.
Qed.

(** The body of a message: the section marker, the field count, the fields. *)
Lemma decode_base_list l fuel h m b rest :
  Forall turn_ok l -> Forall field_wf l -> l <> [] -> Z.of_nat (length l) < 2 ^ 32 ->
  unread h b (wire_body l ++ rest) -> (list_sum (fields_in <$> l) <= fuel)%nat ->
  exists b', unread h b' rest /\
    decode_base_with (decode_fields fuel h) h m b =
      Ok (true, foldl decoded_field m (received <$> l), b').
Proof.
  intros Hturn Hwf Hne Hlen U Hfuel. pose proof (unread_length _ _ _ U) as Hll.
  unfold wire_body, wire_body_header in *. rewrite <- !app_assoc in *.
  unfold decode_base_with. rewrite (unread_remaining _ _ _ U).
  pose proof (length_wire_fields l). assert (0 < length l)%nat by (destruct l; cbn; [done|lia]).
  rewrite !length_app, !length_le_bytes in *.
  destruct (Z.ltb_spec 0 (length_ b)); [|lia]. cbn -[decode_fields concat].
  unfold codec_header_size. rewrite (proj2 (Z.ltb_lt _ _)) by lia.
  destruct (unread_scalar _ _ _ 1 _ _ U eq_refl) as [-> U1]. cbn -[decode_fields concat].
  destruct (unread_scalar _ _ _ 4 _ _ U1 eq_refl) as [-> U2]. cbn -[decode_fields concat].
  rewrite (wrap_small 32) by lia.
  destruct (decode_fields_list l Hturn fuel h false m _ rest Hwf U2 Hfuel) as (b' & U' & E).
  exists b'. split; [done|]. rewrite E. by rewrite bool_decide_eq_false_2.
Qed.

Lemma scalar_type_not t : scalar_type t ->
  (t =? storage_type_value string_) || (t =? storage_type_value data) = false /\
  (t =? storage_type_value date_time) = false /\ (t =? storage_type_value message_) = false.
Proof. intros (_ & ? & ? & ? & ?). by rewrite !(proj2 (Z.eqb_neq _ _)). Qed.

Lemma data_type_true t : data_type t ->
  (t =? storage_type_value string_) || (t =? storage_type_value data) = true.
Proof. by intros [-> | ->]. Qed.

(** The look-ahead that selects the class of the next field. *)
Lemma peek_field h b f rest :
  field_wf f -> unread h b (wire_field f ++ rest) ->
  exists il ds, peek_field_header h b = Ok (m_type (header f), il, ds) /\
    (data_type (m_type (header f)) -> ds = m_data_length (header f)).
Proof.
  destruct f as [hd raw|hd st|hd st|hd s u|hd [ha fl su p ks]]; intros Hwf U.
  - destruct Hwf as ([_ Hid] & [Ht Hnot] & d & Hd & _ & -> & Hl). cbn in *.
    rewrite Hd, Nat2Z.id, take_app_length, <- app_assoc in U.
    rewrite (peek_wire _ _ _ _ _ U) by (done || lia). do 2 eexists. split; [done|].
    by rewrite Hd.
  - destruct Hwf as ([_ Hid] & Ht & Hd & Hl & _). cbn in *.
    rewrite Hd, Nat2Z.id, take_ge, <- app_assoc in U by lia.
    rewrite (peek_wire _ _ _ _ _ U); [|done|by destruct Ht as [-> | ->]|lia].
    do 2 eexists. by rewrite Hd.
  - destruct Hwf as ([_ Hid] & Ht & Hd & Hl & _). cbn in *. rewrite <- app_assoc in U.
    rewrite (peek_wire _ _ _ _ _ U); [|done|by destruct Ht as [-> | ->]|lia].
    do 2 eexists. by rewrite Hd.
  - destruct Hwf as ([_ Hid] & Ht & Hd & _). cbn in *. rewrite <- app_assoc in U.
    rewrite (peek_wire _ _ _ _ _ U); [|done|by rewrite Ht|lia].
    do 2 eexists. split; [done|]. rewrite Ht. by intros [|].
  - apply field_wf_message in Hwf as ([_ Hid] & Ht & Hd & _ & Hl & _). cbn [wire_field] in U.
    fold (wire_body p) in U. rewrite <- app_assoc in U. cbn [header].
    rewrite (peek_wire _ _ _ _ _ U); [|done|by rewrite Ht|done].
    do 2 eexists. split; [done|]. rewrite Ht. by intros [|].
Qed.

Lemma turn_ok_all f : turn_ok f.
Proof.
  induction f as [hd raw|hd st|hd st|hd s u|hd ha fl su p ks IH] using Field_ind_nested;
    intros fuel h n success m b rest Hwf U Hfuel Hn;
    cbn [decode_fields]; (destruct (Z.leb_spec n 0); [lia|]);
    destruct (peek_field _ _ _ _ Hwf U) as (il & ds & -> & Hds); cbn [mbind outcome_bind header] in *.
  - destruct (ScalarField_read_wire _ _ _ _ _ U Hwf) as (b' & E & U').
    destruct Hwf as (_ & Ht & _). apply scalar_type_not in Ht as (-> & -> & ->).
    rewrite E. by exists b'.
  - destruct (SmallDataField_read_wire _ _ _ _ _ U Hwf) as (b' & E & U').
    destruct Hwf as (_ & Ht & _). rewrite (Hds Ht), data_type_true, E by done. by exists b'.
  - destruct (LargeDataField_read_wire _ _ _ _ _ U Hwf) as (b' & E & U').
    destruct Hwf as (_ & Ht & _). rewrite (Hds Ht), data_type_true, E by done. by exists b'.
  - destruct (DateTimeField_read_wire _ _ _ _ _ _ U Hwf) as (b' & E & U').
    destruct Hwf as (_ & Ht & _). rewrite Ht. cbn [header] in *. cbn -[DateTimeField_read decode_fields].
    rewrite E. by exists b'.
  - apply field_wf_message in Hwf as (Hh & Ht & Hd & Hne & Hl & Hall). cbn [wire_field] in U.
    fold (wire_body p) in U. rewrite <- app_assoc in U.
    destruct (Field_read_wire _ _ _ _ _ U Hh) as (b1 & E & U1);
      [by rewrite Ht|done|rewrite length_app; lia|].
    pose proof (length_wire_fields p). pose proof (length_wire_body p).
    destruct (decode_base_list p fuel h Message_new b1 rest IH Hall Hne) as (b2 & U2 & E2);
      [lia|done|cbn in Hfuel; lia|].
    exists b2. split; [done|]. rewrite Ht. cbn -[Field_read decode_fields decode_base_with Message_new].
    rewrite E. cbn -[decode_fields decode_base_with Message_new]. rewrite E2.
    cbn -[decode_fields Message_new]. destruct hd; cbn in *. by subst.
Qed.
End decode_proofs.

(** ** Whole messages *)

(** A message the sender may hold: flags in a byte, a subject that fits, at
    least one field. *)
Record message_wf (m : Message) : Prop := {
  mw_flags : 0 <= m_flags m < 256;
  mw_subject : is_cstr (m_subject m);
  mw_subject_length : Z.of_nat (length (m_subject m)) < max_subject_length;
  mw_count : Z.of_nat (length (m_payload m)) < 2 ^ 32;
  mw_fields : Forall field_wf (m_payload m)
}.

Lemma identifier_received f : identifier (received f) = identifier f.
Proof. by destruct f as [| | | |hd []]. Qed.

(** Decoding inserts exactly like adding does. *)
Lemma decoded_field_insert m f :
  m_keys m !! identifier f = None -> decoded_field m f = (insert_field m f).2.
Proof. intros E. unfold decoded_field, insert_field. by rewrite E. Qed.

Lemma decoded_payload m l : m_payload (foldl decoded_field m l) = m_payload m ++ l.
Proof.
  revert m. induction l as [|f l IH]; intros m; [by rewrite app_nil_r|]. simpl. rewrite IH.
  unfold decoded_field. cbn [set_fields m_payload]. by rewrite <- app_assoc.
Qed.

Lemma decoded_subject m l : m_subject (foldl decoded_field m l) = m_subject m.
Proof. revert m. induction l as [|f l IH]; intros m; [done|]. simpl. by rewrite IH. Qed.

Lemma decoded_flags m l : m_flags (foldl decoded_field m l) = m_flags m.
Proof. revert m. induction l as [|f l IH]; intros m; [done|]. simpl. by rewrite IH. Qed.

(** Identifiers are distinct: what [keyed] says of the payload alone. *)
Definition distinct_ids (l : list Field) : Prop := NoDup (identifier <$> l).

Lemma keyed_distinct m : keyed m -> distinct_ids (m_payload m).
Proof.
  intros K. apply NoDup_alt. intros i j k Hi Hj.
  rewrite list_lookup_fmap in Hi, Hj.
  destruct (m_payload m !! i) as [f|] eqn:Hf; [|done].
  destruct (m_payload m !! j) as [g|] eqn:Hg; [|done]. simpl in *. simplify_eq.
  by eapply keyed_inj.
Qed.

Lemma keyed_fresh m f : keyed m -> identifier f ∉ identifier <$> m_payload m ->
  m_keys m !! identifier f = None.
Proof.
  intros K Hn. destruct (m_keys m !! identifier f) as [i|] eqn:E; [|done].
  destruct (keyed_lookup _ _ _ K E) as (g & Hg & Hid). destruct Hn. rewrite <- Hid.
  apply list_elem_of_fmap. exists g. split; [done|]. by eapply list_elem_of_lookup_2.
Qed.

Lemma decoded_keyed l m :
  keyed m -> distinct_ids (m_payload m ++ l) -> keyed (foldl decoded_field m l).
Proof.
  revert m. induction l as [|f l IH]; intros m K D; [done|]. simpl.
  assert (m_keys m !! identifier f = None) as Hk.
  { apply keyed_fresh; [done|]. unfold distinct_ids in D. rewrite fmap_app in D.
    apply NoDup_app in D as (_ & D & _). intros Hin. apply (D _ Hin). simpl. left. }
  apply IH.
  - rewrite decoded_field_insert by done. by apply insert_field_keyed.
  - unfold decoded_field. cbn [set_fields m_payload]. by rewrite <- app_assoc.
Qed.

Lemma distinct_received l : distinct_ids l -> distinct_ids (received <$> l).
Proof.
  unfold distinct_ids. rewrite <- list_fmap_compose.
  by rewrite (list_fmap_ext (identifier ∘ received) identifier) by (intros; apply identifier_received).
Qed.

(** The index of a keyed message is determined by its payload. *)
Lemma keyed_keys_eq m m' :
  keyed m -> keyed m' -> identifier <$> m_payload m = identifier <$> m_payload m' ->
  m_keys m = m_keys m'.
Proof.
  intros K K' E. apply map_eq. intros k. apply option_eq. intros i. rewrite (K k i), (K' k i).
  assert (forall m : Message, (exists f, m_payload m !! i = Some f /\ identifier f = k) <->
    (identifier <$> m_payload m) !! i = Some k) as A.
  { intros m0. rewrite list_lookup_fmap. destruct (m_payload m0 !! i) as [f|]; simpl.
    - split; [intros (g & [= <-] & <-); done|]. intros [= <-]. eauto.
    - split; [by intros (? & ? & _)|done]. }
  by rewrite !A, E.
Qed.

(** ** Framing *)

Section framing.
Context `{Platform}.

(** The header says how many bytes the message has. *)
Lemma have_complete_header h b L tail :
  unread h b (le_bytes 1 addressing_flag ++ le_bytes 8 L ++ tail) -> 0 <= L < 2 ^ 60 ->
  (7 <= length tail)%nat ->
  have_complete_message h b =
    Ok (if L <=? Z.of_nat (length tail) then CompleteMessage else IncompleteMessage, Some (9 + L)).
Proof.
  intros U HL Ht. unfold have_complete_message, readBytes.
  rewrite (unread_remaining _ _ _ U). cbn -[advance]. rewrite !length_app, !length_le_bytes.
  unfold codec_addressing_size. rewrite (proj2 (Z.leb_le _ _)) by lia.
  rewrite (unread_load _ _ _ _ 1 U) by by rewrite length_le_bytes. cbn -[advance].
  rewrite readScalar_at_le. change (wrap (8 * Z.of_nat 1) addressing_flag) with addressing_flag.
  rewrite Z.eqb_refl. cbn -[advance].
  rewrite (unread_load_at _ _ _ _ _ 1 8 U) by by rewrite length_le_bytes. cbn -[advance].
  rewrite readScalar_at_le. change (8 * Z.of_nat 8) with 64. unfold codec_msg_length_offset.
  rewrite (wrap_small 64 L), wrap_small by lia. replace (L + (1 + 8)) with (9 + L) by lia.
  destruct (Z.leb_spec L (Z.of_nat (length tail)));
    [rewrite (proj2 (Z.leb_le _ _)) by lia|rewrite (proj2 (Z.leb_gt _ _)) by lia]; done.
Qed.

Lemma have_complete_short h b tail :
  unread h b tail -> (length tail < 16)%nat ->
  have_complete_message h b = Ok (IncompleteMessage, None).
Proof.
  intros U Hl. unfold have_complete_message. rewrite (unread_remaining _ _ _ U). cbn.
  unfold codec_addressing_size. by rewrite (proj2 (Z.leb_gt _ _)) by lia.
Qed.

Lemma have_complete_corrupt h b c tail :
  unread h b (c :: tail) -> c <> addressing_flag -> (15 <= length tail)%nat ->
  have_complete_message h b = Ok (CorruptMessage, None).
Proof.
  intros U Hc Hl. unfold have_complete_message. rewrite (unread_remaining _ _ _ U). run_bind.
  unfold codec_addressing_size. rewrite (proj2 (Z.leb_le _ _)) by (simpl; lia).
  pose proof (unread_is_byte _ _ _ U) as Hb. inversion_clear Hb as [|? ? Hb1 _].
  change (c :: tail) with ([c] ++ tail) in U. unfold readBytes.
  rewrite (unread_load _ _ _ _ 1 U) by done. cbn -[advance].
  rewrite readScalar_at_bytes by by constructor. unfold le_val. cbn -[advance].
  rewrite (proj2 (Z.eqb_neq _ _)); [done|lia].
Qed.

Lemma wire_message_small h b m rest :
  unread h b (wire_message m ++ rest) -> 0 <= Z.of_nat (length (wire_counted m)) < 2 ^ 60.
Proof.
  intros U. apply unread_small in U. rewrite length_app, length_wire_message in U.
  unfold max_stored in U. lia.
Qed.

Lemma have_complete_wire h b m rest :
  unread h b (wire_message m ++ rest) ->
  have_complete_message h b = Ok (CompleteMessage, Some (Z.of_nat (length (wire_message m)))).
Proof.
  intros U. pose proof (wire_message_small _ _ _ _ U) as Hs.
  pose proof (length_wire_counted m). pose proof (length_wire_body (m_payload m)).
  rewrite length_wire_message. unfold wire_message in U. rewrite <- !app_assoc in U.
  rewrite (have_complete_header _ _ _ _ U Hs) by (rewrite length_app; lia).
  rewrite (proj2 (Z.leb_le _ _)) by (rewrite length_app; lia). do 2 f_equal. f_equal. lia.
Qed.

(** [have_complete_message] reports a message as incomplete at every proper
    prefix of its bytes, however the stream is cut. *)
Lemma have_complete_prefix h b m k :
  unread h b (take k (wire_message m)) -> (k < length (wire_message m))%nat ->
  Z.of_nat (length (wire_message m)) < 2 ^ 60 ->
  exists len, have_complete_message h b = Ok (IncompleteMessage, len).
Proof.
  intros U Hk Hs. rewrite length_wire_message in *.
  destruct (decide (k < 16)%nat) as [Hlt|Hge].
  - exists None. eapply have_complete_short; [exact U|]. rewrite length_take. lia.
  - assert (take k (wire_message m) = le_bytes 1 addressing_flag ++
      le_bytes 8 (Z.of_nat (length (wire_counted m))) ++ take (k - 9) (wire_counted m)) as E.
    { unfold wire_message. rewrite take_app_ge, take_app_ge by (rewrite ?length_le_bytes; lia).
      rewrite !length_le_bytes. do 2 f_equal. f_equal. lia. }
    rewrite E in U. rewrite (have_complete_header _ _ _ _ U) by (rewrite ?length_take; lia).
    rewrite (proj2 (Z.leb_gt _ _)) by (rewrite length_take; lia). eauto.
Qed.

(** The addressing part of the wire format. *)
Lemma addressing_wire h b m rest :
  unread h b (wire_message m ++ rest) -> message_wf m ->
  exists a b', addressing_details h b = Ok (CompleteMessage, Some a, b') /\
    unread h b' (wire_body (m_payload m) ++ rest) /\ a_flags a = m_flags m /\
    load h (a_subject a) (a_subject_length a) = Ok (m_subject m ++ [0]) /\
    a_msg_length a = Z.of_nat (length (wire_message m)) /\
    a_subject_length a = Z.of_nat (length (m_subject m ++ [0])).
Proof.
  intros U [Hf _ Hl _ _]. unfold addressing_details. rewrite (have_complete_wire _ _ _ _ U).
  cbn -[wire_message Z.of_nat]. unfold wire_message at 1 in U.
  unfold wire_counted at 2 in U. unfold wire_addressing_tail in U. rewrite <- !app_assoc in U.
  pose proof (unread_advance _ _ _ _ 1 U eq_refl) as U1.
  pose proof (unread_advance _ _ _ _ 8 U1 eq_refl) as U2.
  pose proof (unread_advance _ _ _ _ 1 U2 eq_refl) as U3.
  pose proof (unread_advance _ _ _ _ 4 U3 eq_refl) as U4.
  pose proof (unread_advance _ _ _ _ 2 U4 eq_refl) as U5. unfold readBytes.
  rewrite (unread_load _ _ _ _ 1 U2) by by rewrite length_le_bytes. cbn -[wire_message Z.of_nat].
  rewrite (unread_load _ _ _ _ 2 U4) by by rewrite length_le_bytes. cbn -[wire_message Z.of_nat].
  rewrite !readScalar_at_le. unfold max_subject_length in Hl.
  change (8 * Z.of_nat 2) with 16. change (8 * Z.of_nat 1) with 8.
  rewrite (wrap_small 16), (wrap_small 8) by lia. rewrite app_assoc in U5.
  do 2 eexists. split; [done|]. cbn [a_flags a_subject a_subject_length a_msg_length].
  split; [|split; [done|split; [|split; [done|]]]].
  - eapply unread_advance; [exact U5|]. rewrite length_app. simpl. lia.
  - eapply unread_load; [exact U5|]. rewrite length_app. simpl. lia.
  - rewrite length_app. simpl. lia.
Qed.
End framing.

(** ** Round trips *)

Section roundtrip.
Context `{Platform}.

Lemma cstr_app_nul s : is_cstr s -> cstr (s ++ [0]) = s.
Proof.
  induction 1 as [|c s Hc _ IH]; [done|]. simpl. destruct (Z.eqb_spec c 0); [lia|]. by rewrite IH.
Qed.

(** [decode] up to the body. *)
Lemma decode_addressing fuel h b m m0 rest :
  unread h b (wire_message m ++ rest) -> message_wf m ->
  exists b', unread h b' (wire_body (m_payload m) ++ rest) /\
    decode fuel h m0 b =
      decode_base fuel h (set_subject (set_flags m0 (m_flags m)) (m_subject m)) b'.
Proof.
  intros U W. destruct (addressing_wire _ _ _ _ U W) as (a & b' & E & U' & Hf & Hs & _).
  exists b'. split; [done|]. unfold decode. rewrite E. cbn -[decode_base]. rewrite Hs, Hf.
  unfold copy_subject. cbn -[decode_base].
  rewrite bool_decide_eq_true_2 by (apply elem_of_app; right; left).
  by rewrite cstr_app_nul by apply W.
Qed.

Lemma all_turns_ok l : Forall turn_ok l.
Proof. apply Forall_forall. intros f _. apply turn_ok_all. Qed.

(** The message a receiver builds from [m]. *)
Definition received_message (m : Message) : Message :=
  foldl decoded_field (set_subject (set_flags Message_new (m_flags m)) (m_subject m))
    (received <$> m_payload m).

Lemma received_message_parts m :
  keyed m -> m_flags (received_message m) = m_flags m /\
    m_subject (received_message m) = m_subject m /\
    m_payload (received_message m) = received <$> m_payload m /\
    m_keys (received_message m) = m_keys m /\ keyed (received_message m).
Proof.
  intros K. unfold received_message. rewrite decoded_flags, decoded_subject, decoded_payload.
  assert (keyed (foldl decoded_field (set_subject (set_flags Message_new (m_flags m)) (m_subject m))
    (received <$> m_payload m))) as K'.
  { apply decoded_keyed; [exact keyed_new|]. by apply distinct_received, keyed_distinct. }
  repeat (split; [done|]). split; [|done]. apply keyed_keys_eq; [done|done|].
  rewrite decoded_payload. cbn [set_subject set_flags Message_new m_payload app].
  rewrite <- list_fmap_compose. apply list_fmap_ext. intros. apply identifier_received.
Qed.

Lemma decode_wire fuel h b m rest :
  message_wf m -> m_payload m <> [] ->
  unread h b (wire_message m ++ rest) -> (list_sum (fields_in <$> m_payload m) <= fuel)%nat ->
  exists b', decode fuel h Message_new b = Ok (true, received_message m, b') /\ unread h b' rest.
Proof.
  intros W Hne U Hfuel. destruct (decode_addressing fuel _ _ _ Message_new _ U W) as (b1 & U1 & ->).
  destruct (decode_base_list _ fuel _ (set_subject (set_flags Message_new (m_flags m)) (m_subject m))
    _ _ (all_turns_ok (m_payload m)) (mw_fields _ W) Hne (mw_count _ W) U1 Hfuel) as (b2 & U2 & E).
  exists b2. split; [exact E|done].
Qed.

(** C9: decoding the wire format of a well-formed message with at least one
    field, whatever follows it in the stream, returns [true] and a message with
    the sender's flags, subject, fields in order and index, and consumes
    exactly the bytes of that message (nested messages included). *)
Theorem decode_wire_message fuel h b m rest :
  message_wf m -> keyed m -> m_payload m <> [] ->
  unread h b (wire_message m ++ rest) -> (list_sum (fields_in <$> m_payload m) <= fuel)%nat ->
  exists m' b', decode fuel h Message_new b = Ok (true, m', b') /\ unread h b' rest /\
    m_flags m' = m_flags m /\ m_subject m' = m_subject m /\
    m_payload m' = received <$> m_payload m /\ m_keys m' = m_keys m /\ keyed m'.
Proof.
  intros W K Hne U Hfuel. destruct (decode_wire fuel h b m rest W Hne U Hfuel) as (b' & E & U').
  destruct (received_message_parts m K) as (? & ? & ? & ? & ?). eauto 10.
Qed.

(** What [encode] leaves in a storage with room, read by a receiver that
    has these bytes at the front of its stream, decodes to the message sent. *)
Theorem encode_decode (little_endian : big_endian = false) fuel m h b blk spare hr br rest :
  message_wf m -> keyed m -> m_payload m <> [] ->
  mut_rep h b blk [] spare -> (length (wire_message m) <= length spare)%nat ->
  Z.of_nat (length (wire_message m)) <= max_stored ->
  (list_sum (fields_in <$> m_payload m) <= fuel)%nat ->
  exists n b' h' sent, encode m h b = Ok (n, b', h') /\ (bytes b').2 = n /\
    load h' (bytes b').1 n = Ok sent /\
    (unread hr br (sent ++ rest) ->
     exists m' br', decode fuel hr Message_new br = Ok (true, m', br') /\ unread hr br' rest /\
       m_flags m' = m_flags m /\ m_subject m' = m_subject m /\
       m_payload m' = received <$> m_payload m /\ m_keys m' = m_keys m).
Proof.
  intros W K Hne R Hfit Hmax Hfuel.
  destruct (encode_spec little_endian m _ _ _ _ _ R Hfit Hmax) as (b' & h' & sp & E & R' & _).
  do 3 eexists. exists (wire_message m). split; [exact E|]. cbn [app] in R'. split; [|split].
  - cbn [bytes snd]. by rewrite (mr_stored _ _ _ _ _ R'), length_fmap.
  - rewrite bytes_nonempty; [|rewrite (mr_stored _ _ _ _ _ R'), length_fmap, length_wire_message; lia].
    cbn [fst]. rewrite (mr_first _ _ _ _ _ R').
    by apply (load_middle h' blk [] (wire_message m) sp); [apply R'| |].
  - intros U. destruct (decode_wire fuel _ _ _ _ W Hne U Hfuel) as (br' & E' & U').
    destruct (received_message_parts m K) as (? & ? & ? & ? & _). eauto 10.
Qed.

(** Until the last byte of a message is there, [decode] returns [false],
    leaves the message as it was and consumes nothing. *)
Theorem decode_prefix fuel h b m m0 k :
  unread h b (take k (wire_message m)) -> (k < length (wire_message m))%nat ->
  Z.of_nat (length (wire_message m)) < 2 ^ 60 -> decode fuel h m0 b = Ok (false, m0, b).
Proof.
  intros U Hk Hs. destruct (have_complete_prefix _ _ _ _ U Hk Hs) as [len E].
  unfold decode, addressing_details. by rewrite E.
Qed.

(** A stream whose next byte is not the addressing marker makes [decode]
    throw as soon as a header's worth of bytes is there. *)
Theorem decode_corrupt fuel h b c tail m0 :
  unread h b (c :: tail) -> c <> addressing_flag -> (15 <= length tail)%nat ->
  decode fuel h m0 b = throw FpException.
Proof.
  intros U Hc Hl. unfold decode, addressing_details.
  by rewrite (have_complete_corrupt _ _ _ _ U Hc Hl).
Qed.

(** A complete message without fields decodes to [false], like an
    incomplete one, and when nothing follows it its body stays unread. *)
Theorem decode_empty_message fuel h b m :
  message_wf m -> m_payload m = [] -> unread h b (wire_message m) ->
  exists m' b', decode fuel h Message_new b = Ok (false, m', b') /\ unread h b' (wire_body []).
Proof.
  intros W Hp U. rewrite <- (app_nil_r (wire_message m)) in U.
  destruct (decode_addressing fuel _ _ _ Message_new _ U W) as (b1 & U1 & ->).
  rewrite Hp, app_nil_r in U1. pose proof (unread_length _ _ _ U1) as Hl.
  do 2 eexists. split; [|exact U1]. unfold decode_base, decode_base_with.
  rewrite (unread_remaining _ _ _ U1).
  change (Z.of_nat (length (wire_body []))) with 5 in *.
  by rewrite (proj2 (Z.ltb_lt _ _)) by lia.
Qed.
End roundtrip.

(** ** The wire format consists of bytes *)

Lemma cstr_is_bytes s : is_cstr s -> Forall is_byte s.
Proof. intros Hs. eapply Forall_impl; [exact Hs|]. intros c Hc. unfold is_byte. cbv beta in Hc. lia. Qed.

#[local] Hint Resolve cstr_is_bytes : bytes.

Lemma wire_header_bytes hd n : header_wf hd -> Forall is_byte (wire_header hd n).
Proof. intros [Hc _]. unfold wire_header. auto 10 with bytes. Qed.
#[local] Hint Resolve wire_header_bytes : bytes.

Lemma concat_bytes (l : list (list Z)) : Forall (Forall is_byte) l -> Forall is_byte (concat l).
Proof. induction 1; cbn; auto with bytes. Qed.
#[local] Hint Resolve concat_bytes : bytes.

Lemma wire_field_bytes f : field_wf f -> Forall is_byte (wire_field f).
Proof.
  induction f as [hd raw|hd st|hd st|hd s u|hd ha fl su p ks IH] using Field_ind_nested; intros Hwf.
  - destruct Hwf as (Hh & _ & d & _ & Hd & -> & _). cbn.
    assert (forall k, Forall is_byte (replicate k 0)) by (intros; by apply Forall_replicate). auto with bytes.
  - destruct Hwf as (Hh & _ & _ & _ & Hb). cbn. auto with bytes.
  - destruct Hwf as (Hh & _ & _ & _ & Hb). cbn. auto with bytes.
  - destruct Hwf as (Hh & _). cbn. auto with bytes.
  - apply field_wf_message in Hwf as (Hh & _ & _ & _ & _ & Hp). cbn [wire_field]. unfold wire_body_header.
    assert (Forall is_byte (concat (wire_field <$> p))); [|auto 10 with bytes].
    apply concat_bytes, Forall_fmap, Forall_forall. intros f Hf. rewrite Forall_forall in IH, Hp. by apply IH, Hp.
Qed.

Lemma wire_message_bytes m : message_wf m -> Forall is_byte (wire_message m).
Proof.
  intros [Hf Hs Hl Hc Hfs].
  unfold wire_message, wire_counted, wire_addressing_tail, wire_body, wire_body_header.
  assert (Forall is_byte (concat (wire_field <$> m_payload m))).
  { apply concat_bytes, Forall_fmap. eapply Forall_impl; [exact Hfs|]. apply wire_field_bytes. }
  assert (Forall is_byte [0]) by by repeat constructor. auto 15 with bytes.
Qed.
