(* ===== verification/Built.v ===== *)
(** * Built: messages built through the MutableMessage interface

    The calls of src/fastpath/messages/MutableMessage.cpp as steps, [removeField]
    and nested messages included, with two marks on what they have built
    ([assembled]): that no field was removed from the middle, so the index is
    consistent, and that no empty message was nested, so the message is in the form
    the wire format carries.  [built] messages have both marks. *)
From S2P Require Import Prelude Heap ByteStorage MessageBuffer Types Field Message Codec RoundTrip.

(** The [add...Field] calls that take no message. *)
Inductive AddCall :=
  | AddScalar (id : list Z) (t : ctype) (v : Z)
  | AddString (id value : list Z)
  | AddData (id value : list Z)
  | AddTimePoint (id : list Z) (nanoseconds : Z)
  | AddDuration (id : list Z) (microseconds : Z)
  | AddParts (id : list Z) (seconds microseconds : Z).

Definition call_id (c : AddCall) : list Z :=
  match c with
  | AddScalar id _ _ | AddString id _ | AddData id _
  | AddTimePoint id _ | AddDuration id _ | AddParts id _ _ => id
  end.

Section built.
Context `{Platform}.

Definition run_add (m : Message) (c : AddCall) : outcome (bool * Message) :=
  match c with
  | AddScalar id t v => addScalarField m id t v
  | AddString id value => addDataField_string m id value
  | AddData id value => addDataField_data m id value
  | AddTimePoint id ns => addDateTimeField_time_point m id ns
  | AddDuration id us => addDateTimeField_duration m id us
  | AddParts id s us => addDateTimeField_parts m id s us
  end.

(** What the C++ types of the arguments say, with the length of an identifier
    limited to its array and of data to the length word of the wire format. *)
Definition id_valid (id : list Z) : Prop := is_cstr id /\ (length id < 256)%nat.
Definition int64_range (v : Z) : Prop := - 2 ^ 63 <= v < 2 ^ 63.
Definition call_valid (c : AddCall) : Prop :=
  id_valid (call_id c) /\
  match c with
  | AddScalar _ _ _ | AddParts _ _ _ => True
  | AddString _ value => is_cstr value /\ Z.of_nat (length value) + 1 < 2 ^ 32
  | AddData _ value => Forall is_byte value /\ Z.of_nat (length value) < 2 ^ 32
  | AddTimePoint _ v | AddDuration _ v => int64_range v
  end.

(** There is room for one more field in the 32 bit field count. *)
Definition count_room (m : Message) : Prop := Z.of_nat (length (m_payload m)) + 1 < 2 ^ 32.

(** Whether [removeField] leaves the index as it has to be: there was no such field, or
    it was the last one (and the freed node still holds its index). *)
Definition keeps_index (erased_node_value : nat -> nat) (m : Message) (field : option (list Z)) : bool :=
  match field with
  | Some k =>
      match m_keys m !! k with
      | Some i => (erased_node_value i =? i)%nat && (S i =? length (m_payload m))%nat
      | None => true
      end
  | None => true
  end.

(** The messages a program can assemble with the calls of MutableMessage.  [indexed]:
    every removal kept the index; [carried]: no nested message is empty, which the wire
    format cannot carry ([decode_empty_message]).  The body of a nested message fits
    the 32 bit length word. *)
Inductive assembled : bool -> bool -> Message -> Prop :=
  | asm_new : assembled true true Message_new
  | asm_clear indexed carried m : assembled indexed carried m -> assembled true true (prepareForReuse m)
  | asm_subject indexed carried m s : assembled indexed carried m -> is_cstr s ->
      assembled indexed carried (setSubject m s).2
  | asm_add indexed carried m c r m' : assembled indexed carried m -> call_valid c -> count_room m ->
      run_add m c = Ok (r, m') -> assembled indexed carried m'
  | asm_remove indexed carried erased_node_value m field r m' : assembled indexed carried m ->
      removeField erased_node_value m field = Ok (r, m') ->
      assembled (indexed && keeps_index erased_node_value m field) carried m'
  | asm_message indexed carried m indexed' carried' id sub r m' :
      assembled indexed carried m -> assembled indexed' carried' sub -> id_valid id -> count_room m ->
      Z.of_nat (length (wire_body (m_payload sub))) < 2 ^ 32 ->
      addMessageField m id sub = Ok (r, m') ->
      assembled indexed (carried && carried' && negb (bool_decide (m_payload sub = []))) m'.

(** Those that keep their index and can be carried. *)
Definition built (m : Message) : Prop := assembled true true m.
Lemma built_new : built Message_new.
Proof. exact asm_new. Qed.
Lemma built_clear m : built m -> built (prepareForReuse m).
Proof. apply asm_clear. Qed.
Lemma built_subject m s : built m -> is_cstr s -> built (setSubject m s).2.
Proof. apply asm_subject. Qed.
Lemma built_add m c r m' : built m -> call_valid c -> count_room m -> run_add m c = Ok (r, m') -> built m'.
Proof. apply asm_add. Qed.
Lemma built_message m id sub r m' : built m -> built sub -> id_valid id -> count_room m ->
  m_payload sub <> [] -> Z.of_nat (length (wire_body (m_payload sub))) < 2 ^ 32 ->
  addMessageField m id sub = Ok (r, m') -> built m'.
Proof.
  intros B Bs Hid Hr Hne Hl E. pose proof (asm_message _ _ _ _ _ _ _ _ _ B Bs Hid Hr Hl E) as A.
  by rewrite bool_decide_eq_false_2 in A by done.
Qed.

(** ** The field constructors establish the field invariant *)

Lemma Field_new_valid id t n :
  id_valid id -> Field_new id t n = Ok (mkFieldHeader id (storage_type_value t) n) /\
    forall ty k, header_wf (mkFieldHeader id ty k).
Proof.
  intros [Hc Hl]. unfold Field_new. rewrite (proj2 (Nat.ltb_lt _ _) Hl). split; [done|].
  intros. split; [done|]. simpl. lia.
Qed.

Lemma field_traits_scalar t : scalar_type (storage_type_value (field_traits_type t)).
Proof. unfold scalar_type. destruct t; vm_compute; intuition congruence. Qed.

Lemma ScalarField_new_wf id t v f :
  id_valid id -> ScalarField_new id t v = Ok f -> field_wf f /\ identifier f = id.
Proof.
  intros Hid. unfold ScalarField_new.
  destruct (Field_new_valid id (field_traits_type t) (Z.of_nat (field_traits_size t)) Hid) as [-> Hh].
  cbn -[drop replicate]. intros [= <-]. split; [|done]. split; [apply Hh|].
  split; [apply field_traits_scalar|]. exists (writeScalar_bytes (field_traits_size t) v).
  unfold writeScalar_bytes. rewrite obj_repr_endianScalar, length_le_bytes.
  repeat split; [apply le_bytes_is_byte|by destruct t|destruct t; simpl; lia].
Qed.

Lemma cstr_bytes s : is_cstr s -> Forall is_byte s.
Proof. intros Hs. eapply Forall_impl; [exact Hs|]. intros c Hc. unfold is_byte. cbv beta in Hc. lia. Qed.

Lemma createDataField_string_wf id v f :
  id_valid id -> is_cstr v -> Z.of_nat (length v) + 1 < 2 ^ 32 ->
  createDataField_string id v = Ok f -> field_wf f /\ identifier f = id.
Proof.
  intros Hid Hv Hl. unfold createDataField_string, SmallDataField_string, LargeDataField_string.
  destruct (Field_new_valid id string_ (Z.of_nat (length v) + 1) Hid) as [-> Hh].
  assert (Forall is_byte (v ++ [0])) by (apply Forall_app; split; [by apply cstr_bytes|by repeat constructor]).
  unfold SmallDataField_max_size. cbn.
  destruct (Z.leb_spec (Z.of_nat (length v) + 1) 256); intros [= <-]; (split; [|done]);
    (split; [apply Hh|]); cbn; rewrite length_app; cbn [length];
    (split; [by left|]); repeat split; (done || lia).
Qed.

Lemma createDataField_data_wf id v f :
  id_valid id -> Forall is_byte v -> Z.of_nat (length v) < 2 ^ 32 ->
  createDataField_data id v = Ok f -> field_wf f /\ identifier f = id.
Proof.
  intros Hid Hv Hl. unfold createDataField_data, SmallDataField_data, LargeDataField_data.
  destruct (Field_new_valid id data (Z.of_nat (length v)) Hid) as [-> Hh].
  unfold SmallDataField_max_size. cbn.
  destruct (Z.leb_spec (Z.of_nat (length v)) 256); intros [= <-]; (split; [|done]);
    (split; [apply Hh|]); cbn; (split; [by right|]); repeat split; (done || lia).
Qed.

Lemma to_signed_int64 v : int64_range (to_signed 64 v).
Proof.
  unfold int64_range, to_signed. pose proof (wrap_range 64 v ltac:(lia)).
  destruct (Z.ltb_spec (wrap 64 v) (2 ^ (64 - 1))); lia.
Qed.

Lemma quot_rem_int64 v : int64_range v -> int64_range (Z.quot v 1000000) /\ int64_range (Z.rem v 1000000).
Proof.
  unfold int64_range. intros Hv. pose proof (Z.quot_rem' v 1000000).
  destruct (Z_le_dec 0 v).
  - pose proof (Z.rem_bound_pos v 1000000 ltac:(lia) ltac:(lia)). lia.
  - pose proof (Z.rem_bound_pos_neg v 1000000 ltac:(lia) ltac:(lia)). lia.
Qed.

Lemma date_time_wf id s u f :
  id_valid id -> int64_range s -> int64_range u ->
  (hd ← Field_new id date_time date_time_size; Ok (DateTimeField hd s u)) = Ok f ->
  field_wf f /\ identifier f = id.
Proof.
  intros Hid Hs Hu. destruct (Field_new_valid id date_time date_time_size Hid) as [-> Hh].
  intros [= <-]. split; [|done]. split; [apply Hh|done].
Qed.

(** ** The invariant of built messages *)

Lemma insert_field_payload m e :
  m_payload (insert_field m e).2 = m_payload m \/ m_payload (insert_field m e).2 = m_payload m ++ [e].
Proof. unfold insert_field. destruct (m_keys m !! identifier e); auto. Qed.

(** Adding a well-formed field keeps the message well-formed, and a consistent index. *)
Lemma insert_field_wf m e r m' :
  message_wf m -> field_wf e -> count_room m -> insert_field m e = (r, m') -> message_wf m'.
Proof.
  intros [Hf Hs Hsl Hc Hfs] He Hroom E. assert (m' = (insert_field m e).2) as -> by (by rewrite E). unfold count_room in Hroom.
  clear E. unfold insert_field. destruct (m_keys m !! identifier e); [done|].
  split; cbn; [done..|rewrite length_app; simpl; lia|apply Forall_app; auto].
Qed.
Lemma insert_keyed m e r m' : keyed m -> insert_field m e = (r, m') -> keyed m'.
Proof. intros K E. assert (m' = (insert_field m e).2) as -> by (by rewrite E). by apply insert_field_keyed. Qed.

(** So does removing one; the index needs the removal to keep it. *)
Lemma removeField_wf ev m field r m' : removeField ev m field = Ok (r, m') -> message_wf m -> message_wf m'.
Proof.
  intros E [Hf Hs Hsl Hc Hfs]. unfold removeField in E. destruct field as [k|]; [|by injection E as _ <-].
  destruct (m_keys m !! k) as [i|]; [|by injection E as _ <-]. cbv zeta in E.
  destruct (Nat.ltb_spec (ev i) (length (m_payload m))); [|done]. injection E as _ <-.
  split; cbn; [done..| |apply Forall_app; split; [by apply Forall_take|by apply Forall_drop]].
  rewrite length_app, length_take, length_drop. lia.
Qed.
Lemma removeField_keyed ev m field r m' : removeField ev m field = Ok (r, m') -> keeps_index ev m field = true -> keyed m -> keyed m'.
Proof.
  intros E Hk K. unfold removeField in E. unfold keeps_index in Hk. destruct field as [k|]; [|by injection E as _ <-].
  destruct (m_keys m !! k) as [i|] eqn:Ek; [|by injection E as _ <-]. cbv zeta in E.
  apply andb_true_iff in Hk as [Hev%Nat.eqb_eq Hl%Nat.eqb_eq]. rewrite Hev in E.
  destruct (Nat.ltb_spec i (length (m_payload m))); [|done]. injection E as _ <-. by apply removed_last_keyed.
Qed.

Lemma run_add_field m c r m' :
  call_valid c -> run_add m c = Ok (r, m') ->
  exists e, field_wf e /\ identifier e = call_id c /\ insert_field m e = (r, m').
Proof.
  intros [Hid Hc] Hrun.
  assert (forall (o : outcome Field), (forall e, o = Ok e -> field_wf e /\ identifier e = call_id c) ->
    (e ← o; Ok (insert_field m e)) = Ok (r, m') ->
    exists e, field_wf e /\ identifier e = call_id c /\ insert_field m e = (r, m')) as A.
  { intros o Ho E. inv_bind. destruct (Ho _ eq_refl). eauto. }
  destruct c as [id t v|id v|id v|id v|id v|id s u]; cbn [run_add call_id] in *;
    refine (A _ _ Hrun); intros e He.
  - by eapply ScalarField_new_wf.
  - destruct Hc. by eapply createDataField_string_wf.
  - destruct Hc. by eapply createDataField_data_wf.
  - assert (int64_range (Z.quot v 1000)) as Hq.
    { unfold int64_range in *. pose proof (Z.quot_rem' v 1000).
      destruct (Z_le_dec 0 v); [pose proof (Z.rem_bound_pos v 1000 ltac:(lia) ltac:(lia))|pose proof (Z.rem_bound_pos_neg v 1000 ltac:(lia) ltac:(lia))]; lia. }
    destruct (quot_rem_int64 _ Hq). refine (date_time_wf id _ _ e Hid _ _ He); done.
  - destruct (quot_rem_int64 _ Hc). refine (date_time_wf id _ _ e Hid _ _ He); done.
  - refine (date_time_wf id _ _ e Hid _ _ He); apply to_signed_int64.
Qed.

(** The state after construction and after [clear]. *)
Lemma empty_wf ha : message_wf (mkMessage ha (u8 (-1)) [] [] ∅).
Proof. split; [by vm_compute|constructor|done|done|constructor]. Qed.

(** The field of a nested message. *)
Lemma addMessageField_field m id sub r m' : id_valid id -> addMessageField m id sub = Ok (r, m') ->
  exists e, insert_field m e = (r, m') /\ e = MessageField (mkFieldHeader id (storage_type_value message_) 0) sub.
Proof.
  intros Hid Hrun. unfold addMessageField, MessageField_new in Hrun.
  rewrite (proj1 (Field_new_valid id message_ 0 Hid)) in Hrun. run_bind in Hrun. injection Hrun as Hrun. eauto.
Qed.

Lemma assembled_wf i c m : assembled i c m -> c = true -> message_wf m.
Proof.
  induction 1 as [|i c m _ _|i c m s _ IH Hs|i c m k r m' _ IH Hc Hr Hrun|i c ev m field r m' _ IH E
                 |i c m i' c' id sub r m' _ IH _ IHs Hid Hr Hlen Hrun]; intros Hcar.
  - apply empty_wf.
  - apply empty_wf.
  - specialize (IH Hcar). unfold setSubject. destruct (Z.ltb_spec (Z.of_nat (length s)) max_subject_length); [|done].
    destruct IH. by split.
  - destruct (run_add_field _ _ _ _ Hc Hrun) as (e & He & _ & E). eapply insert_field_wf; eauto.
  - eapply removeField_wf; eauto.
  - apply andb_true_iff in Hcar as [[Hc1 Hc2]%andb_true_iff Hne%negb_true_iff%bool_decide_eq_false_1].
    destruct (addMessageField_field _ _ _ _ _ Hid Hrun) as (e & E & ->).
    eapply (insert_field_wf m _ r m' (IH Hc1)); [|exact Hr|exact E]. specialize (IHs Hc2). destruct sub as [ha fl su p ks].
    apply field_wf_message. destruct IHs as [_ _ _ _ Hfs]. split; [apply (Field_new_valid id message_ 0 Hid)|done].
Qed.

Lemma assembled_keyed i c m : assembled i c m -> i = true -> keyed m.
Proof.
  induction 1 as [|i c m _ _|i c m s _ IH Hs|i c m k r m' _ IH Hc Hr Hrun|i c ev m field r m' _ IH E
                 |i c m i' c' id sub r m' _ IH _ _ Hid Hr Hlen Hrun]; intros Hi.
  - exact keyed_new.
  - unfold prepareForReuse, Message_clear. exact keyed_new.
  - specialize (IH Hi). unfold setSubject. destruct (_ <? _); [|done]. exact IH.
  - destruct (run_add_field _ _ _ _ Hc Hrun) as (e & _ & _ & E). eapply insert_keyed; eauto.
  - apply andb_true_iff in Hi as [Hi Hk]. eapply removeField_keyed; eauto.
  - destruct (addMessageField_field _ _ _ _ _ Hid Hrun) as (e & E & ->). eapply insert_keyed; eauto.
Qed.

Lemma built_inv m : built m -> message_wf m /\ keyed m.
Proof. intros B. split; [by eapply assembled_wf|by eapply assembled_keyed]. Qed.

(** Every message has a subject and addressing, whatever was removed or nested. *)
Lemma assembled_subject i c m : assembled i c m -> is_cstr (m_subject m) /\ m_hasAddressing m = true.
Proof.
  assert (forall m e r m', insert_field m e = (r, m') -> m_subject m' = m_subject m /\ m_hasAddressing m' = m_hasAddressing m) as A
    by (intros m0 e r m'; unfold insert_field; destruct (m_keys m0 !! identifier e); by intros [= _ <-]).
  induction 1 as [|i c m _ IH|i c m s _ IH Hs|i c m k r m' _ IH Hc Hr Hrun|i c ev m field r m' _ IH E
                 |i c m i' c' id sub r m' _ IH _ _ Hid Hr Hlen Hrun].
  - split; [apply Forall_nil_2|done].
  - split; [apply Forall_nil_2|apply IH].
  - destruct IH. unfold setSubject. by destruct (_ <? _).
  - destruct (run_add_field _ _ _ _ Hc Hrun) as (e & _ & _ & E). apply A in E as [-> ->]. exact IH.
  - unfold removeField in E. repeat case_match; by simplify_eq.
  - destruct (addMessageField_field _ _ _ _ _ Hid Hrun) as (e & E & ->). apply A in E as [-> ->]. exact IH.
Qed.

(** C13: every message assembled with the calls of MutableMessage, in any order, with
    fields removed anywhere and nested messages assembled the same way: it is
    well-formed for the wire unless an empty message was nested in it, and its
    index is consistent unless a field was removed that was not the last one
    (then it is not: [removeField_keyed_iff]). *)
Theorem built_wf indexed carried m : assembled indexed carried m ->
  (carried = true -> message_wf m) /\ (indexed = true -> keyed m).
Proof. intros A. split; [by eapply assembled_wf|by eapply assembled_keyed]. Qed.
End built.
