(* ===== verification/DecodeTotal.v ===== *)
(** * DecodeTotal: decoding terminates on every input

    Whatever bytes a peer sends, the recursion of MessageCodec::decode through
    nested message fields makes progress through the buffer: every field
    consumes at least its six header bytes. *)
From S2P Require Import Prelude Heap ByteStorage MessageBuffer Types Field Message Codec.

(** Memory holds bytes. *)
Definition heap_bytes (h : heap) : Prop :=
  map_Forall (fun _ c => Forall (fun x => from_option is_byte True x) c) (h_blocks h).

(** How many bytes of its block are left at a pointer. *)
Definition room (h : heap) (p : ptr) : Z :=
  match p with
  | null => 0
  | Ptr blk off => match h_blocks h !! blk with Some c => Z.of_nat (length c) - off | None => 0 end
  end.

Lemma room_advance h p k : 0 <= k -> room h (advance p k) <= room h p.
Proof. intros Hk. destruct p as [|blk off]; simpl; [lia|]. case_match; lia. Qed.

Lemma load_room h p n bs :
  heap_bytes h -> load h p n = Ok bs -> 0 < n ->
  n <= room h p /\ (forall k, 0 <= k -> room h (advance p k) = room h p - k) /\
  Forall is_byte bs /\ Z.of_nat (length bs) = n.
Proof.
  unfold load, load_cells. intros Hb Hl Hn. rewrite (proj2 (Z.leb_gt _ _)) in Hl by lia.
  destruct p as [|blk off]; [done|]. simpl. destruct (h_blocks h !! blk) as [c|] eqn:E; [|done].
  case_bool_decide as Hr; [|done]. cbn in Hl. apply determinate_inv in Hl.
  split; [lia|]. split; [intros; lia|]. specialize (Hb _ _ E). simpl in Hb.
  assert (Forall (fun x => from_option is_byte True x) (Some <$> bs)) as Hbs
    by (rewrite <- Hl; by apply Forall_take, Forall_drop). rewrite Forall_fmap in Hbs. split; [done|].
  apply (f_equal length) in Hl. rewrite length_fmap, length_take, length_drop in Hl. lia.
Qed.

Section total.
Context `{Platform}.
Context (h : heap) (bytes_h : heap_bytes h).

(** A step that reads through [b] consumes at least [k] bytes when it returns,
    and does not fail for want of fuel. *)
Definition consumes {A} (k : Z) (b : ByteStorage) (o : outcome (A * ByteStorage)) : Prop :=
  o <> Err OutOfFuel /\
  forall a b', o = Ok (a, b') -> room h (m_read_ptr b') <= room h (m_read_ptr b) - k.

Lemma consumes_ret {A} b (a : A) : consumes 0 b (Ok (a, b)).
Proof. split; [done|]. intros ? ? [= <- <-]. lia. Qed.

Lemma consumes_err {A} k b f : f <> OutOfFuel -> consumes (A:=A) k b (Err f).
Proof. intros Hf. split; [congruence|done]. Qed.

Lemma consumes_weaken {A} k k' b (o : outcome (A * ByteStorage)) :
  consumes k b o -> k' <= k -> consumes k' b o.
Proof. intros [H1 H2] Hk. split; [done|]. intros a b' E. pose proof (H2 _ _ E). lia. Qed.

Lemma consumes_bind {A B} k1 k2 b (o : outcome (A * ByteStorage))
    (f : A * ByteStorage -> outcome (B * ByteStorage)) :
  consumes k1 b o ->
  (forall a b', o = Ok (a, b') -> consumes k2 b' (f (a, b'))) ->
  consumes (k1 + k2) b (o ≫= f).
Proof.
  intros [Hf Hr] Hk. destruct o as [[a b']|e]; cbn.
  - destruct (Hk a b' eq_refl) as [Hf2 Hr2]. split; [done|]. intros a2 b2 E.
    pose proof (Hr _ _ eq_refl). pose proof (Hr2 _ _ E). lia.
  - apply consumes_err. congruence.
Qed.

Lemma consumes_pure {A B} k b (o : outcome A) (f : A -> outcome (B * ByteStorage)) :
  o <> Err OutOfFuel -> (forall a, o = Ok a -> consumes k b (f a)) -> consumes k b (o ≫= f).
Proof. intros Ho Hk. destruct o as [a|e]; cbn; [by apply Hk|]. apply consumes_err. congruence. Qed.

Lemma load_fuel p n : load h p n <> Err OutOfFuel.
Proof.
  unfold load, load_cells, determinate. destruct (n <=? 0); [done|]. destruct p; [done|].
  destruct (h_blocks h !! b); [|done]. case_bool_decide; [|done]. cbn. by destruct (mapM id _).
Qed.

Lemma remaining_fuel b : remainingReadLength b <> Err OutOfFuel.
Proof.
  unfold remainingReadLength, bytesRead, ptr_diff. destruct (m_read_ptr b), (m_first b); try done.
  by case_match.
Qed.

Lemma readScalar_consumes b n : (0 < n)%nat -> consumes (Z.of_nat n) b (readScalar h b n).
Proof.
  intros Hn. unfold readScalar. apply consumes_pure; [apply load_fuel|]. intros bs Hl.
  destruct (load_room _ _ _ _ bytes_h Hl ltac:(lia)) as (_ & Ha & _).
  split; [done|]. intros a b' [= <- <-]. cbn. rewrite Ha; lia.
Qed.

Lemma readScalar_nonneg b n v b' : (0 < n)%nat -> readScalar h b n = Ok (v, b') -> 0 <= v.
Proof.
  intros Hn. unfold readScalar. intros E. apply bind_Ok_inv in E as (bs & Hld & [= <- _]).
  destruct (load_room _ _ _ _ bytes_h Hld ltac:(lia)) as (_ & _ & Hb & Hl).
  apply Nat2Z.inj in Hl. subst n. rewrite endianScalar_obj_value by done.
  by apply le_val_range.
Qed.

Lemma advanceRead_consumes {A} b k (a : A) : 0 <= k -> consumes 0 b (Ok (a, advanceRead b k)).
Proof.
  intros Hk. split; [done|]. intros ? ? [= <- <-].
  unfold advanceRead. cbn [set_read_ptr m_read_ptr].
  pose proof (room_advance h (m_read_ptr b) k Hk). lia.
Qed.

(** The header of a field takes six bytes at least. *)
Lemma Field_read_consumes b : consumes 6 b (Field_read h b).
Proof.
  unfold Field_read. apply consumes_pure; [apply remaining_fuel|]. intros rem _.
  destruct (_ <=? _); [|by apply consumes_err].
  apply (consumes_bind 1 5); [by apply (readScalar_consumes b 1); lia|]. intros t b1 _.
  apply (consumes_bind 1 4); [by apply (readScalar_consumes b1 1); lia|]. intros il b2 Hil.
  apply (consumes_bind 4 0); [by apply (readScalar_consumes b2 4); lia|]. intros dl b3 _.
  apply consumes_pure; [apply remaining_fuel|]. intros rem' _.
  destruct (_ <=? _); [|by apply consumes_err].
  apply consumes_pure; [apply load_fuel|]. intros id _.
  apply consumes_pure; [apply remaining_fuel|]. intros rem'' _.
  destruct (_ <=? _); [|by apply consumes_err]. apply advanceRead_consumes.
  eapply readScalar_nonneg; [|exact Hil]. lia.
Qed.

Lemma Field_read_length b hd b' : Field_read h b = Ok (hd, b') -> 0 <= m_data_length hd.
Proof.
  unfold Field_read. intros E. repeat (inv_bind; try (case_match; try done)). simplify_eq.
  cbn. eapply (readScalar_nonneg _ 4); [lia|eassumption].
Qed.

(** Every constructor that reads a field does. *)
Lemma ScalarField_read_consumes b : consumes 6 b (ScalarField_read h b).
Proof.
  apply (consumes_bind 6 0); [apply Field_read_consumes|]. intros hd b1 Hhd.
  destruct (_ <=? _); [|by apply consumes_err]. apply consumes_pure; [apply load_fuel|]. intros.
  by apply advanceRead_consumes, (Field_read_length b hd b1).
Qed.

Lemma createDataField_read_consumes b n : consumes 6 b (createDataField_read h b n).
Proof.
  unfold createDataField_read. destruct (_ <=? _);
    (apply (consumes_bind 6 0); [apply Field_read_consumes|]; intros hd b1 Hhd).
  - destruct (_ <=? _); [|by apply consumes_err]. apply consumes_pure; [apply load_fuel|]. intros.
    by apply advanceRead_consumes, (Field_read_length b hd b1).
  - apply consumes_pure; [apply load_fuel|]. intros.
    by apply advanceRead_consumes, (Field_read_length b hd b1).
Qed.

Lemma DateTimeField_read_consumes b : consumes 6 b (DateTimeField_read h b).
Proof.
  apply (consumes_weaken (6 + (8 + (8 + 0)))); [|lia].
  apply consumes_bind; [apply Field_read_consumes|]. intros hd b1 _.
  apply consumes_bind; [by apply (readScalar_consumes b1 8); lia|]. intros s b2 _.
  apply consumes_bind; [by apply (readScalar_consumes b2 8); lia|]. intros u b3 _.
  apply consumes_ret.
Qed.

(** What the inner loop does, the message around it does. *)
Lemma decode_base_with_consumes loop m b :
  (forall n s m b', room h (m_read_ptr b') <= room h (m_read_ptr b) -> consumes 0 b' (loop n s m b')) ->
  consumes 0 b (decode_base_with loop h m b).
Proof.
  intros Hloop. unfold decode_base_with. apply consumes_pure; [by unfold assert_; destruct (_ <? _)|].
  intros _ _. apply consumes_pure; [apply remaining_fuel|]. intros rem _.
  destruct (_ <? _); [|apply consumes_ret].
  apply (consumes_weaken (1 + (4 + 0))); [|lia].
  apply consumes_bind; [by apply (readScalar_consumes b 1); lia|]. intros chk b1 E1.
  apply (readScalar_consumes b 1 ltac:(lia)) in E1. destruct (negb _); [by apply consumes_err|].
  apply consumes_bind; [by apply (readScalar_consumes b1 4); lia|]. intros n b2 E2.
  apply (readScalar_consumes b1 4 ltac:(lia)) in E2. apply Hloop. lia.
Qed.

Lemma peek_fuel b : peek_field_header h b <> Err OutOfFuel.
Proof.
  unfold peek_field_header.
  repeat match goal with |- (load h ?p ?n ≫= _) <> _ =>
    pose proof (load_fuel p n); destruct (load h p n); cbn -[load]; [|congruence] end.
  done.
Qed.

Lemma peek_room b x : peek_field_header h b = Ok x -> 1 <= room h (m_read_ptr b).
Proof.
  unfold peek_field_header, readBytes. intros E. apply bind_Ok_inv in E as (bs & Hld & _).
  by destruct (load_room _ _ _ _ bytes_h Hld ltac:(lia)).
Qed.

Lemma decode_fields_consumes fuel : forall n s m b,
  Z.max 0 (room h (m_read_ptr b)) < Z.of_nat fuel -> consumes 0 b (decode_fields fuel h n s m b).
Proof.
  induction fuel as [|fuel IH]; intros n s m b Hr; cbn [decode_fields];
    (destruct (n <=? 0); [apply consumes_ret|]); [lia|].
  apply consumes_pure; [apply peek_fuel|]. intros [[t il] ds] Hpeek. apply peek_room in Hpeek.
  apply (consumes_weaken (6 + 0)); [|lia].
  match goal with |- consumes _ _ (?o ≫= _) => assert (consumes 6 b o) as Hfield end.
  { destruct (_ || _); [apply createDataField_read_consumes|].
    destruct (t =? storage_type_value date_time); [apply DateTimeField_read_consumes|].
    destruct (_ =? _); [|apply ScalarField_read_consumes].
    apply (consumes_bind 6 0); [apply Field_read_consumes|]. intros hd b1 Hhd.
    apply Field_read_consumes in Hhd. apply (consumes_weaken (0 + 0)); [|lia].
    apply consumes_bind; [apply decode_base_with_consumes; intros; apply IH; lia|].
    intros [r inner] b2 _. apply consumes_ret. }
  apply consumes_bind; [exact Hfield|]. intros f b1 E. apply (proj2 Hfield) in E. apply IH. lia.
Qed.

Lemma readScalar_at_nonneg p n bs : load h p n = Ok bs -> 0 < n -> 0 <= readScalar_at bs.
Proof.
  intros Hl Hn. destruct (load_room _ _ _ _ bytes_h Hl Hn) as (_ & _ & Hb & _).
  unfold readScalar_at. rewrite endianScalar_obj_value by done. by apply le_val_range.
Qed.

Lemma have_complete_fuel b : have_complete_message h b <> Err OutOfFuel.
Proof.
  unfold have_complete_message. pose proof (remaining_fuel b).
  destruct (remainingReadLength b) as [rem|]; cbn -[readScalar_at]; [|congruence].
  destruct (_ <=? _); [|done]. pose proof (load_fuel (readBytes b) 1).
  destruct (load h (readBytes b) 1); cbn -[readScalar_at advance]; [|congruence].
  destruct (negb _); [done|]. pose proof (load_fuel (advance (readBytes b) 1) 8).
  destruct (load h (advance (readBytes b) 1) 8); cbn -[readScalar_at]; [|congruence].
  by destruct (_ <=? _).
Qed.

Lemma room_advanceRead b k : 0 <= k -> room h (m_read_ptr (advanceRead b k)) <= room h (m_read_ptr b).
Proof. apply room_advance. Qed.

Lemma addressing_consumes b : consumes 0 b (addressing_details h b).
Proof.
  unfold addressing_details. apply consumes_pure; [apply have_complete_fuel|].
  intros [st len] _. destruct st, len; try apply consumes_ret.
  apply consumes_pure; [apply load_fuel|]. intros fl _.
  apply consumes_pure; [apply load_fuel|]. intros sl Hsl.
  split; [done|]. intros a b' E. injection E as _ <-.
  pose proof (readScalar_at_nonneg _ _ _ Hsl ltac:(lia)).
  repeat (etransitivity; [apply room_advanceRead; (done || lia)|]). lia.
Qed.

(** C12: decoding terminates on every input: for any contents of the buffer, a
    recursion depth of one more than the bytes left in its block is never used
    up, so [decode] returns, throws or faults. *)
Theorem decode_terminates fuel m b :
  Z.max 0 (room h (m_read_ptr b)) < Z.of_nat fuel -> decode fuel h m b <> Err OutOfFuel.
Proof.
  intros Hf. unfold decode. pose proof (addressing_consumes b) as [Ha Hc].
  destruct (addressing_details h b) as [[[st a] b']|]; run_bind; [|congruence].
  pose proof (Hc _ _ eq_refl). destruct st, a as [a|]; try done.
  pose proof (load_fuel (a_subject a) (a_subject_length a)).
  destruct (load h (a_subject a) (a_subject_length a)); run_bind; [|congruence].
  unfold copy_subject. repeat case_bool_decide; run_bind; try done;
    apply decode_base_with_consumes; intros; apply decode_fields_consumes; lia.
Qed.
End total.
