(* ===== verification/Subject.v ===== *)
(** * Subject: string hashing, subjects and subscriptions

    src/fastpath/utils/stringhash.h, src/fastpath/messages/subject.h and
    src/fastpath/messages/subscription.h.  Class [Hasher] is the template
    parameter [H] of the two class templates: what they rely on of a hasher;
    [string_hash] is the instance the program uses.  The theorems about
    matching are proved for every hasher. *)
From S2P Require Import Prelude Heap ByteStorage MessageBuffer Types Field.

(** ** stringhash.h *)

Definition string_comparator (s1 s2 : list Z) : bool := bool_decide (cstr s1 = cstr s2).

(** [result = s[i] + (result * prime)]: [s[i]] is a signed [char], converted to
    [size_t]. *)
Definition hash_step (result c : Z) : Z := u64 (to_signed 8 c + u64 (result * 31)).

(** [operator()(const char *s)]: up to the terminating NUL. *)
Fixpoint string_hash_cstr (result : Z) (s : list Z) : Z :=
  match s with
  | [] => result
  | c :: s => if c =? 0 then result else string_hash_cstr (hash_step result c) s
  end.

(** [operator()(const char *s, const size_t length)] on the [length] bytes. *)
Fixpoint string_hash_len (result : Z) (s : list Z) : Z :=
  match s with
  | [] => result
  | c :: s => string_hash_len (hash_step result c) s
  end.

(** The interface of a hasher. *)
Class Hasher := {
  hash_c : list Z -> Z;                        (* of a C string *)
  hash_n : list Z -> Z;                        (* of a length-delimited string *)
  hash_agree : forall s, is_cstr s -> hash_c s = hash_n s
}.

Lemma string_hash_agree r s : is_cstr s -> string_hash_cstr r s = string_hash_len r s.
Proof.
  intros Hs. revert r. induction Hs as [|c s Hc _ IH]; intros r; [done|]. simpl.
  destruct (Z.eqb_spec c 0); [lia|]. apply IH.
Qed.

#[export, refine] Instance string_hash : Hasher := {
  hash_c := string_hash_cstr 0; hash_n := string_hash_len 0 }.
Proof. intros s. apply string_hash_agree. Defined.

Definition dot : Z := 46.
Definition wildcard_completion : Z := 62.
Definition wildcard_element : Z := 42.

(** Bytes [start, start + n) of a string. *)
Definition slice (s : list Z) (start n : nat) : list Z := take n (drop start s).

Inductive component_type := STANDARD | ELEMENT | COMPLETION.

Record component := mkComponent { component_hash : Z; component_kind : component_type }.

Record subject := mkSubject {
  subj_components : list Z; subj_hash : Z; subj_is_admin : bool
}.

Record subscription := mkSubscription {
  sub_components : list component; m_contains_wildcard : bool; sub_hash : Z
}.

Section operations.
Context `{Hasher}.

(** ** subject.h *)

(** The loop of [hash_elements]: [k] iterations left, at index [i], with the
    current element starting at [start]. *)
Fixpoint hash_elements_loop (s : list Z) (k i start : nat) (out : list Z) : list Z :=
  match k with
  | O => out ++ [hash_n (slice s start (i - start))]
  | S k =>
      match s !! i with
      | Some c =>
          if c =? dot
          then hash_elements_loop s k (S i) (start + (i - start) + 1)
                 (out ++ [hash_n (slice s start (i - start))])
          else hash_elements_loop s k (S i) start out
      | None => out
      end
  end.
Definition hash_elements (s : list Z) : list Z := hash_elements_loop s (length s) 0 0 [].

Definition admin_identifier : Z := hash_c (bytes_of_string "_FP").

(** [subject(const char *subject)]; [hash_elements] always yields an element. *)
Definition subject_new (s : list Z) : subject :=
  let comps := hash_elements s in
  mkSubject comps (hash_c s) (default 0 (head comps) =? admin_identifier).

Definition subject_eq (a b : subject) : bool := subj_hash a =? subj_hash b.

(** ** subscription.h *)

Fixpoint find_char (c : Z) (s : list Z) : option nat :=
  match s with
  | [] => None
  | x :: s => if x =? c then Some O else S <$> find_char c s
  end.
(** [subject.find_first_of(c, start)]; [None] is [npos]. *)
Definition find_first_of (s : list Z) (c : Z) (start : nat) : option nat :=
  Nat.add start <$> find_char c (drop start s).

(** [split]: the loop condition [end <= npos] always holds. *)
Fixpoint split_loop (fuel : nat) (s : list Z) (start : nat) (end_ : option nat)
    (out : list (list Z)) : outcome (list (list Z)) :=
  match fuel with
  | O => Err OutOfFuel
  | S fuel =>
      match end_ with
      | None => Ok (out ++ [drop start s])
      | Some e =>
          split_loop fuel s (e + 1) (find_first_of s dot (e + 1))
            (out ++ [slice s start (e - start)])
      end
  end.
Definition split (s : list Z) : outcome (list (list Z)) :=
  split_loop (S (length s)) s 0 (find_first_of s dot 0) [].

Definition contains_wildcard (s : list Z) : bool :=
  existsb (fun c => (c =? wildcard_completion) || (c =? wildcard_element)) s.

(** The [switch] on [c[0]], which is NUL for an empty component. *)
Definition component_of (c : list Z) : component :=
  let h := hash_c c in
  let first := default 0 (head c) in
  if first =? wildcard_completion then mkComponent h COMPLETION
  else if first =? wildcard_element then mkComponent h ELEMENT
  else mkComponent h STANDARD.

(** [subscription(const char *subject)] *)
Definition subscription_new (s : list Z) : outcome subscription :=
  let w := contains_wildcard s in
  comps ← (if w then out ← split s; Ok (map component_of out) else Ok [] : outcome (list component));
  Ok (mkSubscription comps w (hash_c s)).

(** Copy assignment. *)
Definition subscription_assign (this other : subscription) : subscription :=
  mkSubscription (sub_components this ++ sub_components other)
    (m_contains_wildcard other) (sub_hash other).

(** The predicate given to [find_if_not], with [index] as its running state. *)
Fixpoint find_if_not_component (cs : list component) (subj : list Z) (index : nat)
    : outcome bool :=
  match cs with
  | [] => Ok true
  | c :: cs =>
      r ← match component_kind c with
          | STANDARD =>
              match subj !! index with
              | Some x => Ok (component_hash c =? x)
              | None => undefined OutOfBounds
              end
          | ELEMENT | COMPLETION => Ok true
          end;
      if (r : bool) then find_if_not_component cs subj (S index) else Ok false
  end.

Definition matches (sub : subscription) (subj : subject) : outcome bool :=
  if negb (m_contains_wildcard sub) then Ok (sub_hash sub =? subj_hash subj)
  else if (length (sub_components sub) <=? length (subj_components subj))%nat
  then find_if_not_component (sub_components sub) (subj_components subj) 0
  else Ok false.

Definition subscription_eq (a b : subscription) : bool := sub_hash a =? sub_hash b.
(** [operator==] with a C string names [tf::string_hash], whatever [H] is. *)
Definition subscription_eq_cstr (a : subscription) (other : list Z) : bool :=
  sub_hash a =? string_hash_cstr 0 other.
End operations.

(** ** Splitting is splitting at the dots *)

(** The elements of a subject, by recursion on the string. *)
Fixpoint components (s : list Z) : list (list Z) :=
  match s with
  | [] => [[]]
  | c :: s =>
      if c =? dot then [] :: components s
      else match components s with x :: xs => (c :: x) :: xs | [] => [[c]] end
  end.

Fixpoint join_dots (l : list (list Z)) : list Z :=
  match l with
  | [] => []
  | [x] => x
  | x :: l => x ++ dot :: join_dots l
  end.

Definition prepend (p : list Z) (l : list (list Z)) : list (list Z) :=
  match l with x :: xs => (p ++ x) :: xs | [] => [p] end.

Lemma components_cons s : exists x xs, components s = x :: xs.
Proof.
  destruct s as [|c s]; simpl; [eauto|]. destruct (c =? dot); [eauto|].
  destruct (components s); eauto.
Qed.

Lemma components_step c s :
  components (c :: s) = if c =? dot then [] :: components s else prepend [c] (components s).
Proof. simpl. destruct (c =? dot); [done|]. by destruct (components s). Qed.

Lemma prepend_prepend p q l : prepend p (prepend q l) = prepend (p ++ q) l.
Proof. destruct l; simpl; [done|]. by rewrite app_assoc. Qed.

Lemma prepend_nil s : prepend [] (components s) = components s.
Proof. by destruct (components_cons s) as (x & xs & ->). Qed.

(** Elements joined by dots give the subject back, and hold no dot. *)
Lemma join_components s : join_dots (components s) = s.
Proof.
  induction s as [|c s IH]; [done|]. rewrite components_step.
  destruct (components_cons s) as (x & xs & E). rewrite E in *.
  destruct (Z.eqb_spec c dot) as [->|]; simpl in *; [by rewrite IH|].
  destruct xs; simpl in *; by rewrite <- IH.
Qed.

Lemma components_join l :
  l <> [] -> Forall (fun x => dot ∉ x) l -> components (join_dots l) = l.
Proof.
  intros Hne Hl. induction Hl as [|x l Hx Hl IH]; [done|]. clear Hne.
  assert (forall x rest, dot ∉ x -> components (x ++ rest) = prepend x (components rest)) as A.
  { clear. induction x as [|c x IH]; intros rest Hx; [by rewrite prepend_nil|].
    apply not_elem_of_cons in Hx as [Hc Hx]. rewrite <- app_comm_cons, components_step.
    destruct (Z.eqb_spec c dot); [congruence|]. rewrite IH by done. by rewrite prepend_prepend. }
  destruct l as [|y l].
  - simpl. rewrite <- (app_nil_r x) at 1. rewrite A by done. simpl. by rewrite app_nil_r.
  - change (join_dots (x :: y :: l)) with (x ++ dot :: join_dots (y :: l)).
    rewrite A by done. rewrite components_step, Z.eqb_refl.
    rewrite IH by done. simpl. by rewrite app_nil_r.
Qed.

Section splitting.
Context `{Hasher}.

Lemma slice_S s start i c :
  s !! i = Some c -> (start <= i)%nat ->
  slice s start (S i - start) = slice s start (i - start) ++ [c].
Proof.
  intros Hc Hle. unfold slice. replace (S i - start)%nat with (S (i - start)) by lia.
  apply take_S_r. rewrite lookup_drop. by replace (start + (i - start))%nat with i by lia.
Qed.

Lemma hash_elements_loop_spec s k : forall i start out,
  (start <= i)%nat -> (i + k = length s)%nat ->
  hash_elements_loop s k i start out =
    out ++ (hash_n <$> prepend (slice s start (i - start)) (components (drop i s))).
Proof.
  induction k as [|k IH]; intros i start out Hle Hk; cbn [hash_elements_loop].
  - rewrite drop_ge by lia. simpl. by rewrite app_nil_r.
  - destruct (lookup_lt_is_Some_2 s i) as [c Hc]; [lia|]. rewrite Hc.
    rewrite (drop_S s c i Hc), components_step. destruct (Z.eqb_spec c dot) as [->|Hne].
    + replace (start + (i - start) + 1)%nat with (S i) by lia.
      rewrite IH, Nat.sub_diag by lia. unfold slice at 2. rewrite take_0, prepend_nil.
      simpl. by rewrite app_nil_r, <- app_assoc.
    + rewrite IH by lia. rewrite (slice_S _ _ _ _ Hc) by done. by rewrite prepend_prepend.
Qed.

Lemma hash_elements_spec s : hash_elements s = hash_n <$> components s.
Proof.
  unfold hash_elements. rewrite hash_elements_loop_spec by lia.
  unfold slice. by rewrite take_0, drop_0, prepend_nil.
Qed.

Lemma components_find s :
  components s = match find_char dot s with
                 | None => [s]
                 | Some i => take i s :: components (drop (S i) s)
                 end.
Proof.
  induction s as [|c s IH]; [done|]. rewrite components_step. simpl.
  destruct (c =? dot); [by rewrite drop_0|]. rewrite IH.
  destruct (find_char dot s) as [i|]; done.
Qed.

Lemma find_char_lt c s i : find_char c s = Some i -> (i < length s)%nat.
Proof.
  revert i. induction s as [|x s IH]; intros i; [done|]. simpl. destruct (x =? c); [intros [= <-]; lia|].
  destruct (find_char c s); [|done]. intros [= <-]. specialize (IH _ eq_refl). lia.
Qed.

Lemma split_loop_spec fuel : forall s start out,
  (length (drop start s) < fuel)%nat ->
  split_loop fuel s start (find_first_of s dot start) out = Ok (out ++ components (drop start s)).
Proof.
  induction fuel as [|fuel IH]; intros s start out Hf; [lia|]. cbn [split_loop].
  unfold find_first_of at 1. rewrite (components_find (drop start s)).
  destruct (find_char dot (drop start s)) as [i|] eqn:E; [|done]. cbn.
  apply find_char_lt in E. rewrite length_drop in *.
  rewrite IH by (rewrite length_drop; lia). rewrite <- app_assoc. unfold slice. rewrite drop_drop.
  replace (start + i - start)%nat with i by lia.
  by replace (start + S i)%nat with (start + i + 1)%nat by lia.
Qed.

(** [split] terminates and yields the elements. *)
Lemma split_spec s : split s = Ok (components s).
Proof. unfold split. by rewrite split_loop_spec by (rewrite drop_0; lia). Qed.
End splitting.

(** ** Hash values *)

(** The polynomial the hash computes, before reduction to [size_t]. *)
Fixpoint hash_poly (acc : Z) (s : list Z) : Z :=
  match s with [] => acc | c :: s => hash_poly (to_signed 8 c + acc * 31) s end.

Lemma hash_poly_acc acc s : hash_poly acc s = acc * 31 ^ Z.of_nat (length s) + hash_poly 0 s.
Proof.
  revert acc. induction s as [|c s IH]; intros acc; [simpl; lia|]. cbn [hash_poly length].
  rewrite IH, (IH (to_signed 8 c + 0 * 31)), Nat2Z.inj_succ, Z.pow_succ_r by lia. lia.
Qed.

Lemma hash_poly_wrap acc s : u64 (hash_poly (u64 acc) s) = u64 (hash_poly acc s).
Proof.
  rewrite hash_poly_acc, (hash_poly_acc acc). unfold wrap.
  by rewrite <- Zplus_mod_idemp_l, Zmult_mod_idemp_l, Zplus_mod_idemp_l.
Qed.

(** The hash reduces at every step; this is the polynomial reduced once. *)
Lemma string_hash_poly r s : u64 (string_hash_len r s) = u64 (hash_poly r s).
Proof.
  revert r. induction s as [|c s IH]; intros r; [done|]. simpl. rewrite IH.
  unfold hash_step. rewrite hash_poly_wrap. rewrite hash_poly_acc, (hash_poly_acc (_ + r * 31)).
  unfold wrap. rewrite <- (Zplus_mod_idemp_l (_ * _)), <- Zmult_mod_idemp_l.
  rewrite (Zplus_mod_idemp_r (r * 31)). by rewrite Zmult_mod_idemp_l, Zplus_mod_idemp_l.
Qed.

Lemma string_hash_range s : 0 <= string_hash_len 0 s < 2 ^ 64.
Proof.
  assert (forall r, 0 <= r < 2 ^ 64 -> 0 <= string_hash_len r s < 2 ^ 64) as A; [|by apply A].
  induction s as [|c s IH]; intros r Hr; [done|]. apply IH. by apply wrap_range.
Qed.

(** The hash of a concatenation is determined by the hashes of its parts:
    it is a polynomial rolling hash with base 31, modulo [2^64]. *)
Theorem string_hash_app a b :
  string_hash_len 0 (a ++ b) =
    u64 (string_hash_len 0 a * 31 ^ Z.of_nat (length b) + string_hash_len 0 b).
Proof.
  rewrite <- (wrap_small 64 (string_hash_len 0 (a ++ b))) by apply string_hash_range.
  rewrite string_hash_poly.
  assert (hash_poly 0 (a ++ b) = hash_poly (hash_poly 0 a) b) as ->.
  { generalize 0 as r. induction a as [|c a IH]; intros r; [done|]. apply IH. }
  rewrite hash_poly_acc. pose proof (string_hash_poly 0 a) as Ha. pose proof (string_hash_poly 0 b) as Hb.
  unfold wrap in *. rewrite Zplus_mod, Zmult_mod, <- Ha, <- Hb.
  by rewrite <- Zmult_mod, <- Zplus_mod.
Qed.

(** ** Matching *)

Definition is_wildcard (c : list Z) : bool :=
  (default 0 (head c) =? wildcard_completion) || (default 0 (head c) =? wildcard_element).

(** Element by element; what the subject has beyond the pattern is free. *)
Fixpoint prefix_covers (p s : list (list Z)) : Prop :=
  match p, s with
  | [], _ => True
  | _ :: _, [] => False
  | x :: p, y :: s => (is_wildcard x = true \/ x = y) /\ prefix_covers p s
  end.

(** The specification of [matches]: which subjects a subscription covers. *)
Definition covers (p s : list Z) : Prop :=
  if contains_wildcard p then prefix_covers (components p) (components s) else p = s.

Section matching.
Context `{Hasher}.

(** Elements of a C string are C strings. *)
Lemma components_cstr s : is_cstr s -> Forall is_cstr (components s).
Proof.
  induction 1 as [|c s Hc _ IH]; [by repeat constructor|]. rewrite components_step.
  destruct (c =? dot); [by constructor; [constructor|]|].
  destruct (components_cons s) as (x & xs & E). rewrite E in *. inversion_clear IH.
  constructor; [by constructor|done].
Qed.

Lemma component_of_kind c :
  component_kind (component_of c) = STANDARD <-> is_wildcard c = false.
Proof. unfold component_of, is_wildcard. destruct (_ =? _), (_ =? _); naive_solver. Qed.

Lemma component_of_hash c : component_hash (component_of c) = hash_c c.
Proof. unfold component_of. by repeat case_match. Qed.

(** The loop of [matches], element by element. *)
Fixpoint covers_hashed (p s : list (list Z)) : bool :=
  match p, s with
  | [], _ => true
  | _ :: _, [] => false
  | x :: p, y :: s => (is_wildcard x || (hash_n x =? hash_n y)) && covers_hashed p s
  end.

Lemma find_if_not_spec p : forall s index,
  Forall is_cstr p -> (index + length p <= length s)%nat ->
  find_if_not_component (component_of <$> p) (hash_n <$> s) index =
    Ok (covers_hashed p (drop index s)).
Proof.
  induction p as [|x p IH]; intros s index Hp Hlen; [done|]. rewrite fmap_cons.
  inversion_clear Hp as [|? ? Hx Hp']. cbn [length] in Hlen.
  destruct (lookup_lt_is_Some_2 s index) as [y Hy]; [lia|].
  rewrite (drop_S _ _ _ Hy). cbn [find_if_not_component covers_hashed].
  rewrite list_lookup_fmap, Hy, component_of_hash, hash_agree by done.
  pose proof (component_of_kind x) as Hk.
  destruct (component_kind (component_of x)); cbn [fmap option_fmap option_map mbind outcome_bind].
  - rewrite (proj1 Hk eq_refl). cbn [orb].
    destruct (hash_n x =? hash_n y); [|done]. cbn [andb]. rewrite IH by (done || lia). done.
  - destruct (is_wildcard x); [|by discriminate (proj2 Hk eq_refl)]. rewrite IH by (done || lia). done.
  - destruct (is_wildcard x); [|by discriminate (proj2 Hk eq_refl)]. rewrite IH by (done || lia). done.
Qed.

Lemma covers_hashed_length p s : covers_hashed p s = true -> (length p <= length s)%nat.
Proof.
  revert s. induction p as [|x p IH]; intros [|y s]; simpl; try done; [lia|].
  intros [_ Hr]%andb_true_iff. apply IH in Hr. lia.
Qed.

Lemma matches_hashed p s :
  is_cstr p -> exists sub, subscription_new p = Ok sub /\
    matches sub (subject_new s) =
      Ok (if contains_wildcard p then covers_hashed (components p) (components s)
          else hash_c p =? hash_c s).
Proof.
  intros Hp. unfold subscription_new. destruct (contains_wildcard p) eqn:W.
  - rewrite split_spec. cbn. eexists. split; [done|]. unfold matches. cbn -[components].
    rewrite hash_elements_spec, length_map, length_fmap.
    destruct (Nat.leb_spec (length (components p)) (length (components s))).
    + change (map component_of) with (fmap (M:=list) component_of).
      by rewrite find_if_not_spec by (done || by apply components_cstr).
    + destruct (covers_hashed _ _) eqn:E; [|done]. apply covers_hashed_length in E. lia.
  - cbn. eexists. done.
Qed.

(** No two of these strings collide. *)
Definition collision_free (p s : list Z) : Prop :=
  (hash_n p = hash_n s -> p = s) /\
  forall x y, x ∈ components p -> y ∈ components s -> hash_n x = hash_n y -> x = y.

Lemma covers_hashed_iff p s :
  (forall x y, x ∈ p -> y ∈ s -> hash_n x = hash_n y -> x = y) ->
  covers_hashed p s = true <-> prefix_covers p s.
Proof.
  revert s. induction p as [|x p IH]; intros [|y s] Hc; simpl; [done..| |]; [by split|].
  rewrite andb_true_iff, orb_true_iff, Z.eqb_eq, IH by (intros; apply Hc; by try right).
  assert (hash_n x = hash_n y <-> x = y) as ->; [|done].
  split; [apply Hc; left|by intros ->].
Qed.

Lemma matches_covers_spec p s :
  is_cstr p -> is_cstr s -> collision_free p s ->
  exists sub r, subscription_new p = Ok sub /\ matches sub (subject_new s) = Ok r /\
    (r = true <-> covers p s).
Proof.
  intros Hp Hs [Hc1 Hc2]. destruct (matches_hashed p s Hp) as (sub & E & M).
  do 2 eexists. split; [done|]. split; [done|]. unfold covers.
  destruct (contains_wildcard p); [by apply covers_hashed_iff|].
  rewrite Z.eqb_eq, !hash_agree by done. split; [done|by intros ->].
Qed.

(** C11: a subscription matches a subject exactly when the subject is the same
    string or, with wildcards, when each of its elements is covered by the
    pattern's element at that place, provided the hasher separates the strings
    involved. *)
Theorem matches_covers p s :
  is_cstr p -> is_cstr s -> collision_free p s ->
  exists sub r, subscription_new p = Ok sub /\ matches sub (subject_new s) = Ok r /\
    (r = true <-> covers p s).
Proof. apply matches_covers_spec. Qed.

Lemma covers_matches_spec p s :
  is_cstr p -> covers p s ->
  exists sub, subscription_new p = Ok sub /\ matches sub (subject_new s) = Ok true.
Proof.
  intros Hp Hc. destruct (matches_hashed p s Hp) as (sub & E & M). exists sub. split; [done|].
  rewrite M. f_equal. unfold covers in Hc. destruct (contains_wildcard p).
  - revert Hc. generalize (components p) (components s). clear.
    induction l as [|x p IH]; intros [|y s]; simpl; try done.
    intros [[->| ->] Hc]; [by rewrite IH|]. by rewrite Z.eqb_refl, orb_true_r, IH.
  - subst. apply Z.eqb_refl.
Qed.

(** A covered subject is matched with any hasher, so no message is missed:
    collisions can only add matches. *)
Theorem covers_matches p s :
  is_cstr p -> covers p s ->
  exists sub, subscription_new p = Ok sub /\ matches sub (subject_new s) = Ok true.
Proof. apply covers_matches_spec. Qed.

Lemma components_app_dot s t : components (s ++ dot :: t) = components s ++ components t.
Proof.
  induction s as [|c s IH]; [done|]. rewrite <- app_comm_cons, !components_step, IH.
  destruct (c =? dot); [done|]. by destruct (components_cons s) as (x & xs & ->).
Qed.

(** A subscription with a wildcard that matches a subject matches every
    subject below it: the element wildcard is not told apart from the
    completion wildcard, and the pattern only has to cover a prefix. *)
Theorem wildcard_matches_below p s t :
  is_cstr p -> contains_wildcard p = true ->
  forall sub, subscription_new p = Ok sub -> matches sub (subject_new s) = Ok true ->
  matches sub (subject_new (s ++ dot :: t)) = Ok true.
Proof.
  intros Hp Hw sub Hsub Hm. destruct (matches_hashed p s Hp) as (sub1 & E1 & M1).
  destruct (matches_hashed p (s ++ dot :: t) Hp) as (sub2 & E2 & M2).
  rewrite Hsub in E1, E2. simplify_eq. rewrite Hw in *. rewrite M2, components_app_dot.
  rewrite M1 in Hm. injection Hm as Hm. f_equal. revert Hm. generalize (components t).
  generalize (components p) (components s). clear. intros p s rest. revert s.
  induction p as [|x p IH]; intros [|y s]; simpl; try done.
  intros [-> Hc]%andb_true_iff. by apply IH.
Qed.

(** Copy assignment between subscriptions yields a copy exactly when the
    target holds no components; otherwise the components are appended. *)
Theorem assign_copies_iff (this other : subscription) :
  subscription_assign this other = other <-> sub_components this = [].
Proof.
  destruct this as [c1 w1 h1], other as [c2 w2 h2]. unfold subscription_assign. cbn. split.
  - intros [= E]. apply (f_equal length) in E. rewrite length_app in E.
    destruct c1; [done|]. cbn in E. lia.
  - by intros ->.
Qed.
End matching.

(** ** Instances on the program's own hasher *)

Lemma matches_covers_witness :
  exists sub r, subscription_new (bytes_of_string "SECTION.*.TWO") = Ok sub /\
    matches sub (subject_new (bytes_of_string "SECTION.ONE.TWO")) = Ok r /\
    (r = true <-> covers (bytes_of_string "SECTION.*.TWO") (bytes_of_string "SECTION.ONE.TWO")).
Proof.
  apply matches_covers.
  - apply (bool_decide_unpack _). vm_compute. exact I.
  - apply (bool_decide_unpack _). vm_compute. exact I.
  - split; [vm_compute; discriminate|]. intros x y Hx Hy.
    assert (bool_decide (Forall (fun x => Forall (fun y => hash_n x = hash_n y -> x = y)
      (components (bytes_of_string "SECTION.ONE.TWO"))) (components (bytes_of_string "SECTION.*.TWO"))))
      as HF by (vm_compute; exact I).
    apply bool_decide_unpack in HF. rewrite Forall_forall in HF. specialize (HF x Hx).
    rewrite Forall_forall in HF. exact (HF y Hy).
Defined.

Lemma covers_matches_witness :
  exists sub, subscription_new (bytes_of_string "SECTION.>") = Ok sub /\
    matches sub (subject_new (bytes_of_string "SECTION.ONE.TWO")) = Ok true.
Proof.
  apply covers_matches; [apply (bool_decide_unpack _); vm_compute; exact I|].
  unfold covers. vm_compute. intuition.
Defined.

Lemma wildcard_matches_below_witness :
  exists sub, subscription_new (bytes_of_string "A.*") = Ok sub /\
    matches sub (subject_new (bytes_of_string "A.B" ++ dot :: bytes_of_string "C")) = Ok true.
Proof.
  eexists. split; [vm_compute; reflexivity|].
  apply (wildcard_matches_below (bytes_of_string "A.*")); vm_compute; try reflexivity.
  apply (bool_decide_unpack _). vm_compute. exact I.
Defined.

(** With [tf::string_hash] there are subjects that collide: a subscription
    to one subject receives the messages of another. *)
Theorem string_hash_collision :
  exists p s sub, p <> s /\ is_cstr p /\ is_cstr s /\ subscription_new p = Ok sub /\
    matches sub (subject_new s) = Ok true.
Proof.
  exists (bytes_of_string "NEWS.Aa"), (bytes_of_string "NEWS.BB"). eexists.
  split; [by vm_compute|]. split; [by apply (bool_decide_unpack _); vm_compute|].
  split; [by apply (bool_decide_unpack _); vm_compute|]. split; by vm_compute.
Qed.
