(* ===== verification/Url.v ===== *)
(** * Url: src/fastpath/transport/URL.h and URL.cpp

    The parser of the transport URLs.  An iterator into the URL string is the
    suffix of the string it points at. *)
From S2P Require Import Prelude.

Definition colon : Z := 58.
Definition slash : Z := 47.
Definition question : Z := 63.
Definition ampersand : Z := 38.
Definition equals : Z := 61.

Record url := mkUrl {
  m_protocol : list Z; m_host : list Z; m_port : list Z; m_path : list Z;
  m_query : gmap (list Z) (list Z)
}.

Definition tolower (c : Z) : Z := if (65 <=? c) && (c <=? 90) then c + 32 else c.

(** [std::find_if(begin, end, p)]: what is before the iterator found, and the
    iterator. *)
Fixpoint find_if (p : Z -> bool) (s : list Z) : list Z * list Z :=
  match s with
  | [] => ([], [])
  | c :: s' => if p c then ([], s) else let '(a, b) := find_if p s' in (c :: a, b)
  end.
Definition find_separator (s : list Z) : list Z * list Z :=
  find_if (fun v => (v =? slash) || (v =? colon) || (v =? question)) s.
Definition find (c : Z) (s : list Z) : list Z * list Z := find_if (Z.eqb c) s.

(** [std::search]: the part before the first occurrence of [pat] and the
    iterator, at the end of the string when there is none. *)
Fixpoint search (pat s : list Z) : list Z * list Z :=
  if bool_decide (take (length pat) s = pat) then ([], s)
  else match s with
       | [] => ([], [])
       | c :: s' => let '(a, b) := search pat s' in (c :: a, b)
       end.

Definition prot_end : list Z := bytes_of_string "://".

Definition emplace (q : gmap (list Z) (list Z)) (k v : list Z) : gmap (list Z) (list Z) :=
  match q !! k with Some _ => q | None => <[k := v]> q end.

(** The inner loop, at ['?'] or ['&'].  [std::find(pos + 1, new_query, '=')]
    starts behind its end when the parameter is empty. *)
Fixpoint query_loop (fuel : nat) (pos : list Z) (q : gmap (list Z) (list Z))
    : outcome (gmap (list Z) (list Z)) :=
  match pos with
  | [] => Ok q
  | _ :: pos =>
      match fuel with
      | O => Err OutOfFuel
      | S fuel =>
          let '(param, new_query) := find ampersand pos in
          match param with
          | [] => undefined InvalidIterator
          | c :: param =>
              let '(key_rest, key_end) := find equals param in
              let value := match key_end with [] => [] | _ :: v => v end in
              query_loop fuel new_query (emplace q (c :: key_rest) value)
          end
      end
  end.

(** The outer loop over the optional parts. *)
Fixpoint parts_loop (fuel : nat) (pos : list Z) (u : url) : outcome url :=
  match pos with
  | [] => Ok u
  | c :: pos' =>
      match fuel with
      | O => Err OutOfFuel
      | S fuel =>
          if c =? colon then
            let '(port, port_end) := find_separator pos' in
            parts_loop fuel port_end
              (mkUrl (m_protocol u) (m_host u) (m_port u ++ port) (m_path u) (m_query u))
          else if c =? slash then
            let '(path, path_end) := find question pos' in
            parts_loop fuel path_end
              (mkUrl (m_protocol u) (m_host u) (m_port u) (m_path u ++ path) (m_query u))
          else if c =? question then
            q ← query_loop fuel pos (m_query u);
            Ok (mkUrl (m_protocol u) (m_host u) (m_port u) (m_path u) q)
          else throw InvalidArgument
      end
  end.

(** [url::url(const std::string &url_s)] *)
Definition url_new (url_s : list Z) : outcome url :=
  let '(prot, prot_i) := search prot_end url_s in
  let protocol := tolower <$> prot in
  match prot_i with
  | [] => throw InvalidArgument
  | _ =>
      let prot_i := drop (length prot_end) prot_i in
      let '(host, host_end) := find_separator prot_i in
      parts_loop (S (length url_s)) host_end (mkUrl protocol (tolower <$> host) [] [] ∅)
  end.

Definition url_eq (a b : url) : bool :=
  bool_decide (m_protocol a = m_protocol b) && bool_decide (m_host a = m_host b)
  && bool_decide (m_port a = m_port b) && bool_decide (m_path a = m_path b)
  && bool_decide (m_query a = m_query b).

(** ** The searches *)

Lemma find_if_app p s a b : find_if p s = (a, b) -> s = a ++ b.
Proof.
  revert a b. induction s as [|c s IH]; intros a b; simpl; [by intros [= <- <-]|].
  destruct (p c); [by intros [= <- <-]|]. destruct (find_if p s) as [a' b'] eqn:E.
  intros [= <- <-]. simpl. f_equal. by apply IH.
Qed.

Lemma find_if_head p s a c b : find_if p s = (a, c :: b) -> p c = true.
Proof.
  revert a. induction s as [|x s IH]; intros a; simpl; [done|].
  destruct (p x) eqn:E; [intros [= _ <- _]; done|].
  destruct (find_if p s) as [a' b']. intros [= _ ->]. by eapply IH.
Qed.

(** Text without a stop character, then the end or a stop character. *)
Lemma find_if_stop p a b :
  Forall (fun c => p c = false) a -> (forall c, head b = Some c -> p c = true) ->
  find_if p (a ++ b) = (a, b).
Proof.
  intros Ha Hb. induction Ha as [|c a Hc _ IH].
  - destruct b as [|c b]; [done|]. simpl. by rewrite (Hb c).
  - simpl. by rewrite Hc, IH.
Qed.

Lemma search_app pat s a b : search pat s = (a, b) -> s = a ++ b.
Proof.
  revert a b. induction s as [|c s IH]; intros a b; simpl; case_bool_decide; try by intros [= <- <-].
  destruct (search pat s) as [a' b'] eqn:E. intros [= <- <-]. simpl. f_equal. by apply IH.
Qed.

(** The first ["://"] when no [':'] comes before it. *)
Lemma search_prot a b :
  Forall (fun c => c <> colon) a -> search prot_end (a ++ prot_end ++ b) = (a, prot_end ++ b).
Proof.
  induction 1 as [|c a Hc _ IH].
  - unfold app at 1. by destruct b; vm_compute.
  - rewrite <- app_comm_cons. cbn [search]. rewrite bool_decide_eq_false_2; [by rewrite IH|].
    change prot_end with (colon :: drop 1 prot_end). cbn. congruence.
Qed.

(** ** Termination and errors *)

Lemma query_loop_total fuel pos q :
  (length pos <= fuel)%nat -> query_loop fuel pos q <> Err OutOfFuel /\
  forall e, query_loop fuel pos q <> throw e.
Proof.
  revert pos q. induction fuel as [|fuel IH]; intros [|c pos] q Hl; cbn in Hl; try (simpl; done || lia).
  cbn [query_loop]. destruct (find ampersand pos) as [param nq] eqn:E.
  apply find_if_app in E. subst pos. rewrite length_app in Hl. destruct param as [|x param]; [done|].
  destruct (find equals param) as [kr ke]. apply IH. cbn in Hl. lia.
Qed.

Definition at_separator (pos : list Z) : Prop :=
  forall c, head pos = Some c -> c = colon \/ c = slash \/ c = question.

Lemma find_separator_at s a b : find_separator s = (a, b) -> at_separator b.
Proof.
  intros E c Hc. destruct b as [|x b]; [done|]. injection Hc as ->. apply find_if_head in E.
  cbv beta in E. rewrite !orb_true_iff, !Z.eqb_eq in E. tauto.
Qed.

Lemma parts_loop_total fuel pos u :
  (length pos < fuel)%nat -> at_separator pos ->
  parts_loop fuel pos u <> Err OutOfFuel /\ forall e, parts_loop fuel pos u <> throw e.
Proof.
  revert pos u. induction fuel as [|fuel IH]; intros pos u Hl Hat; [lia|].
  destruct pos as [|c pos]; [done|]. cbn [length] in Hl.
  destruct (Hat c eq_refl) as [-> |[-> | ->]]; cbn -[find_separator find query_loop].
  - destruct (find_separator pos) as [a b] eqn:E. apply IH; [|by eapply find_separator_at].
    apply find_if_app in E. subst pos. rewrite length_app in Hl. lia.
  - destruct (find question pos) as [a b] eqn:E. apply IH.
    + apply find_if_app in E. subst pos. rewrite length_app in Hl. lia.
    + intros c Hc. destruct b as [|x b]; [done|]. injection Hc as ->.
      apply find_if_head in E. apply Z.eqb_eq in E. subst. tauto.
  - destruct (query_loop_total fuel (question :: pos) (m_query u)) as [H1 H2]; [cbn; lia|].
    destruct (query_loop fuel (question :: pos) (m_query u)) as [q|e]; cbn; [done|].
    split; [congruence|]. intros e' [= ->]. by destruct (H2 e').
Qed.

(** Parsing terminates on every string, and throws exactly when the string
    has no ["://"]: the second [throw] of the constructor is unreachable. *)
Theorem url_new_throws s :
  url_new s <> Err OutOfFuel /\
  forall e, url_new s = throw e <-> e = InvalidArgument /\ snd (search prot_end s) = [].
Proof.
  unfold url_new. destruct (search prot_end s) as [prot pi] eqn:E. apply search_app in E.
  destruct pi as [|c pi]; cbn [snd].
  { split; [done|]. intros e. split; [by intros [= <-]|by intros [-> _]]. }
  destruct (find_separator (drop (length prot_end) (c :: pi))) as [host he] eqn:F.
  destruct (parts_loop_total (S (length s)) he
    (mkUrl (tolower <$> prot) (tolower <$> host) [] [] ∅)) as [H1 H2].
  - apply find_if_app, (f_equal length) in F. rewrite length_drop, length_app in F.
    subst s. rewrite length_app. lia.
  - by eapply find_separator_at.
  - split; [done|]. intros e. split; [intros He; by destruct (H2 e)|by intros [_ ?]].
Qed.

(** The parameters of a query, between the ['&']. *)
Fixpoint parameters (q : list Z) : list (list Z) :=
  match q with
  | [] => [[]]
  | c :: q =>
      if c =? ampersand then [] :: parameters q
      else match parameters q with p :: ps => (c :: p) :: ps | [] => [[c]] end
  end.

(** Whether a URL has a query in which a parameter is empty: it begins at the first
    ['?'] behind the ["://"]. *)
Definition has_empty_parameter (pos : list Z) : bool :=
  match (find question pos).2 with _ :: q => bool_decide ([] ∈ parameters q) | [] => false end.
Definition empty_parameter (url_s : list Z) : bool :=
  has_empty_parameter (drop (length prot_end) (search prot_end url_s).2).

Lemma parameters_find q a b : find ampersand q = (a, b) ->
  parameters q = a :: match b with [] => [] | _ :: b => parameters b end.
Proof.
  revert a. induction q as [|c q IH]; intros a; cbn [find find_if parameters]; [by intros [= <- <-]|].
  rewrite (Z.eqb_sym ampersand c). destruct (c =? ampersand); [by intros [= <- <-]|].
  unfold find in IH. destruct (find_if (Z.eqb ampersand) q) as [a' b'] eqn:E. intros [= <- <-]. by rewrite (IH a' eq_refl).
Qed.

Lemma query_loop_cases fuel c pos q : (length pos < fuel)%nat ->
  match query_loop fuel (c :: pos) q with
  | Ok _ => [] ∉ parameters pos
  | Err f => f = UB InvalidIterator /\ [] ∈ parameters pos
  end.
Proof.
  revert c pos q. induction fuel as [|fuel IH]; intros c pos q Hl; [lia|].
  cbn [query_loop]. destruct (find ampersand pos) as [param nq] eqn:E. rewrite (parameters_find _ _ _ E).
  apply find_if_app in E. subst pos. rewrite length_app in Hl. destruct param as [|x param]; [by split; [|left]|].
  destruct (find equals param) as [kr ke]. destruct nq as [|y nq].
  - cbn. destruct fuel; cbn; intros [[=]|[]%not_elem_of_nil]%elem_of_cons.
  - cbn [length] in Hl. specialize (IH y nq (emplace q (x :: kr) (match ke with [] => [] | _ :: v => v end)) ltac:(lia)).
    destruct (query_loop fuel (y :: nq) _) as [r|f].
    + intros [[=]|?]%elem_of_cons. done.
    + destruct IH as [-> ?]. split; [done|by right].
Qed.

Lemma has_empty_cons c s : c <> question -> has_empty_parameter (c :: s) = has_empty_parameter s.
Proof.
  intros Hc. unfold has_empty_parameter, find. cbn [find_if]. rewrite (proj2 (Z.eqb_neq question c)) by done.
  by destruct (find_if (Z.eqb question) s).
Qed.

(** A part before the query has no ['?']. *)
Lemma has_empty_skip p s a b : (forall c, c = question -> p c = true) -> find_if p s = (a, b) -> has_empty_parameter s = has_empty_parameter b.
Proof.
  intros Hp. revert a. induction s as [|c s IH]; intros a; cbn [find_if]; [by intros [= _ <-]|].
  destruct (p c) eqn:E; [by intros [= _ <-]|]. destruct (find_if p s) as [a' b'] eqn:E'. intros [= _ <-].
  rewrite <- (IH a' eq_refl). apply has_empty_cons. intros ->. by rewrite Hp in E.
Qed.

Lemma has_empty_separator s a b : find_separator s = (a, b) -> has_empty_parameter s = has_empty_parameter b.
Proof. apply has_empty_skip. by intros c ->. Qed.
Lemma has_empty_question s a b : find question s = (a, b) -> has_empty_parameter s = has_empty_parameter b.
Proof. apply has_empty_skip. by intros c ->. Qed.

Lemma parts_loop_cases fuel pos u : (length pos < fuel)%nat -> at_separator pos ->
  match parts_loop fuel pos u with
  | Ok _ => has_empty_parameter pos = false
  | Err f => f = UB InvalidIterator /\ has_empty_parameter pos = true
  end.
Proof.
  revert pos u. induction fuel as [|fuel IH]; intros pos u Hl Hat; [lia|].
  destruct pos as [|c pos]; [done|]. cbn [length] in Hl.
  destruct (Hat c eq_refl) as [-> |[-> | ->]]; cbn -[find_separator find query_loop has_empty_parameter].
  - destruct (find_separator pos) as [a b] eqn:E.
    rewrite has_empty_cons by done. rewrite (has_empty_separator _ _ _ E). apply IH; [|by eapply find_separator_at].
    apply find_if_app in E. subst pos. rewrite length_app in Hl. lia.
  - destruct (find question pos) as [a b] eqn:E.
    rewrite has_empty_cons by done. rewrite (has_empty_question _ _ _ E). apply IH.
    + apply find_if_app in E. subst pos. rewrite length_app in Hl. lia.
    + intros c Hc. destruct b as [|x b]; [done|]. injection Hc as ->.
      apply find_if_head in E. apply Z.eqb_eq in E. subst. tauto.
  - pose proof (query_loop_cases fuel question pos (m_query u) ltac:(lia)) as Hq.
    unfold has_empty_parameter. cbn [find find_if Z.eqb Pos.eqb question snd].
    destruct (query_loop fuel (question :: pos) (m_query u)) as [q|f]; cbn.
    + by apply bool_decide_eq_false_2.
    + destruct Hq as [-> Hq]. split; [done|]. by apply bool_decide_eq_true_2.
Qed.

(** The constructor on every string. *)
Lemma url_new_cases s :
  match url_new s with
  | Ok _ => (search prot_end s).2 <> [] /\ empty_parameter s = false
  | Err f => ((search prot_end s).2 = [] /\ f = Throw InvalidArgument) \/
             ((search prot_end s).2 <> [] /\ empty_parameter s = true /\ f = UB InvalidIterator)
  end.
Proof.
  unfold url_new, empty_parameter. destruct (search prot_end s) as [prot pi] eqn:E. apply search_app in E.
  destruct pi as [|c pi]; cbn [snd]; [by left|].
  destruct (find_separator (drop (length prot_end) (c :: pi))) as [host he] eqn:F.
  pose proof (parts_loop_cases (S (length s)) he (mkUrl (tolower <$> prot) (tolower <$> host) [] [] ∅)) as P.
  rewrite (has_empty_separator _ _ _ F).
  destruct (parts_loop _ _ _) as [u|f]; [split; [done|]|right; split; [done|]].
  - apply P; [|by eapply find_separator_at].
    apply find_if_app, (f_equal length) in F. rewrite length_drop, length_app in F. subst s. rewrite length_app. lia.
  - apply and_comm, P; [|by eapply find_separator_at].
    apply find_if_app, (f_equal length) in F. rewrite length_drop, length_app in F. subst s. rewrite length_app. lia.
Qed.

(** ** Round trip *)

(** The text of a URL with a list of query parameters. *)
Definition render_param (kv : list Z * list Z) : list Z := kv.1 ++ equals :: kv.2.
Fixpoint render_params (sep : Z) (l : list (list Z * list Z)) : list Z :=
  match l with
  | [] => []
  | kv :: l => sep :: render_param kv ++ render_params ampersand l
  end.
Definition optional (sep : Z) (s : list Z) : list Z :=
  match s with [] => [] | _ => sep :: s end.
Definition render (protocol host port path : list Z) (query : list (list Z * list Z)) : list Z :=
  protocol ++ prot_end ++ host ++ optional colon port ++ optional slash path
  ++ render_params question query.

Definition lower_text (stops : list Z) (s : list Z) : Prop :=
  Forall (fun c => tolower c = c /\ c ∉ stops) s.
Definition text (stops : list Z) (s : list Z) : Prop := Forall (fun c => c ∉ stops) s.
Definition param_wf (kv : list Z * list Z) : Prop :=
  kv.1 <> [] /\ text [ampersand; equals] kv.1 /\ text [ampersand] kv.2.

Lemma query_loop_render l : forall sep fuel q,
  Forall param_wf l -> (length l <= fuel)%nat ->
  query_loop fuel (render_params sep l) q = Ok (foldl (fun q kv => emplace q kv.1 kv.2) q l).
Proof.
  induction l as [|[k v] l IH]; intros sep fuel q Hl Hf; [by destruct fuel|].
  inversion_clear Hl as [|? ? (Hk & Hkt & Hvt) Hl']. cbn [fst snd] in *. cbn [length] in Hf.
  destruct fuel as [|fuel]; [lia|]. cbn [render_params query_loop]. unfold render_param. cbn [fst snd].
  rewrite <- app_assoc. unfold find at 1. rewrite app_assoc, find_if_stop.
  - destruct k as [|c k]; [done|]. inversion_clear Hkt as [|? ? _ Hkt']. cbn [app].
    unfold find. rewrite find_if_stop.
    + cbn [foldl]. apply IH; [done|lia].
    + eapply Forall_impl; [exact Hkt'|]. intros y Hy. apply Z.eqb_neq. set_solver.
    + intros y [= <-]. done.
  - apply Forall_app. split; [|constructor; [done|]].
    + eapply Forall_impl; [exact Hkt|]. intros y Hy. apply Z.eqb_neq. set_solver.
    + eapply Forall_impl; [exact Hvt|]. intros y Hy. apply Z.eqb_neq. set_solver.
  - intros y Hy. by destruct l; simplify_eq/=.
Qed.

Lemma foldl_emplace l : forall q,
  NoDup l.*1 -> (forall k, k ∈ l.*1 -> q !! k = None) ->
  foldl (fun q kv => emplace q kv.1 kv.2) q l = list_to_map l ∪ q.
Proof.
  induction l as [|[k v] l IH]; intros q Hn Hq; cbn [foldl]; [by cbn; rewrite (left_id_L ∅ (∪))|].
  apply NoDup_cons in Hn as [Hk Hn]. cbn [fst snd] in *. unfold emplace at 2. rewrite Hq by left.
  rewrite IH; [|done|].
  - cbn. rewrite <- insert_union_l, insert_union_r; [done|].
    by apply not_elem_of_list_to_map_1.
  - intros k' Hk'. rewrite lookup_insert_ne by (intros ->; done). apply Hq. by right.
Qed.

Lemma tolower_text stops s : lower_text stops s -> tolower <$> s = s.
Proof. induction 1 as [|c s [Hc _] _ IH]; [done|]. rewrite fmap_cons. by rewrite Hc, IH. Qed.

Lemma lower_text_text stops s : lower_text stops s -> text stops s.
Proof. intros Hs. eapply Forall_impl; [exact Hs|]. by intros c [_ ?]. Qed.

Lemma not_separator stops s :
  text stops s -> slash ∈ stops -> colon ∈ stops -> question ∈ stops ->
  Forall (fun v => (v =? slash) || (v =? colon) || (v =? question) = false) s.
Proof.
  intros Hs ? ? ?. eapply Forall_impl; [exact Hs|]. intros c Hc. cbv beta in *.
  rewrite !(proj2 (Z.eqb_neq _ _)); [done|by intros ->..].
Qed.

Lemma separator_head port path q c :
  head (optional colon port ++ optional slash path ++ render_params question q) = Some c ->
  (c =? slash) || (c =? colon) || (c =? question) = true.
Proof. destruct port; [destruct path; [destruct q|]|]; cbn; [done|..]; by intros [= <-]. Qed.

Lemma length_render_params sep q : (length q <= length (render_params sep q))%nat.
Proof.
  revert sep. induction q as [|kv q IH]; intros sep; [done|]. simpl. rewrite length_app.
  specialize (IH ampersand). lia.
Qed.

(** The optional parts, last first. *)
Lemma parts_query fuel pr ho po pa q :
  Forall param_wf q -> NoDup q.*1 -> (length (render_params question q) < fuel)%nat ->
  parts_loop fuel (render_params question q) (mkUrl pr ho po pa ∅) =
    Ok (mkUrl pr ho po pa (list_to_map q)).
Proof.
  intros Hq Hnd Hf. destruct q as [|kv q]; [by destruct fuel|]. destruct fuel as [|fuel]; [lia|].
  pose proof (length_render_params question (kv :: q)).
  change (parts_loop (S fuel) (render_params question (kv :: q)) (mkUrl pr ho po pa ∅)) with
    (q ← query_loop fuel (render_params question (kv :: q)) ∅; Ok (mkUrl pr ho po pa q)).
  rewrite query_loop_render by (done || lia). run_bind. do 2 f_equal.
  rewrite foldl_emplace by done. apply (right_id_L ∅ (∪)).
Qed.

Lemma parts_path fuel pr ho po path q :
  text [question] path -> Forall param_wf q -> NoDup q.*1 ->
  (length (optional slash path ++ render_params question q) < fuel)%nat ->
  parts_loop fuel (optional slash path ++ render_params question q) (mkUrl pr ho po [] ∅) =
    Ok (mkUrl pr ho po path (list_to_map q)).
Proof.
  intros Hpa Hq Hnd Hf. destruct path as [|c path]; [by apply parts_query|].
  destruct fuel as [|fuel]; [lia|]. rewrite length_app in Hf. cbn [optional length] in Hf.
  cbn [optional]. rewrite <- app_comm_cons. cbn -[find render_params].
  unfold find. rewrite app_comm_cons, find_if_stop.
  - apply parts_query; [done..|lia].
  - eapply Forall_impl; [exact Hpa|]. intros y Hy. apply Z.eqb_neq. set_solver.
  - intros y Hy. by destruct q; simplify_eq/=.
Qed.

Lemma parts_port fuel pr ho port path q :
  text [colon; slash; question] port -> text [question] path -> Forall param_wf q -> NoDup q.*1 ->
  (length (optional colon port ++ optional slash path ++ render_params question q) < fuel)%nat ->
  parts_loop fuel (optional colon port ++ optional slash path ++ render_params question q)
    (mkUrl pr ho [] [] ∅) = Ok (mkUrl pr ho port path (list_to_map q)).
Proof.
  intros Hpo Hpa Hq Hnd Hf. destruct port as [|c port]; [by apply parts_path|].
  destruct fuel as [|fuel]; [lia|]. rewrite length_app in Hf. cbn [optional length] in Hf.
  cbn [optional]. rewrite <- app_comm_cons. cbn -[find_separator render_params].
  unfold find_separator. rewrite app_comm_cons, find_if_stop.
  - apply parts_path; [done..|lia].
  - apply (not_separator _ _ Hpo); set_solver.
  - apply (separator_head []).
Qed.

(** C33: a URL written from a lower-case protocol and host, an optional port and
    path, and query parameters with distinct non-empty keys parses back to
    exactly these parts. *)
Theorem url_roundtrip protocol host port path query :
  lower_text [colon] protocol -> lower_text [colon; slash; question] host ->
  text [colon; slash; question] port -> text [question] path ->
  Forall param_wf query -> NoDup query.*1 ->
  url_new (render protocol host port path query) =
    Ok (mkUrl protocol host port path (list_to_map query)).
Proof.
  intros Hpr Hh Hpo Hpa Hq Hnd. unfold url_new, render.
  rewrite search_prot by (eapply Forall_impl; [exact Hpr|]; intros c [_ Hc] ->; set_solver).
  rewrite (tolower_text _ _ Hpr), drop_app_length.
  unfold find_separator at 1. rewrite find_if_stop;
    [|apply (not_separator _ _ (lower_text_text _ _ Hh)); set_solver|apply separator_head].
  rewrite (tolower_text _ _ Hh). apply parts_port; [done..|]. rewrite !length_app. lia.
Qed.

Lemma url_roundtrip_witness :
  url_new (render (bytes_of_string "tcp") (bytes_of_string "localhost") (bytes_of_string "7000")
    (bytes_of_string "a/b") [(bytes_of_string "x", bytes_of_string "1")]) =
  Ok (mkUrl (bytes_of_string "tcp") (bytes_of_string "localhost") (bytes_of_string "7000")
    (bytes_of_string "a/b") (list_to_map [(bytes_of_string "x", bytes_of_string "1")])).
Proof.
  apply url_roundtrip; try (apply (bool_decide_unpack _); vm_compute; exact I).
Defined.

(** An empty query parameter (a URL that ends in ['?'] or ['&'], or has
    ["&&"]) makes the constructor form an iterator range that starts behind its
    end. *)
Theorem url_empty_parameter protocol host :
  lower_text [colon] protocol -> lower_text [colon; slash; question] host ->
  url_new (protocol ++ prot_end ++ host ++ [question]) = undefined InvalidIterator.
Proof.
  intros Hpr Hh. unfold url_new.
  rewrite search_prot by (eapply Forall_impl; [exact Hpr|]; intros c [_ Hc] ->; set_solver).
  rewrite drop_app_length. unfold find_separator at 1. rewrite find_if_stop; [|
    apply (not_separator _ _ (lower_text_text _ _ Hh)); set_solver|by intros c [= <-]].
  destruct protocol; done.
Qed.

Lemma url_empty_parameter_witness :
  url_new (bytes_of_string "tcp" ++ prot_end ++ bytes_of_string "localhost" ++ [question]) =
    undefined InvalidIterator.
Proof.
  apply url_empty_parameter; apply (bool_decide_unpack _); vm_compute; exact I.
Defined.
