(* ===== verification/Options.v ===== *)
(** * Options: src/fastpath/utils/tfoptions.h

    The command line of the router and of the tools: the registered options,
    the loop of [parse] over the arguments, the validation that follows it and
    the accessors.  [current] is the key of the result it points to: the results
    are in a map whose elements do not move. *)
From S2P Require Import Prelude.
From Stdlib Require Import Ascii String.
#[local] Open Scope string_scope.
#[local] Open Scope list_scope.
#[local] Open Scope Z_scope.

Record opt := mkOption {
  o_key : string; o_description : string; o_required : bool; o_requiresArg : bool;
  o_longName : string; o_shortName : ascii
}.

Record option_result := mkResult { r_option : opt; r_args : list string }.
Definition add_arg (r : option_result) (arg : string) : option_result :=
  mkResult (r_option r) (r_args r ++ [arg]).

Record options := mkOptions { m_options : list opt; m_args : gmap string option_result }.
Definition options_new : options := mkOptions [] ∅.
Definition register_option (os : options) (o : opt) : options :=
  mkOptions (m_options os ++ [o]) (m_args os).

(** [current_arg[i]], where the position after the last character is a NUL. *)
Definition char_at (s : string) (i : nat) : ascii :=
  match String.get i s with Some c => c | None => zero end.
Definition dash : ascii := "-"%char.

(** [find_if] over the registered options. *)
Fixpoint find_option (p : opt -> bool) (os : list opt) : option opt :=
  match os with [] => None | o :: os => if p o then Some o else find_option p os end.
Definition is_long (name : string) (o : opt) : bool := String.eqb name (o_longName o).
Definition is_short (c : ascii) (o : opt) : bool := Ascii.eqb c (o_shortName o).

(** [m_args.emplace(key, result)], which keeps a result that is there. *)
Definition emplace (m : gmap string option_result) (o : opt) : gmap string option_result :=
  match m !! o_key o with Some _ => m | None => <[o_key o := mkResult o []]> m end.

Fixpoint parse_loop (os : list opt) (current : option string) (m : gmap string option_result)
    (argv : list string) : outcome (gmap string option_result) :=
  match argv with
  | [] => Ok m
  | arg :: argv =>
      if Ascii.eqb (char_at arg 0) dash then
        if (String.length arg <=? 1)%nat then throw InvalidArgument
        else if String.eqb arg "--" then Ok m
        else
          match
            (if String.eqb (String.substring 0 2 arg) "--"
             then find_option (is_long (String.substring 2 (String.length arg - 2) arg)) os
             else find_option (is_short (char_at arg 1)) os)
          with
          | None => throw InvalidArgument
          | Some o => parse_loop os (Some (o_key o)) (emplace m o) argv
          end
      else
        match current with
        | Some k => parse_loop os current (alter (fun r => add_arg r arg) k m) argv
        | None => throw InvalidArgument
        end
  end.

(** The validation of one option. *)
Definition option_valid (m : gmap string option_result) (o : opt) : bool :=
  match m !! o_key o with
  | None => negb (o_required o)
  | Some r => negb (o_requiresArg o && match r_args r with [] => true | _ => false end)
  end.

(** [parse], on the arguments after the program's name. *)
Definition parse (os : options) (argv : list string) : outcome options :=
  m ← parse_loop (m_options os) None (m_args os) argv;
  if forallb (option_valid m) (m_options os) then Ok (mkOptions (m_options os) m)
  else throw InvalidArgument.

(** The accessors: [get(key)], [get(key, args)], [get(key, result, index)] and
    [getWithDefault]. *)
Definition get (os : options) (key : string) : bool := bool_decide (is_Some (m_args os !! key)).
Definition get_args (os : options) (key : string) : option (list string) := r_args <$> m_args os !! key.
Definition get_at (os : options) (key : string) (index : nat) : option string :=
  args ← get_args os key; args !! index.
Definition getWithDefault (os : options) (key defaultValue : string) (index : nat) : string :=
  match get_at os key index with Some v => v | None => defaultValue end.
(** [get<T>(key, defaultValue, index)], where [extract] is [ss >> val]. *)
Definition get_or {T} (extract : string -> T) (os : options) (key : string) (defaultValue : T) (index : nat) : T :=
  match get_at os key index with Some v => extract v | None => defaultValue end.

(** ** Command lines *)

(** One option as a user writes it: by its long or its short name. *)
Record use := mkUse { u_option : opt; u_long : bool; u_args : list string }.
Definition flag (u : use) : string :=
  if u_long u then ("--" ++ o_longName (u_option u))%string
  else String dash (String (o_shortName (u_option u)) "").
Definition command_line (us : list use) : list string :=
  mjoin ((fun u => flag u :: u_args u) <$> us).

Definition plain (arg : string) : Prop := Ascii.eqb (char_at arg 0) dash = false.

(** The name is not empty, belongs to this option, and the arguments are plain. *)
Record use_ok (os : list opt) (u : use) : Prop := {
  uo_found : (if u_long u then find_option (is_long (o_longName (u_option u))) os
              else find_option (is_short (o_shortName (u_option u))) os) = Some (u_option u);
  uo_name : if u_long u then o_longName (u_option u) <> "" else o_shortName (u_option u) <> dash;
  uo_args : Forall plain (u_args u)
}.

Definition use_key (u : use) : string := o_key (u_option u).
Definition record_use (m : gmap string option_result) (u : use) : gmap string option_result :=
  <[use_key u := mkResult (u_option u) (u_args u)]> m.

(** The plain arguments go to the current option. *)
Lemma parse_plain os k o args : forall l m rest,
  Forall plain args -> m !! k = Some (mkResult o l) ->
  parse_loop os (Some k) m (args ++ rest) = parse_loop os (Some k) (<[k := mkResult o (l ++ args)]> m) rest.
Proof.
  induction args as [|a args IH]; intros l m rest Hp Hm; cbn [app parse_loop].
  - by rewrite app_nil_r, insert_id.
  - apply Forall_cons in Hp as [Ha Hp]. unfold plain in Ha. rewrite Ha.
    rewrite (IH (l ++ [a])); [|done|by rewrite lookup_alter_eq, Hm].
    rewrite <- app_assoc. f_equal. apply map_eq. intros j. destruct (decide (j = k)) as [->|].
    + by rewrite !lookup_insert_eq.
    + by rewrite !lookup_insert_ne, lookup_alter_ne by done.
Qed.

Lemma substring_all s : String.substring 0 (String.length s) s = s.
Proof. induction s; cbn; congruence. Qed.

(** The flag of a use finds its option. *)
Lemma parse_flag os u cur m rest :
  use_ok os u -> m !! use_key u = None ->
  parse_loop os cur m (flag u :: rest) =
  parse_loop os (Some (use_key u)) (<[use_key u := mkResult (u_option u) []]> m) rest.
Proof.
  intros [F N _] Hm. assert (emplace m (u_option u) = <[use_key u := mkResult (u_option u) []]> m) as Em
    by (unfold emplace; unfold use_key in *; by rewrite Hm).
  rewrite <- Em. unfold flag. destruct (u_long u).
  - destruct (o_longName (u_option u)) as [|c s] eqn:E; [done|]. 
    change ("--" ++ String c s)%string with (String dash (String dash (String c s))).
    cbn. rewrite substring_all. by rewrite F.
  - cbn. apply Ascii.eqb_neq in N. unfold dash in N. rewrite N. by rewrite F.
Qed.

Lemma parse_uses os us : forall cur m,
  Forall (use_ok os) us -> NoDup (use_key <$> us) -> (forall u, u ∈ us -> m !! use_key u = None) ->
  parse_loop os cur m (command_line us) = Ok (foldl record_use m us).
Proof.
  induction us as [|u us IH]; intros cur m Hu Hn Hm; [done|].
  apply Forall_cons in Hu as [Hu Hus]. apply NoDup_cons in Hn as [Hnu Hn].
  change (command_line (u :: us)) with (flag u :: (u_args u ++ command_line us)).
  rewrite parse_flag by (done || apply Hm; by left).
  rewrite (parse_plain _ _ (u_option u) _ []); [|apply Hu|apply lookup_insert_eq].
  rewrite insert_insert_eq. apply IH; [done|done|].
  intros v Hv. rewrite lookup_insert_ne; [apply Hm; by right|].
  intros E. apply Hnu. rewrite E. by apply list_elem_of_fmap_2.
Qed.

(** What the map holds after the uses. *)
Lemma lookup_uses us : forall m k,
  NoDup (use_key <$> us) ->
  (forall u, u ∈ us -> foldl record_use m us !! use_key u = Some (mkResult (u_option u) (u_args u))) /\
  (k ∉ use_key <$> us -> foldl record_use m us !! k = m !! k).
Proof.
  induction us as [|u us IH]; intros m k Hn.
  - split; [by intros u ?%elem_of_nil|done].
  - apply NoDup_cons in Hn as [Hnu Hn]. cbn [foldl fmap list_fmap]. split.
    + intros v [->|Hv]%elem_of_cons.
      * destruct (IH (record_use m u) (use_key u) Hn) as [_ ->]; [|done]. apply lookup_insert_eq.
      * by apply (IH _ k).
    + intros [Hk1 Hk2]%not_elem_of_cons. destruct (IH (record_use m u) k Hn) as [_ ->]; [|done].
      by apply lookup_insert_ne.
Qed.

(** C35: a command line means what its options say.  Given options of different
    keys, each written by a name that belongs to it and followed by arguments
    that do not start with a dash, with every required option there and an
    argument after every option that needs one, [parse] succeeds; afterwards
    [get] finds exactly these options, each with its arguments in order. *)
Theorem parse_command_line os us :
  m_args os = ∅ -> Forall (use_ok (m_options os)) us -> NoDup (use_key <$> us) ->
  (forall o, o ∈ m_options os -> o_required o = true -> o_key o ∈ use_key <$> us) ->
  (forall o u, o ∈ m_options os -> u ∈ us -> use_key u = o_key o -> o_requiresArg o = true -> u_args u <> []) ->
  exists os', parse os (command_line us) = Ok os' /\
    (forall u, u ∈ us -> get_args os' (use_key u) = Some (u_args u)) /\
    (forall k, get os' k = true <-> k ∈ use_key <$> us).
Proof.
  intros Hm Hu Hn Hreq Harg. unfold parse. rewrite Hm, parse_uses; [|done|done|by intros; apply lookup_empty].
  run_bind. set (m := foldl record_use ∅ us).
  assert (forall u, u ∈ us -> m !! use_key u = Some (mkResult (u_option u) (u_args u))) as H1
    by (apply (lookup_uses us ∅ "" Hn)).
  assert (forall k, k ∉ use_key <$> us -> m !! k = None) as H2
    by (intros k Hk; unfold m; by rewrite (proj2 (lookup_uses us ∅ k Hn) Hk)).
  assert (forallb (option_valid m) (m_options os) = true) as ->.
  { apply forallb_forall. intros o Ho%list_elem_of_In. unfold option_valid.
    destruct (decide (o_key o ∈ use_key <$> us)) as [Hin|Hin].
    - apply list_elem_of_fmap in Hin as (u & Ek & Hin'). rewrite Ek, (H1 u Hin'). cbn.
      destruct (o_requiresArg o) eqn:Er; [|done]. specialize (Harg o u Ho Hin' (eq_sym Ek) Er). by destruct (u_args u).
    - rewrite H2 by done. destruct (o_required o) eqn:Er; [|done]. by destruct Hin; apply Hreq. }
  eexists. split; [done|]. unfold get_args, get. cbn [m_args]. split.
  - intros u Hin. by rewrite H1.
  - intros k. rewrite bool_decide_eq_true. split.
    + intros [r Hr]. destruct (decide (k ∈ use_key <$> us)) as [|Hk]; [done|]. by rewrite (H2 k Hk) in Hr.
    + intros (u & -> & Hin)%list_elem_of_fmap. rewrite (H1 u Hin). eauto.
Qed.

(** Every failure is an [option_exception]. *)
Lemma parse_loop_total os argv : forall cur m f, parse_loop os cur m argv = Err f -> f = Throw InvalidArgument.
Proof.
  induction argv as [|a argv IH]; intros cur m f; cbn [parse_loop]; [done|].
  repeat case_match; intros E; try done; (by injection E as <-) || eauto.
Qed.

(** [parse] either throws an [option_exception] or leaves a result in which
    every required option is present and every present option that needs an
    argument has one. *)
Theorem parse_validates os argv :
  match parse os argv with
  | Err f => f = Throw InvalidArgument
  | Ok os' => m_options os' = m_options os /\
      forall o, o ∈ m_options os' ->
        (o_required o = true -> get os' (o_key o) = true) /\
        (o_requiresArg o = true -> get os' (o_key o) = true -> exists v, get_at os' (o_key o) 0 = Some v)
  end.
Proof.
  unfold parse. destruct (parse_loop _ None _ argv) as [m|f] eqn:E; [|by eapply parse_loop_total].
  run_bind. destruct (forallb _ _) eqn:V; [|done]. split; [done|]. cbn [m_options].
  intros o Ho%list_elem_of_In. rewrite forallb_forall in V. specialize (V o Ho). unfold option_valid in V.
  unfold get, get_at, get_args. cbn [m_args]. destruct (m !! o_key o) as [r|] eqn:Em.
  - split; [by intros _; apply bool_decide_eq_true_2|]. intros Hr _. rewrite Hr in V. cbn in *.
    destruct (r_args r) as [|v l]; [done|]. by exists v.
  - split.
    + intros Hr. by rewrite Hr in V.
    + intros _ Hb. apply bool_decide_eq_true in Hb as [? ?]. done.
Qed.

(** An option written without an argument is not seen by the accessor with
    a default: [get(key)] is true, and [get(key, defaultValue)] still returns the
    default.  The router reads its flags [-d] and [-x] this way. *)
Theorem flag_reads_default {T} (extract : string -> T) os us u d :
  m_args os = ∅ -> Forall (use_ok (m_options os)) us -> NoDup (use_key <$> us) -> u ∈ us -> u_args u = [] ->
  forall os', parse os (command_line us) = Ok os' ->
  get os' (use_key u) = true /\ get_or extract os' (use_key u) d 0 = d.
Proof.
  intros Hm Hu Hn Hin Ha os'. unfold parse. rewrite Hm, parse_uses; [|done|done|by intros; apply lookup_empty].
  run_bind. destruct (forallb _ _); [|done]. intros [= <-].
  pose proof (proj1 (lookup_uses us ∅ "" Hn) u Hin) as L.
  unfold get, get_or, get_at, get_args. cbn [m_args]. rewrite L. cbn. by rewrite Ha.
Qed.

(** ** The command line of the router, as src/fastpath/router/fprouter.cpp registers it *)

Definition config_option : opt := mkOption "config" "Configuration file to load" true false "config" "c".
Definition service_option : opt := mkOption "service" "Service to process" true true "service" "s".
Definition daemon_option : opt := mkOption "daemon" "Run in daemon mode" false false "daemon" "d".
Definition router_options : options :=
  foldl register_option options_new
    [mkOption "help" "Displays help" false false "help" "h"; config_option;
     mkOption "loglevel" "Logging level (DEBUG, INFO, WARNING, ERROR)" false true "loglevel" "l";
     mkOption "interface" "Interface to bind to" false true "interface" "i"; service_option;
     mkOption "nobanner" "Don't display startup banner" false false "nobanner" "x"; daemon_option].
Definition router_uses : list use :=
  [mkUse config_option true ["router.cfg"]; mkUse service_option false ["7343"]; mkUse daemon_option false []].

Lemma parse_command_line_witness :
  command_line router_uses = ["--config"; "router.cfg"; "-s"; "7343"; "-d"] /\
  exists os', parse router_options ["--config"; "router.cfg"; "-s"; "7343"; "-d"] = Ok os' /\
    get_args os' "service" = Some ["7343"].
Proof.
  split; [reflexivity|].
  destruct (parse_command_line router_options router_uses) as (os' & E & G & _).
  - reflexivity.
  - repeat constructor; done.
  - apply (bool_decide_unpack _). vm_compute. exact I.
  - intros o Ho Hr.
    repeat (apply elem_of_cons in Ho as [->|Ho]; [first [discriminate Hr|apply (bool_decide_unpack _); vm_compute; exact I]|]).
    by apply elem_of_nil in Ho.
  - intros o u Ho Hu Hk Hr.
    repeat (apply elem_of_cons in Hu as [->|Hu]; [discriminate ||
      (repeat (apply elem_of_cons in Ho as [->|Ho]; [discriminate|]); by apply elem_of_nil in Ho)|]).
    by apply elem_of_nil in Hu.
  - exists os'. split; [exact E|]. apply (G (mkUse service_option false ["7343"])). right. left.
Defined.

Lemma flag_reads_default_witness :
  exists os', parse router_options ["--config"; "router.cfg"; "-s"; "7343"; "-d"] = Ok os' /\
    get os' "daemon" = true /\ get_or (fun s => String.eqb s "1") os' "daemon" false 0 = false.
Proof.
  eexists. split; [vm_compute; reflexivity|].
  apply (flag_reads_default _ router_options router_uses (mkUse daemon_option false [])).
  - reflexivity.
  - repeat constructor; done.
  - apply (bool_decide_unpack _). vm_compute. exact I.
  - right. right. left.
  - reflexivity.
  - vm_compute. reflexivity.
Defined.
