(* ===== verification/Printing.v ===== *)
(** * Printing: what the program writes to a stream

    The stream operators of src/fastpath/ByteStorage.h and MessageBuffer.h (the
    hexadecimal dump), over a model of [std::ostream] with the formatting state
    that the code sets and that outlives the call, and of the texts of numbers. *)
From S2P Require Import Prelude Heap ByteStorage MessageBuffer.

(** ** std::ostream *)

(** What has been written and the formatting state: base, [width], [fill],
    adjustment, [boolalpha], [fixed] and [precision]. *)
Record ostream := mkOstream {
  o_text : list Z; o_hex : bool; o_width : Z; o_fill : Z; o_left : bool;
  o_boolalpha : bool; o_fixed : bool; o_precision : Z
}.
Definition cout : ostream := mkOstream [] false 0 32 false false false 6.

Definition write (s : ostream) (t : list Z) : ostream :=
  mkOstream (o_text s ++ t) (o_hex s) (o_width s) (o_fill s) (o_left s) (o_boolalpha s) (o_fixed s) (o_precision s).
Definition setw (n : Z) (s : ostream) : ostream :=
  mkOstream (o_text s) (o_hex s) n (o_fill s) (o_left s) (o_boolalpha s) (o_fixed s) (o_precision s).
Definition setfill (c : Z) (s : ostream) : ostream :=
  mkOstream (o_text s) (o_hex s) (o_width s) c (o_left s) (o_boolalpha s) (o_fixed s) (o_precision s).
Definition set_hex (b : bool) (s : ostream) : ostream :=
  mkOstream (o_text s) b (o_width s) (o_fill s) (o_left s) (o_boolalpha s) (o_fixed s) (o_precision s).
Definition left_ (s : ostream) : ostream :=
  mkOstream (o_text s) (o_hex s) (o_width s) (o_fill s) true (o_boolalpha s) (o_fixed s) (o_precision s).
Definition boolalpha (s : ostream) : ostream :=
  mkOstream (o_text s) (o_hex s) (o_width s) (o_fill s) (o_left s) true (o_fixed s) (o_precision s).
Definition fixed (s : ostream) : ostream :=
  mkOstream (o_text s) (o_hex s) (o_width s) (o_fill s) (o_left s) (o_boolalpha s) true (o_precision s).
Definition setprecision (n : Z) (s : ostream) : ostream :=
  mkOstream (o_text s) (o_hex s) (o_width s) (o_fill s) (o_left s) (o_boolalpha s) (o_fixed s) n.

(** A formatted insertion pads to [width] and resets it. *)
Definition padded (s : ostream) (t : list Z) : list Z :=
  let fill := replicate (Z.to_nat (o_width s) - length t) (o_fill s) in if o_left s then t ++ fill else fill ++ t.
Definition put (t : list Z) (s : ostream) : ostream := setw 0 (write s (padded s t)).
Definition puts (t : string) (s : ostream) : ostream := put (bytes_of_string t) s.
Definition endl (s : ostream) : ostream := write s [10].

(** ** Numbers *)

Definition digit (d : Z) : Z := if d <? 10 then 48 + d else 87 + d.
Definition undigit (c : Z) : Z := if c <? 58 then c - 48 else c - 87.

Fixpoint digits_loop (fuel : nat) (base v : Z) (acc : list Z) : list Z :=
  match fuel with
  | O => acc
  | S fuel => if v <? base then digit v :: acc else digits_loop fuel base (v / base) (digit (v mod base) :: acc)
  end.
Definition digits (base v : Z) : list Z := digits_loop (S (Z.to_nat (Z.log2 v))) base v [].
Definition number (base : Z) (t : list Z) : Z := foldl (fun a c => a * base + undigit c) 0 t.

Definition int_text (v : Z) : list Z := if v <? 0 then 45 :: digits 10 (- v) else digits 10 v.

(** An integer of [w] bits: hexadecimal shows the bit pattern. *)
Definition put_int (w v : Z) (s : ostream) : ostream :=
  put (if o_hex s then digits 16 (wrap w v) else int_text v) s.

(** [std::fixed] of the floating point number with the bits [raw]: the exact value,
    rounded to [precision] decimals, ties to even. *)
Definition round_half_even (n d : Z) : Z :=
  let q := n / d in let r := n mod d in
  if (d <? 2 * r) || ((2 * r =? d) && Z.odd q) then q + 1 else q.
Definition decimal (precision q : Z) : list Z :=
  let f := digits 10 (q mod 10 ^ precision) in
  digits 10 (q / 10 ^ precision) ++ [46] ++ replicate (Z.to_nat precision - length f) 48 ++ f.
(** The value is [mant * 2 ^ ex], the first of the result, for a finite number. *)
Definition float_parts (ebits mbits raw : Z) : option (Z * Z) :=
  let e := Z.shiftr raw mbits mod 2 ^ ebits in
  let m := raw mod 2 ^ mbits in
  if e =? 2 ^ ebits - 1 then None
  else Some ((if e =? 0 then m else m + 2 ^ mbits), (Z.max e 1 - (2 ^ (ebits - 1) - 1) - mbits)).
Definition scaled (precision mant ex : Z) : Z :=
  if 0 <=? ex then 10 ^ precision * mant * 2 ^ ex else round_half_even (10 ^ precision * mant) (2 ^ (- ex)).
Definition float_text (precision ebits mbits raw : Z) : list Z :=
  (if Z.testbit raw (ebits + mbits) then [45] else []) ++
  match float_parts ebits mbits raw with
  | None => bytes_of_string (if raw mod 2 ^ mbits =? 0 then "inf" else "nan")
  | Some (mant, ex) => decimal precision (scaled precision mant ex)
  end.

Lemma undigit_digit d : 0 <= d < 16 -> undigit (digit d) = d.
Proof.
  intros Hd. unfold undigit, digit. destruct (Z.ltb_spec d 10).
  - rewrite (proj2 (Z.ltb_lt _ _)) by lia. lia.
  - rewrite (proj2 (Z.ltb_ge _ _)) by lia. lia.
Qed.

Lemma digits_loop_number base acc : 2 <= base <= 16 -> forall fuel v, 0 <= v < base ^ Z.of_nat fuel ->
  number base (digits_loop fuel base v acc) = foldl (fun a c => a * base + undigit c) v acc.
Proof.
  intros Hb fuel. revert acc. unfold number. induction fuel as [|fuel IH]; intros acc v Hv.
  - cbn in *. by assert (v = 0) as -> by lia.
  - cbn [digits_loop]. destruct (Z.ltb_spec v base).
    + cbn [foldl]. by rewrite undigit_digit by lia.
    + rewrite IH.
      * cbn [foldl]. pose proof (Z.mod_pos_bound v base ltac:(lia)). rewrite undigit_digit by lia.
        f_equal. pose proof (Z.div_mod v base ltac:(lia)). lia.
      * rewrite Nat2Z.inj_succ, Z.pow_succ_r in Hv by lia. split; [apply Z.div_pos; lia|].
        apply Z.div_lt_upper_bound; lia.
Qed.

Lemma digits_number base v : 2 <= base <= 16 -> 0 <= v -> number base (digits base v) = v.
Proof.
  intros Hb Hv. unfold digits. rewrite digits_loop_number; [done|done|]. split; [done|].
  rewrite Nat2Z.inj_succ, Z2Nat.id by apply Z.log2_nonneg.
  destruct (decide (v = 0)) as [->|]; [apply Z.pow_pos_nonneg; [lia|apply Z.le_le_succ_r, Z.log2_nonneg]|]. eapply Z.lt_le_trans; [apply Z.log2_spec; lia|].
  apply Z.pow_le_mono_l. lia.
Qed.

(** Neither a blank nor the end of a line. *)
Definition graphic (c : Z) : Prop := 33 <= c < 256.

Lemma digit_graphic d : 0 <= d < 16 -> graphic (digit d).
Proof. unfold digit, graphic. destruct (d <? 10); lia. Qed.

Lemma digits_graphic base v : 2 <= base <= 16 -> 0 <= v -> Forall graphic (digits base v) /\ digits base v <> [].
Proof.
  intros Hb. unfold digits. assert (forall fuel v acc, 0 <= v -> Forall graphic acc ->
    Forall graphic (digits_loop fuel base v acc) /\ (fuel <> O \/ acc <> [] -> digits_loop fuel base v acc <> [])) as L.
  { induction fuel as [|fuel IH]; intros x acc Hx Ha; cbn [digits_loop]; [split; [done|by intros [?|?]]|].
    destruct (Z.ltb_spec x base).
    - split; [constructor; [apply digit_graphic; lia|done]|done].
    - pose proof (Z.mod_pos_bound x base ltac:(lia)).
      destruct (IH (x / base) (digit (x mod base) :: acc)) as [I1 I2]; [apply Z.div_pos; lia|constructor; [apply digit_graphic; lia|done]|].
      split; [done|]. intros _. apply I2. by right. }
  intros Hv. destruct (L (S (Z.to_nat (Z.log2 v))) v []) as [L1 L2]; [done|done|]. split; [done|]. apply L2. by left.
Qed.

(** A byte as two hexadecimal digits. *)
Definition hex2 (b : Z) : list Z := [digit (b / 16); digit (b mod 16)].
Lemma hex2_text b : is_byte b -> replicate (2 - length (digits 16 b)) 48 ++ digits 16 b = hex2 b.
Proof.
  intros Hb. assert (forallb (fun b => bool_decide (replicate (2 - length (digits 16 b)) 48 ++ digits 16 b = hex2 b)) (seqZ 0 256) = true) as F
    by (vm_compute; reflexivity).
  rewrite forallb_forall in F. specialize (F b). rewrite bool_decide_eq_true in F. apply F.
  apply list_elem_of_In, elem_of_seqZ. unfold is_byte in Hb. lia.
Qed.

(** Rounding is to the nearest decimal. *)
Lemma round_half_even_near n d : 0 < d -> 2 * Z.abs (round_half_even n d * d - n) <= d.
Proof.
  intros Hd. unfold round_half_even. pose proof (Z.div_mod n d ltac:(lia)) as E. pose proof (Z.mod_pos_bound n d Hd).
  destruct (Z.ltb_spec d (2 * (n mod d))); [cbn; nia|]. destruct (Z.eqb_spec (2 * (n mod d)) d); cbn; [destruct (Z.odd _)|]; nia.
Qed.

(** ** The hexadecimal dump

    The loops over the columns of a row: [row] holds the [inc] bytes there are. *)
Fixpoint hex_columns (k : nat) (row : list Z) (s : ostream) : ostream :=
  match k, row with
  | O, _ => s
  | S k, b :: row => hex_columns k row (puts " " (put_int 32 b (set_hex true (setw 2 (setfill 48 s)))))
  | S k, [] => hex_columns k [] (puts "   " s)
  end.
Fixpoint ascii_columns (k : nat) (row : list Z) (s : ostream) : ostream :=
  match k, row with
  | O, _ => s
  | S k, b :: row => ascii_columns k row (puts " " (if (b <? 32) || (127 <? b) then puts "." s else put [b] s))
  | S k, [] => ascii_columns k [] (puts "  " s)
  end.
Definition default_block : nat := 8.
Definition dump_row (i : nat) (row : list Z) (s : ostream) : ostream :=
  let s := puts "   " (put_int 64 (Z.of_nat i) (setw 5 (setfill 48 s))) in
  let s := hex_columns default_block row s in
  let s := puts "        " (set_hex false s) in
  endl (ascii_columns default_block row s).

(** [for (size_t i = 0; i < length; i += default_block)] *)
Fixpoint dump_loop (n i : nat) (data : list Z) (s : ostream) : outcome ostream :=
  match n with
  | O => Err OutOfFuel
  | S n =>
      if (i <? length data)%nat
      then dump_loop n (i + default_block) data (dump_row i (take default_block (drop i data)) s) else Ok s
  end.
Definition dump_fuel (length : Z) : nat := S (Z.to_nat length).

(** [operator<<(std::ostream &, const ByteStorage &)] *)
Definition ByteStorage_output (h : heap) (msg : ByteStorage) (s : ostream) : outcome ostream :=
  let '(output, length) := bytes msg in
  let s := endl (puts "]: " (put_int 64 (m_second msg) (puts " capacity: " (put_int 64 length (puts "[length: " s))))) in
  l ← load h output length;
  s ← dump_loop (dump_fuel length) 0 l s;
  Ok (endl s).

(** [operator<<(std::ostream &, const MessageBuffer &)] *)
Definition MessageBuffer_output (h : heap) (msg : MessageBuffer) (s : ostream) : outcome ostream :=
  '(output, length) ← mb_bytes msg;
  let s := puts "[start_index: " s in
  let s := puts " length: " (put_int 64 (m_startIndex msg) s) in
  let s := puts " capacity: " (put_int 64 length s) in
  let s := endl (puts "]: " (put_int 64 (u64 (capacity (m_storage msg) - m_startIndex msg)) s)) in
  l ← load h output length;
  s ← dump_loop (dump_fuel length) 0 l s;
  Ok (endl s).

(** ** Reading a dump *)

Fixpoint skip_line (t : list Z) : list Z :=
  match t with [] => [] | c :: t => if c =? 10 then t else skip_line t end.
Fixpoint skip_word (t : list Z) : list Z :=
  match t with [] => [] | c :: t' => if c =? 32 then t else skip_word t' end.
Fixpoint read_columns (k : nat) (t : list Z) : list Z :=
  match k, t with
  | S k, c1 :: c2 :: _ :: t => if c1 =? 32 then [] else undigit c1 * 16 + undigit c2 :: read_columns k t
  | _, _ => []
  end.
Definition read_row (t : list Z) : list Z := read_columns default_block (drop 3 (skip_word t)).
Fixpoint read_rows (n : nat) (t : list Z) : list Z :=
  match n, t with
  | S n, c :: _ => if c =? 10 then [] else read_row t ++ read_rows n (skip_line t)
  | _, _ => []
  end.
(** The bytes of a dump, which starts with a line about the storage. *)
Definition read_dump (n : nat) (t : list Z) : list Z := read_rows n (skip_line t).

(** A stream in decimal without a pending width. *)
Definition plain_stream (s : ostream) : Prop := o_hex s = false /\ o_width s = 0.

Lemma put_plain t s : o_width s = 0 -> put t s = write s t.
Proof. unfold put, padded, setw, write. intros ->. cbn. destruct s as [x hx w f [|] ba fx p]; cbn in *; [by rewrite app_nil_r|done]. Qed.

Lemma write_write s t1 t2 : write (write s t1) t2 = write s (t1 ++ t2).
Proof. unfold write. cbn. by rewrite app_assoc. Qed.

Lemma put_int_plain w v s : plain_stream s -> put_int w v s = write s (int_text v).
Proof. intros [Hx Hw]. unfold put_int. by rewrite Hx, put_plain. Qed.

(** Run the insertions into a stream that is plain, the innermost first. *)
Ltac plain_puts Hp :=
  repeat match goal with
  | |- context [put ?t ?s] =>
      lazymatch s with
      | context [put] => fail
      | context [put_int] => fail
      | _ => rewrite (put_plain t s) by exact (proj2 Hp)
      end
  | |- context [put_int ?w ?v ?s] =>
      lazymatch s with
      | context [put] => fail
      | context [put_int] => fail
      | _ => rewrite (put_int_plain w v s) by exact Hp
      end
  end.

(** The columns of one row. *)
Definition hex_text (k : nat) (row : list Z) : list Z :=
  (row ≫= fun b => hex2 b ++ [32]) ++ replicate (3 * (k - length row)) 32.
Definition ascii_text (k : nat) (row : list Z) : list Z :=
  (row ≫= fun b => [(if (b <? 32) || (127 <? b) then 46 else b); 32]) ++ replicate (2 * (k - length row)) 32.

(** What stays as it is while a dump is written. *)
Record dumping (s s' : ostream) (t : list Z) : Prop := {
  du_text : o_text s' = o_text s ++ t;
  du_width : o_width s' = 0;
  du_left : o_left s' = o_left s
}.

Lemma dumping_app s1 s2 s3 t1 t2 : dumping s1 s2 t1 -> dumping s2 s3 t2 -> dumping s1 s3 (t1 ++ t2).
Proof. intros [A1 W1 L1] [A2 W2 L2]. split; [by rewrite A2, A1, app_assoc|done|congruence]. Qed.

Lemma dumping_put s t : o_width s = 0 -> dumping s (put t s) t.
Proof. intros Hw. rewrite put_plain by done. by split. Qed.

Lemma hex_columns_text k : forall row s, Forall is_byte row -> (length row <= k)%nat -> o_width s = 0 -> o_left s = false ->
  dumping s (hex_columns k row s) (hex_text k row).
Proof.
  induction k as [|k IH]; intros row s Hb Hk Hw Hl.
  - destruct row; [|cbn in Hk; lia]. split; [by rewrite app_nil_r|done|done].
  - destruct row as [|b row]; cbn [hex_columns].
    + assert (hex_text (S k) [] = bytes_of_string "   " ++ hex_text k []) as ->.
      { unfold hex_text. cbn [length mbind list_bind app]. rewrite !Nat.sub_0_r. replace (3 * S k)%nat with (3 + 3 * k)%nat by lia.
        by rewrite replicate_add. }
      eapply dumping_app; [by apply dumping_put|]. apply IH; [done|cbn; lia|done|]. unfold puts. by rewrite put_plain by done.
    + apply Forall_cons in Hb as [Hb Hrow]. cbn [length] in Hk.
      assert (hex_text (S k) (b :: row) = (hex2 b ++ [32]) ++ hex_text k row) as ->.
      { unfold hex_text. cbn [length]. rewrite Nat.sub_succ. cbn [mbind list_bind]. by rewrite <- !app_assoc. }
      eapply dumping_app; [|apply IH; [done|lia|done|]].
      * unfold puts, put_int, put, padded. cbn [o_hex set_hex o_width setw o_left setfill o_fill write o_text].
        rewrite Hl. rewrite (wrap_small 32 b) by (unfold is_byte in Hb; lia). change (Z.to_nat 2) with 2%nat.
        rewrite hex2_text by done. split; [cbn; by rewrite <- app_assoc|done|done].
      * done.
Qed.

Lemma ascii_columns_text k : forall row s, (length row <= k)%nat -> o_width s = 0 ->
  dumping s (ascii_columns k row s) (ascii_text k row).
Proof.
  induction k as [|k IH]; intros row s Hk Hw.
  - destruct row; [|cbn in Hk; lia]. split; [by rewrite app_nil_r|done|done].
  - destruct row as [|b row]; cbn [ascii_columns].
    + assert (ascii_text (S k) [] = bytes_of_string "  " ++ ascii_text k []) as ->.
      { unfold ascii_text. cbn [length mbind list_bind app]. rewrite !Nat.sub_0_r. replace (2 * S k)%nat with (2 + 2 * k)%nat by lia.
        by rewrite replicate_add. }
      eapply dumping_app; [by apply dumping_put|]. apply IH; [cbn; lia|]. unfold puts. by rewrite put_plain by done.
    + cbn [length] in Hk.
      assert (ascii_text (S k) (b :: row) = ([(if (b <? 32) || (127 <? b) then 46 else b)] ++ [32]) ++ ascii_text k row) as ->.
      { unfold ascii_text. cbn [length]. rewrite Nat.sub_succ. done. }
      eapply dumping_app; [|apply IH; [lia|]].
      * eapply dumping_app; [|by apply dumping_put; destruct (_ || _); unfold puts; rewrite put_plain by done].
        destruct (_ || _); by apply dumping_put.
      * unfold puts. by destruct (_ || _); rewrite !put_plain by (by rewrite ?put_plain by done).
Qed.

(** A row: the offset, the two groups of columns and the end of the line. *)
Lemma dump_row_text i row s : Forall is_byte row -> (length row <= default_block)%nat -> o_left s = false ->
  exists word, Forall graphic word /\ dumping s (dump_row i row s)
    (word ++ replicate 3 32 ++ hex_text default_block row ++ replicate 8 32 ++ ascii_text default_block row ++ [10]).
Proof.
  intros Hb Hk Hl. unfold dump_row. set (s0 := setw 5 (setfill 48 s)).
  exists (padded s0 (if o_hex s0 then digits 16 (wrap 64 (Z.of_nat i)) else int_text (Z.of_nat i))). split.
  { unfold padded. change (o_left s0) with (o_left s). rewrite Hl. apply Forall_app. split.
    - apply Forall_replicate. change (o_fill s0) with 48. unfold graphic. lia.
    - destruct (o_hex s0); [apply digits_graphic; [lia|]|unfold int_text; rewrite (proj2 (Z.ltb_ge _ _)) by lia; apply digits_graphic; lia].
      unfold wrap. pose proof (Z.mod_pos_bound (Z.of_nat i) (2 ^ 64) ltac:(lia)). lia. }
  assert (dumping s (put_int 64 (Z.of_nat i) s0) (padded s0 (if o_hex s0 then digits 16 (wrap 64 (Z.of_nat i)) else int_text (Z.of_nat i)))) as D0
    by by split.
  assert (dumping (put_int 64 (Z.of_nat i) s0) (puts "   " (put_int 64 (Z.of_nat i) s0)) (replicate 3 32)) as D1
    by by apply (dumping_put _ (bytes_of_string "   ")).
  set (s1 := puts "   " (put_int 64 (Z.of_nat i) s0)) in *.
  assert (o_width s1 = 0 /\ o_left s1 = false) as [W1 L1] by (split; [apply D1|rewrite (du_left _ _ _ D1), (du_left _ _ _ D0); done]).
  pose proof (hex_columns_text default_block row s1 Hb Hk W1 L1) as D2.
  set (s2 := hex_columns default_block row s1) in *.
  assert (dumping s2 (puts "        " (set_hex false s2)) (replicate 8 32)) as D3.
  { assert (dumping (set_hex false s2) (puts "        " (set_hex false s2)) (replicate 8 32)) as [A B C]
      by (apply (dumping_put _ (bytes_of_string "        ")); apply D2). by split. }
  pose proof (ascii_columns_text default_block row _ Hk (du_width _ _ _ D3)) as D4.
  do 4 (eapply dumping_app; [eassumption|]). eapply dumping_app; [exact D4|]. by split; [|apply D4|].
Qed.

(** ** What a dump says *)

Lemma skip_word_graphic word t : Forall graphic word -> skip_word (word ++ 32 :: t) = 32 :: t.
Proof.
  induction 1 as [|c word Hc _ IH]; [done|]. cbn [app skip_word]. unfold graphic in Hc.
  by rewrite (proj2 (Z.eqb_neq _ _)) by lia.
Qed.

Lemma skip_line_app t rest : Forall (fun c => c <> 10) t -> skip_line (t ++ 10 :: rest) = rest.
Proof. induction 1 as [|c t Hc _ IH]; [done|]. cbn [app skip_line]. by rewrite (proj2 (Z.eqb_neq _ _)). Qed.

Lemma read_columns_text k : forall row rest, Forall is_byte row -> (length row <= k)%nat ->
  read_columns k (hex_text k row ++ rest) = row.
Proof.
  induction k as [|k IH]; intros row rest Hb Hk; [destruct row; [done|cbn in Hk; lia]|].
  destruct row as [|b row].
  - unfold hex_text. cbn [length mbind list_bind app]. rewrite Nat.sub_0_r.
    replace (3 * S k)%nat with (3 + 3 * k)%nat by lia. by rewrite replicate_add.
  - apply Forall_cons in Hb as [Hb Hrow]. cbn [length] in Hk.
    unfold hex_text. cbn [length mbind list_bind]. rewrite Nat.sub_succ. cbn [hex2 app read_columns].
    unfold is_byte in Hb. assert (0 <= b / 16 < 16) as Hd by (split; [apply Z.div_pos; lia|apply Z.div_lt_upper_bound; lia]).
    pose proof (Z.mod_pos_bound b 16 ltac:(lia)) as Hm. pose proof (digit_graphic _ Hd) as Hg. unfold graphic in Hg.
    rewrite (proj2 (Z.eqb_neq _ _)) by lia. rewrite !undigit_digit by lia.
    rewrite Z.mul_comm, <- (Z.div_mod b 16) by lia. f_equal. by apply IH; [|lia].
Qed.

Lemma hex_text_line k row : Forall is_byte row -> Forall (fun c => c <> 10) (hex_text k row).
Proof.
  intros Hb. unfold hex_text. apply Forall_app. split; [|by apply Forall_replicate].
  induction Hb as [|b row Hb _ IH]; [done|]. unfold is_byte in Hb. cbn [mbind list_bind]. apply Forall_app. split; [|done].
  assert (0 <= b / 16 < 16) as Hd by (split; [apply Z.div_pos; lia|apply Z.div_lt_upper_bound; lia]).
  pose proof (digit_graphic _ Hd) as H1. pose proof (digit_graphic _ (Z.mod_pos_bound b 16 ltac:(lia))) as H2.
  unfold graphic in *. repeat constructor; lia.
Qed.

Lemma ascii_text_line k row : Forall (fun c => c <> 10) (ascii_text k row).
Proof.
  unfold ascii_text. apply Forall_app. split; [|by apply Forall_replicate].
  induction row as [|b row IH]; [done|]. cbn [mbind list_bind]. apply Forall_app. split; [|done].
  destruct (Z.ltb_spec b 32), (Z.ltb_spec 127 b); repeat constructor; cbn; lia.
Qed.

(** Reading back one row. *)
Lemma read_row_text n word row t :
  Forall graphic word -> Forall is_byte row -> (length row <= default_block)%nat ->
  read_rows (S n) ((word ++ replicate 3 32 ++ hex_text default_block row ++ replicate 8 32 ++ ascii_text default_block row ++ [10]) ++ t)
  = row ++ read_rows n t.
Proof.
  intros Hw Hb Hk. set (r := _ ++ [10]).
  assert (exists c r', word ++ replicate 3 32 ++ hex_text default_block row ++ replicate 8 32 ++ ascii_text default_block row ++ [10] = c :: r'
    /\ c <> 10) as (c & r' & E & Hc).
  { destruct Hw as [|c word Hc _]; [by do 2 eexists|]. unfold graphic in Hc. do 2 eexists. split; [done|lia]. }
  unfold r. rewrite E. cbn [app read_rows]. rewrite (proj2 (Z.eqb_neq _ _)) by done.
  change (c :: r' ++ t) with ((c :: r') ++ t). rewrite <- E. f_equal.
  - unfold read_row. rewrite <- !app_assoc. cbn [replicate app]. rewrite skip_word_graphic by done. cbn [drop].
    by apply read_columns_text.
  - f_equal. rewrite !app_assoc. rewrite <- (app_assoc _ [10] t). cbn [app]. apply skip_line_app.
    refine (Forall_app_2 _ _ _ (Forall_app_2 _ _ _ (Forall_app_2 _ _ _ (Forall_app_2 _ _ _ _ _) (hex_text_line _ _ Hb)) _)
      (ascii_text_line _ _)); [|by apply Forall_replicate|by apply Forall_replicate].
    eapply Forall_impl; [exact Hw|]. unfold graphic. intros; lia.
Qed.

Lemma dump_loop_text bs : Forall is_byte bs -> forall n i s, o_width s = 0 -> o_left s = false -> (length bs - i < n)%nat ->
  exists s' t, dump_loop n i bs s = Ok s' /\ dumping s s' t /\
    forall m rest, (length bs - i < m)%nat -> read_rows m (t ++ 10 :: rest) = drop i bs.
Proof.
  intros Hb. induction n as [|n IH]; intros i s Hw Hl Hn; [lia|]. cbn [dump_loop]. destruct (Nat.ltb_spec i (length bs)).
  - set (row := take default_block (drop i bs)).
    assert (Forall is_byte row /\ (length row <= default_block)%nat) as [Hr Hk].
    { unfold row. split; [auto with bytes|]. rewrite length_take. lia. }
    destruct (dump_row_text i row s Hr Hk Hl) as (word & Hword & D1).
    destruct (IH (i + default_block)%nat _ (du_width _ _ _ D1)) as (s' & t & E & D2 & R);
      [rewrite (du_left _ _ _ D1); done|unfold default_block; lia|].
    do 2 eexists. split; [exact E|]. split; [eapply dumping_app; [exact D1|exact D2]|].
    intros m rest Hm. destruct m as [|m]; [lia|]. rewrite <- app_assoc. rewrite read_row_text by done.
    rewrite R by (unfold default_block; lia). unfold row. rewrite <- drop_drop. apply take_drop.
  - exists s, []. split; [done|]. split; [split; [by rewrite app_nil_r|done|done]|].
    intros m rest Hm. destruct m; [lia|]. cbn. symmetry. by apply drop_ge.
Qed.

(** Nothing is lost in a dump: whatever the state of the stream (in decimal,
    without a pending width, adjusted to the right), the text that the stream
    operator of a storage adds says every byte, and reading its columns gives
    the stored bytes back. *)
Theorem dump_roundtrip h msg bs s :
  load h (bytes msg).1 (bytes msg).2 = Ok bs -> Forall is_byte bs -> Z.of_nat (length bs) = (bytes msg).2 ->
  plain_stream s -> o_left s = false -> 0 <= m_second msg ->
  exists s' t, ByteStorage_output h msg s = Ok s' /\ o_text s' = o_text s ++ t /\
    read_dump (S (length bs)) t = bs.
Proof.
  intros Hload Hb Hlen [Hx Hw] Hl Hcap. unfold ByteStorage_output. destruct (bytes msg) as [p n]. cbn [fst snd] in *.
  set (s1 := endl _).
  assert (exists line, Forall (fun c => c <> 10) line /\ o_text s1 = o_text s ++ line ++ [10] /\ o_width s1 = 0 /\ o_left s1 = false)
    as (line & Hline & Et & W1 & L1).
  { unfold s1, puts, put_int. rewrite !put_plain by (rewrite ?put_plain; done). cbn [o_hex write]. rewrite Hx.
    unfold int_text. rewrite !(proj2 (Z.ltb_ge _ _)) by lia.
    exists (bytes_of_string "[length: " ++ digits 10 n ++ bytes_of_string " capacity: " ++ digits 10 (m_second msg) ++ bytes_of_string "]: ").
    assert (forall v, 0 <= v -> Forall (fun c => c <> 10) (digits 10 v)) as Hdig.
    { intros v Hv. eapply Forall_impl; [apply digits_graphic; lia|]. unfold graphic. intros; lia. }
    split; [|split; [by cbn [endl write o_text]; rewrite <- !app_assoc|done]].
    repeat (apply Forall_app; split); try apply Hdig; try lia; apply (bool_decide_unpack _); vm_compute; exact I. }
  rewrite Hload. run_bind.
  destruct (dump_loop_text bs Hb (dump_fuel n) 0 s1 W1 L1) as (s2 & t & E & D & R); [unfold dump_fuel; lia|].
  rewrite E. run_bind. exists (endl s2), (line ++ 10 :: t ++ [10]). split; [done|]. split.
  { cbn [endl write o_text]. rewrite (du_text _ _ _ D), Et, <- !app_assoc. done. }
  unfold read_dump. rewrite skip_line_app by done. rewrite R by lia. done.
Qed.
