(* ===== verification/Output.v ===== *)
(** * Output: what messages, URLs and options print

    The [output] methods of src/fastpath/messages (ScalarField.h, SmallDataField.h,
    LargeDataField.h, DateTimeField.h, MessageField.cpp, BaseMessage.cpp,
    Message.cpp), the stream operator of transport/URL.cpp, and printUsage and
    printContent of utils/tfoptions.h. *)
From S2P Require Import Prelude Heap ByteStorage MessageBuffer Types Field Message Codec RoundTrip Built Options Url Printing.
From stdpp Require Import sorting.
From Stdlib Require Ascii String.
#[local] Open Scope Z_scope.

(** ** Fields and messages *)

Definition type_description (t : Z) : outcome string :=
  match (if t <? 0 then None else StorageTypeDescription !! Z.to_nat t) with
  | Some d => Ok d
  | None => undefined OutOfBounds
  end.

(** [std::string(p, n)] of the [n] bytes at the front of [store]; a negative
    length is one that has wrapped around. *)
Definition std_string (store : list Z) (n : Z) : outcome (list Z) :=
  if n <? 0 then throw LengthError
  else if n <=? Z.of_nat (length store) then Ok (take (Z.to_nat n) store) else undefined IndeterminateRead.

Section output.
Context `{Platform}.

(** [std::numeric_limits<T>::digits10 + 1] *)
Definition float32_precision : Z := 7.
Definition float64_precision : Z := 16.

(** The text of [get<T>()] for the type of a scalar: [uint8_t] and [int8_t] are
    character types. *)
Definition scalar_value_output (hd : FieldHeader) (m_raw : list Z) (s : ostream) : outcome ostream :=
  let shown t := scalar_get hd m_raw t in
  let int w t := v ← shown t; Ok (put_int w v s) in
  if m_type hd =? storage_type_value boolean then
    v ← shown T_bool; Ok (puts (if v =? 0 then "false" else "true") (boolalpha s))
  else if m_type hd =? storage_type_value uint8 then v ← shown T_uint8; Ok (put [v] s)
  else if m_type hd =? storage_type_value uint16 then int 16 T_uint16
  else if m_type hd =? storage_type_value uint32 then int 32 T_uint32
  else if m_type hd =? storage_type_value uint64 then int 64 T_uint64
  else if m_type hd =? storage_type_value int8 then v ← shown T_int8; Ok (put [u8 v] s)
  else if m_type hd =? storage_type_value int16 then int 16 T_int16
  else if m_type hd =? storage_type_value int32 then int 32 T_int32
  else if m_type hd =? storage_type_value int64 then int 64 T_int64
  else if m_type hd =? storage_type_value float32 then
    v ← shown T_float32; let s := setprecision float32_precision s in Ok (put (float_text (o_precision s) 8 23 v) s)
  else if m_type hd =? storage_type_value float64 then
    v ← shown T_float64; let s := setprecision float64_precision s in Ok (put (float_text (o_precision s) 11 52 v) s)
  else Ok s.

Definition label (hd : FieldHeader) (s : ostream) : outcome ostream :=
  d ← type_description (m_type hd); Ok (puts "=" (puts d (puts ":" (put (m_identifier hd) s)))).

(** [BaseMessage::output]: the fields in braces, separated by commas. *)
Definition payload_output (output : Field -> ostream -> outcome ostream) : bool -> list Field -> ostream -> outcome ostream :=
  fix loop first payload s :=
    match payload with
    | [] => Ok s
    | field :: payload =>
        let s := if (first : bool) then s else puts ", " s in
        s ← output field (puts "{" s);
        loop false payload (puts "}" s)
    end.

(** [Message::output] up to the fields. *)
Definition subject_output (addressing : bool) (subject : list Z) (s : ostream) : ostream :=
  if addressing then
    if bool_decide (cstr subject = []) then puts "<no subject>=" s else puts "=" (put subject s)
  else s.

(** [output] of each field class. *)
Definition ScalarField_output (hd : FieldHeader) (m_raw : list Z) (s : ostream) : outcome ostream :=
  s ← label hd s; scalar_value_output hd m_raw (fixed s).
Definition SmallDataField_output (hd : FieldHeader) (store : list Z) (s : ostream) : outcome ostream :=
  s ← label hd s;
  if m_type hd =? storage_type_value string_ then t ← std_string store (m_data_length hd - 1); Ok (put t s)
  else if m_type hd =? storage_type_value data then
    Ok (puts " bytes]" (put_int 64 (m_data_length hd) (puts "[data of " s)))
  else Ok s.
Definition LargeDataField_output (hd : FieldHeader) (store : list Z) (s : ostream) : outcome ostream :=
  if m_type hd =? storage_type_value string_ then
    t ← std_string store (Z.of_nat (length store) - 1); Ok (put t (puts ":string=" (put (m_identifier hd) s)))
  else if m_type hd =? storage_type_value data then
    Ok (puts " bytes]" (put_int 64 (Z.of_nat (length store)) (puts "[data of " (puts ":opaque=" (put (m_identifier hd) s)))))
  else Ok s.
Definition DateTimeField_output (hd : FieldHeader) (seconds microseconds : Z) (s : ostream) : outcome ostream :=
  let s := puts ":date_time=" (put (m_identifier hd) s) in
  Ok (puts "us" (put_int 64 microseconds (puts "s " (put_int 64 seconds s)))).
Fixpoint Field_output (f : Field) (s : ostream) : outcome ostream :=
  match f with
  | ScalarField hd m_raw => ScalarField_output hd m_raw s
  | SmallDataField hd store => SmallDataField_output hd store s
  | LargeDataField hd store => LargeDataField_output hd store s
  | DateTimeField hd seconds microseconds => DateTimeField_output hd seconds microseconds s
  | MessageField hd (mkMessage addressing _ subject payload _) =>
      s ← label hd s;
      payload_output Field_output true payload (subject_output addressing subject s)
  end.

(** [operator<<] of a message. *)
Definition Message_output (m : Message) (s : ostream) : outcome ostream :=
  payload_output Field_output true (m_payload m) (subject_output (m_hasAddressing m) (m_subject m) s).
End output.

(** ** What a message shows *)

Section shown.
Context `{Platform}.

(** The reference: the text of a value, of a field and of a message, without a
    stream. *)
Definition show_value (t : ctype) (v : Z) : list Z :=
  match t with
  | T_bool => bytes_of_string (if v =? 0 then "false" else "true")
  | T_uint8 => [v]
  | T_int8 => [u8 v]
  | T_float32 => float_text 7 8 23 v
  | T_float64 => float_text 16 11 52 v
  | _ => int_text v
  end.
Definition ctypes : list ctype :=
  [T_bool; T_uint8; T_uint16; T_uint32; T_uint64; T_int8; T_int16; T_int32; T_int64; T_float32; T_float64].
Definition show_scalar (hd : FieldHeader) (raw : list Z) : list Z :=
  match List.find (fun t => storage_type_value (field_traits_type t) =? m_type hd) ctypes with
  | Some t => show_value t (ctype_value t (readScalar_at (take (field_traits_size t) raw)))
  | None => []
  end.

Definition show_type (t : Z) : list Z := bytes_of_string (default ""%string (StorageTypeDescription !! Z.to_nat t)).
Definition show_subject (addressing : bool) (subject : list Z) : list Z :=
  if addressing then (if bool_decide (cstr subject = []) then bytes_of_string "<no subject>" else subject) ++ bytes_of_string "=" else [].
Definition braces (t : list Z) : list Z := bytes_of_string "{" ++ t ++ bytes_of_string "}".
Fixpoint join (l : list (list Z)) : list Z :=
  match l with [] => [] | t :: l => t ++ (match l with [] => [] | _ => bytes_of_string ", " end) ++ join l end.
Definition data_of (n : Z) : list Z := bytes_of_string "[data of " ++ digits 10 n ++ bytes_of_string " bytes]".

Fixpoint show_field (f : Field) : list Z :=
  m_identifier (header f) ++ bytes_of_string ":" ++
  match f with
  | ScalarField hd raw => show_type (m_type hd) ++ bytes_of_string "=" ++ show_scalar hd raw
  | SmallDataField hd st =>
      show_type (m_type hd) ++ bytes_of_string "=" ++
      (if m_type hd =? storage_type_value string_ then take (length st - 1) st else data_of (Z.of_nat (length st)))
  | LargeDataField hd st =>
      if m_type hd =? storage_type_value string_ then bytes_of_string "string=" ++ take (length st - 1) st
      else bytes_of_string "opaque=" ++ data_of (Z.of_nat (length st))
  | DateTimeField hd seconds microseconds =>
      bytes_of_string "date_time=" ++ int_text seconds ++ bytes_of_string "s " ++ int_text microseconds ++ bytes_of_string "us"
  | MessageField hd (mkMessage addressing _ subject payload _) =>
      show_type (m_type hd) ++ bytes_of_string "=" ++ show_subject addressing subject ++ join (braces <$> (show_field <$> payload))
  end.
Definition show_message (m : Message) : list Z :=
  show_subject (m_hasAddressing m) (m_subject m) ++ join (braces <$> (show_field <$> m_payload m)).

(** The fields the operators can print: the type is one of the table, and a
    string has its NUL. *)
Fixpoint printable (f : Field) : Prop :=
  match f with
  | ScalarField hd _ => 0 <= m_type hd < 16
  | SmallDataField hd st => data_type (m_type hd) /\ m_data_length hd = Z.of_nat (length st) /\ (m_type hd = storage_type_value string_ -> st <> [])
  | LargeDataField hd st => data_type (m_type hd) /\ (m_type hd = storage_type_value string_ -> st <> [])
  | DateTimeField _ _ _ => True
  | MessageField hd (mkMessage _ _ subject payload _) => 0 <= m_type hd < 16 /\ is_cstr subject /\ foldr (fun f P => printable f /\ P) True payload
  end.

Lemma printable_all l : foldr (fun f P => printable f /\ P) True l <-> Forall printable l.
Proof. induction l as [|f l IH]; [by rewrite Forall_nil|]. cbn [foldr]. by rewrite Forall_cons, IH. Qed.

(** [o] adds [t] and leaves the stream plain. *)
Definition shows (s : ostream) (o : outcome ostream) (t : list Z) : Prop :=
  exists s', o = Ok s' /\ o_text s' = o_text s ++ t /\ plain_stream s'.

Lemma shows_ret s : plain_stream s -> shows s (Ok s) [].
Proof. intros Hs. exists s. by rewrite app_nil_r. Qed.

Lemma shows_bind s o t f t' : shows s o t -> (forall s1, plain_stream s1 -> shows s1 (f s1) t') -> shows s (o ≫= f) (t ++ t').
Proof.
  intros (s1 & -> & E1 & P1) Hf. destruct (Hf s1 P1) as (s2 & E & E2 & P2). exists s2. split; [done|].
  by rewrite E2, E1, app_assoc.
Qed.

Lemma shows_put s t : plain_stream s -> shows s (Ok (put t s)) t.
Proof. intros [Hx Hw]. rewrite put_plain by done. eexists. by split. Qed.

(** One insertion in front of the others. *)
Lemma shows_after (s : ostream) t (f : ostream -> outcome ostream) t' :
  plain_stream s -> (forall s1, plain_stream s1 -> shows s1 (f s1) t') -> shows s (f (put t s)) (t ++ t').
Proof. intros Hs Hf. apply (shows_bind s (Ok (put t s)) t f t'); [by apply shows_put|done]. Qed.

Lemma shows_int s w v : plain_stream s -> shows s (Ok (put_int w v s)) (int_text v).
Proof. intros Hs. unfold put_int. rewrite (proj1 Hs). by apply shows_put. Qed.

Lemma type_description_ok t : 0 <= t < 16 -> exists d, type_description t = Ok d /\ bytes_of_string d = show_type t.
Proof.
  intros Ht. unfold type_description, show_type. rewrite (proj2 (Z.ltb_ge _ _)) by lia.
  destruct (lookup_lt_is_Some_2 StorageTypeDescription (Z.to_nat t)) as [d ->]; [cbn; lia|]. by exists d.
Qed.

Lemma label_shows hd s : 0 <= m_type hd < 16 -> plain_stream s ->
  shows s (label hd s) (m_identifier hd ++ bytes_of_string ":" ++ show_type (m_type hd) ++ bytes_of_string "=").
Proof.
  intros Ht Hs. unfold label. destruct (type_description_ok _ Ht) as (d & -> & <-). run_bind.
  apply (shows_after s _ (fun s => Ok (puts "=" (puts d (puts ":" s))))); [done|]. intros s1 P1.
  apply (shows_after s1 _ (fun s => Ok (puts "=" (puts d s)))); [done|]. intros s2 P2.
  apply (shows_after s2 _ (fun s => Ok (puts "=" s))); [done|]. intros s3 P3. by apply shows_put.
Qed.

Lemma fixed_plain s : plain_stream s -> plain_stream (fixed s).
Proof. done. Qed.

(** An insertion after a manipulator. *)
Lemma shows_put_at s s' t : plain_stream s' -> o_text s' = o_text s -> shows s (Ok (put t s')) t.
Proof. intros [Hx Hw] Ht. rewrite put_plain by done. eexists. split; [done|]. cbn. by rewrite Ht. Qed.

(** The switch over the type agrees with the table of types. *)
Lemma scalar_value_shows hd raw s : plain_stream s -> shows s (scalar_value_output hd raw s) (show_scalar hd raw).
Proof.
  intros Hs. unfold scalar_value_output, show_scalar, scalar_get.
  repeat match goal with
  | |- context [if m_type hd =? ?v then _ else _] =>
      let E := fresh in destruct (Z.eqb_spec (m_type hd) v) as [E|E];
        [rewrite E in *; cbn -[readScalar_at ctype_value put puts float_text]; eauto using shows_put, shows_int;
         by apply shows_put_at|]
  end.
  assert (List.find (fun t => storage_type_value (field_traits_type t) =? m_type hd) ctypes = None) as ->; [|by apply shows_ret].
  cbn [List.find ctypes field_traits_type]. repeat (rewrite (proj2 (Z.eqb_neq _ (m_type hd))) by congruence). done.
Qed.

Lemma data_of_shows n s : plain_stream s -> 0 <= n -> shows s (Ok (puts " bytes]" (put_int 64 n (puts "[data of " s)))) (data_of n).
Proof.
  intros Hs Hn. apply (shows_after s _ (fun s => Ok (puts " bytes]" (put_int 64 n s)))); [done|]. intros s1 P1.
  apply (shows_bind s1 (Ok (put_int 64 n s1)) (digits 10 n) (fun s => Ok (puts " bytes]" s))); [|intros; by apply shows_put].
  pose proof (shows_int s1 64 n P1) as Hi. unfold int_text in Hi. by rewrite (proj2 (Z.ltb_ge _ _)) in Hi by lia.
Qed.

Lemma std_string_ok st : st <> [] -> std_string st (Z.of_nat (length st) - 1) = Ok (take (length st - 1) st).
Proof.
  intros Hne. assert (0 < length st)%nat by (destruct st; [done|cbn; lia]). unfold std_string.
  rewrite (proj2 (Z.ltb_ge _ _)) by lia. rewrite (proj2 (Z.leb_le _ _)) by lia. do 2 f_equal. lia.
Qed.

Lemma subject_shows addressing subject s : is_cstr subject -> plain_stream s ->
  shows s (Ok (subject_output addressing subject s)) (show_subject addressing subject).
Proof.
  intros Hc Hs. unfold subject_output, show_subject. destruct addressing; [|by apply shows_ret].
  assert (cstr subject = subject) as -> by (clear -Hc; induction Hc as [|c l H _ IH]; [done|]; cbn [cstr]; rewrite (proj2 (Z.eqb_neq _ _)) by lia; congruence).
  case_bool_decide; [by apply shows_put|].
  apply (shows_after s _ (fun s => Ok (puts "=" s))); [done|]. intros; by apply shows_put.
Qed.

Lemma payload_shows output show l : Forall (fun f => forall s, plain_stream s -> shows s (output f s) (show f)) l ->
  forall first s, plain_stream s -> shows s (payload_output output first l s)
    ((if first then [] else match l with [] => [] | _ => bytes_of_string ", " end) ++ join (braces <$> (show <$> l))).
Proof.
  induction 1 as [|f l Hf _ IH]; intros first s Hs; cbn [payload_output].
  - destruct first; by apply shows_ret.
  - assert (forall s, plain_stream s ->
      shows s (s ← output f (puts "{" s); payload_output output false l (puts "}" s)) (join (braces <$> (show <$> f :: l)))) as K.
    { intros s0 Hs0. rewrite !fmap_cons. cbn [join]. unfold braces at 1. rewrite <- !app_assoc.
      apply (shows_after s0 _ (fun s => s ← output f s; payload_output output false l (puts "}" s))); [done|]. intros s1 P1.
      apply (shows_bind s1 _ (show f)); [by apply Hf|]. intros s2 P2.
      apply (shows_after s2 _ (fun s => payload_output output false l s)); [done|]. intros s3 P3.
      destruct l as [|g l]; [by apply (IH false)|]. by apply (IH false). }
    destruct first; [by apply K|].
    apply (shows_after s _ (fun s => s ← output f (puts "{" s); payload_output output false l (puts "}" s))); [done|]. apply K.
Qed.

Lemma data_type_range t : data_type t -> 0 <= t < 16.
Proof. intros [-> | ->]; cbn; lia. Qed.

Lemma Field_shows f : forall s, printable f -> plain_stream s -> shows s (Field_output f s) (show_field f).
Proof.
  induction f as [hd raw|hd st|hd st|hd a b|hd ha fl su p ks IH] using Field_ind_nested; intros s Hp Hs;
    cbn [Field_output show_field header];
    unfold ScalarField_output, SmallDataField_output, LargeDataField_output, DateTimeField_output.
  - pose proof (label_shows hd s Hp Hs) as L.
    refine (eq_ind _ (shows s _) (shows_bind _ _ _ _ _ L _) _ _); [|by rewrite <- !app_assoc].
    intros s1 P1. exact (scalar_value_shows hd raw (fixed s1) P1).
  - destruct Hp as (Ht & Hl & Hne). pose proof (label_shows hd s (data_type_range _ Ht) Hs) as L.
    rewrite Hl. refine (eq_ind _ (shows s _) (shows_bind _ _ _ _ _ L _) _ _); [|by rewrite <- !app_assoc].
    intros s1 P1. destruct (Z.eqb_spec (m_type hd) (storage_type_value string_)) as [E|E].
    + rewrite std_string_ok by auto. by apply shows_put.
    + destruct Ht as [Ht|Ht]; [done|]. rewrite Ht, Z.eqb_refl. apply data_of_shows; [done|lia].
  - destruct Hp as (Ht & Hne). destruct (Z.eqb_spec (m_type hd) (storage_type_value string_)) as [E|E].
    + rewrite std_string_ok by auto. run_bind.
      apply (shows_after s _ (fun s => Ok (put (take (length st - 1) st) (puts ":string=" s)))); [done|]. intros s1 P1.
      apply (shows_after s1 (bytes_of_string ":string=") (fun s => Ok (put (take (length st - 1) st) s))); [done|].
      intros; by apply shows_put.
    + destruct Ht as [Ht|Ht]; [done|]. rewrite Ht, Z.eqb_refl.
      apply (shows_after s _ (fun s => Ok (puts " bytes]" (put_int 64 (Z.of_nat (length st)) (puts "[data of " (puts ":opaque=" s)))))); [done|].
      intros s1 P1. apply (shows_after s1 (bytes_of_string ":opaque=") (fun s => Ok (puts " bytes]" (put_int 64 (Z.of_nat (length st)) (puts "[data of " s))))); [done|].
      intros. apply data_of_shows; [done|lia].
  - apply (shows_after s _ (fun s => Ok (puts "us" (put_int 64 b (puts "s " (put_int 64 a (puts ":date_time=" s))))))); [done|]. intros s1 P1.
    apply (shows_after s1 (bytes_of_string ":date_time=") (fun s => Ok (puts "us" (put_int 64 b (puts "s " (put_int 64 a s)))))); [done|]. intros s2 P2.
    apply (shows_bind s2 _ _ (fun s => Ok (puts "us" (put_int 64 b (puts "s " s)))) _ (shows_int s2 64 a P2)). intros s3 P3.
    apply (shows_after s3 _ (fun s => Ok (puts "us" (put_int 64 b s)))); [done|]. intros s4 P4.
    apply (shows_bind s4 _ _ (fun s => Ok (puts "us" s)) _ (shows_int s4 64 b P4)). intros; by apply shows_put.
  - destruct Hp as (Ht & Hc & Hp). apply printable_all in Hp. pose proof (label_shows hd s Ht Hs) as L.
    refine (eq_ind _ (shows s _) (shows_bind _ _ _ _ _ L _) _ _); [|by rewrite <- !app_assoc].
    intros s1 P1. apply (shows_bind s1 _ _ (fun s => payload_output Field_output true p s) _ (subject_shows ha su s1 Hc P1)). intros s2 P2.
    apply (payload_shows Field_output show_field p) with (first := true); [|done].
    clear -IH Hp. rewrite !Forall_forall in *. intros f Hf s Hs. by apply IH; [|apply Hp|].
Qed.

Lemma Message_shows m s : is_cstr (m_subject m) -> Forall printable (m_payload m) -> plain_stream s ->
  shows s (Message_output m s) (show_message m).
Proof.
  intros Hc Hp Hs. unfold Message_output, show_message.
  apply (shows_bind s _ _ (fun s => payload_output Field_output true (m_payload m) s) _ (subject_shows (m_hasAddressing m) (m_subject m) s Hc Hs)).
  intros s2 P2. apply (payload_shows Field_output show_field) with (first := true); [|done].
  eapply Forall_impl; [exact Hp|]. intros f Hf s1 P1. by apply Field_shows.
Qed.
(** The fields by the accessors of the nested message. *)
Lemma printable_nested hd m :
  printable (MessageField hd m) <-> 0 <= m_type hd < 16 /\ is_cstr (m_subject m) /\ Forall printable (m_payload m).
Proof. destruct m as [a fl su p k]. change (0 <= m_type hd < 16 /\ is_cstr su /\ foldr (fun f P => printable f /\ P) True p <-> 0 <= m_type hd < 16 /\ is_cstr su /\ Forall printable p). by rewrite printable_all. Qed.
Lemma show_nested hd m :
  show_field (MessageField hd m) = m_identifier hd ++ bytes_of_string ":" ++ show_type (m_type hd) ++ bytes_of_string "=" ++ show_message m.
Proof. by destruct m. Qed.

(** Every message a program can build can be printed. *)
Lemma insert_printable m e r m' : insert_field m e = (r, m') -> printable e ->
  Forall printable (m_payload m) -> Forall printable (m_payload m').
Proof.
  unfold insert_field. intros E He Hm. destruct (m_keys m !! identifier e); injection E as _ <-; [done|]. cbn [m_payload set_fields].
  apply Forall_app. by split; [|apply Forall_singleton].
Qed.

Lemma call_printable m c r m' : call_valid c -> run_add m c = Ok (r, m') ->
  exists e, printable e /\ insert_field m e = (r, m').
Proof.
  intros [Hid _] E.
  assert (forall o : outcome Field, (forall e, o = Ok e -> printable e) -> (e ← o; Ok (insert_field m e)) = Ok (r, m') ->
    exists e, printable e /\ insert_field m e = (r, m')) as A by (intros o Ho Eo; inv_bind; eauto).
  assert (forall v : list Z, v ++ [0] <> [] /\ Z.of_nat (length v) + 1 = Z.of_nat (length (v ++ [0]))) as Hnul
    by (intros v; rewrite length_app; split; [by destruct v|cbn; lia]).
  destruct c as [id t v|id v|id v|id v|id v|id a b]; cbn [run_add call_id] in *; refine (A _ _ E); intros e;
    unfold ScalarField_new, createDataField_string, createDataField_data, SmallDataField_string, LargeDataField_string,
      SmallDataField_data, LargeDataField_data, DateTimeField_time_point, DateTimeField_duration, DateTimeField_parts;
    rewrite ?(fun t n => proj1 (Field_new_valid id t n Hid)); run_bind; cbn [m_data_length]; repeat case_match; intros [= <-];
    cbn [printable m_type]; try done.
  all: try (by destruct t); split_and?; try (by left); try (by right); try done; try apply Hnul; intros _; apply Hnul.
Qed.

Lemma assembled_printable i c m : assembled i c m -> Forall printable (m_payload m).
Proof.
  induction 1 as [|i c m _ _|i c m s _ IH _|i c m k r m' _ IH Hc _ E|i c ev m field r m' _ IH E
                 |i c m i' c' id sub r m' _ IH Hs IHs Hid _ _ E].
  - done.
  - by constructor.
  - unfold setSubject. by destruct (_ <? _).
  - destruct (call_printable m k r m' Hc E) as (e & He & E0). by eapply insert_printable.
  - unfold removeField in E. repeat case_match; simplify_eq; try done.
    cbn. apply Forall_app. split; [by apply Forall_take|by apply Forall_drop].
  - destruct (addMessageField_field _ _ _ _ _ Hid E) as (e & E' & ->). eapply insert_printable; [exact E'| |done].
    apply printable_nested. split; [done|]. split; [by apply (assembled_subject _ _ _ Hs)|done].
Qed.

(** A nested message that has a subject loses it on the wire. *)
Fixpoint anonymous (f : Field) : Prop :=
  match f with
  | MessageField _ (mkMessage addressing _ subject payload _) =>
      addressing = true /\ subject = [] /\ foldr (fun f P => anonymous f /\ P) True payload
  | _ => True
  end.

Lemma anonymous_nested hd m :
  anonymous (MessageField hd m) <-> m_hasAddressing m = true /\ m_subject m = [] /\ Forall anonymous (m_payload m).
Proof.
  destruct m as [a fl su p k]. change (a = true /\ su = [] /\ foldr (fun f P => anonymous f /\ P) True p <-> a = true /\ su = [] /\ Forall anonymous p).
  assert (forall l, foldr (fun f P => anonymous f /\ P) True l <-> Forall anonymous l) as ->; [|done].
  induction l as [|f l IH]; [by rewrite Forall_nil|]. cbn [foldr]. by rewrite Forall_cons, IH.
Qed.

Lemma decoded_addressing l : forall m, m_hasAddressing (foldl decoded_field m l) = m_hasAddressing m.
Proof. induction l as [|f l IH]; intros m; [done|]. cbn [foldl]. by rewrite IH. Qed.

Lemma received_fields l : Forall (fun f => printable (received f) /\ show_field (received f) = show_field f) l ->
  show_field <$> (received <$> l) = show_field <$> l.
Proof. induction 1 as [|f l [_ E] _ IH]; [done|]. rewrite !fmap_cons. by rewrite E, IH. Qed.

Lemma received_field f : printable f -> anonymous f -> printable (received f) /\ show_field (received f) = show_field f.
Proof.
  induction f as [hd raw|hd st|hd st|hd a b|hd ha fl su p ks IH] using Field_ind_nested; intros Hp Ha; [done..|].
  apply printable_nested in Hp as (Ht & Hc & Hp). apply anonymous_nested in Ha as (Hha & Hsu & Ha).
  cbn [m_hasAddressing m_subject m_payload] in *. cbn [received].
  assert (Forall (fun f => printable (received f) /\ show_field (received f) = show_field f) p) as Hr
    by (rewrite !Forall_forall in *; eauto).
  split.
  - apply printable_nested. split; [done|]. rewrite decoded_subject, decoded_payload. split; [by constructor|].
    apply Forall_fmap. eapply Forall_impl; [exact Hr|]. by intros g [].
  - rewrite !show_nested. unfold show_message. rewrite decoded_addressing, decoded_subject, decoded_payload.
    cbn [m_hasAddressing m_subject m_payload app] in *. subst ha su. change (m_payload Message_new ++ (received <$> p)) with (received <$> p).
    by rewrite (received_fields p Hr).
Qed.

Lemma assembled_shows i c m s : assembled i c m -> plain_stream s ->
  shows s (Message_output m s) (show_message m) /\
  (i = true -> c = true -> Forall anonymous (m_payload m) -> shows s (Message_output (received_message m) s) (show_message m)).
Proof.
  intros B Hs. pose proof (assembled_printable i c m B) as Hp. destruct (assembled_subject i c m B) as [Hc Ha].
  split; [by apply Message_shows|]. intros _ _ Han.
  assert (Forall (fun f => printable (received f) /\ show_field (received f) = show_field f) (m_payload m)) as Hr
    by (rewrite !Forall_forall in *; eauto using received_field).
  assert (show_message m = show_message (received_message m)) as ->.
  { unfold show_message, received_message. rewrite decoded_addressing, decoded_subject, decoded_payload. rewrite Ha.
    cbn [set_subject set_flags m_hasAddressing m_subject m_payload Message_new app]. by rewrite (received_fields _ Hr). }
  apply Message_shows; [|  |done].
  - unfold received_message. by rewrite decoded_subject.
  - unfold received_message. rewrite decoded_payload. apply Forall_fmap. eapply Forall_impl; [exact Hr|]. by intros g [].
Qed.

Lemma built_shows m s : built m -> plain_stream s ->
  shows s (Message_output m s) (show_message m) /\
  (Forall anonymous (m_payload m) -> shows s (Message_output (received_message m) s) (show_message m)).
Proof. intros B Hs. destruct (assembled_shows _ _ m s B Hs) as [H1 H2]. split; [done|by apply H2]. Qed.

(** C24: what a message prints.  Every message assembled with the calls of
    MutableMessage, whatever was removed from it or nested in it, can be printed, on
    any stream in decimal without a pending width: the output adds the text
    that the reference gives for the message, nested messages included, and
    leaves the stream in decimal without a width, so no manipulator that printing
    one field leaves on the stream changes the text of another.  If its index is
    consistent and no nested message is empty or has a subject, the message that
    its receiver decodes prints the same. *)
Theorem message_output indexed carried m s : assembled indexed carried m -> plain_stream s ->
  shows s (Message_output m s) (show_message m) /\
  (indexed = true -> carried = true -> Forall anonymous (m_payload m) ->
   shows s (Message_output (received_message m) s) (show_message m)).
Proof. exact (assembled_shows indexed carried m s). Qed.
End shown.

(** ** Where printing fails *)

(** A received message can hold a string without a NUL; its length less one
    wraps around and the string constructor throws.  A received scalar can have a
    type behind the table. *)
Theorem empty_string_output `{Platform} hd s : m_type hd = storage_type_value string_ -> m_data_length hd = 0 ->
  Field_output (SmallDataField hd []) s = throw LengthError.
Proof. intros Ht Hl. cbn [Field_output]. unfold SmallDataField_output, label. rewrite Ht, Hl. done. Qed.

Theorem unknown_type_output `{Platform} hd raw s : 16 <= m_type hd -> Field_output (ScalarField hd raw) s = undefined OutOfBounds.
Proof.
  intros Ht. cbn [Field_output]. unfold ScalarField_output, label, type_description. rewrite (proj2 (Z.ltb_ge _ _)) by lia.
  rewrite (lookup_ge_None_2 StorageTypeDescription); [done|]. cbn. lia.
Qed.

(** ** URLs and options *)

(** [operator<<] of a URL; [queries] is the query in the order of the hash map. *)
Definition url_output (queries : list (list Z * list Z)) (u : url) (s : ostream) : ostream :=
  let s := puts "' Host: '" (put (m_protocol u) (puts "Protocol: '" s)) in
  let s := puts "' Path: '" (put (m_port u) (puts "' Port: '" (put (m_host u) s))) in
  let s := puts "' Query: [" (put (m_path u) s) in
  puts "]" (foldl (fun s pair => put pair.2 (puts " => " (put pair.1 s))) s queries).

(** [printUsage] and [printContent]; a [std::map] is read in the order of its keys. *)
Definition usage_line_output (s : ostream) (o : opt) : ostream :=
  let s := puts ", --" (put (bytes_of_string (String.String (o_shortName o) "")) (puts "  -" s)) in
  endl (puts (o_description o) (puts (o_longName o) (setw 25 (left_ s)))).
Definition printUsage (os : options) (s : ostream) : ostream := foldl usage_line_output s (m_options os).

Definition key_le (a b : string * option_result) : Prop := String.leb a.1 b.1 = true.
#[export] Instance key_le_dec a b : Decision (key_le a b).
Proof. unfold key_le. apply _. Defined.
Definition in_order (os : options) : list (string * option_result) := merge_sort key_le (map_to_list (m_args os)).
Definition printContent (os : options) (s : ostream) : ostream :=
  foldl (fun s value =>
    endl (foldl (fun s arg => puts " " (puts arg s)) (puts " ==> " (puts value.1 s)) (r_args value.2)))
    s (in_order os).

(** One line of the usage, for the fill character of the stream. *)
Definition usage_line (fill : Z) (o : opt) : list Z :=
  bytes_of_string "  -" ++ bytes_of_string (String.String (o_shortName o) "") ++ bytes_of_string ", --"
  ++ bytes_of_string (o_longName o) ++ replicate (25 - length (bytes_of_string (o_longName o))) fill
  ++ bytes_of_string (o_description o) ++ [10].

Lemma usage_line_shows s o : o_width s = 0 ->
  o_text (usage_line_output s o) = o_text s ++ usage_line (o_fill s) o /\
  o_width (usage_line_output s o) = 0 /\ o_fill (usage_line_output s o) = o_fill s.
Proof.
  destruct s as [x hx w f l ba fx p]. cbn [o_width]. intros ->. unfold usage_line_output, usage_line, puts, put, padded.
  cbn -[bytes_of_string replicate Nat.sub]. change (Pos.to_nat 25) with 25%nat. rewrite !Nat.sub_0_l. cbn [replicate app].
  destruct l; rewrite ?app_nil_r, <- !app_assoc; done.
Qed.

(** The usage is one line per option, in the order of registration; the names are
    filled up to 25 columns with the fill character of the stream, which
    printUsage does not set. *)
Theorem printUsage_lines os s : o_width s = 0 ->
  o_text (printUsage os s) = o_text s ++ concat (usage_line (o_fill s) <$> m_options os).
Proof.
  unfold printUsage. revert s. induction (m_options os) as [|o l IH]; intros s Hw; cbn [foldl fmap list_fmap concat].
  - by rewrite app_nil_r.
  - destruct (usage_line_shows s o Hw) as (E & W & F). by rewrite IH, E, F, <- app_assoc.
Qed.

(** The entries of a query are printed without anything between them: URLs with
    different queries print alike. *)
Theorem url_output_ambiguous u s : o_width s = 0 ->
  url_output [(bytes_of_string "a", bytes_of_string "b"); (bytes_of_string "c", bytes_of_string "d")] u s =
  url_output [(bytes_of_string "a", bytes_of_string "bc => d")] u s.
Proof.
  intros Hw. unfold url_output, puts. cbn [foldl fst snd].
  repeat match goal with |- context [put ?t ?s0] => lazymatch s0 with context [put] => fail | _ => rewrite (put_plain t s0) by exact Hw end end.
  by rewrite !write_write.
Qed.

(** The content is one line per option found, in the order of the keys. *)
Definition content_line (value : string * option_result) : list Z :=
  bytes_of_string value.1 ++ bytes_of_string " ==> "
  ++ (r_args value.2 ≫= fun arg => bytes_of_string arg ++ bytes_of_string " ") ++ [10].

Lemma args_output l : forall s, o_width s = 0 ->
  let s' := foldl (fun s arg => puts " " (puts arg s)) s l in
  o_text s' = o_text s ++ (l ≫= fun arg => bytes_of_string arg ++ bytes_of_string " ") /\ o_width s' = 0.
Proof.
  induction l as [|arg l IH]; intros s Hw; cbn [foldl mbind list_bind]; [by rewrite app_nil_r|].
  unfold puts in *. rewrite !put_plain by (by rewrite ?put_plain by done).
  destruct (IH (write (write s (bytes_of_string arg)) (bytes_of_string " ")) Hw) as [-> ->].
  split; [|done]. cbn [write o_text]. by rewrite <- !app_assoc.
Qed.

Theorem printContent_lines os s : o_width s = 0 ->
  o_text (printContent os s) = o_text s ++ concat (content_line <$> in_order os) /\
  in_order os ≡ₚ map_to_list (m_args os).
Proof.
  intros Hw. split; [|apply merge_sort_Permutation]. unfold printContent. revert s Hw.
  induction (in_order os) as [|v l IH]; intros s Hw; cbn [foldl fmap list_fmap concat]; [by rewrite app_nil_r|].
  assert (puts " ==> " (puts v.1 s) = write s (bytes_of_string v.1 ++ bytes_of_string " ==> ")) as ->
    by (unfold puts; rewrite (put_plain _ s), put_plain by done; apply write_write).
  destruct (args_output (r_args v.2) (write s (bytes_of_string v.1 ++ bytes_of_string " ==> ")) Hw) as [T W].
  rewrite IH by exact W. cbn [endl write o_text]. rewrite T. cbn [write o_text]. unfold content_line. by rewrite <- !app_assoc.
Qed.
