(* ===== verification/Logger.v ===== *)
(** * Logger: src/fastpath/utils/logger.h and console_colors.h

    The logger: the filter of the [LOG] macro, the prefix with the time of day and
    the two output functions, with and without colours.  The clock, the number of
    the thread and what the terminal is are arguments. *)
From S2P Require Import Prelude Printing.

(** ** console_colors.h *)

Inductive console_color := normal | black | red | green | yellow | blue | magenta | cyan | white.
Inductive console_attr := attr_normal | bright | dim | underline | blink | reverse | hidden.

Definition attr_value (a : console_attr) : Z :=
  match a with attr_normal => 0 | bright => 1 | dim => 2 | underline => 3 | blink => 4 | reverse => 5 | hidden => 6 end.
Definition color_values (c : console_color) : string :=
  match c with
  | normal => ";0m" | black => ";30m" | red => ";31m" | green => ";32m" | yellow => ";33m"
  | blue => ";34m" | magenta => ";35m" | cyan => ";36m" | white => ";37m"
  end.
Definition console_escape : list Z := [27; 91].

(** [setcolor(color, attr)] on a stream; the attribute is an enumerator. *)
Definition setcolor (c : console_color) (a : console_attr) (s : ostream) : ostream :=
  puts (color_values c) (put_int 32 (attr_value a) (put console_escape s)).

(** [supported_output_device()]: whether standard output is a terminal, and [TERM]. *)
Definition terminals : list string :=
  ["xterm"; "xterm-color"; "xterm-256color"; "screen"; "screen-256color"; "linux"; "cygwin"]%string.
Definition supported_output_device (isatty : bool) (term : option string) : bool :=
  isatty && match term with Some t => bool_decide (t ∈ terminals) | None => false end.

(** ** logger.h *)

Inductive level := error | warning | info | debug | trace.
Definition level_value (l : level) : Z :=
  match l with error => 0 | warning => 1 | info => 2 | debug => 3 | trace => 4 end.
Definition description (l : level) : string :=
  match l with error => "E" | warning => "W" | info => "I" | debug => "D" | trace => "T" end.
Definition colors (l : level) : console_color * console_attr :=
  match l with
  | error => (red, bright) | warning => (yellow, attr_normal) | info => (white, attr_normal)
  | debug => (white, dim) | trace => (red, dim)
  end.

Record logger := mkLogger {
  logLevel : level;
  m_supports_colors : bool;
  m_outputfn : bool;              (* whether the function with colours is set *)
  m_log_thread_id : bool;
  m_output_stream : ostream
}.

(** The constructor, with the zero of static storage for the level. *)
Definition logger_new (supports_colors : bool) (out : ostream) : logger :=
  mkLogger error supports_colors supports_colors false out.
Definition use_colors (value : bool) (l : logger) : logger :=
  mkLogger (logLevel l) (m_supports_colors l) (value && m_supports_colors l) (m_log_thread_id l) (m_output_stream l).
Definition log_thread_id (value : bool) (l : logger) : logger :=
  mkLogger (logLevel l) (m_supports_colors l) (m_outputfn l) value (m_output_stream l).
Definition LOG_LEVEL (lv : level) (l : logger) : logger :=
  mkLogger lv (m_supports_colors l) (m_outputfn l) (m_log_thread_id l) (m_output_stream l).
Definition on_stream (l : logger) (s : ostream) : logger :=
  mkLogger (logLevel l) (m_supports_colors l) (m_outputfn l) (m_log_thread_id l) s.

(** The two functions of [use_colors]; [thread] is the number of the thread. *)
Definition color_output (thread : bool) (tid : list Z) (lv : level) (prefix msg : list Z) (s : ostream) : ostream :=
  let s := setcolor yellow attr_normal (puts (description lv) s) in
  let s := put prefix s in
  let s := if thread then puts ": " (put tid (setcolor green attr_normal s)) else s in
  let s := put msg (setcolor (colors lv).1 (colors lv).2 s) in
  endl (setcolor normal attr_normal s).
Definition plain_output (thread : bool) (tid : list Z) (lv : level) (prefix msg : list Z) (s : ostream) : ostream :=
  let s := put prefix (puts (description lv) s) in
  let s := if thread then puts ": " (put tid s) else s in
  endl (put msg s).

(** The time of day: hours, minutes and seconds of [localtime], and the
    microseconds of the clock. *)
Record clock := mkClock { hours : Z; minutes : Z; seconds_ : Z; usec : Z }.
Definition two_digits (v : Z) : list Z := [digit (v / 10); digit (v mod 10)].
(** [%06lli]: at least six characters, the sign included, filled with zeros. *)
Definition six_digits (v : Z) : list Z :=
  let d := digits 10 (Z.abs v) in
  if v <? 0 then 45 :: replicate (5 - length d) 48 ++ d else replicate (6 - length d) 48 ++ d.
Definition mbstr (c : clock) : list Z :=
  two_digits (hours c) ++ bytes_of_string ":" ++ two_digits (minutes c) ++ bytes_of_string ":" ++ two_digits (seconds_ c).
(** [sprintf] into [char prefix[25]]. *)
Definition prefix_size : nat := 25.
Definition log_prefix (c : clock) : outcome (list Z) :=
  let t := bytes_of_string ": [" ++ mbstr c ++ bytes_of_string "." ++ six_digits (usec c) ++ bytes_of_string "] " in
  if (length t <? prefix_size)%nat then Ok t else undefined OutOfBounds.

(** [log(level, msg)] *)
Definition log (c : clock) (tid : list Z) (lv : level) (msg : list Z) (l : logger) : outcome logger :=
  prefix ← log_prefix c;
  Ok (on_stream l ((if m_outputfn l then color_output else plain_output) (m_log_thread_id l) tid lv prefix msg (m_output_stream l))).

(** The macro [LOG(level, msg)]: [msg] is what is inserted into a new string
    stream. *)
Definition LOG (c : clock) (tid : list Z) (lv : level) (msg : ostream -> outcome ostream) (l : logger) : outcome logger :=
  if level_value lv <=? level_value (logLevel l) then
    mess ← msg cout;
    log c tid lv (o_text mess) l
  else Ok l.

(** ** The prefix *)

(** A time of day. *)
Record clock_ok (c : clock) : Prop := {
  ck_hours : 0 <= hours c < 24; ck_minutes : 0 <= minutes c < 60; ck_seconds : 0 <= seconds_ c <= 60;
  ck_usec : -1000000 < usec c < 1000000
}.

Lemma digits_length n : forall v, 0 <= v < 10 ^ Z.of_nat n -> (1 <= n)%nat -> (1 <= length (digits 10 v) <= n)%nat.
Proof.
  assert (forall fuel v acc m, 0 <= v < 10 ^ Z.of_nat m -> (1 <= m)%nat ->
    (length (digits_loop fuel 10 v acc) <= m + length acc)%nat) as L.
  { induction fuel as [|fuel IH]; intros v acc m Hv Hm; cbn [digits_loop]; [lia|].
    destruct (Z.ltb_spec v 10); [cbn; lia|]. destruct m as [|m]; [lia|].
    rewrite Nat2Z.inj_succ, Z.pow_succ_r in Hv by lia. destruct m as [|m]; [change (10 ^ Z.of_nat 0) with 1 in Hv; lia|].
    etrans; [apply (IH _ _ (S m)); [split; [apply Z.div_pos; lia|apply Z.div_lt_upper_bound; lia]|lia]|]. cbn [length]. lia. }
  intros v Hv Hn. split.
  - destruct (digits_graphic 10 v ltac:(lia) ltac:(lia)) as [_ Hne]. destruct (digits 10 v); [done|cbn; lia].
  - unfold digits. etrans; [by apply (L _ v [] n)|]. cbn. lia.
Qed.

(** The prefix fits its array at every time of day, also before 1970, when the
    remainder of the microseconds is negative. *)
Theorem log_prefix_fits c : clock_ok c -> exists p, log_prefix c = Ok p /\ (20 <= length p <= 21)%nat.
Proof.
  intros [_ _ _ Hu]. unfold log_prefix.
  set (t := _ ++ mbstr c ++ _).
  assert (length t = 14 + length (six_digits (usec c)))%nat as Hl
    by (unfold t, mbstr, two_digits; generalize (six_digits (usec c)); intros l; rewrite !length_app; cbn [length]; cbn; lia).
  assert (6 <= length (six_digits (usec c)) <= 7)%nat as H6.
  { pose proof (digits_length 6 (Z.abs (usec c)) ltac:(cbn; lia) ltac:(lia)) as Hd. unfold six_digits.
    destruct (usec c <? 0); cbn [length]; rewrite length_app, length_replicate; lia. }
  exists t. rewrite (proj2 (Nat.ltb_lt _ _)) by (unfold prefix_size; lia). split; [done|lia].
Qed.

(** ** The line of a message *)

(** Text without the escape sequences: from the escape character to the letter
    that ends the sequence. *)
Fixpoint strip (inside : bool) (t : list Z) : list Z :=
  match t with
  | [] => []
  | c :: t =>
      if inside then strip (negb (c =? 109)) t
      else if c =? 27 then strip true t else c :: strip false t
  end.
Definition no_escape (t : list Z) : Prop := Forall (fun c => c <> 27) t.

Lemma strip_app t rest : no_escape t -> strip false (t ++ rest) = t ++ strip false rest.
Proof. induction 1 as [|c t Hc _ IH]; [done|]. cbn [app strip]. rewrite (proj2 (Z.eqb_neq _ _)) by done. by rewrite IH. Qed.

(** [f] adds a text that reads [t] without its escape sequences. *)
Record adds (s s' : ostream) (t : list Z) : Prop := {
  ad_width : o_width s' = 0;
  ad_fill : o_fill s' = o_fill s;
  ad_text : exists t', o_text s' = o_text s ++ t' /\ forall rest, strip false (t' ++ rest) = t ++ strip false rest
}.

Lemma adds_nil s : o_width s = 0 -> adds s s [].
Proof. intros Hw. split; [done|done|]. exists []. by rewrite app_nil_r. Qed.

Lemma adds_app s1 s2 s3 t1 t2 : adds s1 s2 t1 -> adds s2 s3 t2 -> adds s1 s3 (t1 ++ t2).
Proof.
  intros [_ F1 (u1 & E1 & S1)] [W F2 (u2 & E2 & S2)]. split; [done|congruence|]. exists (u1 ++ u2). split; [by rewrite E2, E1, app_assoc|].
  intros rest. by rewrite <- !app_assoc, S1, S2.
Qed.

Lemma adds_put s t : o_width s = 0 -> no_escape t -> adds s (put t s) t.
Proof. intros Hw Ht. rewrite put_plain by done. split; [done|done|]. exists t. split; [done|]. intros rest. by apply strip_app. Qed.

Lemma adds_endl s : o_width s = 0 -> adds s (endl s) [10].
Proof. intros Hw. split; [done|done|]. by exists [10]. Qed.

Lemma adds_setcolor c a s : o_width s = 0 -> adds s (setcolor c a s) [].
Proof.
  intros Hw. unfold setcolor, put_int, puts. rewrite !put_plain by (by rewrite ?put_plain by done). split; [done|done|].
  exists (console_escape ++ [48 + attr_value a] ++ bytes_of_string (color_values c)). split.
  - cbn [write o_text o_hex]. rewrite <- !app_assoc. do 3 f_equal. by destruct (o_hex s), a.
  - intros rest. by destruct a, c.
Qed.

Lemma digit_no_escape d : 0 <= d < 16 -> digit d <> 27.
Proof. intros Hd. pose proof (digit_graphic d Hd) as G. unfold graphic in G. lia. Qed.

Lemma two_digits_no_escape v : 0 <= v < 100 -> no_escape (two_digits v).
Proof.
  intros Hv. repeat constructor; apply digit_no_escape; [split; [apply Z.div_pos; lia|apply Z.div_lt_upper_bound; lia]|].
  pose proof (Z.mod_pos_bound v 10). lia.
Qed.

Lemma six_digits_no_escape v : no_escape (six_digits v).
Proof.
  destruct (digits_graphic 10 (Z.abs v) ltac:(lia) ltac:(lia)) as [G _].
  assert (no_escape (digits 10 (Z.abs v))) as N by (eapply Forall_impl; [exact G|]; unfold graphic; cbn; lia).
  unfold six_digits, no_escape. destruct (v <? 0); [apply Forall_cons; split; [lia|]|]; by apply Forall_app; split; [apply Forall_replicate|].
Qed.

Lemma log_prefix_no_escape c p : clock_ok c -> log_prefix c = Ok p -> no_escape p.
Proof.
  intros [Hh Hm Hs _]. unfold log_prefix. cbv zeta. destruct (_ <? prefix_size)%nat; [|done].
  intros E. assert (forall a b : list Z, Ok a = Ok b -> a = b) as I by (by intros ?? [=]).
  apply I in E as <-. unfold no_escape, mbstr. rewrite !Forall_app. repeat split; try apply two_digits_no_escape; try lia; try apply six_digits_no_escape; by repeat constructor.
Qed.

(** The line of a message, as a reader sees it. *)
Definition shown_line (l : logger) (tid : list Z) (lv : level) (prefix msg : list Z) : list Z :=
  bytes_of_string (description lv) ++ prefix ++
  (if m_log_thread_id l then tid ++ bytes_of_string ": " else []) ++ msg ++ [10].

Lemma description_no_escape lv : no_escape (bytes_of_string (description lv)).
Proof. destruct lv; by repeat constructor. Qed.

Lemma adds_then_put s1 s2 t t' : adds s1 s2 t -> no_escape t' -> adds s1 (put t' s2) (t ++ t').
Proof. intros A Ht. eapply adds_app; [exact A|]. apply adds_put; [apply A|done]. Qed.

Lemma adds_then_endl s1 s2 t : adds s1 s2 t -> adds s1 (endl s2) (t ++ [10]).
Proof. intros A. eapply adds_app; [exact A|]. apply adds_endl, A. Qed.

Lemma adds_then_setcolor s1 s2 t c a : adds s1 s2 t -> adds s1 (setcolor c a s2) t.
Proof. intros A. rewrite <- (app_nil_r t). eapply adds_app; [exact A|]. apply adds_setcolor, A. Qed.

Lemma output_adds (l : logger) tid lv prefix msg s :
  o_width s = 0 -> no_escape prefix -> no_escape tid -> no_escape msg ->
  adds s ((if m_outputfn l then color_output else plain_output) (m_log_thread_id l) tid lv prefix msg s) (shown_line l tid lv prefix msg).
Proof.
  intros Hw Hp Ht Hm. unfold shown_line, puts.
  assert (no_escape (bytes_of_string ": ")) as Hc by (by repeat constructor).
  pose proof (description_no_escape lv) as Hd.
  destruct (m_outputfn l), (m_log_thread_id l); unfold color_output, plain_output, puts; rewrite ?app_assoc, ?app_nil_r;
    repeat lazymatch goal with
    | |- adds _ (endl _) _ => apply adds_then_endl
    | |- adds _ (setcolor _ _ _) _ => apply adds_then_setcolor
    | |- adds ?s (put _ ?s) _ => apply adds_put
    | |- adds _ (put _ _) _ => apply adds_then_put
    | H : no_escape ?t |- no_escape ?t => exact H
    end; done.
Qed.

(** What [log] leaves. *)
Lemma log_spec c tid lv msg l : clock_ok c -> o_width (m_output_stream l) = 0 -> no_escape tid -> no_escape msg ->
  exists prefix l' line, log_prefix c = Ok prefix /\ log c tid lv msg l = Ok l' /\ l' = on_stream l (m_output_stream l') /\
    o_width (m_output_stream l') = 0 /\ o_fill (m_output_stream l') = o_fill (m_output_stream l) /\
    o_text (m_output_stream l') = o_text (m_output_stream l) ++ line /\
    strip false line = shown_line l tid lv prefix msg.
Proof.
  intros Hc Hw Ht Hm. destruct (log_prefix_fits c Hc) as (prefix & Hp & _). unfold log. rewrite Hp. run_bind.
  destruct (output_adds l tid lv prefix msg (m_output_stream l) Hw (log_prefix_no_escape c prefix Hc Hp) Ht Hm) as [W F (line & E & S)].
  exists prefix. eexists _, line. do 6 (split; [done|]). specialize (S []). by rewrite !app_nil_r in S.
Qed.

(** What a log statement writes.  At every time of day the statement of a
    level that the logger has enabled writes exactly one line, and the line reads
    the same with and without colours: the letter of the level, the time, the
    number of the thread when it is asked for, and the message.  A statement of
    another level writes nothing, and does not evaluate its message. *)
Theorem log_line c tid lv msg mess l :
  clock_ok c -> o_width (m_output_stream l) = 0 -> no_escape tid ->
  msg cout = Ok mess -> no_escape (o_text mess) ->
  exists prefix, log_prefix c = Ok prefix /\
    (level_value lv <= level_value (logLevel l) ->
      exists l' line, LOG c tid lv msg l = Ok l' /\
        o_text (m_output_stream l') = o_text (m_output_stream l) ++ line /\
        strip false line = shown_line l tid lv prefix (o_text mess)) /\
    (level_value (logLevel l) < level_value lv -> forall msg', LOG c tid lv msg' l = Ok l).
Proof.
  intros Hc Hw Ht Hm He. destruct (log_spec c tid lv (o_text mess) l Hc Hw Ht He) as (prefix & l' & line & Hp & E & _ & _ & _ & T & S).
  exists prefix. split; [done|]. unfold LOG. split.
  - intros Hl. rewrite (proj2 (Z.leb_le _ _)) by done. rewrite Hm. by exists l', line.
  - intros Hl msg'. by rewrite (proj2 (Z.leb_gt _ _)) by done.
Qed.

Definition morning : clock := mkClock 7 5 9 42.
Definition a_logger (colours : bool) : logger := log_thread_id true (LOG_LEVEL info (logger_new colours cout)).
Lemma log_line_witness : exists l' line, LOG morning [49] warning (fun s => Ok (puts "hello" s)) (a_logger true) = Ok l' /\
  o_text (m_output_stream l') = [] ++ line /\
  strip false line = bytes_of_string "W: [07:05:09.000042] 1: hello" ++ [10].
Proof.
  destruct (log_line morning [49] warning (fun s => Ok (puts "hello" s)) (puts "hello" cout) (a_logger true)) as (prefix & Hp & H & _).
  - by split.
  - done.
  - by repeat constructor.
  - done.
  - by repeat constructor.
  - vm_compute in Hp. injection Hp as <-. destruct (H ltac:(cbn; lia)) as (l' & line & E & T & S). by exists l', line.
Defined.

Example plain_line : o_text (m_output_stream (default (a_logger false)
    (match LOG morning [49] error (fun s => Ok (puts "x" s)) (a_logger false) with Ok l => Some l | _ => None end)))
  = bytes_of_string "E: [07:05:09.000042] 1: x" ++ [10].
Proof. reflexivity. Qed.
