(* ===== verification/RingBuffer.v ===== *)
(** * RingBuffer: src/fastpath/utils/tfringbuffer.h

    The single-producer single-consumer ring buffer, first as sequential
    operations that refine a bounded FIFO queue, then as the interleaving of a
    producer and a consumer thread in steps of one access to shared memory
    each.  [m_head] is written by the producer only and [m_tail] by the
    consumer only, with release stores that the other side's acquire loads
    observe, so the interleavings of these steps are the behaviours of the
    code.  A slot without a live object is [None]. *)
From S2P Require Import Prelude.

(** ** The interface: a bounded FIFO queue *)

(** What the queues of the program promise: a state stands for a list of
    elements; a push appends unless the queue is full, a pop takes the first
    element unless it is empty. *)
Class BoundedFifo (St T : Type) (capacity : nat)
    (push : St -> T -> bool * St) (pop : St -> outcome (option T * St)) := {
  fifo_rep : St -> list T -> Prop;
  fifo_bound s q : fifo_rep s q -> (length q <= capacity)%nat;
  fifo_push s q x : fifo_rep s q ->
    if decide (length q = capacity) then push s x = (false, s)
    else exists s', push s x = (true, s') /\ fifo_rep s' (q ++ [x]);
  fifo_pop s q : fifo_rep s q ->
    match q with
    | [] => pop s = Ok (None, s)
    | x :: q => exists s', pop s = Ok (Some x, s') /\ fifo_rep s' q
    end
}.

(** A client's view of any such queue: push a list, then pop as many. *)
Section client.
Context {St T : Type} {capacity : nat} {push : St -> T -> bool * St}
  {pop : St -> outcome (option T * St)} `{!BoundedFifo St T capacity push pop}.

Fixpoint push_all (s : St) (l : list T) : St :=
  match l with [] => s | x :: l => push_all (push s x).2 l end.

Fixpoint pop_n (n : nat) (s : St) : outcome (list T * St) :=
  match n with
  | O => Ok ([], s)
  | S n =>
      '(o, s) ← pop s;
      '(l, s) ← pop_n n s;
      Ok (match o with Some x => x :: l | None => l end, s)
  end.

Lemma push_all_rep l : forall s q,
  fifo_rep s q -> (length q + length l <= capacity)%nat -> fifo_rep (push_all s l) (q ++ l).
Proof.
  induction l as [|x l IH]; intros s q R Hl; [by rewrite app_nil_r|]. cbn [length] in Hl. simpl.
  pose proof (fifo_push _ _ x R) as Hp. rewrite decide_False in Hp by lia.
  destruct Hp as (s' & -> & R'). rewrite (app_assoc q [x] l : q ++ x :: l = _).
  apply IH; [done|]. rewrite length_app. simpl. lia.
Qed.

Lemma pop_n_rep n : forall s q,
  fifo_rep s q -> (n <= length q)%nat ->
  exists s', pop_n n s = Ok (take n q, s') /\ fifo_rep s' (drop n q).
Proof.
  induction n as [|n IH]; intros s q R Hn; [by exists s|].
  destruct q as [|x q]; [simpl in Hn; lia|]. destruct (fifo_pop _ _ R) as (s1 & E & R1).
  destruct (IH s1 q R1) as (s2 & E2 & R2); [simpl in Hn; lia|].
  exists s2. simpl. by rewrite E; cbn; rewrite E2.
Qed.
End client.

(** ** tfringbuffer.h *)

Record ringbuffer (T : Type) := mkRing {
  rb_buffer : list (option T); rb_head : nat; rb_tail : nat
}.
Arguments mkRing {T} _ _ _.
Arguments rb_buffer {T} _.
Arguments rb_head {T} _.
Arguments rb_tail {T} _.

Section ring.
Context {T : Type} (SIZE : nat).

Definition next (current : nat) : nat := (current + 1) mod SIZE.

Definition ring_new : ringbuffer T := mkRing (replicate SIZE None) 0 0.

(** [push(T &&)]: constructs the object in the slot. *)
Definition ring_push (s : ringbuffer T) (object : T) : bool * ringbuffer T :=
  let head := rb_head s in
  let nextHead := next head in
  if (nextHead =? rb_tail s)%nat then (false, s)
  else (true, mkRing (<[head := Some object]> (rb_buffer s)) nextHead (rb_tail s)).

(** [push(const T &)]: assigns to the slot, which holds no object unless [T]
    is a type whose lifetime starts with its storage. *)
Definition ring_push_copy (implicit_lifetime : bool) (s : ringbuffer T) (object : T)
    : outcome (bool * ringbuffer T) :=
  let head := rb_head s in
  let nextHead := next head in
  if (nextHead =? rb_tail s)%nat then Ok (false, s)
  else
    match rb_buffer s !! head with
    | Some (Some _) =>
        Ok (true, mkRing (<[head := Some object]> (rb_buffer s)) nextHead (rb_tail s))
    | _ =>
        if implicit_lifetime
        then Ok (true, mkRing (<[head := Some object]> (rb_buffer s)) nextHead (rb_tail s))
        else undefined IndeterminateRead
    end.

(** [pop(T &)]: [Some object] is the return value [true]. *)
Definition ring_pop (s : ringbuffer T) : outcome (option T * ringbuffer T) :=
  let tail := rb_tail s in
  if (tail =? rb_head s)%nat then Ok (None, s)
  else
    match rb_buffer s !! tail with
    | Some (Some object) =>
        Ok (Some object, mkRing (<[tail := None]> (rb_buffer s)) (rb_head s) (next tail))
    | _ => undefined IndeterminateRead
    end.

Definition ring_size (s : ringbuffer T) : nat :=
  if (rb_tail s <=? rb_head s)%nat then rb_head s - rb_tail s
  else rb_head s + SIZE - rb_tail s.

(** ** The ring stands for a list *)

(** The slot of the [n]-th element ever pushed. *)
Definition slot (n : nat) : nat := n mod SIZE.

(** [h] elements were pushed and [t] popped; the live ones are [q]. *)
Record ring_at (s : ringbuffer T) (h t : nat) (q : list T) : Prop := {
  ra_length : length (rb_buffer s) = SIZE;
  ra_head : rb_head s = slot h;
  ra_tail : rb_tail s = slot t;
  ra_count : h = (t + length q)%nat;
  ra_room : (length q < SIZE)%nat;
  ra_cells : forall i x, q !! i = Some x -> rb_buffer s !! slot (t + i) = Some (Some x)
}.

Definition ring_rep (s : ringbuffer T) (q : list T) : Prop := exists h t, ring_at s h t q.

Lemma slot_lt n : (0 < SIZE)%nat -> (slot n < SIZE)%nat.
Proof. intros. apply Nat.mod_upper_bound. lia. Qed.

Lemma next_slot n : (0 < SIZE)%nat -> next (slot n) = slot (S n).
Proof.
  intros. unfold next, slot. rewrite Nat.Div0.add_mod_idemp_l. f_equal. lia.
Qed.

(** Two elements less than [SIZE] apart are in different slots. *)
Lemma slot_inj a b : (a <= b < a + SIZE)%nat -> slot a = slot b -> a = b.
Proof.
  intros Hab E. unfold slot in E.
  pose proof (Nat.div_mod_eq a SIZE). pose proof (Nat.div_mod_eq b SIZE).
  assert (a / SIZE = b / SIZE)%nat; [|nia].
  assert (a / SIZE <= b / SIZE)%nat by (apply Nat.Div0.div_le_mono; lia). nia.
Qed.

Lemma slot_add_size n : slot (n + SIZE) = slot n.
Proof. unfold slot. rewrite <- (Nat.mul_1_l SIZE) at 1. apply Nat.Div0.mod_add. Qed.

Lemma ring_new_rep : (0 < SIZE)%nat -> ring_rep ring_new [].
Proof.
  intros. exists 0%nat, 0%nat. split; simpl; try done; [apply length_replicate|..].
  - symmetry. by apply Nat.mod_small.
  - symmetry. by apply Nat.mod_small.
Qed.

Lemma ring_push_at s h t q x :
  ring_at s h t q ->
  if decide (length q = SIZE - 1)%nat then ring_push s x = (false, s)
  else exists s', ring_push s x = (true, s') /\ ring_at s' (S h) t (q ++ [x]).
Proof.
  intros [Hl Hh Ht Hc Hr Hcells]. unfold ring_push. rewrite Hh, Ht, next_slot by lia.
  case_decide as Hfull.
  - subst h. replace (S (t + length q)) with (t + SIZE)%nat by lia.
    by rewrite slot_add_size, Nat.eqb_refl.
  - destruct (Nat.eqb_spec (slot (S h)) (slot t)) as [E|_].
    { symmetry in E. apply slot_inj in E; lia. }
    eexists. split; [done|]. split; cbn [rb_buffer rb_head rb_tail].
    + by rewrite length_insert.
    + done.
    + done.
    + rewrite length_app. simpl. lia.
    + rewrite length_app. simpl. lia.
    + intros i y Hi. destruct (decide (i < length q)%nat) as [Hlt|Hge].
      * rewrite lookup_app_l in Hi by done. rewrite list_lookup_insert_ne; [by apply Hcells|].
        intros E. symmetry in E. apply slot_inj in E; lia.
      * rewrite lookup_app_r in Hi by lia. apply list_lookup_singleton_Some in Hi as [Hi ->].
        replace (t + i)%nat with h by lia. apply list_lookup_insert_eq.
        rewrite Hl. apply slot_lt. lia.
Qed.

Lemma ring_pop_at s h t q :
  ring_at s h t q ->
  match q with
  | [] => ring_pop s = Ok (None, s)
  | x :: q => exists s', ring_pop s = Ok (Some x, s') /\ ring_at s' h (S t) q
  end.
Proof.
  intros [Hl Hh Ht Hc Hr Hcells]. unfold ring_pop. rewrite Hh, Ht. destruct q as [|x q].
  - cbn in Hc. rewrite Nat.add_0_r in Hc. by rewrite Hc, Nat.eqb_refl.
  - cbn [length] in *. destruct (Nat.eqb_spec (slot t) (slot h)) as [E|_].
    { apply slot_inj in E; lia. }
    pose proof (Hcells 0%nat x eq_refl) as H0. rewrite Nat.add_0_r in H0. rewrite H0.
    eexists. split; [done|]. split; cbn [rb_buffer rb_head rb_tail].
    + by rewrite length_insert.
    + done.
    + apply next_slot. lia.
    + lia.
    + lia.
    + intros i y Hi. pose proof (lookup_lt_Some _ _ _ Hi).
      replace (S t + i)%nat with (t + S i)%nat by lia. rewrite list_lookup_insert_ne.
      * by apply (Hcells (S i)).
      * intros E. apply slot_inj in E; lia.
Qed.

(** The ring buffer implements the interface, with one slot kept free. *)
#[export] Instance ring_fifo : BoundedFifo (ringbuffer T) T (SIZE - 1) ring_push ring_pop.
Proof.
  refine {| fifo_rep := ring_rep |}.
  - intros s q (h & t & R). pose proof (ra_room _ _ _ _ R). lia.
  - intros s q x (h & t & R). pose proof (ring_push_at _ _ _ _ x R) as Hp.
    case_decide; [done|]. destruct Hp as (s' & E & R'). exists s'. split; [done|]. by exists (S h), t.
  - intros s q (h & t & R). pose proof (ring_pop_at _ _ _ _ R) as Hp. destruct q; [done|].
    destruct Hp as (s' & E & R'). exists s'. split; [done|]. by exists h, (S t).
Defined.

(** From an empty ring buffer, pushing up to [SIZE - 1] elements and popping
    [n] of them returns the first [n] in order and leaves the others. *)
Theorem ring_fifo_order l n :
  (0 < SIZE)%nat -> (length l <= SIZE - 1)%nat -> (n <= length l)%nat ->
  exists s', pop_n (pop := ring_pop) n (push_all (push := ring_push) ring_new l) = Ok (take n l, s') /\
    ring_rep s' (drop n l).
Proof.
  intros HS Hl Hn. apply (pop_n_rep (BoundedFifo0 := ring_fifo) n _ l); [|done].
  apply (push_all_rep (BoundedFifo0 := ring_fifo) l ring_new []); [by apply ring_new_rep|simpl; lia].
Qed.

(** [size()] is the number of elements, at every fill level and every
    position of the cursors. *)
Theorem ring_size_length s q : ring_rep s q -> ring_size s = length q.
Proof.
  intros (h & t & [Hl Hh Ht Hc Hr _]). unfold ring_size. rewrite Hh, Ht, Hc. unfold slot.
  pose proof (Nat.div_mod_eq t SIZE). pose proof (Nat.mod_upper_bound t SIZE ltac:(lia)).
  rewrite Nat.Div0.add_mod, (Nat.mod_small (length q)) by lia.
  destruct (decide (t mod SIZE + length q < SIZE)%nat).
  - rewrite (Nat.mod_small (_ + _)) by lia. destruct (Nat.leb_spec (t mod SIZE) (t mod SIZE + length q)); lia.
  - assert ((t mod SIZE + length q) mod SIZE = t mod SIZE + length q - SIZE)%nat as ->.
    { symmetry. apply Nat.mod_unique with 1%nat; lia. }
    destruct (Nat.leb_spec (t mod SIZE) (t mod SIZE + length q - SIZE)); lia.
Qed.
End ring.

(** ** One producer and one consumer *)

Module Spsc.

(** Where the producer is inside [push(T &&)]. *)
Inductive prod_pc (T : Type) :=
  | PIdle
  | PLoaded (x : T) (head : nat)      (* m_head was loaded *)
  | PChecked (x : T) (head : nat)     (* the test against m_tail has passed *)
  | PWritten (x : T) (head : nat).    (* the slot is constructed *)
Arguments PIdle {T}.
Arguments PLoaded {T} _ _.
Arguments PChecked {T} _ _.
Arguments PWritten {T} _ _.

(** Where the consumer is inside [pop]. *)
Inductive cons_pc (T : Type) :=
  | CIdle
  | CLoaded (tail : nat)              (* m_tail was loaded *)
  | CChecked (tail : nat)             (* the test against m_head has passed *)
  | CMoved (v : T) (tail : nat)       (* the object was moved out *)
  | CDestroyed (v : T) (tail : nat).  (* ... and destroyed *)
Arguments CIdle {T}.
Arguments CLoaded {T} _.
Arguments CChecked {T} _.
Arguments CMoved {T} _ _.
Arguments CDestroyed {T} _ _.

(** [pushed] and [popped] record the calls that returned [true]. *)
Record sys (T : Type) := mkSys {
  ring : ringbuffer T; prod : prod_pc T; cons : cons_pc T;
  pushed : list T; popped : list T
}.
Arguments mkSys {T} _ _ _ _ _.
Arguments ring {T} _.
Arguments prod {T} _.
Arguments cons {T} _.
Arguments pushed {T} _.
Arguments popped {T} _.

Section spsc.
Context {T : Type} (SIZE : nat).

Definition set_buffer (r : ringbuffer T) (b : list (option T)) := mkRing b (rb_head r) (rb_tail r).
Definition set_head (r : ringbuffer T) (h : nat) := mkRing (rb_buffer r) h (rb_tail r).
Definition set_tail (r : ringbuffer T) (t : nat) := mkRing (rb_buffer r) (rb_head r) t.

Inductive step : sys T -> sys T -> Prop :=
  | p_load r c us os x :
      step (mkSys r PIdle c us os) (mkSys r (PLoaded x (rb_head r)) c us os)
  | p_full r c us os x h : next SIZE h = rb_tail r ->
      step (mkSys r (PLoaded x h) c us os) (mkSys r PIdle c us os)
  | p_check r c us os x h : next SIZE h <> rb_tail r ->
      step (mkSys r (PLoaded x h) c us os) (mkSys r (PChecked x h) c us os)
  | p_write r c us os x h :
      step (mkSys r (PChecked x h) c us os)
           (mkSys (set_buffer r (<[h := Some x]> (rb_buffer r))) (PWritten x h) c us os)
  | p_publish r c us os x h :
      step (mkSys r (PWritten x h) c us os)
           (mkSys (set_head r (next SIZE h)) PIdle c (us ++ [x]) os)
  | c_load r p us os :
      step (mkSys r p CIdle us os) (mkSys r p (CLoaded (rb_tail r)) us os)
  | c_empty r p us os t : t = rb_head r ->
      step (mkSys r p (CLoaded t) us os) (mkSys r p CIdle us os)
  | c_check r p us os t : t <> rb_head r ->
      step (mkSys r p (CLoaded t) us os) (mkSys r p (CChecked t) us os)
  | c_move r p us os t v : rb_buffer r !! t = Some (Some v) ->
      step (mkSys r p (CChecked t) us os) (mkSys r p (CMoved v t) us os)
  | c_destroy r p us os t v :
      step (mkSys r p (CMoved v t) us os)
           (mkSys (set_buffer r (<[t := None]> (rb_buffer r))) p (CDestroyed v t) us os)
  | c_publish r p us os t v :
      step (mkSys r p (CDestroyed v t) us os)
           (mkSys (set_tail r (next SIZE t)) p CIdle us (os ++ [v])).

Definition init : sys T := mkSys (ring_new SIZE) PIdle CIdle [] [].
Definition reachable (s : sys T) : Prop := rtc step init s.

(** What each thread knows where it is. *)
Definition prod_knows (r : ringbuffer T) (nu no : nat) (p : prod_pc T) : Prop :=
  match p with
  | PIdle => True
  | PLoaded _ h => h = rb_head r
  | PChecked _ h => h = rb_head r /\ (nu + 1 < no + SIZE)%nat
  | PWritten x h => h = rb_head r /\ (nu + 1 < no + SIZE)%nat /\ rb_buffer r !! h = Some (Some x)
  end.

Definition cons_knows (r : ringbuffer T) (us : list T) (no : nat) (c : cons_pc T) : Prop :=
  match c with
  | CIdle => True
  | CLoaded t => t = rb_tail r
  | CChecked t => t = rb_tail r /\ (no < length us)%nat
  | CMoved v t | CDestroyed v t => t = rb_tail r /\ us !! no = Some v
  end.

Definition is_destroyed (c : cons_pc T) : bool :=
  match c with CDestroyed _ _ => true | _ => false end.

Record inv (s : sys T) : Prop := {
  inv_length : length (rb_buffer (ring s)) = SIZE;
  inv_head : rb_head (ring s) = slot SIZE (length (pushed s));
  inv_tail : rb_tail (ring s) = slot SIZE (length (popped s));
  inv_prefix : popped s = take (length (popped s)) (pushed s);
  inv_room : (length (popped s) <= length (pushed s) < length (popped s) + SIZE)%nat;
  inv_cells : forall i x, (length (popped s) <= i)%nat -> pushed s !! i = Some x ->
    (i = length (popped s) -> is_destroyed (cons s) = false) ->
    rb_buffer (ring s) !! slot SIZE i = Some (Some x);
  inv_prod : prod_knows (ring s) (length (pushed s)) (length (popped s)) (prod s);
  inv_cons : cons_knows (ring s) (pushed s) (length (popped s)) (cons s)
}.

Lemma spsc_inv_init : (0 < SIZE)%nat -> inv init.
Proof.
  intros HS. split; simpl; try done.
  - apply length_replicate.
  - symmetry. by apply Nat.mod_small.
  - symmetry. by apply Nat.mod_small.
Qed.

(** The steps of the producer. *)
Lemma inv_p_check r c us os x h :
  inv (mkSys r (PLoaded x h) c us os) -> next SIZE h <> rb_tail r ->
  inv (mkSys r (PChecked x h) c us os).
Proof.
  intros [Hl Hh Ht Hp Hr Hc Kp Kc] Hne. split; cbn in *; try done. split; [done|].
  subst h. rewrite Hh, Ht, next_slot in Hne by lia.
  destruct (decide (length us + 1 < length os + SIZE)%nat) as [|Hge]; [done|]. destruct Hne.
  rewrite <- (slot_add_size SIZE (length os)). f_equal. lia.
Qed.

Lemma inv_p_write r c us os x h :
  inv (mkSys r (PChecked x h) c us os) ->
  inv (mkSys (set_buffer r (<[h := Some x]> (rb_buffer r))) (PWritten x h) c us os).
Proof.
  intros [Hl Hh Ht Hp Hr Hc [Kp Kr] Kc]. cbn in *. subst h. split; cbn in *; try done.
  - by rewrite length_insert.
  - intros i y Hi Hy Hd. rewrite list_lookup_insert_ne; [by apply Hc|]. rewrite Hh.
    intros E. pose proof (lookup_lt_Some _ _ _ Hy). symmetry in E. apply slot_inj in E; lia.
  - split; [done|]. split; [done|]. apply list_lookup_insert_eq. rewrite Hl, Hh. apply slot_lt. lia.
Qed.

Lemma inv_p_publish r c us os x h :
  inv (mkSys r (PWritten x h) c us os) ->
  inv (mkSys (set_head r (next SIZE h)) PIdle c (us ++ [x]) os).
Proof.
  intros [Hl Hh Ht Hp Hr Hc (Kp & Kr & Kx) Kc]. cbn in *. subst h. cbn in *.
  split; cbn; rewrite ?length_app; cbn [length]; try done.
  - rewrite Hh, next_slot by lia. f_equal. lia.
  - rewrite take_app_le by lia. done.
  - lia.
  - intros i y Hi Hy Hd. destruct (decide (i < length us)%nat) as [Hlt|Hge].
    + rewrite lookup_app_l in Hy by done. by apply Hc.
    + rewrite lookup_app_r in Hy by lia. apply list_lookup_singleton_Some in Hy as [Hi' <-].
      replace i with (length us) by lia. by rewrite <- Hh.
  - destruct c; cbn in *; rewrite ?length_app; try done; cbn [length].
    + lia.
    + destruct Kc as [? Kc]. split; [done|]. by apply lookup_app_l_Some.
    + destruct Kc as [? Kc]. split; [done|]. by apply lookup_app_l_Some.
Qed.

(** The steps of the consumer. *)
Lemma inv_c_check r p us os t :
  inv (mkSys r p (CLoaded t) us os) -> t <> rb_head r -> inv (mkSys r p (CChecked t) us os).
Proof.
  intros [Hl Hh Ht Hp Hr Hc Kp Kc] Hne. split; cbn in *; try done. split; [done|].
  subst t. destruct (decide (length os = length us)) as [E|]; [|lia]. by rewrite Hh, Ht, E in Hne.
Qed.

Lemma inv_c_move r p us os t v :
  inv (mkSys r p (CChecked t) us os) -> rb_buffer r !! t = Some (Some v) ->
  inv (mkSys r p (CMoved v t) us os).
Proof.
  intros [Hl Hh Ht Hp Hr Hc Kp [Kt Kn]] Hv. split; cbn in *; try done. split; [done|].
  destruct (lookup_lt_is_Some_2 us (length os) Kn) as [y Hy].
  pose proof (Hc _ y (le_n _) Hy ltac:(done)) as Hcell. subst t. rewrite Ht in Hv. congruence.
Qed.

Lemma inv_c_destroy r p us os t v :
  inv (mkSys r p (CMoved v t) us os) ->
  inv (mkSys (set_buffer r (<[t := None]> (rb_buffer r))) p (CDestroyed v t) us os).
Proof.
  intros [Hl Hh Ht Hp Hr Hc Kp [Kt Kv]]. cbn in *. subst t. pose proof (lookup_lt_Some _ _ _ Kv).
  split; cbn in *; try done.
  - by rewrite length_insert.
  - intros i y Hi Hy Hd. pose proof (lookup_lt_Some _ _ _ Hy).
    destruct (decide (i = length os)) as [->|Hne]; [by specialize (Hd eq_refl)|].
    rewrite list_lookup_insert_ne; [by apply Hc|]. rewrite Ht. intros E. apply slot_inj in E; lia.
  - destruct p as [| | |x hd]; cbn in *; try done. destruct Kp as (-> & Kr & Kx).
    split; [done|]. split; [done|]. rewrite list_lookup_insert_ne; [done|].
    rewrite Ht, Hh. intros E. apply slot_inj in E; lia.
Qed.

Lemma inv_c_publish r p us os t v :
  inv (mkSys r p (CDestroyed v t) us os) ->
  inv (mkSys (set_tail r (next SIZE t)) p CIdle us (os ++ [v])).
Proof.
  intros [Hl Hh Ht Hp Hr Hc Kp [Kt Kv]]. cbn in *. subst t. pose proof (lookup_lt_Some _ _ _ Kv). cbn in *.
  split; cbn; rewrite ?length_app; cbn [length]; try done.
  - rewrite Ht, next_slot by lia. f_equal. lia.
  - rewrite Nat.add_1_r, (take_S_r _ _ v) by done. by rewrite <- Hp.
  - lia.
  - intros i y Hi Hy Hd. apply Hc; [lia|done|lia].
  - destruct p as [| | |]; cbn in *; try done;
      [destruct Kp as [-> Kp]|destruct Kp as (-> & Kp & Kx)]; repeat split; (done || lia).
Qed.

Lemma spsc_inv_step s s' : step s s' -> inv s -> inv s'.
Proof.
  destruct 1; intros I;
    eauto using inv_p_check, inv_p_write, inv_p_publish, inv_c_check, inv_c_move, inv_c_destroy,
      inv_c_publish;
    destruct I as [Hl Hh Ht Hp Hr Hc Kp Kc]; by split; cbn in *.
Qed.

Lemma spsc_reachable_inv s : (0 < SIZE)%nat -> reachable s -> inv s.
Proof.
  intros HS R. unfold reachable in R.
  enough (forall a b, rtc step a b -> inv a -> inv b) as A by (eapply A; [exact R|by apply spsc_inv_init]).
  induction 1; eauto using spsc_inv_step.
Qed.

(** C23: under every interleaving of one producer and one consumer, what was
    popped is a prefix of what was pushed, and fewer than [SIZE] elements are
    in between: nothing is lost, duplicated or reordered. *)
Theorem spsc_fifo s :
  (0 < SIZE)%nat -> reachable s ->
  exists rest, pushed s = popped s ++ rest /\ (length rest < SIZE)%nat.
Proof.
  intros HS R. destruct (spsc_reachable_inv _ HS R) as [_ _ _ Hp Hr _ _ _].
  exists (drop (length (popped s)) (pushed s)). split; [|rewrite length_drop; lia].
  rewrite Hp at 1. by rewrite take_drop.
Qed.

(** The threads never touch the same slot: when the producer is about to
    construct an object and the consumer is about to move or destroy one, they
    are in different slots. *)
Theorem spsc_no_race s x h t :
  (0 < SIZE)%nat -> reachable s -> prod s = PChecked x h ->
  (cons s = CChecked t \/ exists v, cons s = CMoved v t) -> h <> t.
Proof.
  intros HS R Hp Hc. destruct (spsc_reachable_inv _ HS R) as [_ Hh Ht _ Hr _ Kp Kc].
  rewrite Hp in Kp. destruct Kp as [-> Kp].
  assert (t = rb_tail (ring s) /\ length (popped s) < length (pushed s))%nat as [-> Hlt].
  { destruct Hc as [Hc|[v Hc]]; rewrite Hc in Kc; cbn in Kc; [done|].
    destruct Kc as [? Kv]. split; [done|]. by eapply lookup_lt_Some. }
  rewrite Hh, Ht. intros E. symmetry in E. apply slot_inj in E; lia.
Qed.

(** The consumer never meets an empty slot: past the test of [m_head] the
    slot it is about to move from holds a live object, the next element of the
    queue. *)
Theorem spsc_pop_alive s t :
  (0 < SIZE)%nat -> reachable s -> cons s = CChecked t ->
  exists v, rb_buffer (ring s) !! t = Some (Some v) /\ pushed s !! length (popped s) = Some v.
Proof.
  intros HS R Hc. destruct (spsc_reachable_inv _ HS R) as [_ _ Ht _ _ Hcells _ Kc].
  rewrite Hc in Kc. destruct Kc as [-> Kn].
  destruct (lookup_lt_is_Some_2 _ _ Kn) as [v Hv]. exists v. split; [|done].
  rewrite Ht. apply Hcells; [done|done|by rewrite Hc].
Qed.
End spsc.
End Spsc.

(** ** Concrete runs *)

Lemma ring_fifo_order_witness :
  exists s', pop_n (pop := ring_pop 4) 2 (push_all (push := ring_push 4) (ring_new 4) [5; 6; 7])
    = Ok ([5; 6], s') /\ ring_rep 4 s' [7].
Proof. apply (ring_fifo_order 4 [5; 6; 7] 2); cbn; lia. Defined.

Lemma ring_size_length_witness : ring_size 4 (push_all (push := ring_push 4) (ring_new 4) [5; 6]) = 2%nat.
Proof.
  apply (ring_size_length 4 _ [5; 6]).
  apply (push_all_rep (BoundedFifo0 := ring_fifo 4) [5; 6] (ring_new 4) []); [|cbn; lia].
  apply ring_new_rep. lia.
Defined.

(** Take one step of the system, by the name of its rule. *)
Tactic Notation "run_step" uconstr(rule) :=
  eapply rtc_l; [eapply rule; first [reflexivity | vm_compute; congruence]|cbn].

(** One element pushed and popped. *)
Lemma spsc_fifo_witness :
  exists s rest, Spsc.reachable 4 s /\ Spsc.popped s = [7] /\ Spsc.pushed s = Spsc.popped s ++ rest.
Proof.
  assert (Spsc.reachable 4 (Spsc.mkSys (mkRing [None; None; None; None] 1 1) Spsc.PIdle Spsc.CIdle [7] [7]))
    as R.
  { run_step (Spsc.p_load (T:=Z) 4 (ring_new 4) Spsc.CIdle [] [] 7). run_step Spsc.p_check.
    run_step Spsc.p_write. run_step Spsc.p_publish.
    run_step Spsc.c_load. run_step Spsc.c_check.
    run_step Spsc.c_move. run_step Spsc.c_destroy.
    run_step Spsc.c_publish. apply rtc_refl. }
  destruct (Spsc.spsc_fifo 4 _ ltac:(lia) R) as (rest & E & _).
  eexists _, rest. split; [exact R|]. split; [reflexivity|exact E].
Defined.

(** The second push has passed its test while the first element is being
    popped. *)
Definition spsc_busy : Spsc.sys Z :=
  Spsc.mkSys (mkRing [Some 7; None; None; None] 1 0) (Spsc.PChecked 8 1) (Spsc.CChecked 0) [7] [].

Lemma spsc_busy_reachable : Spsc.reachable 4 spsc_busy.
Proof.
  eapply rtc_l; [apply (Spsc.p_load (T:=Z) 4 (ring_new 4) Spsc.CIdle [] [] 7)|cbn].
  run_step Spsc.p_check. run_step Spsc.p_write.
  run_step Spsc.p_publish. run_step Spsc.c_load.
  run_step Spsc.c_check. run_step (Spsc.p_load _ _ _ _ _ 8). run_step Spsc.p_check.
  apply rtc_refl.
Defined.

Lemma spsc_no_race_witness : Spsc.reachable 4 spsc_busy /\ 1%nat <> 0%nat.
Proof.
  split; [exact spsc_busy_reachable|].
  apply (Spsc.spsc_no_race 4 spsc_busy 8 1 0); [lia|exact spsc_busy_reachable|reflexivity|].
  left. reflexivity.
Defined.

Lemma spsc_pop_alive_witness :
  exists v, rb_buffer (Spsc.ring spsc_busy) !! 0%nat = Some (Some v) /\
    Spsc.pushed spsc_busy !! length (Spsc.popped spsc_busy) = Some v.
Proof. apply (Spsc.spsc_pop_alive 4); [lia|exact spsc_busy_reachable|reflexivity]. Defined.
