(* ===== verification/MultiRing.v ===== *)
(** * MultiRing: src/fastpath/utils/tfmultiringbuffer.h

    The ring buffer of many producers and many consumers, as the interleaving
    of the accesses its threads make to shared memory.  A relaxed load of
    [m_head] or [m_tail] may return any value the counter has had, a weak
    compare-exchange may fail for no reason, and the sequence number of a cell
    orders the accesses to its data.  Two ghost lists record the order of the
    successful compare-exchanges on [m_head] and the values the consumers read. *)
From S2P Require Import Prelude.

Section multiring.
Context {T : Type} (k : Z) (k_range : 1 <= k <= 32).

Definition SIZE : Z := 2 ^ k.
Definition m_buffer_mask : Z := SIZE - 1.

(** A cell: [m_sequence] and [m_data]. *)
Record multiringbuffer := mkMultiRing {
  mr_buffer : list (Z * option T);
  mr_head : Z;
  mr_tail : Z;
  pushed : list T;              (* ghost: by position *)
  popped : list (Z * option T)  (* ghost: position and value read *)
}.

Definition multiring_new : multiringbuffer :=
  mkMultiRing ((fun i => (Z.of_nat i, None)) <$> seq 0 (Z.to_nat SIZE)) 0 0 [] [].

(** The index of [&m_buffer[pos & m_buffer_mask]]. *)
Definition cell_of (pos : Z) : nat := Z.to_nat (Z.land pos m_buffer_mask).
(** [(intptr_t)seq - (intptr_t)pos] *)
Definition dif (seq pos : Z) : Z := to_signed 64 (to_signed 64 seq - to_signed 64 pos).

Definition set_cells (s : multiringbuffer) (c : list (Z * option T)) : multiringbuffer :=
  mkMultiRing c (mr_head s) (mr_tail s) (pushed s) (popped s).
Definition set_data (s : multiringbuffer) (pos : Z) (v : option T) : multiringbuffer :=
  set_cells s (alter (fun c => (c.1, v)) (cell_of pos) (mr_buffer s)).
Definition set_sequence (s : multiringbuffer) (pos seq : Z) : multiringbuffer :=
  set_cells s (alter (fun c => (seq, c.2)) (cell_of pos) (mr_buffer s)).

(** Where a thread is: outside, or before its next access in [push] or [pop]. *)
Inductive pc :=
  | Idle
  | PushLoad (x : T) | PushLoop (pos : Z) (x : T) | PushCas (pos : Z) (x : T)
  | PushWrite (pos : Z) (x : T) | PushStore (pos : Z) (x : T)
  | PopLoad | PopLoop (pos : Z) | PopCas (pos : Z) | PopRead (pos : Z) | PopStore (pos : Z).

(** One access of one thread. *)
Inductive access (s : multiringbuffer) : pc -> multiringbuffer -> pc -> Prop :=
  | push_call x : access s Idle s (PushLoad x)
  | push_load pos x : 0 <= pos <= mr_head s -> access s (PushLoad x) s (PushLoop pos x)
  | push_free pos x seq d : mr_buffer s !! cell_of pos = Some (seq, d) -> dif seq pos = 0 ->
      access s (PushLoop pos x) s (PushCas pos x)
  | push_full pos x seq d : mr_buffer s !! cell_of pos = Some (seq, d) -> dif seq pos < 0 ->
      access s (PushLoop pos x) s Idle
  | push_late pos x seq d : mr_buffer s !! cell_of pos = Some (seq, d) -> 0 < dif seq pos ->
      access s (PushLoop pos x) s (PushLoad x)
  | push_claim pos x : mr_head s = pos ->
      access s (PushCas pos x)
        (mkMultiRing (mr_buffer s) (u64 (pos + 1)) (mr_tail s) (pushed s ++ [x]) (popped s)) (PushWrite pos x)
  | push_retry pos x : access s (PushCas pos x) s (PushLoop (mr_head s) x)
  | push_write pos x : access s (PushWrite pos x) (set_data s pos (Some x)) (PushStore pos x)
  | push_store pos x : access s (PushStore pos x) (set_sequence s pos (u64 (pos + 1))) Idle
  | pop_call : access s Idle s PopLoad
  | pop_load pos : 0 <= pos <= mr_tail s -> access s PopLoad s (PopLoop pos)
  | pop_ready pos seq d : mr_buffer s !! cell_of pos = Some (seq, d) -> dif seq (u64 (pos + 1)) = 0 ->
      access s (PopLoop pos) s (PopCas pos)
  | pop_empty pos seq d : mr_buffer s !! cell_of pos = Some (seq, d) -> dif seq (u64 (pos + 1)) < 0 ->
      access s (PopLoop pos) s Idle
  | pop_late pos seq d : mr_buffer s !! cell_of pos = Some (seq, d) -> 0 < dif seq (u64 (pos + 1)) ->
      access s (PopLoop pos) s PopLoad
  | pop_claim pos : mr_tail s = pos ->
      access s (PopCas pos)
        (mkMultiRing (mr_buffer s) (mr_head s) (u64 (pos + 1)) (pushed s) (popped s)) (PopRead pos)
  | pop_retry pos : access s (PopCas pos) s (PopLoop (mr_tail s))
  | pop_read pos seq d : mr_buffer s !! cell_of pos = Some (seq, d) ->
      access s (PopRead pos)
        (mkMultiRing (mr_buffer s) (mr_head s) (mr_tail s) (pushed s) (popped s ++ [(pos, d)])) (PopStore pos)
  | pop_store pos : access s (PopStore pos) (set_sequence s pos (u64 (pos + m_buffer_mask + 1))) Idle.

Inductive step : multiringbuffer * list pc -> multiringbuffer * list pc -> Prop :=
  | thread_step i p p' s s' ps :
      ps !! i = Some p -> access s p s' p' -> step (s, ps) (s', <[i := p']> ps).

Definition init (n : nat) : multiringbuffer * list pc := (multiring_new, replicate n Idle).
Definition reachable (n : nat) (s : multiringbuffer * list pc) : Prop := rtc step (init n) s.

(** ** Positions and cells *)

Lemma SIZE_range : 2 <= SIZE <= 2 ^ 32.
Proof using k_range.
  unfold SIZE. split; [change 2 with (2 ^ 1) at 1|]; apply Z.pow_le_mono_r; lia.
Qed.

Lemma cell_of_mod pos : cell_of pos = Z.to_nat (pos mod SIZE).
Proof using k_range.
  unfold cell_of, m_buffer_mask, SIZE.
  replace (2 ^ k - 1) with (Z.ones k) by (rewrite Z.ones_equiv; lia). rewrite Z.land_ones by lia. done.
Qed.

(** Positions in the same cell are equal or at least [SIZE] apart. *)
Lemma same_cell p q : cell_of p = cell_of q -> p = q \/ p + SIZE <= q \/ q + SIZE <= p.
Proof using k_range.
  rewrite !cell_of_mod. pose proof SIZE_range. intros E.
  apply Z2Nat.inj in E; [|apply Z.mod_pos_bound; lia..].
  pose proof (Z.div_mod p SIZE ltac:(lia)) as Hp. pose proof (Z.div_mod q SIZE ltac:(lia)) as Hq.
  destruct (Z.lt_trichotomy (p / SIZE) (q / SIZE)) as [?|[Ed|?]]; [right; left; nia| |right; right; nia].
  left. rewrite Ed, E in Hp. congruence.
Qed.

Lemma cell_of_lap p : cell_of (p + SIZE) = cell_of p.
Proof using k_range.
  rewrite !cell_of_mod. f_equal. replace (p + SIZE) with (p + 1 * SIZE) by lia. apply Z_mod_plus_full.
Qed.

Lemma dif_exact seq pos : 0 <= seq < 2 ^ 62 -> 0 <= pos < 2 ^ 62 -> dif seq pos = seq - pos.
Proof. intros. unfold dif. rewrite (to_signed_small 64 seq), (to_signed_small 64 pos) by lia. apply to_signed_small; lia. Qed.

(** ** The invariant *)

Definition seq_at (s : multiringbuffer) (pos seq : Z) : Prop :=
  exists d, mr_buffer s !! cell_of pos = Some (seq, d).
Definition data_at (s : multiringbuffer) (pos : Z) (d : option T) : Prop :=
  exists seq, mr_buffer s !! cell_of pos = Some (seq, d).
Definition pushed_at (s : multiringbuffer) (pos : Z) : option T := pushed s !! Z.to_nat pos.

(** A cell waits for the element of position [p], or holds it. *)
Definition cell_ok (s : multiringbuffer) (i : nat) (c : Z * option T) : Prop :=
  exists p, cell_of p = i /\
    (c.1 = p /\ mr_tail s <= p < mr_tail s + SIZE \/
     c.1 = p + 1 /\ 0 <= p /\ mr_head s - SIZE <= p < mr_head s /\ is_Some c.2 /\ c.2 = pushed_at s p).

(** What a thread knows. *)
Definition pc_ok (s : multiringbuffer) (p : pc) : Prop :=
  match p with
  | Idle | PushLoad _ | PopLoad => True
  | PushLoop pos _ => 0 <= pos <= mr_head s
  | PushCas pos _ => 0 <= pos <= mr_head s /\ (pos < mr_head s \/ seq_at s pos pos)
  | PushWrite pos x => 0 <= pos < mr_head s /\ seq_at s pos pos /\ pushed_at s pos = Some x
  | PushStore pos x => 0 <= pos < mr_head s /\ mr_buffer s !! cell_of pos = Some (pos, Some x) /\ pushed_at s pos = Some x
  | PopLoop pos => 0 <= pos <= mr_tail s
  | PopCas pos => 0 <= pos <= mr_tail s /\ (pos < mr_tail s \/ seq_at s pos (pos + 1))
  | PopRead pos => 0 <= pos < mr_tail s /\ seq_at s pos (pos + 1) /\ pos ∉ (popped s).*1
  | PopStore pos => 0 <= pos < mr_tail s /\ seq_at s pos (pos + 1)
  end.

(** The position whose element a thread is putting in, or taking out. *)
Definition filling (p : pc) : option Z :=
  match p with PushWrite pos _ | PushStore pos _ => Some pos | _ => None end.
Definition taking (p : pc) : option Z :=
  match p with PopRead pos | PopStore pos => Some pos | _ => None end.

Definition unique (f : pc -> option Z) (ps : list pc) : Prop :=
  forall i j p q pos, ps !! i = Some p -> ps !! j = Some q -> f p = Some pos -> f q = Some pos -> i = j.

Record inv (s : multiringbuffer) (ps : list pc) : Prop := {
  i_length : length (mr_buffer s) = Z.to_nat SIZE;
  i_order : 0 <= mr_tail s <= mr_head s /\ mr_head s <= mr_tail s + SIZE;
  i_pushed : Z.of_nat (length (pushed s)) = mr_head s;
  i_cells : forall i c, mr_buffer s !! i = Some c -> cell_ok s i c;
  i_threads : forall i p, ps !! i = Some p -> pc_ok s p;
  i_filling : unique filling ps;
  i_taking : unique taking ps;
  i_popped : NoDup (popped s).*1 /\
    forall pos d, (pos, d) ∈ popped s -> 0 <= pos < mr_tail s /\ is_Some d /\ pushed_at s pos = d
}.

Lemma unique_insert f (ps : list pc) i p' :
  unique f ps ->
  (forall pos j q, f p' = Some pos -> j <> i -> ps !! j = Some q -> f q <> Some pos) ->
  unique f (<[i := p']> ps).
Proof.
  intros U Hn a b p q pos Ha Hb Hp Hq.
  apply list_lookup_insert_Some in Ha as [(<- & <- & _)|[Hai Ha]],
    Hb as [(Hbi & Hb & _)|[Hbi Hb]]; subst; [done| | |by eapply U].
  - by destruct (Hn pos b q Hp ltac:(done) Hb).
  - by destruct (Hn pos a p Hq ltac:(done) Ha).
Qed.

(** The thread keeps or gives up the position it works on. *)
Lemma unique_step f (ps : list pc) i p p' :
  unique f ps -> ps !! i = Some p -> (forall pos, f p' = Some pos -> f p = Some pos) -> unique f (<[i := p']> ps).
Proof.
  intros U Hi Hf. apply unique_insert; [done|]. intros pos j q Hp Hj Hq Hfq. apply Hj.
  by eapply U; [..|apply Hf].
Qed.

Lemma threads_insert s' (ps : list pc) i p' :
  pc_ok s' p' -> (forall j q, j <> i -> ps !! j = Some q -> pc_ok s' q) ->
  forall j q, <[i := p']> ps !! j = Some q -> pc_ok s' q.
Proof.
  intros Hp Hq j q Hj. apply list_lookup_insert_Some in Hj as [(<- & <- & _)|[Hne Hj]]; eauto.
Qed.

(** A step that only moves the thread. *)
Lemma inv_move s ps i p p' :
  inv s ps -> ps !! i = Some p -> pc_ok s p' ->
  (forall pos, filling p' = Some pos -> filling p = Some pos) ->
  (forall pos, taking p' = Some pos -> taking p = Some pos) -> inv s (<[i := p']> ps).
Proof.
  intros I Hi Hok Hf Ht. destruct I. split; try done.
  - apply threads_insert; [done|]. intros j q _. eauto.
  - by eapply unique_step.
  - by eapply unique_step.
Qed.

Lemma pushed_at_app s pos x h' b t' o :
  0 <= pos < Z.of_nat (length (pushed s)) ->
  pushed_at (mkMultiRing b h' t' (pushed s ++ [x]) o) pos = pushed_at s pos.
Proof. intros Hp. unfold pushed_at. cbn. apply lookup_app_l. lia. Qed.

Lemma cell_exists s ps pos : inv s ps -> exists c, mr_buffer s !! cell_of pos = Some c.
Proof using k_range.
  intros I. apply lookup_lt_is_Some_2. rewrite (i_length _ _ I), cell_of_mod. pose proof SIZE_range.
  pose proof (Z.mod_pos_bound pos SIZE). lia.
Qed.

(** The sequence number tells which of the two states the cell is in. *)
Lemma cell_waits s ps pos :
  inv s ps -> seq_at s pos pos -> mr_tail s <= pos < mr_tail s + SIZE.
Proof using k_range.
  intros I [d Hd]. destruct (i_cells _ _ I _ _ Hd) as (p & Hp & [[E ?]|[E ?]]); cbn in E; [lia|].
  pose proof SIZE_range. destruct (same_cell _ _ Hp); lia.
Qed.
Lemma cell_holds s ps pos d :
  inv s ps -> mr_buffer s !! cell_of pos = Some (pos + 1, d) ->
  0 <= pos /\ mr_head s - SIZE <= pos < mr_head s /\ is_Some d /\ d = pushed_at s pos.
Proof using k_range.
  intros I Hd. pose proof SIZE_range.
  destruct (i_cells _ _ I _ _ Hd) as (p & Hp & [[E ?]|[E ?]]); cbn in E; destruct (same_cell _ _ Hp) as [->|]; try lia.
  done.
Qed.

(** ** Preservation, one lemma per access that changes the ring *)

(** The counters have not come near the range of [intptr_t]: fewer than
    [2^62 - 2 * SIZE] elements have been pushed. *)
Definition in_range (s : multiringbuffer) : Prop := Z.of_nat (length (pushed s)) + 2 * SIZE < 2 ^ 62.

Lemma in_range_head s ps : inv s ps -> in_range s -> mr_head s + 2 * SIZE < 2 ^ 62.
Proof. intros I. unfold in_range. by rewrite (i_pushed _ _ I). Qed.

Lemma inv_push_claim s ps i pos x :
  inv s ps -> in_range s -> ps !! i = Some (PushCas pos x) -> mr_head s = pos ->
  inv (mkMultiRing (mr_buffer s) (u64 (pos + 1)) (mr_tail s) (pushed s ++ [x]) (popped s))
    (<[i := PushWrite pos x]> ps).
Proof using k_range.
  intros I Hr Hi Hh. pose proof SIZE_range. pose proof (in_range_head _ _ I Hr).
  pose proof (i_order _ _ I). pose proof (i_pushed _ _ I) as Hn.
  destruct (i_threads _ _ I _ _ Hi) as [Hpos [?|Hs]]; [lia|]. pose proof (cell_waits _ _ _ I Hs).
  assert (u64 (pos + 1) = pos + 1) as -> by (apply wrap_small; lia).
  assert (pushed_at (mkMultiRing (mr_buffer s) (pos + 1) (mr_tail s) (pushed s ++ [x]) (popped s)) pos = Some x) as Hx.
  { unfold pushed_at. cbn. rewrite lookup_app_r by lia. by replace (_ - _)%nat with 0%nat by lia. }
  split; cbn [mr_buffer mr_head mr_tail popped].
  - apply I.
  - lia.
  - cbn. rewrite length_app. cbn. lia.
  - intros a c Hc. destruct (i_cells _ _ I _ _ Hc) as (p & Hp & [A|(E1 & E2 & E3 & E4 & E5)]).
    { exists p. split; [done|]. left. cbn. lia. }
    exists p. split; [done|]. right. rewrite pushed_at_app by lia. cbn. split; [done|]. split; [done|].
    split; [|done]. split; [|lia]. destruct (Z.eq_dec p (mr_head s - SIZE)) as [->|]; [|lia].
    exfalso. destruct Hs as [d Hd]. rewrite <- (cell_of_lap (mr_head s - SIZE)) in Hp.
    replace (mr_head s - SIZE + SIZE) with pos in Hp by lia. rewrite Hp in Hd. rewrite Hd in Hc. injection Hc as <-. cbn in E1. lia.
  - apply threads_insert.
    + cbn -[pushed_at]. split; [lia|]. split; [exact Hs|exact Hx].
    + intros j q Hj Hq. pose proof (i_threads _ _ I _ _ Hq) as Q.
      destruct q; cbn -[pushed_at] in *; rewrite ?pushed_at_app by lia; try done; try lia;
        destruct Q as (? & Q); (split; [lia|]); try exact Q.
  - apply unique_insert; [apply I|]. intros pos' j q [= <-] Hj Hq Hf.
    pose proof (i_threads _ _ I _ _ Hq) as Q. destruct q; cbn in Hf, Q; try done; injection Hf as ->; lia.
  - eapply unique_step; [apply I|exact Hi|done].
  - split; [apply I|]. intros p d Hd. destruct (proj2 (i_popped _ _ I) _ _ Hd) as (? & ? & ?).
    rewrite pushed_at_app by lia. done.
Qed.

Lemma inv_pop_claim s ps i pos :
  inv s ps -> in_range s -> ps !! i = Some (PopCas pos) -> mr_tail s = pos ->
  inv (mkMultiRing (mr_buffer s) (mr_head s) (u64 (pos + 1)) (pushed s) (popped s))
    (<[i := PopRead pos]> ps).
Proof using k_range.
  intros I Hr Hi Ht. pose proof SIZE_range. pose proof (in_range_head _ _ I Hr). pose proof (i_order _ _ I).
  destruct (i_threads _ _ I _ _ Hi) as [Hpos [?|Hs]]; [lia|]. pose proof Hs as [d Hd].
  pose proof (cell_holds _ _ _ _ I Hd) as (_ & Hh & _).
  assert (u64 (pos + 1) = pos + 1) as -> by (apply wrap_small; lia).
  split; cbn [mr_buffer mr_head mr_tail popped].
  - apply I.
  - lia.
  - apply I.
  - intros a c Hc. destruct (i_cells _ _ I _ _ Hc) as (p & Hp & [[E A]|B]); exists p; (split; [done|]); [left|by right].
    cbn. split; [done|]. split; [|lia]. destruct (Z.eq_dec p pos) as [->|]; [|lia].
    exfalso. rewrite Hp in Hd. rewrite Hd in Hc. injection Hc as <-. cbn in E. lia.
  - apply threads_insert.
    + cbn. split; [lia|]. split; [exact Hs|]. intros Hin. apply list_elem_of_fmap in Hin as ([p v] & E & Hin).
      cbn in E. subst p. destruct (proj2 (i_popped _ _ I) _ _ Hin). lia.
    + intros j q Hj Hq. pose proof (i_threads _ _ I _ _ Hq) as Q.
      destruct q; cbn -[pushed_at] in *; try done; try lia;
        destruct Q as (? & Q); (split; [lia|]); try exact Q.
  - eapply unique_step; [apply I|exact Hi|done].
  - apply unique_insert; [apply I|]. intros pos' j q [= <-] Hj Hq Hf.
    pose proof (i_threads _ _ I _ _ Hq) as Q. destruct q; cbn in Hf, Q; try done; injection Hf as ->; lia.
  - split; [apply I|]. intros p v Hv. destruct (proj2 (i_popped _ _ I) _ _ Hv) as (? & ? & ?). split; [lia|done].
Qed.

(** A store into one cell. *)
Lemma lookup_stored (b : list (Z * option T)) f i c j c' :
  b !! i = Some c -> alter f i b !! j = Some c' -> j = i /\ c' = f c \/ j <> i /\ b !! j = Some c'.
Proof.
  intros Hi. destruct (decide (j = i)) as [->|Hne].
  - rewrite list_lookup_alter_eq, Hi. intros [= <-]. by left.
  - rewrite list_lookup_alter_ne by done. by right.
Qed.
Lemma stored_here (b : list (Z * option T)) f i c : b !! i = Some c -> alter f i b !! i = Some (f c).
Proof. intros Hi. by rewrite list_lookup_alter_eq, Hi. Qed.

(** What a thread knows about another cell, or of the sequence number of the
    same cell, outlives a write of data. *)
Lemma seq_at_set_data s pos v p seq : seq_at s p seq -> seq_at (set_data s pos v) p seq.
Proof.
  intros [d Hd]. unfold seq_at. cbn. destruct (decide (cell_of p = cell_of pos)) as [E|E].
  - rewrite E in *. exists v. by rewrite (stored_here _ _ _ _ Hd).
  - exists d. by rewrite list_lookup_alter_ne.
Qed.

Lemma inv_push_write s ps i pos x :
  inv s ps -> ps !! i = Some (PushWrite pos x) ->
  inv (set_data s pos (Some x)) (<[i := PushStore pos x]> ps).
Proof using k_range.
  intros I Hi. pose proof SIZE_range. destruct (i_threads _ _ I _ _ Hi) as (Hpos & Hs & Hx).
  pose proof (cell_waits _ _ _ I Hs) as Hw. destruct Hs as [d Hd].
  split; cbn [set_data set_cells mr_buffer mr_head mr_tail popped pushed]; try apply I.
  - by rewrite length_alter, (i_length _ _ I).
  - intros a c Hc. destruct (lookup_stored _ _ _ _ _ _ Hd Hc) as [[-> ->]|[_ Hc']].
    + exists pos. split; [done|]. left. cbn. lia.
    + apply (i_cells _ _ I _ _ Hc').
  - apply threads_insert.
    + split; [done|]. split; [|done]. cbn. by rewrite (stored_here _ _ _ _ Hd).
    + intros j q Hj Hq. pose proof (i_threads _ _ I _ _ Hq) as Q.
      destruct q as [| |p ?|p ?|p ?|p ?| |p|p|p|p]; cbn -[set_data] in *; try exact Q.
      * destruct Q as [? [?|?]]; [split; [done|by left]|]. split; [done|]. right. by apply seq_at_set_data.
      * destruct Q as (? & ? & ?). split; [done|]. split; [by apply seq_at_set_data|done].
      * destruct Q as (? & Q & ?). split; [done|]. split; [|done]. cbn. destruct (decide (cell_of p = cell_of pos)) as [E|E].
        { rewrite E, Hd in Q. injection Q as -> ->. by destruct (Hj (i_filling _ _ I _ _ _ _ _ Hq Hi eq_refl eq_refl)). }
        by rewrite list_lookup_alter_ne.
      * destruct Q as [? [?|?]]; [split; [done|by left]|]. split; [done|]. right. by apply seq_at_set_data.
      * destruct Q as (? & ? & ?). split; [done|]. split; [by apply seq_at_set_data|done].
      * destruct Q as (? & ?). split; [done|]. by apply seq_at_set_data.
  - eapply unique_step; [apply I|exact Hi|]. intros p [= <-]. done.
  - eapply unique_step; [apply I|exact Hi|done].
Qed.

(** Another thread's knowledge outlives the publication of [pos]. *)
Lemma seq_at_set_sequence s pos seq p v :
  cell_of p <> cell_of pos -> seq_at s p v -> seq_at (set_sequence s pos seq) p v.
Proof. intros Hne [d Hd]. exists d. cbn. by rewrite list_lookup_alter_ne. Qed.

Lemma inv_push_store s ps i pos x :
  inv s ps -> in_range s -> ps !! i = Some (PushStore pos x) ->
  inv (set_sequence s pos (u64 (pos + 1))) (<[i := Idle]> ps).
Proof using k_range.
  intros I Hr Hi. pose proof SIZE_range. pose proof (in_range_head _ _ I Hr). pose proof (i_order _ _ I).
  destruct (i_threads _ _ I _ _ Hi) as (Hpos & Hd & Hx).
  pose proof (cell_waits _ _ _ I (ex_intro _ _ Hd)) as Hw.
  assert (u64 (pos + 1) = pos + 1) as -> by (apply wrap_small; lia).
  split; cbn [set_sequence set_cells mr_buffer mr_head mr_tail popped pushed]; try apply I.
  - by rewrite length_alter, (i_length _ _ I).
  - intros a c Hc. destruct (lookup_stored _ _ _ _ _ _ Hd Hc) as [[-> ->]|[_ Hc']].
    + exists pos. split; [done|]. right. cbn [fst snd mr_head set_sequence set_cells].
      split; [done|]. split; [lia|]. split; [lia|]. split; [done|]. symmetry. exact Hx.
    + apply (i_cells _ _ I _ _ Hc').
  - apply threads_insert; [done|]. intros j q Hj Hq. pose proof (i_threads _ _ I _ _ Hq) as Q.
    assert (forall p, filling q = Some p -> p <> pos) as Hf.
    { intros p Hp ->. by apply Hj, (i_filling _ _ I _ _ _ _ _ Hq Hi Hp). }
    assert (forall p v, seq_at s p v -> (v = p /\ p <> pos) \/ v = p + 1 -> seq_at (set_sequence s pos (pos + 1)) p v) as Hst.
    { intros p v Hs Hv. destruct (decide (cell_of p = cell_of pos)) as [E|E]; [|by apply seq_at_set_sequence].
      exfalso. destruct Hs as [d Hd']. rewrite E, Hd in Hd'. injection Hd' as Hv' _.
      destruct (same_cell _ _ E); lia. }
    destruct q as [| |p ?|p ?|p ?|p ?| |p|p|p|p]; cbn -[set_sequence] in *; try exact Q.
    + destruct Q as [? [?|?]]; [split; [done|by left]|]. split; [done|].
      destruct (Z.eq_dec p pos) as [->|]; [left; cbn; lia|]. right. apply Hst; [done|lia].
    + destruct Q as (? & ? & ?). split; [done|]. split; [|done]. apply Hst; [done|]. specialize (Hf p eq_refl). lia.
    + destruct Q as (? & Q & ?). split; [done|]. split; [|done]. cbn.
      destruct (decide (cell_of p = cell_of pos)) as [E|E]; [|by rewrite list_lookup_alter_ne].
      rewrite E, Hd in Q. injection Q as -> ->. by destruct (Hf p eq_refl).
    + destruct Q as [? [?|?]]; [split; [done|by left]|]. split; [done|]. right. apply Hst; [done|lia].
    + destruct Q as (? & ? & ?). split; [done|]. split; [|done]. apply Hst; [done|lia].
    + destruct Q as (? & ?). split; [done|]. apply Hst; [done|lia].
  - eapply unique_step; [apply I|exact Hi|done].
  - eapply unique_step; [apply I|exact Hi|done].
Qed.

Lemma inv_pop_read s ps i pos seq d :
  inv s ps -> ps !! i = Some (PopRead pos) -> mr_buffer s !! cell_of pos = Some (seq, d) ->
  inv (mkMultiRing (mr_buffer s) (mr_head s) (mr_tail s) (pushed s) (popped s ++ [(pos, d)]))
    (<[i := PopStore pos]> ps).
Proof using k_range.
  intros I Hi Hd. destruct (i_threads _ _ I _ _ Hi) as (Hpos & Hs & Hn). destruct Hs as [d' Hs].
  rewrite Hd in Hs. injection Hs as -> <-. destruct (cell_holds _ _ _ _ I Hd) as (_ & _ & Hsome & Hp).
  split; cbn [mr_buffer mr_head mr_tail popped pushed]; try apply I.
  - apply threads_insert; [by split; [|exists d]|]. intros j q Hj Hq. pose proof (i_threads _ _ I _ _ Hq) as Q.
    destruct q as [| |p ?|p ?|p ?|p ?| |p|p|p|p]; cbn in *; try exact Q.
    destruct Q as (? & ? & Q). split; [done|]. split; [done|]. rewrite fmap_app. cbn.
    intros [?|Hin]%elem_of_app; [done|]. apply list_elem_of_singleton in Hin as ->.
    by destruct (Hj (i_taking _ _ I _ _ _ _ _ Hq Hi eq_refl eq_refl)).
  - eapply unique_step; [apply I|exact Hi|done].
  - eapply unique_step; [apply I|exact Hi|]. intros p [= <-]. done.
  - destruct (i_popped _ _ I) as [N P]. split.
    + rewrite fmap_app. apply NoDup_app. split; [done|]. split; [|apply NoDup_singleton].
      intros p Hin ->%list_elem_of_singleton. done.
    + intros p v [?|Hin]%elem_of_app; [by apply P|]. apply list_elem_of_singleton in Hin as [= -> ->].
      split; [done|]. split; [done|]. symmetry. exact Hp.
Qed.

Lemma inv_pop_store s ps i pos :
  inv s ps -> in_range s -> ps !! i = Some (PopStore pos) ->
  inv (set_sequence s pos (u64 (pos + m_buffer_mask + 1))) (<[i := Idle]> ps).
Proof using k_range.
  intros I Hr Hi. pose proof SIZE_range. pose proof (in_range_head _ _ I Hr). pose proof (i_order _ _ I).
  destruct (i_threads _ _ I _ _ Hi) as (Hpos & [d Hd]).
  destruct (cell_holds _ _ _ _ I Hd) as (_ & Hh & _).
  assert (u64 (pos + m_buffer_mask + 1) = pos + SIZE) as ->
    by (unfold m_buffer_mask; rewrite wrap_small; lia).
  split; cbn [set_sequence set_cells mr_buffer mr_head mr_tail popped pushed]; try apply I.
  - by rewrite length_alter, (i_length _ _ I).
  - intros a c Hc. destruct (lookup_stored _ _ _ _ _ _ Hd Hc) as [[-> ->]|[_ Hc']].
    + exists (pos + SIZE). split; [apply cell_of_lap|]. left. cbn. lia.
    + apply (i_cells _ _ I _ _ Hc').
  - apply threads_insert; [done|]. intros j q Hj Hq. pose proof (i_threads _ _ I _ _ Hq) as Q.
    assert (forall p, taking q = Some p -> p <> pos) as Ht.
    { intros p Hp ->. by apply Hj, (i_taking _ _ I _ _ _ _ _ Hq Hi Hp). }
    assert (forall p v, seq_at s p v -> v = p \/ (v = p + 1 /\ p <> pos) ->
      cell_of p <> cell_of pos /\ seq_at (set_sequence s pos (pos + SIZE)) p v) as Hst.
    { intros p v Hs Hv. destruct (decide (cell_of p = cell_of pos)) as [E|E];
        [|by split; [|apply seq_at_set_sequence]].
      exfalso. destruct Hs as [d' Hd']. rewrite E, Hd in Hd'. injection Hd' as Hv' _.
      destruct (same_cell _ _ E); lia. }
    destruct q as [| |p ?|p ?|p ?|p ?| |p|p|p|p]; cbn -[set_sequence] in *; try exact Q.
    + destruct Q as [? [?|?]]; [split; [done|by left]|]. split; [done|]. right. apply Hst; [done|by left].
    + destruct Q as (? & ? & ?). split; [done|]. split; [|done]. apply Hst; [done|by left].
    + destruct Q as (? & Q & ?). split; [done|]. split; [|done]. cbn.
      destruct (Hst p p (ex_intro _ _ Q) (or_introl eq_refl)) as [Hne _]. by rewrite list_lookup_alter_ne.
    + destruct Q as [? [?|?]]; [split; [done|by left]|]. split; [done|].
      destruct (Z.eq_dec p pos) as [->|]; [left; cbn; lia|]. right. apply Hst; [done|by right].
    + destruct Q as (? & ? & ?). split; [done|]. split; [|done]. apply Hst; [done|]. right. split; [done|by apply Ht].
    + destruct Q as (? & ?). split; [done|]. apply Hst; [done|]. right. split; [done|by apply Ht].
  - eapply unique_step; [apply I|exact Hi|done].
  - eapply unique_step; [apply I|exact Hi|done].
Qed.

(** ** Every interleaving *)

Lemma seq_at_bound s ps pos seq d :
  inv s ps -> in_range s -> mr_buffer s !! cell_of pos = Some (seq, d) -> 0 <= seq < 2 ^ 62.
Proof using k_range.
  intros I Hr Hd. pose proof (i_order _ _ I). pose proof SIZE_range. pose proof (in_range_head _ _ I Hr).
  destruct (i_cells _ _ I _ _ Hd) as (p & _ & [[E ?]|[E ?]]); cbn in E; lia.
Qed.

Lemma multi_inv_step s ps s' ps' : step (s, ps) (s', ps') -> inv s ps -> in_range s -> inv s' ps'.
Proof using k_range.
  intros Hstep I Hr. inversion Hstep as [i p p' ? ? ? Hi Ha]; subst. pose proof (i_threads _ _ I _ _ Hi) as Q.
  pose proof (i_order _ _ I). pose proof SIZE_range. pose proof (in_range_head _ _ I Hr).
  destruct Ha as [x|pos x ?|pos x seq d Hd E|pos x seq d Hd E|pos x seq d Hd E|pos x Hh|pos x|pos x|pos x
    | |pos ?|pos seq d Hd E|pos seq d Hd E|pos seq d Hd E|pos Hh|pos|pos seq d Hd|pos];
    try (eapply inv_move; [exact I|exact Hi|cbn in *; first [done|lia]|done|done]).
  - cbn in Q. pose proof (seq_at_bound _ _ _ _ _ I Hr Hd). rewrite dif_exact in E by lia.
    eapply inv_move; [exact I|exact Hi| |done|done]. split; [done|]. right. exists d. rewrite Hd. do 2 f_equal. lia.
  - by apply inv_push_claim.
  - by apply inv_push_write.
  - by eapply inv_push_store.
  - cbn in Q. pose proof (seq_at_bound _ _ _ _ _ I Hr Hd).
    rewrite (wrap_small 64 (pos + 1)), dif_exact in E by lia.
    eapply inv_move; [exact I|exact Hi| |done|done]. split; [done|]. right. exists d. rewrite Hd. do 2 f_equal. lia.
  - by apply inv_pop_claim.
  - by eapply inv_pop_read.
  - by apply inv_pop_store.
Qed.

Lemma multi_inv_init n : inv multiring_new (replicate n Idle).
Proof using k_range.
  pose proof SIZE_range.
  assert (forall i p, replicate n Idle !! i = Some p -> p = Idle) as Hidle by (intros i p Hi; by apply lookup_replicate in Hi as [-> _]).
  split; cbn.
  - by rewrite length_fmap, length_seq.
  - lia.
  - done.
  - intros i c Hc. apply list_lookup_fmap_Some in Hc as (j & -> & Hj). apply lookup_seq in Hj as [-> Hi].
    exists (Z.of_nat i). rewrite cell_of_mod, Z.mod_small by lia. split; [lia|]. left. cbn. lia.
  - intros i p ->%Hidle. done.
  - intros i j p q pos ->%Hidle ->%Hidle. done.
  - intros i j p q pos ->%Hidle ->%Hidle. done.
  - split; [by apply NoDup_nil|]. intros pos d Hd. by apply elem_of_nil in Hd.
Qed.

Lemma pushed_grows s ps s' ps' : step (s, ps) (s', ps') -> in_range s' -> in_range s.
Proof.
  intros Hstep. inversion Hstep as [i p p' ? ? ? Hi Ha]; subst. unfold in_range.
  destruct Ha; cbn; rewrite ?length_app; cbn; lia.
Qed.

Lemma multi_reachable_inv n s : reachable n s -> in_range s.1 -> inv s.1 s.2.
Proof using k_range.
  intros R. enough (forall a b, rtc step a b -> (in_range a.1 -> inv a.1 a.2) -> in_range b.1 -> inv b.1 b.2) as A
    by (apply (A _ _ R); intros _; apply multi_inv_init).
  induction 1 as [|[s1 p1] [s2 p2] c Hs _ IH]; [done|]. intros I. apply IH. cbn in *. intros Hr.
  pose proof (pushed_grows _ _ _ _ Hs Hr) as Hr0. eapply multi_inv_step; eauto.
Qed.

(** C14: with any number of producers and consumers, in every interleaving, each
    value a consumer reads is the value that was pushed at its position (the
    order of the successful claims of the producers), no position is read
    twice, only claimed positions are read, and at most [SIZE] positions are
    claimed and not taken. *)
Theorem multiring_fifo n s ps :
  reachable n (s, ps) -> in_range s ->
  NoDup (popped s).*1 /\
  (forall pos d, (pos, d) ∈ popped s -> 0 <= pos < mr_tail s /\ is_Some d /\ pushed s !! Z.to_nat pos = d) /\
  mr_head s = Z.of_nat (length (pushed s)) /\ mr_tail s <= mr_head s <= mr_tail s + SIZE.
Proof using k_range.
  intros R Hr. pose proof (multi_reachable_inv _ _ R Hr) as I. cbn in I. destruct (i_popped _ _ I) as [N P].
  split; [done|]. split; [exact P|]. split; [by rewrite (i_pushed _ _ I)|]. pose proof (i_order _ _ I). lia.
Qed.

(** The cell whose data a thread is about to write or to read. *)
Definition touches (p : pc) : option (bool * nat) :=
  match p with
  | PushWrite pos _ => Some (true, cell_of pos)
  | PopRead pos => Some (false, cell_of pos)
  | _ => None
  end.

(** C15: no data race: when a thread is about to write the data of a cell, no
    other thread is about to read or to write it. *)
Theorem multiring_no_race n s ps i j p q c w :
  reachable n (s, ps) -> in_range s -> ps !! i = Some p -> ps !! j = Some q ->
  touches p = Some (true, c) -> touches q = Some (w, c) -> i = j.
Proof using k_range.
  intros R Hr Hi Hj Hp Hq. pose proof (multi_reachable_inv _ _ R Hr) as I. cbn in I. pose proof SIZE_range.
  pose proof (i_threads _ _ I _ _ Hi) as P. pose proof (i_threads _ _ I _ _ Hj) as Q.
  destruct p as [| | | |p x| | | | | |]; try done. injection Hp as <-. cbn in P. destruct P as (_ & [d Hd] & _).
  destruct q as [| | | |q y| | | | |q|]; try done; injection Hq as _ Hc; cbn in Q;
    destruct Q as (_ & [d' Hd'] & _); rewrite Hc, Hd in Hd'; injection Hd' as E _.
  - subst q. by apply (i_filling _ _ I _ _ _ _ _ Hi Hj eq_refl).
  - destruct (same_cell _ _ Hc); lia.
Qed.

(** A push gives up only on a full ring: when it sees the sequence number
    that makes it return [false], its position is the current head, and the cell
    is still occupied by the element one lap before. *)
Theorem multiring_push_full n s ps pos x seq d i :
  reachable n (s, ps) -> in_range s -> ps !! i = Some (PushLoop pos x) ->
  mr_buffer s !! cell_of pos = Some (seq, d) -> dif seq pos < 0 ->
  pos = mr_head s /\ (seq = pos - SIZE /\ mr_tail s + SIZE = mr_head s \/ seq = pos - SIZE + 1).
Proof using k_range.
  intros R Hr Hi Hd E. pose proof (multi_reachable_inv _ _ R Hr) as I. cbn in I. pose proof SIZE_range.
  pose proof (in_range_head _ _ I Hr). pose proof (i_order _ _ I).
  pose proof (i_threads _ _ I _ _ Hi) as Q. cbn in Q.
  rewrite dif_exact in E; [|by eapply seq_at_bound|lia].
  destruct (i_cells _ _ I _ _ Hd) as (p & Hp & [[Ep ?]|[Ep ?]]); cbn in Ep;
    destruct (same_cell _ _ Hp) as [->|[?|?]]; lia.
Qed.

(** A pop gives up only when there is nothing to take at the tail: the ring
    is empty, or the producer of the oldest element has claimed its position
    and not yet published it. *)
Theorem multiring_pop_empty n s ps pos seq d i :
  reachable n (s, ps) -> in_range s -> ps !! i = Some (PopLoop pos) ->
  mr_buffer s !! cell_of pos = Some (seq, d) -> dif seq (u64 (pos + 1)) < 0 ->
  pos = mr_tail s /\ (mr_head s = mr_tail s \/ seq = pos).
Proof using k_range.
  intros R Hr Hi Hd E. pose proof (multi_reachable_inv _ _ R Hr) as I. cbn in I. pose proof SIZE_range.
  pose proof (in_range_head _ _ I Hr). pose proof (i_order _ _ I).
  pose proof (i_threads _ _ I _ _ Hi) as Q. cbn in Q.
  rewrite (wrap_small 64 (pos + 1)), dif_exact in E; [|by eapply seq_at_bound|lia|lia].
  destruct (i_cells _ _ I _ _ Hd) as (p & Hp & [[Ep ?]|[Ep ?]]); cbn in Ep;
    destruct (same_cell _ _ Hp) as [->|[?|?]]; lia.
Qed.
End multiring.

(** ** A run of two producers and a consumer on a ring of two cells *)

Lemma one_step {T} k (s : multiringbuffer * list pc) i p p' (s' : @multiringbuffer T) :
  s.2 !! i = Some p -> access k s.1 p s' p' -> step k s (s', <[i := p']> s.2).
Proof. destruct s. intros Hi Ha. by eapply thread_step. Qed.

Tactic Notation "thread" constr(i) tactic3(t) :=
  eapply rtc_l; [eapply (one_step 1 _ i); [reflexivity|t]|]; cbn.

(** Thread 0 has pushed 7, thread 1 has claimed the next position, and thread 2
    has claimed the first element. *)
Definition sample_ring : multiringbuffer (T := Z) := mkMultiRing [(1, Some 7); (1, None)] 2 1 [7; 8] [].
Definition sample_threads : list (@pc Z) := [Idle; PushWrite 1 8; PopRead 0].

Lemma sample_reachable : reachable 1 3 (sample_ring, sample_threads).
Proof.
  unfold reachable, init. cbn.
  thread 0%nat (apply (push_call _ _ 7)). thread 0%nat (apply (push_load _ _ 0); by vm_compute).
  thread 1%nat (apply (push_call _ _ 8)). thread 1%nat (apply (push_load _ _ 0); by vm_compute).
  thread 0%nat (eapply push_free; reflexivity). thread 0%nat (apply push_claim; reflexivity).
  thread 0%nat (apply push_write). thread 0%nat (apply push_store).
  thread 1%nat (eapply push_late; reflexivity). thread 1%nat (apply (push_load _ _ 1); by vm_compute).
  thread 2%nat (apply pop_call). thread 2%nat (apply (pop_load _ _ 0); by vm_compute).
  thread 2%nat (eapply pop_ready; reflexivity). thread 2%nat (apply pop_claim; reflexivity).
  thread 1%nat (eapply push_free; reflexivity). thread 1%nat (apply push_claim; reflexivity).
  apply rtc_refl.
Qed.

(** Then it reads it. *)
Lemma sample_read_reachable :
  reachable 1 3 (mkMultiRing [(1, Some 7); (1, None)] 2 1 [7; 8] [(0, Some 7)], [Idle; PushWrite 1 8; PopStore 0]).
Proof.
  unfold reachable. etrans; [exact sample_reachable|].
  thread 2%nat (eapply pop_read; reflexivity). apply rtc_refl.
Qed.

Lemma multiring_fifo_witness : is_Some (Some 7) /\ [7; 8] !! 0%nat = Some 7.
Proof.
  destruct (multiring_fifo 1 ltac:(lia) 3 _ _ sample_read_reachable ltac:(vm_compute; reflexivity)) as (_ & P & _).
  destruct (P 0 (Some 7) (list_elem_of_here _ _)) as (_ & Hs & E). exact (conj Hs E).
Defined.

Lemma multiring_no_race_witness : 1%nat = 1%nat.
Proof.
  apply (multiring_no_race 1 ltac:(lia) 3 _ _ 1 1 (PushWrite 1 8) (PushWrite 1 8) 1 true sample_reachable);
    vm_compute; reflexivity.
Defined.

(** A third push on the full ring, and a pop whose element is not published. *)
Lemma multiring_push_full_witness :
  let s := mkMultiRing [(1, Some 7); (1, None)] 2 0 [7; 8] [] in
  reachable (T := Z) 1 2 (s, [PushLoop 2 9; PushWrite 1 8]) /\ 2 = mr_head s.
Proof.
  intros s. assert (reachable (T := Z) 1 2 (s, [PushLoop 2 9; PushWrite 1 8])) as R.
  { unfold reachable, init. cbn.
    thread 0%nat (apply (push_call _ _ 7)). thread 0%nat (apply (push_load _ _ 0); by vm_compute).
    thread 0%nat (eapply push_free; reflexivity). thread 0%nat (apply push_claim; reflexivity).
    thread 0%nat (apply push_write). thread 0%nat (apply push_store).
    thread 1%nat (apply (push_call _ _ 8)). thread 1%nat (apply (push_load _ _ 1); by vm_compute).
    thread 1%nat (eapply push_free; reflexivity). thread 1%nat (apply push_claim; reflexivity).
    thread 0%nat (apply (push_call _ _ 9)). thread 0%nat (apply (push_load _ _ 2); by vm_compute).
    apply rtc_refl. }
  split; [exact R|].
  apply (multiring_push_full 1 ltac:(lia) 2 s _ 2 9 1 (Some 7) 0 R); vm_compute; reflexivity.
Defined.

Lemma multiring_pop_empty_witness :
  let s := mkMultiRing [(0, None); (1, None)] 1 0 [7] [] in
  reachable (T := Z) 1 2 (s, [PushWrite 0 7; PopLoop 0]) /\ 0 = mr_tail s.
Proof.
  intros s. assert (reachable (T := Z) 1 2 (s, [PushWrite 0 7; PopLoop 0])) as R.
  { unfold reachable, init. cbn.
    thread 0%nat (apply (push_call _ _ 7)). thread 0%nat (apply (push_load _ _ 0); by vm_compute).
    thread 0%nat (eapply push_free; reflexivity). thread 0%nat (apply push_claim; reflexivity).
    thread 1%nat (apply pop_call). thread 1%nat (apply (pop_load _ _ 0); by vm_compute).
    apply rtc_refl. }
  split; [exact R|].
  apply (multiring_pop_empty 1 ltac:(lia) 2 s _ 0 0 None 1 R); vm_compute; reflexivity.
Defined.
