(* ===== verification/Semaphore.v ===== *)
(** * Semaphore: src/fastpath/utils/semaphore_light.h

    [LightweightSemaphore]: a counter in user space in front of a semaphore of
    the operating system, as the interleaving of the accesses of any number of
    threads.  A load may return any value, a compare-exchange may fail (the weak
    one for no reason).  Two ghost counters record the units that were signalled
    and the units taken off [m_count].  Both kernel semaphores of Linux are here: sem_t,
    which counts, and the eventfd that is chosen where it is available and hands its
    whole counter to one waiter. *)
From S2P Require Import Prelude.

Record LightweightSemaphore := mkSemaphore {
  m_count : Z;        (* ssize_t *)
  m_sema : Z;         (* the value of the operating system's semaphore *)
  signalled : Z;      (* ghost: the sum of the [count]s of [signal] *)
  taken : Z           (* ghost: the units taken off [m_count] *)
}.

Definition set_count (s : LightweightSemaphore) (c t : Z) : LightweightSemaphore :=
  mkSemaphore c (m_sema s) (signalled s) t.
Definition set_sema (s : LightweightSemaphore) (v : Z) : LightweightSemaphore :=
  mkSemaphore (m_count s) v (signalled s) (taken s).

(** [LightweightSemaphore(initialCount)] *)
Definition sema_new (initialCount : Z) : LightweightSemaphore := mkSemaphore initialCount 0 0 0.

(** The count after a successful try for up to [max] units. *)
Definition newCount (oldCount max : Z) : Z := if max <? oldCount then oldCount - max else 0.
(** [signal]: how many waiters the signal releases. *)
Definition toRelease (oldCount count : Z) : Z := if - oldCount <? count then - oldCount else count.
Definition availableApprox (s : LightweightSemaphore) : Z := if 0 <? m_count s then m_count s else 0.

(** Where a thread is.  [max] is the number of units it wants at most ([tryWait]
    and [wait] want one), [blocking] tells [wait] and [waitMany] from the try
    operations, [spin] is the number of turns of the spin loop that are left. *)
Inductive pc :=
  | Outside
  | TryLoad (max : Z) (blocking : bool)
  | TryTest (oldCount max : Z) (blocking : bool)
  | SpinLoad (spin : nat) (max : Z)
  | SpinTest (spin : nat) (oldCount max : Z)
  | Subtract (max : Z)         (* m_count.fetch_sub(1) *)
  | KernelWait (max : Z)       (* m_sema.wait() *)
  | Add (count : Z)            (* m_count.fetch_add(count) *)
  | Post (count : Z).          (* m_sema.signal(count): posts still to do *)

(** After the first unit of [waitMany] a try for the others. *)
Definition after_first (max : Z) : pc := if 1 <? max then TryLoad (max - 1) false else Outside.

(** [int spin = 10000] *)
Definition spin_limit : nat := Z.to_nat 10000.

(** Units a thread has taken off the counter and is still waiting for. *)
Definition waits (p : pc) : nat := match p with KernelWait _ => 1 | _ => 0 end.
(** Posts a thread has still to do. *)
Definition posts (p : pc) : nat := match p with Post c => Z.to_nat c | _ => 0 end.

(** The counters of the waiters and of the posts when thread [i] moves. *)
Ltac sema_counts i p p' Hi :=
  pose proof (sum_insert waits _ i p p' Hi); pose proof (sum_insert posts _ i p p' Hi);
  cbn [waits posts] in *.

Section semaphore.
Context (eventfd : bool).   (* HAVE_EVENTFD: an eventfd, whose read takes the whole value *)

Inductive access (s : LightweightSemaphore) : pc -> LightweightSemaphore -> pc -> Prop :=
  | call_wait max blocking : 0 <= max -> access s Outside s (TryLoad max blocking)
  | call_signal count : 0 <= count -> access s Outside s (Add count)
  | try_load max blocking v : access s (TryLoad max blocking) s (TryTest v max blocking)
  | try_success max blocking : 0 < m_count s ->
      access s (TryTest (m_count s) max blocking)
        (set_count s (newCount (m_count s) max) (taken s + (m_count s - newCount (m_count s) max))) Outside
  | try_again oldCount max blocking : 0 < oldCount ->
      access s (TryTest oldCount max blocking) s (TryTest (m_count s) max blocking)
  | try_fails oldCount max blocking : oldCount <= 0 ->
      access s (TryTest oldCount max blocking) s
        (if blocking && (0 <? max) then SpinLoad spin_limit max else Outside)
  | spin_load spin max v : access s (SpinLoad (S spin) max) s (SpinTest spin v max)
  | spin_done max : access s (SpinLoad 0 max) s (Subtract max)
  | spin_success spin max : 0 < m_count s ->
      access s (SpinTest spin (m_count s) max)
        (set_count s (newCount (m_count s) max) (taken s + (m_count s - newCount (m_count s) max))) Outside
  | spin_again spin oldCount max : oldCount <> m_count s \/ oldCount <= 0 ->
      access s (SpinTest spin oldCount max) s (SpinLoad spin max)
  | subtract max :
      access s (Subtract max) (set_count s (to_signed 64 (m_count s - 1)) (taken s + 1))
        (if m_count s <=? 0 then KernelWait max else after_first max)
  | kernel_wait max : 0 < m_sema s ->
      access s (KernelWait max) (set_sema s (if eventfd then 0 else m_sema s - 1)) (after_first max)
  | add count :
      access s (Add count)
        (mkSemaphore (to_signed 64 (m_count s + count)) (m_sema s) (signalled s + count) (taken s))
        (if 0 <? toRelease (m_count s) count then Post (to_signed 32 (toRelease (m_count s) count)) else Outside)
  | post count : 0 < count -> access s (Post count) (set_sema s (m_sema s + 1)) (Post (count - 1))
  | posted count : count <= 0 -> access s (Post count) s Outside.

Inductive step : LightweightSemaphore * list pc -> LightweightSemaphore * list pc -> Prop :=
  | thread_step i p p' s s' ps :
      ps !! i = Some p -> access s p s' p' -> step (s, ps) (s', <[i := p']> ps).

Definition waiting (ps : list pc) : Z := Z.of_nat (sum_list_with waits ps).
Definition posting (ps : list pc) : Z := Z.of_nat (sum_list_with posts ps).

(** How many threads may be in the kernel's [wait] at a time: any number if its
    semaphore counts, one if it is an eventfd (two of them are [eventfd_loses_wakeup]). *)
Definition sleepers_ok (x : LightweightSemaphore * list pc) : Prop := eventfd = true -> waiting x.2 <= 1.

Section runs.
Context (n : nat) (initialCount : Z).

Definition init : LightweightSemaphore * list pc := (sema_new initialCount, replicate n Outside).
Definition reachable (s : LightweightSemaphore * list pc) : Prop := rtc step init s.
(** Runs with no more sleepers than that. *)
Definition orderly_step (a b : LightweightSemaphore * list pc) : Prop := step a b /\ sleepers_ok b.
Definition orderly (s : LightweightSemaphore * list pc) : Prop := rtc orderly_step init s.

Lemma counting_orderly s : eventfd = false -> reachable s -> orderly s.
Proof. intros He. unfold reachable, orderly. apply rtc_subrel. intros a b Hs. split; [done|]. unfold sleepers_ok. congruence. Qed.
End runs.

Definition sane (p : pc) : Prop :=
  match p with
  | TryLoad max _ | TryTest _ max _ => 0 <= max
  | SpinLoad _ max | SpinTest _ _ max | Subtract max | KernelWait max => 0 < max
  | Add count => 0 <= count
  | Outside | Post _ => True
  end.

Record inv (initialCount : Z) (s : LightweightSemaphore) (ps : list pc) : Prop := {
  i_count : m_count s = initialCount + signalled s - taken s;
  i_kernel : 0 <= m_sema s /\ m_sema s + posting ps = waiting ps - Z.max 0 (- m_count s);
  i_sane : forall i p, ps !! i = Some p -> sane p;
  i_ghost : 0 <= signalled s /\ 0 <= taken s
}.

(** The counters stay in the range of their types. *)
Definition in_range (n : nat) (initialCount : Z) (s : LightweightSemaphore) : Prop :=
  initialCount + signalled s < 2 ^ 62 /\ Z.of_nat n < 2 ^ 31.

Lemma after_first_sane max : 0 < max -> sane (after_first max) /\ waits (after_first max) = 0%nat /\ posts (after_first max) = 0%nat.
Proof. intros Hm. unfold after_first. destruct (Z.ltb_spec 1 max); cbn; repeat split; lia. Qed.

Lemma newCount_range c max : 0 < c -> 0 <= max -> 0 <= newCount c max <= c.
Proof. intros. unfold newCount. destruct (Z.ltb_spec max c); lia. Qed.

Lemma toRelease_max c count : 0 <= count ->
  Z.max 0 (- (c + count)) = Z.max 0 (- c) - Z.max 0 (toRelease c count) /\ toRelease c count <= Z.max 0 (- c).
Proof. intros. unfold toRelease. destruct (Z.ltb_spec (- c) count); lia. Qed.

(** A step that leaves the counters alone. *)
Lemma sema_inv_move c0 s ps i p p' :
  inv c0 s ps -> ps !! i = Some p -> sane p' -> waits p' = waits p -> posts p' = posts p -> inv c0 s (<[i := p']> ps).
Proof.
  intros [Ic Ik Is Ig] Hi Hs Hw Hp. unfold waiting, posting in *.
  pose proof (sum_insert waits _ i p p' Hi). pose proof (sum_insert posts _ i p p' Hi).
  split; unfold waiting, posting; [done|lia| |done].
  intros j q Hj. apply list_lookup_insert_Some in Hj as [(<- & <- & _)|[_ Hj]]; eauto.
Qed.

(** A step that changes them, by the two equations of the invariant. *)
Lemma sema_inv_change c0 s s' ps i p p' :
  inv c0 s ps -> ps !! i = Some p -> sane p' ->
  m_count s' - m_count s = (signalled s' - signalled s) - (taken s' - taken s) ->
  0 <= m_sema s' ->
  (m_sema s' - m_sema s) + (Z.of_nat (posts p') - Z.of_nat (posts p)) =
    (Z.of_nat (waits p') - Z.of_nat (waits p)) - (Z.max 0 (- m_count s') - Z.max 0 (- m_count s)) ->
  0 <= signalled s' /\ 0 <= taken s' -> inv c0 s' (<[i := p']> ps).
Proof.
  intros [Ic Ik Is Ig] Hi Hs Hc H0 Hk Hg. unfold waiting, posting in *.
  pose proof (sum_insert waits _ i p p' Hi). pose proof (sum_insert posts _ i p p' Hi).
  split; unfold waiting, posting; [lia|lia| |done].
  intros j q Hj. apply list_lookup_insert_Some in Hj as [(<- & <- & _)|[_ Hj]]; eauto.
Qed.

Lemma waiting_bound ps : waiting ps <= Z.of_nat (length ps).
Proof. unfold waiting. pose proof (sum_bound waits 1 ps ltac:(intros []; cbn; lia)). lia. Qed.

Lemma sema_inv_step c0 s ps s' ps' :
  sleepers_ok (s, ps) -> step (s, ps) (s', ps') -> inv c0 s ps -> in_range (length ps) c0 s' -> inv c0 s' ps'.
Proof.
  intros He Hstep I Hr. inversion Hstep as [i p p' ? ? ? Hi Ha]; subst s' ps' s0 ps0.
  pose proof (i_sane _ _ _ I _ _ Hi) as Hp. destruct (i_kernel _ _ _ I) as [K1 K2]. pose proof (i_count _ _ _ I).
  destruct (i_ghost _ _ _ I). pose proof (waiting_bound ps). unfold in_range in Hr.
  assert (0 <= posting ps) by (unfold posting; lia).
  destruct Ha; cbn [sane signalled set_count set_sema] in *;
    try (by eapply sema_inv_move; [exact I|exact Hi|cbn; lia..]).
  - pose proof (newCount_range (m_count s) max ltac:(done) ltac:(done)).
    eapply sema_inv_change; [exact I|exact Hi|cbn; lia..].
  - eapply sema_inv_move; [exact I|exact Hi| | |]; destruct blocking; destruct (Z.ltb_spec 0 max); cbn; lia.
  - pose proof (newCount_range (m_count s) max ltac:(done) ltac:(lia)).
    eapply sema_inv_change; [exact I|exact Hi|cbn; lia..].
  - destruct (after_first_sane max Hp) as (S1 & S2 & S3). rewrite to_signed_small by lia.
    destruct (Z.leb_spec (m_count s) 0); (eapply sema_inv_change; [exact I|exact Hi| | | | |]); cbn [waits posts]; rewrite ?S2, ?S3; try done; cbn; lia.
  - destruct (after_first_sane max Hp) as (S1 & S2 & S3).
    assert ((if eventfd then 0 else m_sema s - 1) = m_sema s - 1) as ->.
    { unfold sleepers_ok in He. cbn [snd] in He. destruct eventfd; [specialize (He eq_refl); lia|done]. }
    eapply sema_inv_change; [exact I|exact Hi|exact S1| | | |]; rewrite ?S2, ?S3; cbn; lia.
  - destruct (toRelease_max (m_count s) count Hp) as [T1 T2]. rewrite (to_signed_small 64) by lia.
    destruct (Z.ltb_spec 0 (toRelease (m_count s) count)).
    + rewrite (to_signed_small 32) by lia. eapply sema_inv_change; [exact I|exact Hi|cbn; lia..].
    + eapply sema_inv_change; [exact I|exact Hi|cbn; lia..].
  - eapply sema_inv_change; [exact I|exact Hi|cbn; lia..].
Qed.

Lemma step_threads s ps s' ps' : step (s, ps) (s', ps') -> length ps' = length ps.
Proof. inversion 1; subst. apply length_insert. Qed.

Lemma access_sane s p s' p' : access s p s' p' -> sane p -> sane p' /\ signalled s <= signalled s'.
Proof.
  destruct 1; cbn; intros Hp; try (split; [done||lia|lia]).
  - split; [|lia]. destruct blocking; destruct (Z.ltb_spec 0 max); cbn; lia.
  - split; [|lia]. destruct (_ <=? 0); [done|]. by apply after_first_sane.
  - split; [|lia]. by apply after_first_sane.
  - split; [|lia]. by destruct (0 <? _).
Qed.

Lemma sema_inv_init n c0 : 0 <= c0 -> inv c0 (sema_new c0) (replicate n Outside).
Proof.
  intros Hc. split; unfold waiting, posting; cbn; rewrite ?sum_replicate by done; try lia.
  intros i p Hi. apply lookup_replicate in Hi as [-> _]. done.
Qed.

(** What holds in every state, in range or not, and the invariant for those in range. *)
Definition kept (n : nat) (c0 : Z) (s : LightweightSemaphore * list pc) : Prop :=
  length s.2 = n /\ (forall i p, s.2 !! i = Some p -> sane p) /\ (in_range n c0 s.1 -> inv c0 s.1 s.2).

Lemma kept_step n c0 s s' : step s s' -> sleepers_ok s -> kept n c0 s -> kept n c0 s'.
Proof.
  destruct s as [s ps], s' as [s' ps']. intros Hstep He (Hl & Hs & I). unfold kept. cbn in *.
  assert (forall j q, ps' !! j = Some q -> sane q) as Hs' by
    (inversion Hstep as [i p p' ? ? ? Hi Ha]; subst; intros j q Hj;
     apply list_lookup_insert_Some in Hj as [(<- & <- & _)|[_ Hj]]; [|by eauto];
     by eapply access_sane; eauto).
  assert (signalled s <= signalled s') as Hg by
    (inversion Hstep as [i p p' ? ? ? Hi Ha]; subst; eapply access_sane; eauto).
  split; [by rewrite (step_threads _ _ _ _ Hstep)|]. split; [done|]. intros Hr.
  assert (in_range n c0 s) as Hr0 by (unfold in_range in *; lia).
  rewrite <- Hl in Hr. by eapply sema_inv_step; eauto.
Qed.

Lemma kept_init n c0 : 0 <= c0 -> kept n c0 (init n c0).
Proof.
  intros Hc. split; [apply length_replicate|]. split; [|intros _; by apply sema_inv_init].
  intros i p Hi. apply lookup_replicate in Hi as [-> _]. done.
Qed.

Lemma sleepers_ok_init n c0 : sleepers_ok (init n c0).
Proof. intros _. unfold waiting. cbn. by rewrite sum_replicate. Qed.

Lemma sema_orderly_inv n c0 s : 0 <= c0 -> orderly n c0 s -> kept n c0 s.
Proof.
  intros Hc R. enough (forall a b, rtc orderly_step a b -> sleepers_ok a -> kept n c0 a -> kept n c0 b) as A.
  { by apply (A _ _ R); [apply sleepers_ok_init|apply kept_init]. }
  induction 1 as [|a b c [Hs Hb] _ IH]; intros Ha Hk; [done|]. apply IH; [done|]. by eapply kept_step.
Qed.

(** The units handed out: taken off the counter, less those still waited for. *)
Definition handed_out (s : LightweightSemaphore) (ps : list pc) : Z := taken s - waiting ps.

Lemma handed_out_eq c0 s ps : inv c0 s ps ->
  handed_out s ps = c0 + signalled s - Z.max 0 (m_count s) - m_sema s - posting ps.
Proof. intros [Ic [K1 K2] _ _]. unfold handed_out. lia. Qed.

(** The semaphore never hands out more units than it was given: with any
    number of threads that wait, try and signal in any interleaving, the units
    handed out are at most the initial count and what was signalled. *)
Theorem semaphore_bounded n c0 s ps :
  0 <= c0 -> orderly n c0 (s, ps) -> in_range n c0 s ->
  handed_out s ps <= c0 + signalled s.
Proof.
  intros Hc R Hr. destruct (sema_orderly_inv n c0 _ Hc R) as (_ & _ & I). specialize (I Hr). cbn in I.
  rewrite (handed_out_eq _ _ _ I). destruct (i_kernel _ _ _ I). unfold posting. lia.
Qed.

(** C25: no wake-up is lost, with a kernel semaphore that counts and any number of
    sleepers, or with an eventfd and at most one sleeper at a time: when every thread
    is outside or asleep in the kernel and none of the sleepers can go on, then every
    unit there ever was has been handed out, and the counter is the number of
    sleepers below zero.  (With an eventfd and two sleepers a wake-up is lost:
    [eventfd_loses_wakeup].) *)
Theorem semaphore_no_lost_wakeup n c0 s ps :
  0 <= c0 -> orderly n c0 (s, ps) -> in_range n c0 s ->
  (forall i p, ps !! i = Some p -> p = Outside \/ exists max, p = KernelWait max) ->
  m_sema s = 0 -> 0 < waiting ps ->
  handed_out s ps = c0 + signalled s /\ m_count s = - waiting ps.
Proof.
  intros Hc R Hr Hps H0 Hw. destruct (sema_orderly_inv n c0 _ Hc R) as (_ & _ & I). specialize (I Hr). cbn in I.
  assert (posting ps = 0) as Hp.
  { unfold posting. enough (sum_list_with posts ps = 0%nat) by lia. clear -Hps.
    induction ps as [|p ps IH]; simpl; [done|]. rewrite IH by (intros i; apply (Hps (S i))).
    by destruct (Hps 0%nat p eq_refl) as [->|[? ->]]. }
  rewrite (handed_out_eq _ _ _ I). destruct (i_kernel _ _ _ I). lia.
Qed.
End semaphore.

(** ** Runs *)

Section sample_runs.
Context (eventfd : bool) (R : LightweightSemaphore * list pc -> LightweightSemaphore * list pc -> Prop).
Context (R_access : forall s ps i p s' p', ps !! i = Some p -> p <> Outside -> access eventfd s p s' p' ->
  R (s, ps) (s', <[i := p']> ps)).

(** A thread that spins without success. *)
Lemma run_spin k s ps i max :
  ps !! i = Some (SpinLoad k max) -> rtc R (s, ps) (s, <[i := Subtract max]> ps).
Proof using R_access.
  revert ps. induction k as [|k IH]; intros ps Hi.
  - eapply rtc_once, R_access; [done|done|apply spin_done].
  - assert (i < length ps)%nat as Hl by by eapply lookup_lt_Some.
    eapply rtc_l; [eapply R_access; [done|done|apply (spin_load _ _ _ _ 0)]|].
    eapply rtc_l; [eapply R_access; [by apply list_lookup_insert_eq|done|apply spin_again; by right]|].
    rewrite list_insert_insert_eq. etrans; [apply IH; by apply list_lookup_insert_eq|].
    rewrite list_insert_insert_eq. apply rtc_refl.
Qed.

(** A call of [wait] that finds nothing to take, up to the kernel. *)
Lemma run_wait_from s ps i :
  ps !! i = Some (TryLoad 1 true) -> - 2 ^ 62 < m_count s <= 0 ->
  rtc R (s, ps) (set_count s (m_count s - 1) (taken s + 1), <[i := KernelWait 1]> ps).
Proof using R_access.
  intros Hi Hc. assert (i < length ps)%nat as Hl by by eapply lookup_lt_Some.
  eapply rtc_l; [eapply R_access; [done|done|apply (try_load _ _ _ _ 0)]|].
  eapply rtc_l; [eapply R_access; [by apply list_lookup_insert_eq|done|by apply try_fails]|].
  rewrite list_insert_insert_eq. etrans; [eapply run_spin; by apply list_lookup_insert_eq|].
  rewrite list_insert_insert_eq.
  eapply rtc_l; [eapply R_access; [by apply list_lookup_insert_eq|done|apply subtract]|].
  rewrite list_insert_insert_eq, to_signed_small by lia.
  rewrite (proj2 (Z.leb_le (m_count s) 0)) by lia. apply rtc_refl.
Qed.
End sample_runs.

Lemma one_access e s ps i p s' p' :
  ps !! i = Some p -> access e s p s' p' -> step e (s, ps) (s', <[i := p']> ps).
Proof. intros. by eapply thread_step. Qed.

Lemma run_wait e s ps i :
  ps !! i = Some Outside -> - 2 ^ 62 < m_count s <= 0 ->
  rtc (step e) (s, ps) (set_count s (m_count s - 1) (taken s + 1), <[i := KernelWait 1]> ps).
Proof.
  intros Hi Hc. assert (i < length ps)%nat as Hl by by eapply lookup_lt_Some.
  eapply rtc_l; [eapply one_access; [done|apply (call_wait _ _ 1 true); lia]|].
  etrans; [apply (run_wait_from e (step e)); [intros; by eapply one_access|by apply list_lookup_insert_eq|done]|].
  rewrite list_insert_insert_eq. apply rtc_refl.
Qed.

(** A call of [signal] with two sleepers, for both. *)
Lemma run_signal2 e s ps i :
  ps !! i = Some Outside -> m_count s = -2 ->
  rtc (step e) (s, ps) (mkSemaphore 0 (m_sema s + 2) (signalled s + 2) (taken s), <[i := Outside]> ps).
Proof.
  intros Hi Hc. assert (i < length ps)%nat as Hl by by eapply lookup_lt_Some.
  eapply rtc_l; [eapply one_access; [done|apply (call_signal _ _ 2); lia]|].
  eapply rtc_l; [eapply one_access; [by apply list_lookup_insert_eq|apply add]|].
  rewrite Hc, list_insert_insert_eq. change (toRelease (-2) 2) with 2. change (to_signed 64 (-2 + 2)) with 0.
  change (to_signed 32 2) with 2. cbn [Z.ltb Z.compare].
  do 2 (eapply rtc_l; [eapply one_access; [by apply list_lookup_insert_eq|by apply post]|]; rewrite list_insert_insert_eq).
  eapply rtc_l; [eapply one_access; [by apply list_lookup_insert_eq|by apply posted]|]. rewrite list_insert_insert_eq.
  unfold set_sema. cbn. replace (m_sema s + 1 + 1) with (m_sema s + 2) by lia. apply rtc_refl.
Qed.

(** Two threads sleep. *)
Lemma two_sleepers e :
  reachable e 3 0 (mkSemaphore (-2) 0 0 2, [KernelWait 1; KernelWait 1; Outside]).
Proof.
  unfold reachable. etrans; [eapply (run_wait e _ _ 0%nat); [reflexivity|cbn; lia]|].
  etrans; [eapply (run_wait e _ _ 1%nat); [reflexivity|cbn; lia]|]. apply rtc_refl.
Qed.

(** With an eventfd for the kernel's semaphore a wake-up is lost: its read takes
    every unit that was posted.  Two threads sleep, both are signalled, the first
    to wake up takes both posts, and the second sleeps on although one unit was
    never handed out. *)
Theorem eventfd_loses_wakeup :
  exists s, reachable true 3 0 (s, [Outside; KernelWait 1; Outside]) /\
    m_sema s = 0 /\ m_count s = 0 /\ handed_out s [Outside; KernelWait 1; Outside] < signalled s.
Proof.
  exists (mkSemaphore 0 0 2 2). split; [|done].
  unfold reachable. etrans; [apply two_sleepers|].
  etrans; [eapply (run_signal2 true _ _ 2%nat); reflexivity|]. cbn.
  eapply rtc_l; [eapply (one_access true _ _ 0%nat); [reflexivity|by apply kernel_wait]|].
  apply rtc_refl.
Qed.

Lemma semaphore_bounded_witness : handed_out (mkSemaphore (-2) 0 0 2) [KernelWait 1; KernelWait 1; Outside] <= 0 + 0.
Proof.
  apply (semaphore_bounded false 3 0 (mkSemaphore (-2) 0 0 2) _); [lia|by apply counting_orderly, two_sleepers|].
  vm_compute. split; reflexivity.
Defined.

Lemma semaphore_no_lost_wakeup_witness :
  let s := mkSemaphore (-2) 0 0 2 in let ps := [KernelWait 1; KernelWait 1; Outside] in
  handed_out s ps = 0 + signalled s /\ m_count s = - waiting ps.
Proof.
  intros s ps. apply (semaphore_no_lost_wakeup false 3 0 s ps).
  - lia.
  - by apply counting_orderly, two_sleepers.
  - vm_compute. split; reflexivity.
  - intros [|[|[|i]]] p E; cbn in E; try discriminate; injection E as <-; eauto.
  - reflexivity.
  - vm_compute. reflexivity.
Defined.
