(* ===== verification/SemaphorePorts.v ===== *)
(** * SemaphorePorts: the semaphores of the operating systems

    src/fastpath/utils/semaphore_light.h: the class [Semaphore] in its versions for
    Windows, macOS and POSIX, with an eventfd and without.  [LightweightSemaphore]
    (Semaphore.v) relies on [OsSemaphore]: a [signal] adds its units and a [wait]
    takes one.  Negative counts are asserted away by its callers. *)
From S2P Require Import Prelude.

(** ** What the light semaphore relies on *)

(** [units] is what is there to be taken and [most] how much there can be;
    [os_wait] is [None] when the thread sleeps. *)
Class OsSemaphore (S : Type) := {
  units : S -> Z;
  most : Z;
  os_wait : S -> option S;
  os_signal : Z -> S -> S;
  os_wait_none s : os_wait s = None <-> units s <= 0;
  os_wait_some s s' : os_wait s = Some s' -> units s' = units s - 1;
  os_signal_units n s : 0 <= n -> 0 <= units s -> units s + n <= most -> units (os_signal n s) = units s + n
}.

Section clients.
Context {S : Type} `{OsSemaphore S}.

(** [n] waits in a row; [None] when one of them sleeps. *)
Fixpoint waits_in_row (n : nat) (s : S) : option S :=
  match n with O => Some s | Datatypes.S n => s ← os_wait s; waits_in_row n s end.

Lemma waits_in_row_units n : forall s, 0 <= units s ->
  match waits_in_row n s with Some s' => units s' = units s - Z.of_nat n /\ Z.of_nat n <= units s | None => units s < Z.of_nat n end.
Proof.
  induction n as [|n IH]; intros s Hs; cbn [waits_in_row]; [lia|].
  destruct (os_wait s) as [s1|] eqn:E; cbn [mbind option_bind].
  - assert (0 < units s) as Hp by (destruct (Z_le_dec (units s) 0) as [Hz|Hz]; [apply os_wait_none in Hz; congruence|lia]).
    apply os_wait_some in E. assert (0 <= units s1) as H1 by lia. specialize (IH s1 H1). destruct (waits_in_row n s1); lia.
  - apply os_wait_none in E. lia.
Qed.

(** A signal of [n] units lets exactly [n] more waits through. *)
Theorem signal_wakes_count n k s : 0 <= n -> 0 <= units s -> units s + n <= most ->
  is_Some (waits_in_row k (os_signal n s)) <-> Z.of_nat k <= units s + n.
Proof.
  intros Hn Hs Hm. pose proof (os_signal_units n s Hn Hs Hm) as Hu.
  assert (0 <= units (os_signal n s)) as H0 by lia.
  pose proof (waits_in_row_units k _ H0) as Hw.
  destruct (waits_in_row k _); split; [lia|by eexists|by intros []|lia].
Qed.
End clients.

(** ** The kernels *)

(** semaphore(2) of Mach, sem_overview(7): a semaphore with a value; a wait on zero
    sleeps, a post adds one up to the largest value. *)
Class CountingSemaphore (K : Type) := {
  sem_value : K -> Z;
  SEM_VALUE_MAX : Z;
  sem_wait : K -> option K;
  sem_post : K -> K;
  sem_wait_none k : sem_wait k = None <-> sem_value k <= 0;
  sem_wait_some k k' : sem_wait k = Some k' -> sem_value k' = sem_value k - 1;
  sem_post_value k : sem_value k < SEM_VALUE_MAX -> sem_value (sem_post k) = sem_value k + 1
}.

Section counting.
Context {K : Type} `{CountingSemaphore K}.

(** [while (count-- > 0) semaphore_signal(m_sema);], the same with [sem_post]. *)
Definition signal_loop (count : Z) (k : K) : K := Nat.iter (Z.to_nat count) sem_post k.

(** [Semaphore(initialCount)] with its assertion. *)
Definition Semaphore_new (create : Z -> K) (initialCount : Z) : outcome K :=
  _ ← assert_ (0 <=? initialCount); Ok (create initialCount).

Lemma signal_loop_value n : forall k, 0 <= sem_value k -> sem_value k + Z.of_nat n <= SEM_VALUE_MAX ->
  sem_value (Nat.iter n sem_post k) = sem_value k + Z.of_nat n.
Proof.
  induction n as [|n IH]; intros k Hk Hm; [cbn; lia|]. rewrite Nat.iter_succ.
  assert (sem_value (Nat.iter n sem_post k) = sem_value k + Z.of_nat n) as E by (apply IH; lia).
  rewrite sem_post_value; rewrite E; lia.
Qed.

(** The versions for macOS and POSIX. *)
#[export, refine] Instance counting_os_semaphore : OsSemaphore K := {|
  units := sem_value; most := SEM_VALUE_MAX; os_wait := sem_wait; os_signal := signal_loop
|}.
Proof.
  - apply sem_wait_none.
  - apply sem_wait_some.
  - intros n k Hn Hk Hm. unfold signal_loop. rewrite signal_loop_value; rewrite ?Z2Nat.id; lia.
Defined.

(** [wait()] of the POSIX version: [sem_wait] again as long as it is interrupted;
    the number of calls, if the results suffice. *)
Inductive SemRc := Acquired | Interrupted | Failed.
Fixpoint posix_wait (results : list SemRc) : option nat :=
  match results with
  | [] => None
  | Interrupted :: results => S <$> posix_wait results
  | _ :: _ => Some 1%nat
  end.

(** Signals only delay it: it ends with the first call that was not interrupted. *)
Lemma posix_wait_interrupted n r rest : r <> Interrupted -> posix_wait (replicate n Interrupted ++ r :: rest) = Some (S n).
Proof. intros Hr. induction n as [|n IH]; cbn; [by destruct r|by rewrite IH]. Qed.
End counting.

(** Windows: ReleaseSemaphore adds all units, or none if that were more than the
    maximum the semaphore was created with. *)
Definition maxLong : Z := 2147483647.
Definition ReleaseSemaphore (count v : Z) : Z := if v + count <=? maxLong then v + count else v.
Definition WaitForSingleObject (v : Z) : option Z := if 0 <? v then Some (v - 1) else None.

Module Windows.
#[export, refine] Instance windows_semaphore : OsSemaphore Z := {|
  units v := v; most := maxLong; os_wait := WaitForSingleObject; os_signal := ReleaseSemaphore
|}.
Proof.
  - intros s. unfold WaitForSingleObject. destruct (Z.ltb_spec 0 s); split; (done || lia).
  - intros s s'. unfold WaitForSingleObject. destruct (0 <? s); [|done]. by intros [= <-].
  - intros n s Hn Hs Hm. unfold ReleaseSemaphore. by rewrite (proj2 (Z.leb_le _ _)).
Defined.
End Windows.

(** ** The eventfd

    [eventfd(initialCount, 0)]: a read takes the whole value. *)
Definition eventfd_wait (v : Z) : option Z := if v =? 0 then None else Some 0.
Definition eventfd_signal (count v : Z) : Z := Nat.iter (Z.to_nat count) (fun v => v + 1) v.

Lemma iter_succ n : forall v, Nat.iter n (fun v => v + 1) v = v + Z.of_nat n.
Proof. induction n as [|n IH]; intros v; [cbn; lia|]. rewrite Nat.iter_succ, IH. lia. Qed.

(** It is no [OsSemaphore]: after a signal of two or more units the first wait takes
    them all and the second sleeps. *)
Theorem eventfd_signal_lost count : 2 <= count ->
  exists v, eventfd_wait (eventfd_signal count 0) = Some v /\ eventfd_wait v = None.
Proof.
  intros Hc. exists 0. split; [|done]. unfold eventfd_signal, eventfd_wait. rewrite iter_succ, Z2Nat.id by lia.
  by rewrite (proj2 (Z.eqb_neq _ _)) by lia.
Qed.

(** ** Waiting with a timeout *)

(** [wait(duration)] in nanoseconds: on macOS [tv_sec] is a 32 bit unsigned and [tv_nsec]
    an [int], and the product of the seconds is computed in 32 bits; POSIX has 64 bits. *)
Definition mach_timespec (duration : Z) : Z * Z :=
  let tv_sec := u32 (Z.quot duration 1000000000) in
  (tv_sec, to_signed 32 (duration - u32 (tv_sec * 1000000000))).
Definition posix_timespec (duration : Z) : Z * Z :=
  let tv_sec := Z.quot duration 1000000000 in (tv_sec, duration - tv_sec * 1000000000).

Definition normalised (t : Z * Z) (duration : Z) : Prop :=
  0 <= t.2 < 1000000000 /\ t.1 * 1000000000 + t.2 = duration.

(** Both are the duration in normal form; on macOS the product wraps around from
    five seconds on, and the conversion of the difference undoes that. *)
Theorem timespecs_normalised duration : 0 <= duration ->
  normalised (posix_timespec duration) duration /\
  (duration < 2 ^ 32 * 1000000000 -> normalised (mach_timespec duration) duration).
Proof.
  intros Hd. unfold normalised, posix_timespec, mach_timespec. cbn [fst snd]. rewrite Z.quot_div_nonneg by lia.
  pose proof (Z.div_mod duration 1000000000 ltac:(lia)) as E. pose proof (Z.mod_pos_bound duration 1000000000 ltac:(lia)).
  pose proof (Z.div_pos duration 1000000000 ltac:(lia) ltac:(lia)). split; [lia|]. intros Hm.
  rewrite (wrap_small 32 (duration / 1000000000)) by lia.
  set (q := duration / 1000000000) in *. set (r := duration mod 1000000000) in *.
  assert (to_signed 32 (duration - u32 (q * 1000000000)) = r) as ->; [|lia].
  assert (wrap 32 (duration - wrap 32 (q * 1000000000)) = wrap 32 r) as Ew.
  { unfold wrap. rewrite Zminus_mod_idemp_r. f_equal. lia. }
  unfold to_signed. rewrite Ew. rewrite wrap_small by lia. by rewrite (proj2 (Z.ltb_lt _ _)) by lia.
Qed.

(** [sem_timedwait] takes a point in time, semaphore_timedwait a duration: how long
    a wait on an empty semaphore lasts that begins at [now]. *)
Definition mach_wait_lasts (duration : Z) : Z := (mach_timespec duration).1 * 1000000000 + (mach_timespec duration).2.
Definition posix_wait_lasts (now duration : Z) : Z :=
  Z.max 0 ((posix_timespec duration).1 * 1000000000 + (posix_timespec duration).2 - now).

(** On POSIX the duration is taken for a point in time long ago, and the wait does
    not last at all. *)
Theorem timed_wait_lasts now duration : 0 <= duration < 2 ^ 32 * 1000000000 ->
  mach_wait_lasts duration = duration /\ (duration <= now -> posix_wait_lasts now duration = 0).
Proof.
  intros Hd. destruct (timespecs_normalised duration ltac:(lia)) as [[_ Hp] Hm]. destruct (Hm ltac:(lia)) as [_ Hm'].
  unfold mach_wait_lasts, posix_wait_lasts. rewrite Hp. split; [done|lia].
Qed.

(** ** Samples *)

Lemma timespecs_normalised_witness : normalised (posix_timespec 7250000000) 7250000000 /\ normalised (mach_timespec 7250000000) 7250000000.
Proof. destruct (timespecs_normalised 7250000000) as [Hp Hm]; [lia|]. split; [exact Hp|apply Hm; lia]. Defined.

Lemma timed_wait_lasts_witness : mach_wait_lasts 7250000000 = 7250000000 /\ posix_wait_lasts 1460000000000000000 7250000000 = 0.
Proof. destruct (timed_wait_lasts 1460000000000000000 7250000000) as [Hm Hp]; [lia|]. split; [exact Hm|apply Hp; lia]. Defined.

Lemma eventfd_signal_lost_witness : exists v, eventfd_wait (eventfd_signal 3 0) = Some v /\ eventfd_wait v = None.
Proof. apply (eventfd_signal_lost 3). lia. Defined.

Import Windows.
Lemma signal_wakes_count_witness : is_Some (waits_in_row 3 (os_signal 2 1)).
Proof. apply (signal_wakes_count 2 3 1); vm_compute; discriminate. Defined.
