(* ===== verification/BlockingRing.v ===== *)
(** * BlockingRing: src/fastpath/utils/blocking_ringbuffer.h

    A ring buffer with a semaphore: [push] signals after every push, [pop_wait]
    waits when it finds the ring empty.  One producer and one consumer; the ring
    is any bounded queue ([BoundedFifo]), whose push and pop are one step each
    (RingBuffer shows that the steps of the two threads on the ring have the
    effect of such steps), and the semaphore is the one of Semaphore with all its
    interleavings: the producer is its thread 0 and the consumer its thread 1,
    and the kernel semaphore is either of those of Semaphore. *)
From S2P Require Import Prelude RingBuffer Semaphore.

#[local] Arguments handed_out : simpl never.

Inductive prod_state :=
  | Ready          (* between two calls of push *)
  | Pushed         (* bool v = ringbuffer::push(...) is done *)
  | Signalling.    (* in m_semaphore.signal() *)
Inductive cons_state :=
  | Popping        (* while (!this->pop(object)) *)
  | Waiting.       (* in m_semaphore.wait() *)

Section blocking.
Context (eventfd : bool).   (* the kernel semaphore behind m_semaphore *)
Context {St T : Type} {capacity : nat} {push : St -> T -> bool * St}
  {pop : St -> outcome (option T * St)} `{!BoundedFifo St T capacity push pop}.

Record blocking_ringbuffer := mkBlocking {
  b_ring : St;
  b_sema : LightweightSemaphore;
  b_threads : list pc;
  b_prod : prod_state;
  b_cons : cons_state;
  b_got : list T               (* what pop_wait has returned *)
}.

Definition set_ring (s : blocking_ringbuffer) (r : St) : blocking_ringbuffer :=
  mkBlocking r (b_sema s) (b_threads s) (b_prod s) (b_cons s) (b_got s).
Definition set_prod (s : blocking_ringbuffer) (p : prod_state) : blocking_ringbuffer :=
  mkBlocking (b_ring s) (b_sema s) (b_threads s) p (b_cons s) (b_got s).
Definition set_cons (s : blocking_ringbuffer) (c : cons_state) : blocking_ringbuffer :=
  mkBlocking (b_ring s) (b_sema s) (b_threads s) (b_prod s) c (b_got s).
Definition set_sem (s : blocking_ringbuffer) (m : LightweightSemaphore) (ps : list pc) : blocking_ringbuffer :=
  mkBlocking (b_ring s) m ps (b_prod s) (b_cons s) (b_got s).

Inductive bstep (s : blocking_ringbuffer) : blocking_ringbuffer -> Prop :=
  | b_push x : b_prod s = Ready ->
      bstep s (set_prod (set_ring s (push (b_ring s) x).2) Pushed)
  | b_signal : b_prod s = Pushed -> b_threads s !! 0%nat = Some Outside ->
      bstep s (set_prod (set_sem s (b_sema s) (<[0%nat := Add 1]> (b_threads s))) Signalling)
  | b_pushed : b_prod s = Signalling -> b_threads s !! 0%nat = Some Outside -> bstep s (set_prod s Ready)
  | b_pop x r : b_cons s = Popping -> pop (b_ring s) = Ok (Some x, r) ->
      bstep s (mkBlocking r (b_sema s) (b_threads s) (b_prod s) Popping (b_got s ++ [x]))
  | b_empty r : b_cons s = Popping -> pop (b_ring s) = Ok (None, r) -> b_threads s !! 1%nat = Some Outside ->
      bstep s (set_cons (set_sem (set_ring s r) (b_sema s) (<[1%nat := TryLoad 1 true]> (b_threads s))) Waiting)
  | b_woken : b_cons s = Waiting -> b_threads s !! 1%nat = Some Outside -> bstep s (set_cons s Popping)
  | b_access i p m p' : b_threads s !! i = Some p -> p <> Outside -> access eventfd (b_sema s) p m p' ->
      bstep s (set_sem s m (<[i := p']> (b_threads s))).

Definition blocking_new (r : St) : blocking_ringbuffer :=
  mkBlocking r (sema_new 0) [Outside; Outside] Ready Popping [].
Definition breachable (r : St) (s : blocking_ringbuffer) : Prop := rtc bstep (blocking_new r) s.

(** Where the producer is in the semaphore, and the consumer. *)
Definition prod_pc_ok (p : prod_state) (q : pc) : Prop :=
  match p with
  | Ready | Pushed => q = Outside
  | Signalling => q = Outside \/ q = Add 1 \/ exists c, q = Post c
  end.
Definition cons_pc_ok (c : cons_state) (q : pc) : Prop :=
  match q with
  | Outside => True
  | TryLoad m b | TryTest _ m b => c = Waiting /\ m = 1 /\ b = true
  | SpinLoad _ m | SpinTest _ _ m | Subtract m | KernelWait m => c = Waiting /\ m = 1
  | _ => False
  end.

Lemma prod_pc_access m q m' q' : access eventfd m q m' q' -> q <> Outside -> prod_pc_ok Signalling q -> prod_pc_ok Signalling q'.
Proof.
  intros Ha Hne [->|[->|[c ->]]]; [by destruct Hne| |]; inversion Ha; subst; cbn; eauto.
  destruct (0 <? _); eauto.
Qed.
Lemma cons_pc_access c m q m' q' : access eventfd m q m' q' -> q <> Outside -> cons_pc_ok c q -> cons_pc_ok c q'.
Proof.
  intros Ha Hne Hc. destruct Ha; cbn in Hc; try done;
    repeat match goal with H : _ /\ _ |- _ => destruct H | H : _ = 1 |- _ => rewrite H in * | H : _ = true |- _ => rewrite H in * end; try done.
  by destruct (_ <=? 0).
Qed.

(** Only the consumer waits, so an eventfd has at most one sleeper. *)
Definition shaped (s : blocking_ringbuffer) : Prop :=
  exists q0 q1, b_threads s = [q0; q1] /\ prod_pc_ok (b_prod s) q0 /\ cons_pc_ok (b_cons s) q1.

Lemma shaped_sleepers s : shaped s -> sleepers_ok eventfd (b_sema s, b_threads s).
Proof.
  intros (q0 & q1 & -> & Hp & _) _. unfold waiting. cbn [snd sum_list_with].
  assert (waits q0 = 0%nat) as ->.
  { unfold prod_pc_ok in Hp. destruct (b_prod s); [by subst|by subst|by destruct Hp as [->|[->|[c ->]]]]. }
  assert (waits q1 <= 1)%nat by (destruct q1; cbn; lia). lia.
Qed.

Lemma shaped_step s s' : bstep s s' -> shaped s -> shaped s'.
Proof.
  intros Hstep (q0 & q1 & Ht & Hp & Hc).
  destruct Hstep as [x Ep|Ep E0|Ep E0|x r Ec Er|r Ec Er E1|Ec E1|i p m p' Ei Hne Ha]; unfold shaped; cbn.
  - rewrite Ep in Hp. eauto.
  - rewrite Ht. exists (Add 1), q1. split; [done|]. split; [by right; left|done].
  - rewrite Ht in E0. injection E0 as ->. exists Outside, q1. done.
  - rewrite Ec in Hc. exists q0, q1. done.
  - rewrite Ht. exists q0, (TryLoad 1 true). done.
  - rewrite Ht in E1. injection E1 as ->. exists q0, Outside. done.
  - rewrite Ht in Ei |- *. destruct i as [|[|i]]; cbn in Ei; [injection Ei as <-|injection Ei as <-|done]; cbn.
    + exists p', q1. split; [done|]. split; [|done].
      destruct (b_prod s); [by destruct Hne|by destruct Hne|]. by eapply prod_pc_access.
    + exists q0, p'. split; [done|]. split; [done|]. by eapply cons_pc_access.
Qed.

(** The semaphore's part of a step is a step of the semaphore, or none. *)
Lemma bstep_sema s s' : bstep s s' -> shaped s -> 
  rtc (orderly_step eventfd) (b_sema s, b_threads s) (b_sema s', b_threads s').
Proof.
  intros Hstep Hs. pose proof (shaped_sleepers _ (shaped_step _ _ Hstep Hs)) as Ho. destruct Hstep; cbn in *; try apply rtc_refl.
  - apply rtc_once. split; [|exact Ho]. eapply thread_step; [done|by apply call_signal].
  - apply rtc_once. split; [|exact Ho]. eapply thread_step; [done|by apply call_wait].
  - apply rtc_once. split; [|exact Ho]. by eapply thread_step.
Qed.

(** What the producer has pushed and the consumer, who found the ring empty, has
    not been signalled yet, is signalled by a unit that is left or that comes. *)
Definition promised (s : blocking_ringbuffer) (q0 q1 : pc) (l : list T) : Prop :=
  q1 <> Outside -> l <> [] ->
  b_prod s = Pushed \/ q0 = Add 1 \/
  handed_out (b_sema s) (b_threads s) < signalled (b_sema s).

Definition binv (s : blocking_ringbuffer) : Prop := exists q0 q1 l,
  b_threads s = [q0; q1] /\ prod_pc_ok (b_prod s) q0 /\ cons_pc_ok (b_cons s) q1 /\
  fifo_rep (b_ring s) l /\ promised s q0 q1 l.

Lemma handed_out_2 m q0 q1 :
  handed_out m [q0; q1] = taken m - Z.of_nat (waits q0) - Z.of_nat (waits q1).
Proof. unfold handed_out, waiting. simpl. lia. Qed.

(** A step of the producer in the semaphore. *)
Lemma binv_prod s q0 q1 l m p' :
  b_threads s = [q0; q1] -> prod_pc_ok (b_prod s) q0 -> cons_pc_ok (b_cons s) q1 ->
  fifo_rep (b_ring s) l -> promised s q0 q1 l ->
  handed_out (b_sema s) (b_threads s) <= signalled (b_sema s) ->
  q0 <> Outside -> access eventfd (b_sema s) q0 m p' -> binv (set_sem s m [p'; q1]).
Proof.
  intros Ht Hp Hc Hf Hpr Hle Hne Ha. exists p', q1, l. cbn. unfold promised in *. cbn in *. rewrite Ht in *.
  rewrite !handed_out_2 in *. unfold prod_pc_ok in *.
  destruct (b_prod s); [by destruct Hne|by destruct Hne|]. destruct Hp as [->|[->|[c ->]]]; [done| |].
  - inversion Ha; subst; cbn. split; [done|]. split.
    { destruct (0 <? _); eauto. }
    split; [done|]. split; [done|]. intros _ _. right. right. cbn in *.
    destruct (0 <? _); cbn; lia.
  - inversion Ha; subst; cbn; (split; [done|]; split; [eauto|]; split; [done|]; split; [done|]);
      intros H1 H2; destruct (Hpr H1 H2) as [?|[?|?]]; try done; right; right; cbn in *; lia.
Qed.

(** A step of the consumer in the semaphore. *)
Lemma binv_cons s q0 q1 l m p' :
  b_threads s = [q0; q1] -> prod_pc_ok (b_prod s) q0 -> cons_pc_ok (b_cons s) q1 ->
  fifo_rep (b_ring s) l -> promised s q0 q1 l ->
  q1 <> Outside -> access eventfd (b_sema s) q1 m p' -> binv (set_sem s m [q0; p']).
Proof.
  intros Ht Hp Hc Hf Hpr Hne Ha. exists q0, p', l. cbn. unfold promised in *. cbn. rewrite Ht in *.
  rewrite !handed_out_2 in *. split; [done|]. split; [done|].
  assert (cons_pc_ok (b_cons s) p' /\ (p' <> Outside -> signalled m = signalled (b_sema s) /\
    taken m - Z.of_nat (waits p') = taken (b_sema s) - Z.of_nat (waits q1))) as [Hc' Hs].
  { destruct Ha; cbn in Hc; try done; repeat match goal with H : _ /\ _ |- _ => destruct H | H : _ = 1 |- _ => rewrite H in *
      | H : _ = true |- _ => rewrite H in * end; cbn; try (split; [done|]; intros; try done; lia).
    destruct (_ <=? 0); cbn; (split; [done|]); intros; [lia|done]. }
  split; [done|]. split; [done|]. intros Hn Hl. destruct (Hs Hn) as [Es Et].
  destruct (Hpr Hne Hl) as [?|[?|?]]; [by left|by right; left|]. right. right. rewrite Es. lia.
Qed.

Lemma binv_step s s' :
  bstep s s' -> binv s -> handed_out (b_sema s) (b_threads s) <= signalled (b_sema s) -> binv s'.
Proof.
  intros Hstep (q0 & q1 & l & Ht & Hp & Hc & Hf & Hpr) Hle.
  destruct Hstep as [x Ep|Ep E0|Ep E0|x r Ec Er|r Ec Er E1|Ec E1|i p m p' Ei Hne Ha].
  - pose proof (fifo_push _ _ x Hf) as Hx. rewrite Ep in Hp. cbn in Hp.
    destruct (decide (length l = capacity)).
    + rewrite Hx. exists q0, q1, l. cbn. do 4 (split; [done|]). intros _ _. by left.
    + destruct Hx as (r & -> & Hr). exists q0, q1, (l ++ [x]). cbn. do 4 (split; [done|]). intros _ _. by left.
  - exists (Add 1), q1, l. cbn. rewrite Ht. split; [done|]. split; [by right; left|]. do 2 (split; [done|]).
    intros _ _. by right; left.
  - rewrite Ht in E0. injection E0 as ->. exists Outside, q1, l. cbn. do 4 (split; [done|]).
    intros H1 H2. destruct (Hpr H1 H2) as [?|[?|?]]; [congruence|done|by right; right].
  - assert (q1 = Outside) as ->.
    { rewrite Ec in Hc. destruct q1; cbn in Hc; try done; by destruct Hc. }
    pose proof (fifo_pop _ _ Hf) as Hx. destruct l as [|y l]; [congruence|].
    destruct Hx as (r' & E & Hr). assert (r = r') as -> by congruence.
    exists q0, Outside, l. cbn. do 4 (split; [done|]). by intros ?.
  - pose proof (fifo_pop _ _ Hf) as Hx. destruct l as [|y l]; [|destruct Hx as (r' & E & _); congruence].
    assert (r = b_ring s) as -> by congruence.
    exists q0, (TryLoad 1 true), []. cbn. rewrite Ht. do 4 (split; [done|]). by intros _ ?.
  - rewrite Ht in E1. injection E1 as ->. exists q0, Outside, l. cbn. do 4 (split; [done|]). by intros ?.
  - rewrite Ht in Ei |- *. destruct i as [|[|i]]; cbn in Ei; [injection Ei as <-|injection Ei as <-|done]; cbn.
    + by eapply binv_prod.
    + by eapply binv_cons.
Qed.

Lemma bstep_signalled s s' : bstep s s' -> kept 2 0 (b_sema s, b_threads s) -> signalled (b_sema s) <= signalled (b_sema s').
Proof.
  intros Hstep (_ & Hs & _). destruct Hstep; cbn; try lia. eapply access_sane; [done|]. by eapply Hs.
Qed.

Lemma breachable_inv r s :
  fifo_rep r [] -> breachable r s ->
  kept 2 0 (b_sema s, b_threads s) /\ (in_range 2 0 (b_sema s) -> binv s).
Proof.
  intros Hr R. enough (forall a b, rtc bstep a b -> shaped a -> kept 2 0 (b_sema a, b_threads a) ->
    (in_range 2 0 (b_sema a) -> binv a) ->
    kept 2 0 (b_sema b, b_threads b) /\ (in_range 2 0 (b_sema b) -> binv b)) as A.
  { apply (A _ _ R); [by exists Outside, Outside|by apply kept_init|]. intros _. exists Outside, Outside, []. cbn.
    do 4 (split; [done|]). by intros ?. }
  induction 1 as [|a b c Hs _ IH]; [done|]. intros Hsh Hk Hb. apply IH; [by eapply shaped_step| |].
  - assert (forall x y, rtc (orderly_step eventfd) x y -> sleepers_ok eventfd x -> kept 2 0 x -> kept 2 0 y) as A.
    { induction 1 as [|x y z [H1 H2] _ IH']; intros Hx Hkx; [done|]. apply IH'; [done|]. by eapply kept_step. }
    eapply A; [by apply bstep_sema|by apply shaped_sleepers|done].
  - intros Hi. assert (in_range 2 0 (b_sema a)) as Hi0.
    { pose proof (bstep_signalled _ _ Hs Hk). unfold in_range in *. lia. }
    eapply binv_step; [done|by apply Hb|]. destruct Hk as (_ & _ & I). specialize (I Hi0). cbn in I.
    rewrite (handed_out_eq _ _ _ I). destruct (i_kernel _ _ _ I). unfold posting. lia.
Qed.

(** C26: a consumer never sleeps beside an element, whichever the kernel semaphore is:
    in every interleaving of a producer and a consumer, when the consumer is asleep in [pop_wait] with
    nothing to wake it up and the producer is between two pushes, the ring is
    empty. *)
Theorem pop_wait_sleeps_empty r s max :
  fifo_rep r [] -> breachable r s -> in_range 2 0 (b_sema s) ->
  b_prod s = Ready -> b_threads s !! 1%nat = Some (KernelWait max) -> m_sema (b_sema s) = 0 ->
  fifo_rep (b_ring s) [] /\ pop (b_ring s) = Ok (None, b_ring s).
Proof.
  intros Hr R Hi Hp Hc H0. destruct (breachable_inv r s Hr R) as [(_ & _ & I) B]. specialize (I Hi). cbn in I.
  destruct (B Hi) as (q0 & q1 & l & Ht & Hp0 & Hc1 & Hf & Hpr). rewrite Ht in Hc. injection Hc as ->.
  rewrite Hp in Hp0. cbn in Hp0. subst q0.
  assert (l = []) as ->; [|split; [done|apply (fifo_pop _ _ Hf)]].
  destruct (decide (l = [])) as [|Hl]; [done|]. exfalso.
  destruct (Hpr ltac:(done) Hl) as [?|[?|Hlt]]; [congruence|done|].
  rewrite (handed_out_eq _ _ _ I), H0 in Hlt. destruct (i_kernel _ _ _ I) as [_ K].
  rewrite Ht in *. unfold waiting, posting in *. cbn in *. lia.
Qed.
End blocking.

(** ** The ring buffer of tfringbuffer.h with its semaphore *)

(** Both threads have done nothing but the consumer's wait: up to the kernel. *)
Definition sleeping : @blocking_ringbuffer (ringbuffer Z) Z :=
  mkBlocking (ring_new 4) (mkSemaphore (-1) 0 0 1) [Outside; KernelWait 1] Ready Waiting [].

Lemma sleeping_reachable e : breachable e (push := ring_push 4) (pop := ring_pop 4) (ring_new 4) sleeping.
Proof.
  set (at_ := fun a : LightweightSemaphore * list pc =>
    @mkBlocking (ringbuffer Z) Z (ring_new 4) a.1 a.2 Ready Waiting []).
  eapply rtc_l; [eapply b_empty; reflexivity|].
  enough (forall a b, rtc (fun a b => bstep e (push := ring_push 4) (pop := ring_pop 4) (at_ a) (at_ b)) a b ->
    rtc (bstep e (push := ring_push 4) (pop := ring_pop 4)) (at_ a) (at_ b)) as A.
  { apply (A (sema_new 0, [Outside; TryLoad 1 true]) (mkSemaphore (-1) 0 0 1, [Outside; KernelWait 1])).
    apply (run_wait_from e _) with (i := 1%nat) (ps := [Outside; TryLoad 1 true]) (s := sema_new 0);
      [|reflexivity|cbn; lia].
    intros m ps i p m' p' Hi Hne Ha. by eapply (b_access e (at_ (m, ps)) i p m' p'). }
  induction 1; [apply rtc_refl|]. by eapply rtc_l.
Qed.

Lemma pop_wait_sleeps_empty_witness :
  ring_pop 4 (b_ring sleeping) = Ok (None, b_ring sleeping).
Proof.
  refine (proj2 (pop_wait_sleeps_empty true (push := ring_push 4) (pop := ring_pop 4) (ring_new 4) sleeping 1
    _ (sleeping_reachable true) _ _ _ _)).
  - apply ring_new_rep. lia.
  - vm_compute. split; reflexivity.
  - reflexivity.
  - reflexivity.
  - reflexivity.
Defined.
