(* ===== verification/RWLock.v ===== *)
(** * RWLock: src/fastpath/utils/rwlock.h and src/fastpath/utils/tfspinlock.h

    The operations of the reader-writer lock as functions on its word, one per
    atomic access, and the interleavings of any number of threads that use
    them.  Proved for every interleaving: writers exclude readers, upgraders
    and other writers, and a lock nobody holds has all its bits clear. *)
From S2P Require Import Prelude.

Definition READER : Z := 4.
Definition UPGRADED : Z := 2.
Definition WRITER : Z := 1.

(** ** Atomic accesses to [m_bits]: the value before, and the new word *)

Definition fetch_add (bits d : Z) : Z * Z := (bits, to_signed 32 (bits + d)).
Definition fetch_or (bits d : Z) : Z * Z := (bits, Z.lor bits d).
Definition fetch_and (bits d : Z) : Z * Z := (bits, Z.land bits d).
Definition compare_exchange (bits expect desired : Z) : bool * Z :=
  if bits =? expect then (true, desired) else (false, bits).

(** ** The operations *)

Definition try_lock (bits : Z) : bool * Z := compare_exchange bits 0 WRITER.
Definition unlock (bits : Z) : Z := (fetch_and bits (Z.lnot (Z.lor WRITER UPGRADED))).2.
(** [try_lock_shared]: the first access, and the one that takes it back. *)
Definition try_lock_shared_add (bits : Z) : bool * Z :=
  let '(value, bits) := fetch_add bits READER in
  (Z.land value (Z.lor WRITER UPGRADED) =? 0, bits).
Definition try_lock_shared_undo (bits : Z) : Z := (fetch_add bits (- READER)).2.
Definition unlock_shared (bits : Z) : Z := (fetch_add bits (- READER)).2.
(** [unlock_and_lock_shared]: this access, then [unlock]. *)
Definition unlock_and_lock_shared_add (bits : Z) : Z := (fetch_add bits READER).2.
Definition try_lock_upgrade (bits : Z) : bool * Z :=
  let '(value, bits) := fetch_or bits UPGRADED in
  (Z.land value (Z.lor UPGRADED WRITER) =? 0, bits).
Definition unlock_upgrade (bits : Z) : Z := (fetch_add bits (- UPGRADED)).2.
Definition try_unlock_upgrade_and_lock (bits : Z) : bool * Z :=
  compare_exchange bits UPGRADED WRITER.
Definition unlock_upgrade_and_lock_shared (bits : Z) : Z :=
  (fetch_add bits (READER - UPGRADED)).2.
(** [unlock_and_lock_upgrade]: two accesses. *)
Definition unlock_and_lock_upgrade_or (bits : Z) : Z := (fetch_or bits UPGRADED).2.
Definition unlock_and_lock_upgrade_add (bits : Z) : Z := (fetch_add bits (- WRITER)).2.

(** ** Threads *)

(** What a thread holds, or which operation it is in the middle of. *)
Inductive mode :=
  | Idle | Reading | Upgrading | Writing
  | BackingOff      (* in try_lock_shared, before the undo *)
  | Downgrading     (* in unlock_and_lock_shared, before the unlock *)
  | Relaxing.       (* in unlock_and_lock_upgrade, before the fetch_add *)

(** One access by one thread.  The blocking operations ([lock], [lock_shared],
    [lock_upgrade], [unlock_upgrade_and_lock]) repeat the access that may fail. *)
Inductive access : mode -> Z -> mode -> Z -> Prop :=
  | a_lock bits r b' : try_lock bits = (r, b') ->
      access Idle bits (if r then Writing else Idle) b'
  | a_unlock bits : access Writing bits Idle (unlock bits)
  | a_lock_shared bits r b' : try_lock_shared_add bits = (r, b') ->
      access Idle bits (if r then Reading else BackingOff) b'
  | a_undo bits : access BackingOff bits Idle (try_lock_shared_undo bits)
  | a_unlock_shared bits : access Reading bits Idle (unlock_shared bits)
  | a_downgrade bits : access Writing bits Downgrading (unlock_and_lock_shared_add bits)
  | a_downgraded bits : access Downgrading bits Reading (unlock bits)
  | a_lock_upgrade bits r b' : try_lock_upgrade bits = (r, b') ->
      access Idle bits (if r then Upgrading else Idle) b'
  | a_unlock_upgrade bits : access Upgrading bits Idle (unlock_upgrade bits)
  | a_promote bits r b' : try_unlock_upgrade_and_lock bits = (r, b') ->
      access Upgrading bits (if r then Writing else Upgrading) b'
  | a_upgrade_to_shared bits :
      access Upgrading bits Reading (unlock_upgrade_and_lock_shared bits)
  | a_relax bits : access Writing bits Relaxing (unlock_and_lock_upgrade_or bits)
  | a_relaxed bits : access Relaxing bits Upgrading (unlock_and_lock_upgrade_add bits).

(** The word and the threads. *)
Inductive step : Z * list mode -> Z * list mode -> Prop :=
  | thread_step i m m' bits bits' ms :
      ms !! i = Some m -> access m bits m' bits' -> step (bits, ms) (bits', <[i := m']> ms).

Definition init (n : nat) : Z * list mode := (0, replicate n Idle).

(** ** Counting *)

Definition reader_units (m : mode) : nat :=
  match m with Reading | BackingOff | Downgrading => 1 | _ => 0 end.
Definition writer_units (m : mode) : nat :=
  match m with Writing | Downgrading | Relaxing => 1 | _ => 0 end.
Definition upgrader_units (m : mode) : nat :=
  match m with Upgrading => 1 | _ => 0 end.
Definition relaxing_units (m : mode) : nat :=
  match m with Relaxing => 1 | _ => 0 end.
Definition read_holds (m : mode) : nat :=
  match m with Reading => 1 | _ => 0 end.

Definition total (f : mode -> nat) (ms : list mode) : nat := sum_list_with f ms.

Lemma total_insert f ms i m m' :
  ms !! i = Some m -> (total f (<[i := m']> ms) + f m = total f ms + f m')%nat.
Proof. apply sum_insert. Qed.

Lemma total_lookup f ms i m : ms !! i = Some m -> (f m <= total f ms)%nat.
Proof. apply sum_lookup. Qed.

Lemma total_bound f ms : (forall m, f m <= 1)%nat -> (total f ms <= length ms)%nat.
Proof. intros Hf. pose proof (sum_bound f 1 ms Hf). unfold total. lia. Qed.

Lemma total_le f g ms : (forall m, f m <= g m)%nat -> (total f ms <= total g ms)%nat.
Proof. intros Hf. unfold total. induction ms as [|m ms IH]; simpl; [lia|]. specialize (Hf m). lia. Qed.

Lemma relaxing_le_writer ms : (total relaxing_units ms <= total writer_units ms)%nat.
Proof. apply total_le. intros []; simpl; lia. Qed.

(** Two different threads. *)
Lemma total_two f ms i j mi mj :
  f Idle = 0%nat -> ms !! i = Some mi -> ms !! j = Some mj -> i <> j ->
  (f mi + f mj <= total f ms)%nat.
Proof.
  intros H0 Hi Hj Hne. pose proof (total_insert f ms i mi Idle Hi) as E.
  pose proof (total_lookup f (<[i := Idle]> ms) j mj) as L.
  rewrite list_lookup_insert_ne in L by done. specialize (L Hj). lia.
Qed.

Lemma total_idle f ms : f Idle = 0%nat -> Forall (fun m => m = Idle) ms -> total f ms = 0%nat.
Proof. intros H0. unfold total. induction 1 as [|m ms -> _ IH]; simpl; lia. Qed.

(** ** The invariant *)

(** The word is made of the reader count, the upgrade bit and the writer bit.
    The upgrade bit may also be set while there is a writer, by the failed
    attempts of other threads. *)
Record inv (s : Z * list mode) : Prop := {
  inv_bits : exists ub, (ub <= 1)%nat /\
    s.1 = 4 * Z.of_nat (total reader_units s.2) + 2 * Z.of_nat ub
          + Z.of_nat (total writer_units s.2) /\
    (total upgrader_units s.2 + total relaxing_units s.2 <= ub)%nat /\
    (ub <= total upgrader_units s.2 + total writer_units s.2)%nat;
  inv_excl : (total upgrader_units s.2 + total writer_units s.2 <= 1)%nat;
  inv_readers : (total writer_units s.2 = 1 -> total read_holds s.2 = 0)%nat
}.

(** The operations on a word with [R] reader units, upgrade bit [u] and writer
    bit [w]. *)
Definition word (R u w : nat) : Z := 4 * Z.of_nat R + 2 * Z.of_nat u + Z.of_nat w.
Definition word_ok (R u w : nat) : Prop := (u <= 1 /\ w <= 1)%nat /\ 4 * Z.of_nat R + 8 < 2 ^ 31.

Section words.
Context (R u w : nat) (ok : word_ok R u w).

Lemma word_low : Z.land (word R u w) 3 = 2 * Z.of_nat u + Z.of_nat w /\
  Z.land (word R u w) (Z.lnot 3) = word R 0 0 /\ Z.lor (word R u w) 2 = word R 1 w.
Proof using ok.
  destruct ok as [[Hu Hw] _]. unfold word.
  destruct (Z.of_nat R) as [|p|p] eqn:E; [| |lia];
    destruct u as [|[|?]], w as [|[|?]]; try lia; repeat split; reflexivity.
Qed.

Lemma fetch_add_word d : 0 <= word R u w + d < 2 ^ 31 -> (fetch_add (word R u w) d).2 = word R u w + d.
Proof. intros Hd. simpl. apply to_signed_small; lia. Qed.

Lemma word_zero_iff : (word R u w =? 0) = true <-> R = 0%nat /\ u = 0%nat /\ w = 0%nat.
Proof. rewrite Z.eqb_eq. unfold word. lia. Qed.

Lemma flags_zero : (Z.land (word R u w) 3 =? 0) = bool_decide (u = 0%nat /\ w = 0%nat).
Proof using ok.
  destruct word_low as [-> _]. apply Bool.eq_true_iff_eq. rewrite Z.eqb_eq, bool_decide_eq_true. lia.
Qed.

Lemma unlock_word : unlock (word R u w) = word R 0 0.
Proof using ok. apply word_low. Qed.

Lemma try_lock_shared_word :
  try_lock_shared_add (word R u w) = (bool_decide (u = 0%nat /\ w = 0%nat), word (S R) u w).
Proof using ok.
  unfold try_lock_shared_add, fetch_add. change (Z.lor WRITER UPGRADED) with 3. rewrite flags_zero.
  f_equal. destruct ok. unfold word, READER. rewrite to_signed_small; lia.
Qed.

Lemma try_lock_upgrade_word :
  try_lock_upgrade (word R u w) = (bool_decide (u = 0%nat /\ w = 0%nat), word R 1 w).
Proof using ok.
  unfold try_lock_upgrade, fetch_or. change (Z.lor UPGRADED WRITER) with 3. rewrite flags_zero.
  f_equal. apply word_low.
Qed.
End words.

(** ** Preservation *)

(** The counts before and after thread [i] goes from [m] to [m']. *)
Ltac counts i m m' Hi :=
  pose proof (total_insert reader_units _ i m m' Hi);
  pose proof (total_insert writer_units _ i m m' Hi);
  pose proof (total_insert upgrader_units _ i m m' Hi);
  pose proof (total_insert read_holds _ i m m' Hi);
  pose proof (total_insert relaxing_units _ i m m' Hi);
  pose proof (relaxing_le_writer (<[i := m']> ltac:(match type of Hi with ?l !! _ = _ => exact l end)));
  pose proof (total_lookup reader_units _ i m Hi);
  pose proof (total_lookup writer_units _ i m Hi);
  pose proof (total_lookup upgrader_units _ i m Hi);
  pose proof (total_lookup read_holds _ i m Hi);
  pose proof (total_lookup relaxing_units _ i m Hi);
  cbn [reader_units writer_units upgrader_units read_holds relaxing_units] in *.

Lemma inv_word bits ms ub :
  bits = word (total reader_units ms) ub (total writer_units ms) -> (ub <= 1)%nat ->
  (total upgrader_units ms + total relaxing_units ms <= ub)%nat ->
  (ub <= total upgrader_units ms + total writer_units ms)%nat ->
  (total upgrader_units ms + total writer_units ms <= 1)%nat ->
  (total writer_units ms = 1 -> total read_holds ms = 0)%nat -> inv (bits, ms).
Proof. intros. split; cbn [fst snd]; [|done|done]. by exists ub. Qed.

(** The additions, with the counts they lead to. *)
Ltac word_add := rewrite fetch_add_word; unfold word, READER, UPGRADED, WRITER in *; lia.

Lemma rw_inv_step n s s' :
  4 * (Z.of_nat n + 3) < 2 ^ 31 -> length s.2 = n -> step s s' -> inv s -> inv s' /\ length s'.2 = n.
Proof.
  intros Hn Hlen Hstep [(ub & Hub & Hbits & Hu1 & Hu2) Hex Hrd].
  destruct Hstep as [i m m' bits bits' ms Hi Hacc]. cbn [fst snd] in *.
  split; [|by rewrite length_insert].
  assert (total reader_units ms <= n)%nat as HR.
  { subst n. apply total_bound. intros []; simpl; lia. }
  assert (total read_holds ms <= total reader_units ms)%nat by (apply total_le; intros []; simpl; lia).
  fold (word (total reader_units ms) ub (total writer_units ms)) in Hbits.
  assert (word_ok (total reader_units ms) ub (total writer_units ms)) as Hok by (unfold word_ok; lia).
  destruct Hacc as [bits r b' E|bits|bits r b' E|bits|bits|bits|bits|bits r b' E|bits|bits r b' E|bits|bits|bits];
    subst bits.
  - unfold try_lock, compare_exchange in E.
    destruct (word _ _ _ =? 0) eqn:Z0; injection E as <- <-.
    + apply word_zero_iff in Z0. counts i Idle Writing Hi.
      apply inv_word with 0%nat; unfold word, WRITER; lia.
    + counts i Idle Idle Hi. apply inv_word with ub; unfold word; lia.
  - counts i Writing Idle Hi. rewrite unlock_word by done. apply inv_word with 0%nat; unfold word; lia.
  - rewrite try_lock_shared_word in E by done. injection E as <- <-. case_bool_decide.
    + counts i Idle Reading Hi. apply inv_word with ub; unfold word; lia.
    + counts i Idle BackingOff Hi. apply inv_word with ub; unfold word; lia.
  - counts i BackingOff Idle Hi. apply inv_word with ub; [unfold try_lock_shared_undo; word_add|lia..].
  - counts i Reading Idle Hi. apply inv_word with ub; [unfold unlock_shared; word_add|lia..].
  - counts i Writing Downgrading Hi.
    apply inv_word with ub; [unfold unlock_and_lock_shared_add; word_add|lia..].
  - counts i Downgrading Reading Hi. rewrite unlock_word by done.
    apply inv_word with 0%nat; unfold word; lia.
  - rewrite try_lock_upgrade_word in E by done. injection E as <- <-. case_bool_decide.
    + counts i Idle Upgrading Hi. apply inv_word with 1%nat; unfold word; lia.
    + counts i Idle Idle Hi. apply inv_word with 1%nat; unfold word; lia.
  - counts i Upgrading Idle Hi. apply inv_word with 0%nat; [unfold unlock_upgrade; word_add|lia..].
  - unfold try_unlock_upgrade_and_lock, compare_exchange in E.
    destruct (Z.eqb_spec (word (total reader_units ms) ub (total writer_units ms)) UPGRADED) as [Z0|];
      injection E as <- <-.
    + unfold word, UPGRADED in Z0. counts i Upgrading Writing Hi.
      apply inv_word with 0%nat; unfold word, WRITER; lia.
    + counts i Upgrading Upgrading Hi. apply inv_word with ub; unfold word; lia.
  - counts i Upgrading Reading Hi.
    apply inv_word with 0%nat; [unfold unlock_upgrade_and_lock_shared; word_add|lia..].
  - counts i Writing Relaxing Hi. apply inv_word with 1%nat; [|lia..].
    unfold unlock_and_lock_upgrade_or, fetch_or, UPGRADED. cbn [snd].
    destruct (word_low _ _ _ Hok) as (_ & _ & ->). unfold word. lia.
  - counts i Relaxing Upgrading Hi.
    apply inv_word with ub; [unfold unlock_and_lock_upgrade_add; word_add|lia..].
Qed.

Section reachable.
Context (n : nat) (few : 4 * (Z.of_nat n + 3) < 2 ^ 31).

Definition reachable (s : Z * list mode) : Prop := rtc step (init n) s.

Lemma rw_inv_init : inv (init n).
Proof.
  assert (forall f, f Idle = 0%nat -> total f (replicate n Idle) = 0%nat) as Z0.
  { intros f Hf. apply total_idle; [done|]. by apply Forall_replicate. }
  unfold init. apply inv_word with 0%nat; rewrite ?Z0 by done; unfold word; lia.
Qed.

Lemma rw_reachable_inv s : reachable s -> inv s /\ length s.2 = n.
Proof using few.
  intros R. enough (forall a b, rtc step a b -> inv a /\ length a.2 = n -> inv b /\ length b.2 = n) as A.
  { eapply A; [exact R|]. split; [apply rw_inv_init|apply length_replicate]. }
  induction 1 as [|a b c Hs _ IH]; [done|]. intros [Ia La]. apply IH. by eapply rw_inv_step.
Qed.

(** C21: with any number of threads (below the capacity of the reader count) and
    any interleaving of their accesses, a thread that holds the lock for
    writing is alone: no other thread holds it for reading, upgrading or
    writing. *)
Theorem writer_exclusive s i j m :
  reachable s -> s.2 !! i = Some Writing -> s.2 !! j = Some m -> i <> j ->
  m = Idle \/ m = BackingOff.
Proof using few.
  intros R Hi Hj Hne. destruct (rw_reachable_inv _ R) as [[_ Hex Hrd] _].
  pose proof (total_two writer_units _ _ _ _ _ eq_refl Hi Hj Hne) as Hw.
  pose proof (total_lookup upgrader_units _ _ _ Hj) as Hu.
  pose proof (total_lookup read_holds _ _ _ Hj) as Hh. cbn [writer_units] in Hw.
  destruct m; cbn in *; (by left) || (by right) || lia.
Qed.

(** At most one thread holds the upgradable lock, and none while another
    one writes. *)
Theorem upgrader_unique s i j m :
  reachable s -> s.2 !! i = Some Upgrading -> s.2 !! j = Some m -> i <> j ->
  m <> Upgrading /\ m <> Writing /\ m <> Downgrading /\ m <> Relaxing.
Proof using few.
  intros R Hi Hj Hne. destruct (rw_reachable_inv _ R) as [[_ Hex _] _].
  pose proof (total_two upgrader_units _ _ _ _ _ eq_refl Hi Hj Hne) as Hu.
  pose proof (total_lookup writer_units _ _ _ Hj) as Hw. cbn [upgrader_units] in Hu.
  destruct m; cbn in *; repeat split; (done || lia).
Qed.

(** No bit is leaked: when every thread has released the lock its word is
    zero, so the next [try_lock] succeeds, whatever failed attempts there were. *)
Theorem quiescent_free bits ms :
  reachable (bits, ms) -> Forall (fun m => m = Idle) ms ->
  bits = 0 /\ try_lock bits = (true, WRITER).
Proof using few.
  intros R Hidle. destruct (rw_reachable_inv _ R) as [[(ub & Hub & Hb & _ & Hu) _ _] _].
  cbn [fst snd] in *. rewrite !(total_idle _ ms) in * by done.
  assert (bits = 0) as -> by lia. done.
Qed.
End reachable.

(** A thread that writes while another one has been turned away. *)
Definition contended : Z * list mode := (5, [Writing; BackingOff; Idle]).

Lemma contended_reachable : reachable 3 contended.
Proof.
  eapply rtc_l; [apply (thread_step 0 Idle Writing 0 1); [reflexivity|by apply (a_lock 0 true)]|].
  eapply rtc_l; [apply (thread_step 1 Idle BackingOff 1 5); [reflexivity|by apply (a_lock_shared 1 false)]|].
  apply rtc_refl.
Defined.

Lemma writer_exclusive_witness : BackingOff = Idle \/ BackingOff = BackingOff.
Proof.
  apply (writer_exclusive 3 ltac:(lia) contended 0 1 BackingOff); try reflexivity;
    [exact contended_reachable|lia].
Defined.

Lemma upgrader_unique_witness :
  reachable 2 (6, [Reading; Upgrading]) /\ Reading <> Upgrading.
Proof.
  assert (reachable 2 (6, [Reading; Upgrading])) as R.
  { eapply rtc_l; [apply (thread_step 0 Idle Reading 0 4); [reflexivity|by apply (a_lock_shared 0 true)]|].
    eapply rtc_l; [apply (thread_step 1 Idle Upgrading 4 6); [reflexivity|by apply (a_lock_upgrade 4 true)]|].
    apply rtc_refl. }
  split; [exact R|].
  apply (upgrader_unique 2 ltac:(lia) _ 1 0 Reading R); [reflexivity|reflexivity|lia].
Defined.

Lemma quiescent_free_witness : 0 = 0 /\ try_lock 0 = (true, WRITER).
Proof.
  apply (quiescent_free 2 ltac:(lia) 0 [Idle; Idle]); [|by repeat constructor].
  eapply rtc_l; [apply (thread_step 0 Idle Writing 0 1); [reflexivity|by apply (a_lock 0 true)]|].
  eapply rtc_l; [apply (thread_step 1 Idle Idle 1 3); [reflexivity|by apply (a_lock_upgrade 1 false)]|].
  eapply rtc_l; [apply (thread_step 0 Writing Idle 3 0); [reflexivity|apply (a_unlock 3)]|].
  apply rtc_refl.
Defined.

(** ** tfspinlock.h *)

Module Spinlock.

(** [m_locked.test_and_set()] and [m_locked.clear()]. *)
Definition test_and_set (locked : bool) : bool * bool := (locked, true).
Definition clear (locked : bool) : bool := false.

Inductive pc := Outside | Inside.

(** [lock] repeats [test_and_set] until it returns [false]. *)
Inductive step : bool * list pc -> bool * list pc -> Prop :=
  | s_lock i l ms old l' : ms !! i = Some Outside -> test_and_set l = (old, l') ->
      step (l, ms) (l', <[i := if old then Outside else Inside]> ms)
  | s_unlock i l ms : ms !! i = Some Inside -> step (l, ms) (clear l, <[i := Outside]> ms).

Definition inv (s : bool * list pc) : Prop :=
  (s.1 = false -> forall i, s.2 !! i <> Some Inside) /\
  forall i j, s.2 !! i = Some Inside -> s.2 !! j = Some Inside -> i = j.

Lemma spin_inv_step s s' : step s s' -> inv s -> inv s'.
Proof.
  destruct 1 as [i l ms old l' Hi E|i l ms Hi]; intros [I1 I2]; cbn [fst snd] in *.
  - injection E as <- <-. split; [done|]. intros a b. cbn [snd]. destruct l.
    + rewrite list_insert_id by done. apply I2.
    + rewrite !list_lookup_insert_Some. specialize (I1 eq_refl).
      intros [(<- & _ & _)|[_ Ha]]; [|by destruct (I1 a)].
      by intros [(<- & _ & _)|[_ Hb]]; [|destruct (I1 b)].
  - assert (forall a, <[i := Outside]> ms !! a <> Some Inside) as Hnone.
    { intros a. rewrite list_lookup_insert_Some. intros [(_ & ? & _)|[Hne Ha]]; [done|].
      by apply Hne, I2. }
    split; [by intros _|]. intros a b Ha. by destruct (Hnone a).
Qed.

(** The spin lock excludes: no two threads are inside at the same time. *)
Theorem spinlock_exclusive n s i j :
  rtc step (false, replicate n Outside) s ->
  s.2 !! i = Some Inside -> s.2 !! j = Some Inside -> i = j.
Proof.
  intros R. enough (inv s) as [_ I] by apply I.
  enough (forall a b, rtc step a b -> inv a -> inv b) as A.
  { eapply A; [exact R|]. split; cbn [fst snd].
    - intros _ k E. by apply lookup_replicate in E as [? _].
    - intros a b E. by apply lookup_replicate in E as [? _]. }
  induction 1; eauto using spin_inv_step.
Qed.

Lemma spinlock_exclusive_witness :
  rtc step (false, replicate 2 Outside) (true, [Inside; Outside]) /\ 0%nat = 0%nat.
Proof.
  assert (rtc step (false, replicate 2 Outside) (true, [Inside; Outside])) as R.
  { eapply rtc_l; [apply (s_lock 0 false _ false true); reflexivity|].
    eapply rtc_l; [apply (s_lock 1 true _ true true); reflexivity|]. apply rtc_refl. }
  split; [exact R|]. apply (spinlock_exclusive 2 _ 0 0 R); reflexivity.
Defined.
End Spinlock.
