(* ===== verification/RWHolders.v ===== *)
(** * RWHolders: the scoped holders of src/fastpath/utils/rwlock.h

    [read_holder], [upgraded_holder] and [write_holder] over the locks of
    RWLock: construction, conversion, assignment, reset, swap and destruction,
    run by one thread at a time.  A blocking operation that finds the lock taken
    repeats its access; without another thread to release the lock it never
    returns, which is [None] here.  Proved: the word of every lock counts the
    holders attached to it, whatever the sequence of operations. *)
From S2P Require Import Prelude RWLock.

(** ** The blocking operations on a word *)

(** [lock] and the like return when the access they repeat succeeds; the access
    depends on the word alone, which a failed access leaves as it makes it. *)
Definition when (r : bool * Z) : option Z := if r.1 then Some r.2 else None.

Definition lock (bits : Z) : option Z := when (try_lock bits).
Definition lock_shared (bits : Z) : option Z := when (try_lock_shared_add bits).
Definition lock_upgrade (bits : Z) : option Z := when (try_lock_upgrade bits).
Definition unlock_upgrade_and_lock (bits : Z) : option Z := when (try_unlock_upgrade_and_lock bits).
Definition unlock_and_lock_shared (bits : Z) : Z := unlock (unlock_and_lock_shared_add bits).
Definition unlock_and_lock_upgrade (bits : Z) : Z :=
  unlock_and_lock_upgrade_add (unlock_and_lock_upgrade_or bits).

(** ** Holders *)

Inductive kind := Read | Upgraded | Write.
#[export] Instance kind_eq_dec : EqDecision kind.
Proof. solve_decision. Defined.

(** The constructor's and the destructor's call of each class. *)
Definition acquire (c : kind) : Z -> option Z :=
  match c with Read => lock_shared | Upgraded => lock_upgrade | Write => lock end.
Definition release (c : kind) : Z -> Z :=
  match c with Read => unlock_shared | Upgraded => unlock_upgrade | Write => unlock end.
(** The converting constructors: to [read_holder] from both others, to
    [upgraded_holder] from a writer, to [write_holder] from an upgrader. *)
Definition convert (from to : kind) : option (Z -> option Z) :=
  match from, to with
  | Upgraded, Read => Some (fun b => Some (unlock_upgrade_and_lock_shared b))
  | Write, Read => Some (fun b => Some (unlock_and_lock_shared b))
  | Write, Upgraded => Some (fun b => Some (unlock_and_lock_upgrade b))
  | Upgraded, Write => Some unlock_upgrade_and_lock
  | _, _ => None
  end.

Record holder := mkHolder { h_kind : kind; m_lock : option positive }.

(** The words of the locks and the holders that exist. *)
Record store := mkStore { locks : gmap positive Z; holders : gmap positive holder }.

Definition set_holder (s : store) (h : positive) (x : holder) : store :=
  mkStore (locks s) (<[h := x]> (holders s)).

(** [if (m_lock) m_lock->op()] *)
Definition on_lock (s : store) (l : option positive) (op : Z -> option Z) : option store :=
  match l with
  | None => Some s
  | Some l =>
      bits ← locks s !! l;
      bits ← op bits;
      Some (mkStore (<[l := bits]> (locks s)) (holders s))
  end.

(** [X_holder(rwlock *lock)] *)
Definition holder_new (s : store) (h : positive) (c : kind) (l : option positive) : option store :=
  s ← on_lock s l (acquire c);
  Some (set_holder s h (mkHolder c l)).

(** [X_holder(X_holder &&other)] and the converting constructors. *)
Definition holder_from (s : store) (h : positive) (c : kind) (other : positive) : option store :=
  x ← holders s !! other;
  s ← Some (set_holder s other (mkHolder (h_kind x) None));
  s ← (if decide (h_kind x = c) then Some s
       else op ← convert (h_kind x) c; on_lock s (m_lock x) op);
  Some (set_holder s h (mkHolder c (m_lock x))).

(** [swap], and [operator=(X_holder &&)], which swaps too. *)
Definition holder_swap (s : store) (h other : positive) : option store :=
  x ← holders s !! h;
  y ← holders s !! other;
  if decide (h_kind x = h_kind y) then
    Some (set_holder (set_holder s h (mkHolder (h_kind x) (m_lock y))) other (mkHolder (h_kind y) (m_lock x)))
  else None.

(** [reset(rwlock *lock)] *)
Definition holder_reset (s : store) (h : positive) (l : option positive) : option store :=
  x ← holders s !! h;
  if decide (l = m_lock x) then Some s
  else
    s ← on_lock s (m_lock x) (fun b => Some (release (h_kind x) b));
    s ← on_lock s l (acquire (h_kind x));
    Some (set_holder s h (mkHolder (h_kind x) l)).

Definition holder_destroy (s : store) (h : positive) : option store :=
  x ← holders s !! h;
  s ← on_lock s (m_lock x) (fun b => Some (release (h_kind x) b));
  Some (mkStore (locks s) (delete h (holders s))).

(** The operations of a program. *)
Inductive operation :=
  | New (h : positive) (c : kind) (l : option positive)
  | From (h : positive) (c : kind) (other : positive)
  | Swap (h other : positive)
  | Reset (h : positive) (l : option positive)
  | Destroy (h : positive).

Definition perform (s : store) (o : operation) : option store :=
  match o with
  | New h c l => if decide (holders s !! h = None) then holder_new s h c l else None
  | From h c other => if decide (holders s !! h = None) then holder_from s h c other else None
  | Swap h other => holder_swap s h other
  | Reset h l => holder_reset s h l
  | Destroy h => holder_destroy s h
  end.

Fixpoint perform_all (s : store) (os : list operation) : option store :=
  match os with
  | [] => Some s
  | o :: os => s ← perform s o; perform_all s os
  end.

(** ** The word counts the holders *)

Definition attached (c : kind) (l : positive) (x : holder) : bool :=
  bool_decide (h_kind x = c /\ m_lock x = Some l).
Definition count (c : kind) (l : positive) (hs : gmap positive holder) : nat :=
  size (filter (fun kx => attached c l kx.2 = true) hs).

Definition counted (s : store) : Prop := forall l bits, locks s !! l = Some bits ->
  bits = word (count Read l (holders s)) (count Upgraded l (holders s)) (count Write l (holders s)) /\
  (count Upgraded l (holders s) + count Write l (holders s) <= 1)%nat /\
  (count Write l (holders s) = 1 -> count Read l (holders s) = 0)%nat.

Definition unit_of (c : kind) (l : positive) (x : holder) : nat := if attached c l x then 1 else 0.

Lemma count_insert c l hs h x : count c l (<[h := x]> hs) = (unit_of c l x + count c l (delete h hs))%nat.
Proof.
  unfold count, unit_of. rewrite <- insert_delete_eq, map_filter_insert. cbn.
  destruct (attached c l x) eqn:E.
  - rewrite decide_True by done. rewrite map_size_insert_None; [done|].
    apply map_lookup_filter_None. left. apply lookup_delete_eq.
  - rewrite decide_False by done. cbn. by rewrite delete_delete_eq.
Qed.

Lemma count_split c l hs h x : hs !! h = Some x -> count c l hs = (unit_of c l x + count c l (delete h hs))%nat.
Proof. intros Hh. rewrite <- count_insert. by rewrite insert_id. Qed.

Lemma count_size c l hs : (count c l hs <= size hs)%nat.
Proof.
  induction hs as [|h x hs Hn IH] using map_ind; [done|].
  rewrite count_insert, map_size_insert_None, delete_id by done. unfold unit_of. destruct (attached c l x); lia.
Qed.

(** Only the counts of the holders matter. *)
Lemma counted_ext L hs hs' :
  (forall c l, count c l hs' = count c l hs) -> counted (mkStore L hs) -> counted (mkStore L hs').
Proof. intros E C l bits Hl. cbn in *. rewrite !E. by apply C. Qed.

(** 1 for the class [k] itself. *)
Definition plus (c k : kind) : nat :=
  match c, k with Read, Read | Upgraded, Upgraded | Write, Write => 1 | _, _ => 0 end.

Lemma unit_none c l k : unit_of c l (mkHolder k None) = 0%nat.
Proof. unfold unit_of, attached. by rewrite bool_decide_eq_false_2 by (intros [_ ?]; done). Qed.
Lemma unit_other c l l' k : l <> l' -> unit_of c l (mkHolder k (Some l')) = 0%nat.
Proof. intros Hne. unfold unit_of, attached. by rewrite bool_decide_eq_false_2 by (intros [_ [= ->]]; done). Qed.
Lemma unit_same c l k : unit_of c l (mkHolder k (Some l)) = plus c k.
Proof.
  unfold unit_of, attached. destruct c, k;
    (by rewrite bool_decide_eq_true_2) || by rewrite bool_decide_eq_false_2 by (intros [? _]; done).
Qed.

(** ** The operations on a word that counts *)

Definition word_counts (R U W : nat) : Prop :=
  (U + W <= 1)%nat /\ (W = 1 -> R = 0)%nat /\ 4 * (Z.of_nat R + 3) < 2 ^ 31.

Lemma word_counts_ok R U W : word_counts R U W -> word_ok R U W.
Proof. unfold word_counts, word_ok. lia. Qed.

Lemma acquire_word k R U W b :
  word_counts R U W -> acquire k (word R U W) = Some b ->
  b = word (R + plus Read k) (U + plus Upgraded k) (W + plus Write k) /\
  (U + plus Upgraded k + (W + plus Write k) <= 1)%nat /\ (W + plus Write k = 1 -> R + plus Read k = 0)%nat.
Proof.
  intros C. pose proof (word_counts_ok _ _ _ C) as O. unfold word_counts in C. destruct k; cbn [plus acquire].
  - unfold lock_shared, when. rewrite try_lock_shared_word by done. cbn. case_bool_decide; [|done].
    intros [= <-]. unfold word. lia.
  - unfold lock_upgrade, when. rewrite try_lock_upgrade_word by done. cbn. case_bool_decide; [|done].
    intros [= <-]. unfold word. lia.
  - unfold lock, when, try_lock, compare_exchange. destruct (word R U W =? 0) eqn:E; [|done].
    apply word_zero_iff in E as (-> & -> & ->). intros [= <-]. unfold word, WRITER. lia.
Qed.

Lemma release_word k R U W :
  word_counts (R + plus Read k) (U + plus Upgraded k) (W + plus Write k) ->
  release k (word (R + plus Read k) (U + plus Upgraded k) (W + plus Write k)) = word R U W.
Proof.
  intros C. pose proof (word_counts_ok _ _ _ C) as O. unfold word_counts in C. destruct k; cbn [plus release] in *.
  - unfold unlock_shared. rewrite fetch_add_word; unfold word, READER; lia.
  - unfold unlock_upgrade. rewrite fetch_add_word; unfold word, UPGRADED; lia.
  - rewrite unlock_word by done. unfold word. lia.
Qed.

Lemma convert_word k k' op R U W b :
  convert k k' = Some op -> word_counts (R + plus Read k) (U + plus Upgraded k) (W + plus Write k) ->
  op (word (R + plus Read k) (U + plus Upgraded k) (W + plus Write k)) = Some b ->
  b = word (R + plus Read k') (U + plus Upgraded k') (W + plus Write k') /\
  (U + plus Upgraded k' + (W + plus Write k') <= 1)%nat /\ (W + plus Write k' = 1 -> R + plus Read k' = 0)%nat.
Proof.
  intros Hc C. pose proof (word_counts_ok _ _ _ C) as O. unfold word_counts in C.
  destruct k, k'; try done; injection Hc as <-; cbn [plus release] in *.
  - intros [= <-]. unfold unlock_upgrade_and_lock_shared. rewrite fetch_add_word; unfold word, READER, UPGRADED; lia.
  - unfold unlock_upgrade_and_lock, when, try_unlock_upgrade_and_lock, compare_exchange.
    destruct (Z.eqb_spec (word (R + 0) (U + 1) (W + 0)) UPGRADED) as [E|]; [|done].
    intros [= <-]. unfold word, UPGRADED, WRITER in *. lia.
  - intros [= <-]. unfold unlock_and_lock_shared, unlock_and_lock_shared_add.
    rewrite fetch_add_word by (unfold word, READER; lia).
    replace (word _ _ _ + READER) with (word (R + 1) U (W + 1)) by (unfold word, READER; lia).
    rewrite unlock_word by (unfold word_ok in *; lia). unfold word. lia.
  - intros [= <-]. unfold unlock_and_lock_upgrade, unlock_and_lock_upgrade_or, fetch_or, UPGRADED. cbn [snd].
    destruct (word_low _ _ _ O) as (_ & _ & ->). unfold unlock_and_lock_upgrade_add.
    rewrite fetch_add_word; unfold word, WRITER; lia.
Qed.

(** ** The holders on the locks *)

Definition few (hs : gmap positive holder) : Prop := 4 * (Z.of_nat (size hs) + 3) < 2 ^ 31.

Lemma counted_word L hs l bits :
  counted (mkStore L hs) -> few hs -> L !! l = Some bits ->
  bits = word (count Read l hs) (count Upgraded l hs) (count Write l hs) /\
  word_counts (count Read l hs) (count Upgraded l hs) (count Write l hs).
Proof.
  intros C F Hl. destruct (C l bits Hl) as (-> & H1 & H2). split; [done|].
  pose proof (count_size Read l hs). unfold word_counts, few in *. cbn in *. lia.
Qed.

(** The only effect of an operation on a lock is on its word. *)
Lemma on_lock_Some s l op s' :
  on_lock s (Some l) op = Some s' ->
  exists bits bits', locks s !! l = Some bits /\ op bits = Some bits' /\
    s' = mkStore (<[l := bits']> (locks s)) (holders s).
Proof.
  cbn. destruct (locks s !! l) as [b|]; [|done]. cbn. destruct (op b) as [b'|] eqn:E; [|done]. intros [= <-]. by exists b, b'.
Qed.

(** A holder takes a lock. *)
Lemma acquire_ok L hs hs0 h k lo s' :
  counted (mkStore L hs) -> few hs -> hs !! h = None ->
  on_lock (mkStore L hs0) lo (acquire k) = Some s' ->
  counted (mkStore (locks s') (<[h := mkHolder k lo]> hs)) /\ holders s' = hs0.
Proof.
  intros C F Hh. destruct lo as [l|].
  - intros (bits & b' & Hl & Ha & ->)%on_lock_Some. cbn in *. split; [|done].
    destruct (counted_word _ _ _ _ C F Hl) as [-> Hw]. destruct (acquire_word _ _ _ _ _ Hw Ha) as (-> & H1 & H2).
    intros l' bits. cbn. rewrite !count_insert, !delete_id by done.
    destruct (decide (l' = l)) as [->|Hne].
    + rewrite lookup_insert_eq, !unit_same, !(Nat.add_comm (plus _ k)). by intros [= <-].
    + rewrite lookup_insert_ne, !unit_other by done. apply (C l').
  - intros [= <-]. split; [|done]. apply (counted_ext L hs); [|done].
    intros c l. by rewrite count_insert, unit_none, delete_id.
Qed.

(** A holder gives its lock up. *)
Lemma release_ok L hs hs0 h x s' :
  counted (mkStore L hs) -> few hs -> hs !! h = Some x ->
  on_lock (mkStore L hs0) (m_lock x) (fun b => Some (release (h_kind x) b)) = Some s' ->
  counted (mkStore (locks s') (delete h hs)) /\ holders s' = hs0.
Proof.
  intros C F Hh. destruct x as [k [l|]]; cbn [m_lock h_kind].
  - intros (bits & b' & Hl & [= <-] & ->)%on_lock_Some. cbn in *. split; [|done].
    destruct (counted_word _ _ _ _ C F Hl) as [-> Hw].
    rewrite !(count_split _ l hs h _ Hh), !unit_same in *.
    rewrite !(Nat.add_comm (plus _ k)) in *. rewrite release_word by done.
    intros l' bits. cbn. destruct (decide (l' = l)) as [->|Hne].
    + rewrite lookup_insert_eq. intros [= <-]. split; [done|]. unfold word_counts in Hw. lia.
    + rewrite lookup_insert_ne by done. intros Hl'. specialize (C l' bits Hl').
      cbn in C. by rewrite !(count_split _ l' hs h _ Hh), !unit_other in C by done.
  - intros [= <-]. split; [|done]. apply (counted_ext L hs); [|done].
    intros c l. by rewrite (count_split c l hs h _ Hh), unit_none.
Qed.

(** A holder's lock goes to a holder of another class. *)
Lemma convert_ok L hs hs0 h x k op s' :
  counted (mkStore L hs) -> few hs -> hs !! h = Some x -> convert (h_kind x) k = Some op ->
  on_lock (mkStore L hs0) (m_lock x) op = Some s' ->
  counted (mkStore (locks s') (<[h := mkHolder k (m_lock x)]> hs)) /\ holders s' = hs0.
Proof.
  intros C F Hh Hc. destruct x as [k0 [l|]]; cbn [m_lock h_kind] in *.
  - intros (bits & b' & Hl & Hop & ->)%on_lock_Some. cbn in *. split; [|done].
    destruct (counted_word _ _ _ _ C F Hl) as [-> Hw].
    rewrite !(count_split _ l hs h _ Hh), !unit_same in *.
    rewrite !(Nat.add_comm (plus _ k0)) in *. destruct (convert_word _ _ _ _ _ _ _ Hc Hw Hop) as (-> & H1 & H2).
    intros l' bits. cbn. rewrite !count_insert. destruct (decide (l' = l)) as [->|Hne].
    + rewrite lookup_insert_eq, !unit_same, !(Nat.add_comm (plus _ k)). by intros [= <-].
    + rewrite lookup_insert_ne by done. intros Hl'. specialize (C l' bits Hl').
      cbn in C. rewrite !(count_split _ l' hs h _ Hh), !unit_other in C by done. by rewrite !unit_other.
  - intros [= <-]. split; [|done]. apply (counted_ext L hs); [|done].
    intros c l. by rewrite count_insert, (count_split c l hs h _ Hh), !unit_none.
Qed.

(** Moving a lock between two holders of one class. *)
Lemma count_move c l hs h other x k' :
  hs !! h = None -> hs !! other = Some x ->
  count c l (<[h := mkHolder k' (m_lock x)]> (<[other := mkHolder (h_kind x) None]> hs)) =
  count c l (<[other := mkHolder k' (m_lock x)]> hs).
Proof.
  intros Hh Ho. assert (h <> other) by (intros ->; congruence).
  rewrite count_insert, delete_id by (by rewrite lookup_insert_ne).
  by rewrite !count_insert, unit_none.
Qed.

Lemma count_swap c l hs h other x y :
  hs !! h = Some x -> hs !! other = Some y -> h_kind x = h_kind y ->
  count c l (<[other := mkHolder (h_kind y) (m_lock x)]> (<[h := mkHolder (h_kind x) (m_lock y)]> hs)) = count c l hs.
Proof.
  intros Hx Hy E. destruct x as [k lx], y as [k' ly]. cbn in *. subst k'.
  destruct (decide (h = other)) as [->|Hne].
  - rewrite Hx in Hy. injection Hy as <-. by rewrite insert_insert_eq, insert_id.
  - rewrite count_insert, delete_insert_ne by done. rewrite count_insert, (count_split c l hs h _ Hx).
    rewrite (count_split c l (delete h hs) other (mkHolder k ly)) by (by rewrite lookup_delete_ne).
    rewrite (delete_delete hs other h). lia.
Qed.

(** Every operation keeps the words right and adds at most one holder. *)
Definition keeps_counted (s : store) (r : option store) : Prop := forall s',
  r = Some s' -> counted s' /\ (size (holders s') <= S (size (holders s)))%nat.

Section operations.
Context (L : gmap positive Z) (hs : gmap positive holder)
  (C : counted (mkStore L hs)) (F : few hs).

Lemma holder_new_counted h k l : hs !! h = None -> keeps_counted (mkStore L hs) (holder_new (mkStore L hs) h k l).
Proof using C F.
  intros Hh s'. unfold holder_new. destruct (on_lock _ l (acquire k)) as [s1|] eqn:E; [|done]. intros [= <-]. cbn.
  destruct (acquire_ok _ _ _ h _ _ _ C F Hh E) as [C' E']. unfold set_holder. cbn. rewrite E'. split; [done|].
  by rewrite map_size_insert_None.
Qed.

Lemma holder_from_counted h k other :
  hs !! h = None -> keeps_counted (mkStore L hs) (holder_from (mkStore L hs) h k other).
Proof using C F.
  intros Hh s'. unfold holder_from. cbn. destruct (hs !! other) as [x|] eqn:Ho; [|done]. cbn.
  assert (forall y z, size (<[h := y]> (<[other := z]> hs)) = S (size hs)) as Hsz.
  { intros y z. assert (h <> other) by (intros ->; congruence).
    rewrite map_size_insert_None by (by rewrite lookup_insert_ne). by rewrite map_size_insert_Some by eauto. }
  case_decide as Hk.
  - intros [= <-]. cbn. rewrite Hsz. split; [|done]. apply (counted_ext L hs); [|done]. intros c l.
    rewrite (count_move _ _ _ _ _ _ _ Hh Ho), insert_id; [done|]. rewrite Ho. subst k. by destruct x.
  - destruct (convert (h_kind x) k) as [op|] eqn:Hc; [|done]. cbn.
    destruct (on_lock _ (m_lock x) op) as [s1|] eqn:E; [|done]. intros [= <-]. cbn.
    destruct (convert_ok _ _ _ other _ _ _ _ C F Ho Hc E) as [C' E']. unfold set_holder. rewrite E'. cbn. rewrite Hsz.
    split; [|done]. eapply counted_ext; [|exact C']. intros c l. by apply count_move.
Qed.

Lemma holder_swap_counted h other : keeps_counted (mkStore L hs) (holder_swap (mkStore L hs) h other).
Proof using C.
  intros s'. unfold holder_swap. cbn. destruct (hs !! h) as [x|] eqn:Hx; [|done]. cbn.
  destruct (hs !! other) as [y|] eqn:Hy; [|done]. cbn. case_decide as Hk; [|done]. intros [= <-]. cbn. split.
  - apply (counted_ext L hs); [|done]. intros c l. by apply count_swap.
  - destruct (decide (h = other)) as [->|Hne].
    + rewrite insert_insert_eq, map_size_insert_Some by eauto. lia.
    + rewrite map_size_insert_Some by (rewrite lookup_insert_ne by done; eauto).
      rewrite map_size_insert_Some by eauto. lia.
Qed.

Lemma holder_reset_counted h l : keeps_counted (mkStore L hs) (holder_reset (mkStore L hs) h l).
Proof using C F.
  intros s'. unfold holder_reset. cbn. destruct (hs !! h) as [x|] eqn:Hx; [|done]. cbn. case_decide as Hk.
  { intros [= <-]. cbn. split; [done|lia]. }
  destruct (on_lock _ (m_lock x) _) as [s1|] eqn:E1; [|done]. cbn.
  destruct (on_lock s1 l _) as [s2|] eqn:E2; [|done]. intros [= <-]. cbn.
  destruct (release_ok _ _ _ h _ _ C F Hx E1) as [C1 Hs1]. destruct s1 as [L1 hs1]. cbn in Hs1. subst hs1.
  assert (few (delete h hs)) as F1
    by (unfold few in *; cbn in F; rewrite map_size_delete_Some by eauto; lia).
  destruct (acquire_ok _ _ _ h _ _ _ C1 F1 (lookup_delete_eq _ _) E2) as [C2 Hs2].
  unfold set_holder. rewrite Hs2. rewrite insert_delete_eq in C2. split; [done|].
  cbn. rewrite map_size_insert_Some by eauto. lia.
Qed.

Lemma holder_destroy_counted h : keeps_counted (mkStore L hs) (holder_destroy (mkStore L hs) h).
Proof using C F.
  intros s'. unfold holder_destroy. cbn. destruct (hs !! h) as [x|] eqn:Hx; [|done]. cbn.
  destruct (on_lock _ (m_lock x) _) as [s1|] eqn:E1; [|done]. intros [= <-]. cbn.
  destruct (release_ok _ _ _ h _ _ C F Hx E1) as [C1 ->]. split; [done|].
  rewrite map_size_delete_Some by eauto. lia.
Qed.
End operations.

Lemma perform_counted s o : counted s -> few (holders s) -> keeps_counted s (perform s o).
Proof.
  destruct s as [L hs]. intros C F. destruct o as [h k l|h k other|h other|h l|h]; cbn [perform].
  - case_decide; [by apply holder_new_counted|done].
  - case_decide; [by apply holder_from_counted|done].
  - by apply holder_swap_counted.
  - by apply holder_reset_counted.
  - by apply holder_destroy_counted.
Qed.

Lemma perform_all_counted os : forall s s',
  counted s -> 4 * (Z.of_nat (size (holders s) + length os) + 3) < 2 ^ 31 -> perform_all s os = Some s' -> counted s'.
Proof.
  induction os as [|o os IH]; intros s s' C F; cbn [perform_all length] in *; [by intros [= <-]|].
  destruct (perform s o) as [s1|] eqn:E; [|done]. cbn.
  destruct (perform_counted s o C) with s1 as [C1 Hs]; [unfold few; lia|done|]. apply IH; [done|lia].
Qed.

(** The locks before any holder exists. *)
Definition free_locks (L : gmap positive Z) : store := mkStore L ∅.

Lemma free_counted (L : gmap positive Z) : map_Forall (fun _ b => b = 0) L -> counted (free_locks L).
Proof.
  intros HL l bits Hl. cbn in *. rewrite (HL _ _ Hl).
  assert (forall c, count c l ∅ = 0%nat) as E by (intros c; pose proof (count_size c l ∅); rewrite map_size_empty in *; lia).
  rewrite !E. split; [done|lia].
Qed.

(** C22: whatever holders a program creates, converts, swaps, resets and
    destroys, in any order, the word of every lock is made of the holders that
    are attached to it: 4 for each reader, 2 for the upgrader, 1 for the writer;
    there is at most one upgrader or writer, and no reader beside a writer.  In
    particular a lock whose holders are gone is free: no conversion or move
    releases a lock twice or forgets to release it. *)
Theorem holders_counted L os s l bits :
  map_Forall (fun _ b => b = 0) L -> 4 * (Z.of_nat (length os) + 3) < 2 ^ 31 ->
  perform_all (free_locks L) os = Some s -> locks s !! l = Some bits ->
  bits = word (count Read l (holders s)) (count Upgraded l (holders s)) (count Write l (holders s)) /\
  (count Upgraded l (holders s) + count Write l (holders s) <= 1)%nat /\
  (count Write l (holders s) = 1 -> count Read l (holders s) = 0)%nat /\
  (holders s = ∅ -> bits = 0).
Proof.
  intros HL Hn E Hl. destruct (perform_all_counted os _ _ (free_counted L HL) Hn E l bits Hl) as (-> & H1 & H2).
  split; [done|]. split; [done|]. split; [done|]. intros ->. by vm_compute.
Qed.

(** Readers, an upgrade, a downgrade, and the destruction of all holders. *)
Definition sample_operations : list operation :=
  [New 1 Read (Some 1%positive); New 2 Upgraded (Some 1%positive); Destroy 1; From 3 Write 2;
   From 4 Read 3; New 5 Read (Some 2%positive); Swap 4 5; Reset 4 None].

Lemma holders_counted_witness :
  exists s, perform_all (free_locks {[1%positive := 0; 2%positive := 0]}) sample_operations = Some s /\ 4 = word 1 0 0.
Proof.
  eexists. split; [vm_compute; reflexivity|].
  refine (eq_trans (proj1 (holders_counted {[1%positive := 0; 2%positive := 0]} sample_operations
    (match perform_all (free_locks {[1%positive := 0; 2%positive := 0]}) sample_operations with
     | Some s => s | None => free_locks ∅ end) 1 4 _ _ _ _)) _).
  - apply (bool_decide_unpack _). vm_compute. exact I.
  - vm_compute. reflexivity.
  - vm_compute. reflexivity.
  - vm_compute. reflexivity.
  - vm_compute. reflexivity.
Defined.
