(* ===== verification/Pool.v ===== *)
(** * Pool: src/fastpath/utils/tfpool.h

    The object pools: [pool<T, L>] for any type and its specialisation for
    types derived from [reusable].  Objects are addresses with their contents
    in a store.  Every operation runs under [m_lock] from its first to its last
    access to the members, so operations are atomic; the pool grows when it is
    empty and never shrinks. *)
From S2P Require Import Prelude Heap ByteStorage MessageBuffer Types Field Message.

(** The interface [reusable] (with the default constructor the pool needs). *)
Class Reusable (T : Type) := {
  default_construct : T;
  prepare_for_reuse : T -> T;
  prepare_resets : forall t, prepare_for_reuse (prepare_for_reuse t) = prepare_for_reuse t
}.

Record pool (T : Type) := mkPool {
  m_poolSize : Z;
  m_freeAllocations : list positive;
  m_objectCache : list positive;
  objects : gmap positive T;             (* the objects of the pool *)
  next_address : positive                (* what the next [new T()] returns *)
}.
Arguments mkPool {T} _ _ _ _ _.
Arguments m_poolSize {T} _.
Arguments m_freeAllocations {T} _.
Arguments m_objectCache {T} _.
Arguments objects {T} _.
Arguments next_address {T} _.

Section pool.
Context {T : Type} (construct : T).

(** [n] times [m_objectCache.emplace_back(new T())]. *)
Fixpoint new_objects (n : nat) (cache : list positive) (objs : gmap positive T) (next : positive)
    : list positive * gmap positive T * positive :=
  match n with
  | O => (cache, objs, next)
  | S n => new_objects n (cache ++ [next]) (<[next := construct]> objs) (Pos.succ next)
  end.

Definition pool_new (poolSize : Z) (next : positive) : pool T :=
  let '(cache, objs, next) := new_objects (Z.to_nat poolSize) [] ∅ next in
  mkPool poolSize cache cache objs next.

(** The branch of [allocate] taken when [m_freeAllocations] is empty. *)
Definition grow (p : pool T) : pool T :=
  let newPoolSize := u64 (m_poolSize p * 2) in
  let '(cache, objs, next) :=
    new_objects (Z.to_nat (newPoolSize - m_poolSize p)) (m_objectCache p) (objects p) (next_address p) in
  mkPool newPoolSize (m_freeAllocations p ++ drop (Z.to_nat (m_poolSize p)) cache) cache objs next.

(** [allocate()] of the general pool; [back()] of an empty vector is undefined. *)
Definition allocate (p : pool T) : outcome (positive * pool T) :=
  let p := if bool_decide (m_freeAllocations p = []) then grow p else p in
  match last (m_freeAllocations p) with
  | Some object =>
      Ok (object, mkPool (m_poolSize p) (removelast (m_freeAllocations p)) (m_objectCache p)
                    (objects p) (next_address p))
  | None => undefined OutOfBounds
  end.

Definition push_free (p : pool T) (object : positive) : pool T :=
  mkPool (m_poolSize p) (m_freeAllocations p ++ [object]) (m_objectCache p) (objects p) (next_address p).

(** [release(object)], without and with [CHECK_DOUBLE_FREE]. *)
Definition release (check_double_free : bool) (p : pool T) (object : option positive)
    : outcome (pool T) :=
  match object with
  | None => Ok p
  | Some o =>
      _ ← (if check_double_free then assert_ (bool_decide (o ∉ m_freeAllocations p)) else Ok tt);
      Ok (push_free p o)
  end.

(** [release] of the specialisation also asserts that the pool is not full. *)
Definition release_reusable (check_double_free : bool) (p : pool T) (object : option positive)
    : outcome (pool T) :=
  match object with
  | None => Ok p
  | Some o =>
      _ ← (if check_double_free then assert_ (bool_decide (o ∉ m_freeAllocations p)) else Ok tt);
      _ ← assert_ (Z.of_nat (length (m_freeAllocations p)) <? m_poolSize p);
      Ok (push_free p o)
  end.

Definition is_from_pool (p : pool T) (object : positive) : bool :=
  bool_decide (object ∈ m_objectCache p).

(** [utilisation()]: the two sides of the quotient. *)
Definition utilisation (p : pool T) : Z * Z :=
  (Z.of_nat (length (m_freeAllocations p)), m_poolSize p).

(** [~pool()]: the objects that are deleted. *)
Definition pool_destroy (p : pool T) : outcome (list positive) :=
  _ ← assert_ (length (m_freeAllocations p) =? length (m_objectCache p))%nat;
  Ok (m_objectCache p).
End pool.

(** [allocate()] of the specialisation: [object->prepareForReuse()] at the end. *)
Definition allocate_reusable {T} `{Reusable T} (p : pool T) : outcome (positive * pool T) :=
  '(object, p) ← allocate default_construct p;
  match objects p !! object with
  | Some t => Ok (object, mkPool (m_poolSize p) (m_freeAllocations p) (m_objectCache p)
                            (<[object := prepare_for_reuse t]> (objects p)) (next_address p))
  | None => undefined UseAfterFree
  end.

(** ** The invariant *)

(** Free and handed-out objects together are the objects of the pool, each
    once. *)
Record pool_inv {T} (p : pool T) (out : list positive) : Prop := {
  pi_perm : (m_freeAllocations p ++ out) ≡ₚ m_objectCache p;
  pi_nodup : NoDup (m_objectCache p);
  pi_size : m_poolSize p = Z.of_nat (length (m_objectCache p));
  pi_live : forall a, is_Some (objects p !! a) <-> a ∈ m_objectCache p;
  pi_next : forall a, a ∈ m_objectCache p -> (a < next_address p)%positive
}.

Section pool_proofs.
Context {T : Type} (construct : T).

Lemma new_objects_spec n : forall cache objs next cache' objs' next',
  NoDup cache -> (forall a, is_Some (objs !! a) <-> a ∈ cache) ->
  (forall a, a ∈ cache -> (a < next)%positive) ->
  new_objects construct n cache objs next = (cache', objs', next') ->
  exists new, cache' = cache ++ new /\ length new = n /\ NoDup cache' /\
    (forall a, is_Some (objs' !! a) <-> a ∈ cache') /\
    (forall a, a ∈ cache' -> (a < next')%positive).
Proof.
  induction n as [|n IH]; intros cache objs next cache' objs' next' Hnd Hl Hlt E; simpl in E.
  - injection E as <- <- <-. exists []. rewrite app_nil_r. auto.
  - apply IH in E as (new & -> & Hlen & Hrest).
    + exists (next :: new). rewrite <- (app_assoc cache [next] new) in *. split; [done|]. simpl. auto.
    + apply NoDup_app. split; [done|]. split; [|apply NoDup_singleton].
      intros a Ha ->%list_elem_of_singleton. specialize (Hlt _ Ha). lia.
    + intros a. rewrite lookup_insert_is_Some', Hl, elem_of_app, list_elem_of_singleton.
      split; intros [?|?]; auto.
    + intros a [Ha| ->%list_elem_of_singleton]%elem_of_app; [|lia]. specialize (Hlt _ Ha). lia.
Qed.

Lemma pool_new_inv n next : 0 <= n -> pool_inv (pool_new construct n next) [].
Proof.
  intros Hn. unfold pool_new. destruct (new_objects _ _ _ _ _) as [[cache objs] nx] eqn:E.
  apply new_objects_spec in E as (new & -> & Hlen & Hnd & Hl & Hlt).
  - split; simpl; try done; [by rewrite app_nil_r|]. lia.
  - constructor.
  - intros a. rewrite lookup_empty. split; [by intros []|by intros ?%elem_of_nil].
  - by intros a ?%elem_of_nil.
Qed.

Lemma grow_inv (p : pool T) out :
  pool_inv p out -> m_freeAllocations p = [] -> 0 < m_poolSize p < 2 ^ 63 ->
  pool_inv (grow construct p) out /\ m_freeAllocations (grow construct p) <> [].
Proof.
  intros [Hp Hnd Hs Hl Hlt] Hf Hsz. unfold grow. rewrite wrap_small by lia.
  destruct (new_objects _ _ _ _ _) as [[cache objs] nx] eqn:E.
  apply new_objects_spec in E as (new & -> & Hlen & Hnd' & Hl' & Hlt'); [|done..].
  rewrite Hf in *. simpl in *. rewrite drop_app_len by lia. split.
  - split; simpl; try done.
    + by rewrite Permutation_app_comm, Hp.
    + rewrite length_app. lia.
  - intros ->. simpl in Hlen. lia.
Qed.

Lemma removelast_last (l : list positive) x : last l = Some x -> l = removelast l ++ [x].
Proof.
  intros E. apply last_Some in E as [l' ->]. by rewrite removelast_last.
Qed.

(** Taking the last free object. *)
Lemma allocate_inv (p : pool T) out :
  pool_inv p out -> 0 < m_poolSize p < 2 ^ 63 ->
  exists o p', allocate construct p = Ok (o, p') /\ (o ∉ out) /\ pool_inv p' (o :: out) /\
    is_from_pool p' o = true.
Proof.
  intros I Hsz. unfold allocate. set (q := if bool_decide _ then _ else _).
  assert (pool_inv q out /\ m_freeAllocations q <> []) as [Iq Hne].
  { unfold q. case_bool_decide; [by apply grow_inv|done]. }
  clearbody q. clear I Hsz p. destruct (last (m_freeAllocations q)) as [o|] eqn:E.
  2: { by apply last_None in E. }
  apply removelast_last in E. destruct Iq as [Hp Hnd Hs Hl Hlt].
  rewrite E, <- app_assoc in Hp. simpl in Hp.
  assert (NoDup (removelast (m_freeAllocations q) ++ o :: out)) as Hnd' by by rewrite Hp.
  apply NoDup_app in Hnd' as (_ & _ & Hnd'). apply NoDup_cons in Hnd' as [Ho _].
  do 2 eexists. split; [done|]. split; [done|]. split; [by split|].
  unfold is_from_pool. apply bool_decide_eq_true. simpl. rewrite <- Hp.
  apply elem_of_app. right. left.
Qed.

Lemma release_inv (p : pool T) out o out' :
  pool_inv p out -> out ≡ₚ o :: out' -> pool_inv (push_free p o) out'.
Proof.
  intros [Hp Hnd Hs Hl Hlt] Ho. split; simpl; try done.
  by rewrite <- Hp, Ho, <- app_assoc.
Qed.
End pool_proofs.

(** ** Clients *)

Section clients.
Context {T : Type} (construct : T) (check : bool).

(** A client allocates, and releases objects it holds. *)
Inductive client_step : pool T * list positive -> pool T * list positive -> Prop :=
  | cs_allocate p out o p' : m_poolSize p < 2 ^ 63 -> allocate construct p = Ok (o, p') ->
      client_step (p, out) (p', o :: out)
  | cs_release p out o out' p' : Permutation out (o :: out') -> release check p (Some o) = Ok p' ->
      client_step (p, out) (p', out').

Lemma allocate_size (p : pool T) o p' :
  0 < m_poolSize p < 2 ^ 63 -> allocate construct p = Ok (o, p') -> 0 < m_poolSize p'.
Proof.
  intros Hs. unfold allocate. destruct (last _) as [x|] eqn:E; [|done]. intros [= _ <-]. simpl.
  case_bool_decide; [|lia]. unfold grow. rewrite wrap_small by lia.
  destruct (new_objects _ _ _ _ _) as [[? ?] ?]. simpl. lia.
Qed.

Lemma release_result (p p' : pool T) o : release check p (Some o) = Ok p' -> p' = push_free p o.
Proof. unfold release. intros E. inv_bind. done. Qed.

Lemma client_step_inv s s' :
  client_step s s' -> pool_inv s.1 s.2 /\ 0 < m_poolSize s.1 ->
  pool_inv s'.1 s'.2 /\ 0 < m_poolSize s'.1.
Proof.
  destruct 1 as [p out o p' Hs E|p out o out' p' Ho E]; cbn [fst snd]; intros [I Hpos].
  - destruct (allocate_inv construct _ _ I (conj Hpos Hs)) as (o1 & p1 & E1 & _ & I1 & _).
    split; [|by eapply allocate_size]. rewrite E in E1. by simplify_eq.
  - apply release_result in E as ->. split; [by eapply release_inv|done].
Qed.

(** C29: however a program allocates from a pool and releases what it holds, the
    objects it holds are pairwise different objects of the pool, none of them
    is free, and (the size being representable) the next allocation succeeds
    with an object nobody holds, the pool growing when needed. *)
Theorem pool_safe n next p out :
  0 < n -> rtc client_step (pool_new construct n next, []) (p, out) ->
  NoDup out /\ Forall (fun o => is_from_pool p o = true /\ o ∉ m_freeAllocations p) out /\
  (m_poolSize p < 2 ^ 63 -> exists o p', allocate construct p = Ok (o, p') /\ o ∉ out).
Proof.
  intros Hn R. assert (pool_inv p out /\ 0 < m_poolSize p) as [I Hpos].
  { enough (forall a b, rtc client_step a b -> pool_inv a.1 a.2 /\ 0 < m_poolSize a.1 ->
      pool_inv b.1 b.2 /\ 0 < m_poolSize b.1) as A.
    { apply (A _ _ R). split; [by apply pool_new_inv; lia|]. unfold pool_new. cbn [fst].
      by destruct (new_objects _ _ _ _ _) as [[? ?] ?]. }
    induction 1; eauto using client_step_inv. }
  assert (NoDup (m_freeAllocations p ++ out)) as Hnd by (rewrite (pi_perm _ _ I); apply I).
  apply NoDup_app in Hnd as (_ & Hdis & Hnd). split; [done|]. split.
  - apply Forall_forall. intros o Ho. split; [|intros Hf; by apply (Hdis o)].
    unfold is_from_pool. apply bool_decide_eq_true. rewrite <- (pi_perm _ _ I).
    apply elem_of_app. by right.
  - intros Hs. destruct (allocate_inv construct _ _ I (conj Hpos Hs)) as (o & p' & E & Ho & _). eauto.
Qed.

(** Destruction passes its assertion exactly when every object was
    released. *)
Theorem pool_destroy_iff (p : pool T) out :
  pool_inv p out -> (pool_destroy p = Ok (m_objectCache p) <-> out = []).
Proof.
  intros I. pose proof (Permutation_length (pi_perm _ _ I)) as Hl. rewrite length_app in Hl.
  unfold pool_destroy, assert_.
  destruct (Nat.eqb_spec (length (m_freeAllocations p)) (length (m_objectCache p))) as [E|E]; cbn.
  - split; [intros _|done]. apply length_zero_iff_nil. lia.
  - split; [done|]. intros ->. simpl in Hl. lia.
Qed.

(** A second release of the same object is an assertion failure with
    [CHECK_DOUBLE_FREE]; without it the pool hands the object out twice. *)
Theorem double_release (p : pool T) o :
  release true (push_free p o) (Some o) = Err AssertFail /\
  (exists p2 p3 p4, release false (push_free p o) (Some o) = Ok p2 /\
    allocate construct p2 = Ok (o, p3) /\ allocate construct p3 = Ok (o, p4)).
Proof.
  split.
  - unfold release. rewrite bool_decide_eq_false_2; [done|]. intros H. apply H.
    simpl. apply elem_of_app. right. left.
  - do 3 eexists. split; [done|]. unfold push_free, allocate. cbn [m_freeAllocations].
    rewrite bool_decide_eq_false_2 by (by destruct (m_freeAllocations p)).
    cbn [m_freeAllocations]. rewrite last_snoc, List.removelast_last. split; [done|].
    cbn [m_freeAllocations]. rewrite bool_decide_eq_false_2 by (by destruct (m_freeAllocations p)).
    cbn [m_freeAllocations]. by rewrite last_snoc, List.removelast_last.
Qed.
End clients.

(** ** Reusable objects *)

Section reusable.
Context {T : Type} `{Reusable T}.

(** An object a reusable pool hands out is reset: its contents are the
    result of [prepareForReuse], whatever its last user left in it, and no
    other object of the pool is changed. *)
Theorem allocate_reusable_reset (p : pool T) out :
  pool_inv p out -> 0 < m_poolSize p < 2 ^ 63 ->
  exists o t p', allocate_reusable p = Ok (o, p') /\ (o ∉ out) /\ pool_inv p' (o :: out) /\
    objects p' !! o = Some (prepare_for_reuse t) /\
    forall a, a ∈ out -> objects p' !! a = objects p !! a.
Proof.
  intros I Hs. destruct (allocate_inv default_construct _ _ I Hs) as (o & p1 & E & Ho & I1 & _).
  unfold allocate_reusable. rewrite E. cbn.
  assert (o ∈ m_objectCache p1) as Hin.
  { rewrite <- (pi_perm _ _ I1). apply elem_of_app. right. left. }
  apply (pi_live _ _ I1) in Hin as Hsome. destruct (objects p1 !! o) as [t|] eqn:Et; [|by destruct Hsome].
  do 3 eexists. split; [done|]. split; [done|].
  destruct I1 as [Hp Hnd Hsz Hl Hlt]. split; [split; simpl; try done|].
  - intros a. rewrite lookup_insert_is_Some', Hl. split; [intros [<-|?]|]; auto.
  - split; [simpl; by rewrite lookup_insert_eq|]. intros a Ha. simpl.
    rewrite lookup_insert_ne by (intros ->; done).
    (* growing adds objects at new addresses only *)
    revert E. unfold allocate. destruct (last _); [|done]. intros [= _ <-]. cbn [objects].
    case_bool_decide; [|done]. unfold grow.
    assert (a ∈ m_objectCache p) as Ha' by (rewrite <- (pi_perm _ _ I); apply elem_of_app; by right).
    pose proof (pi_next _ _ I _ Ha') as Hlta.
    destruct (new_objects _ _ _ _ _) as [[c ob] nx] eqn:En. cbn [objects].
    revert En Hlta. generalize (m_objectCache p) (objects p) (next_address p).
    generalize (Z.to_nat (u64 (m_poolSize p * 2) - m_poolSize p)). clear.
    induction n as [|n IH]; intros cache objs next En Hlt; simpl in En; [by injection En as _ <- _|].
    rewrite (IH _ _ _ En) by lia. by rewrite lookup_insert_ne by lia.
Qed.
End reusable.

(** Messages are pooled: Message::prepareForReuse. *)
#[export, refine] Instance Message_reusable : Reusable Message := {
  default_construct := Message_new; prepare_for_reuse := prepareForReuse }.
Proof. by intros []. Defined.

Lemma pool_safe_witness :
  exists p, rtc (client_step 0 true) (pool_new 0 1 1, []) (p, [2%positive; 1%positive]) /\
    NoDup [2%positive; 1%positive].
Proof.
  assert (exists p, rtc (client_step 0 true) (pool_new 0 1 1, []) (p, [2%positive; 1%positive])) as [p R].
  { eexists. eapply rtc_l; [eapply (cs_allocate 0 true _ [] 1%positive); [vm_compute; reflexivity|vm_compute; reflexivity]|].
    eapply rtc_l; [eapply (cs_allocate 0 true _ _ 2%positive); [vm_compute; reflexivity|vm_compute; reflexivity]|].
    apply rtc_refl. }
  exists p. split; [exact R|]. apply (pool_safe 0 true 1 1 _ _ ltac:(lia) R).
Defined.

Lemma pool_destroy_iff_witness :
  pool_destroy (pool_new 0 2 1) = Ok [1%positive; 2%positive] <-> ([] : list positive) = [].
Proof. apply (pool_destroy_iff (pool_new 0 2 1)). apply pool_new_inv. lia. Defined.

Lemma allocate_reusable_reset_witness :
  exists o t p', allocate_reusable (pool_new Message_new 2 1) = Ok (o, p') /\
    objects p' !! o = Some (prepareForReuse t).
Proof.
  destruct (allocate_reusable_reset (pool_new Message_new 2 1) []) as (o & t & p' & E & _ & _ & Ho & _).
  - apply pool_new_inv. lia.
  - vm_compute. split; reflexivity.
  - exists o, t, p'. split; [exact E|exact Ho].
Defined.
