(* ===== verification/Arena.v ===== *)
(** * Arena: src/fastpath/utils/fast_linear_allocator.h and
      src/fastpath/utils/allocate_polymorphic.h

    The bump allocator the fields of a message live in.  A pointer is an
    address; the address a new slab gets from [malloc] is an argument of the
    operations that create one.  The list of slabs is the chain from
    [m_root_slab]; [m_current_slab] is always its last element, where a new slab
    is linked in. *)
From S2P Require Import Prelude.

Record slab := mkSlab {
  m_content : Z; m_size : Z; m_allocated : Z; m_head : Z
}.

Definition align_up (n : Z) : Z := Z.land (u64 (n + (16 - 1))) (Z.lnot (16 - 1)).

Definition pointer_in_buffer (s : slab) (p : Z) : bool := (m_content s <=? p) && (p <=? m_head s).

(** [slab(size)], with what [malloc(align_up(size))] returned. *)
Definition slab_new (base size : Z) : slab := mkSlab base size 0 base.

Definition slab_free (s : slab) : Z := m_size s - (m_head s - m_content s).

Definition slab_allocate (s : slab) (size : Z) : outcome (Z * slab) :=
  _ ← assert_ (size <=? slab_free s);
  Ok (m_head s, mkSlab (m_content s) (m_size s) (m_allocated s + size) (m_head s + size)).

Definition slab_deallocate (s : slab) (ptr size : Z) : outcome slab :=
  _ ← assert_ (pointer_in_buffer s ptr);
  let allocated := u64 (m_allocated s - size) in
  Ok (mkSlab (m_content s) (m_size s) allocated
        (if allocated =? 0 then m_content s
         else if ptr + size =? m_head s then ptr
         else m_head s)).

Record arena := mkArena { m_initial_size : Z; slabs : list slab }.

Definition arena_new (initial_size base : Z) : arena :=
  mkArena initial_size [slab_new base initial_size].

(** [find_slab_with_space] and [find_slab_containing]: the index in the chain. *)
Definition find_slab_with_space (a : arena) (size : Z) : option nat :=
  fst <$> list_find (fun s => size <= slab_free s) (slabs a).
Definition find_slab_containing (a : arena) (p : Z) : option nat :=
  fst <$> list_find (fun s => pointer_in_buffer s p = true) (slabs a).

Definition set_slab (a : arena) (i : nat) (s : slab) : arena :=
  mkArena (m_initial_size a) (<[i := s]> (slabs a)).

(** [arena::allocate(size)]; [base] is the address of a new slab. *)
Definition arena_allocate (a : arena) (size base : Z) : outcome (Z * arena) :=
  match find_slab_with_space a size with
  | Some i =>
      match slabs a !! i with
      | Some s => '(p, s) ← slab_allocate s size; Ok (p, set_slab a i s)
      | None => undefined NullDeref
      end
  | None =>
      '(p, s) ← slab_allocate (slab_new base (Z.max size (m_initial_size a))) size;
      Ok (p, mkArena (m_initial_size a) (slabs a ++ [s]))
  end.

Definition arena_deallocate (a : arena) (p size : Z) : outcome arena :=
  let s := find_slab_containing a p in
  _ ← assert_ (bool_decide (is_Some s));
  match s with
  | Some i =>
      match slabs a !! i with
      | Some s => s ← slab_deallocate s p size; Ok (set_slab a i s)
      | None => undefined NullDeref
      end
  | None => Ok a
  end.

(** [~arena()]: [s = s->m_next; delete s;] from the root on.  [s] is an index
    into the chain, [freed] the slabs deleted so far; [delete nullptr] does
    nothing. *)
Fixpoint destroy_loop (fuel : nat) (n : nat) (s : option nat) (freed : list nat)
    : outcome (list nat) :=
  match s with
  | None => Ok freed
  | Some i =>
      match fuel with
      | O => Err OutOfFuel
      | S fuel =>
          if bool_decide (i ∈ freed) then undefined UseAfterFree
          else
            let next := if (S i <? n)%nat then Some (S i) else None in
            destroy_loop fuel n next (match next with Some j => j :: freed | None => freed end)
      end
  end.
Definition arena_destroy (a : arena) : outcome (list nat) :=
  destroy_loop (S (length (slabs a))) (length (slabs a)) (Some 0%nat) [].

(** *** allocate_polymorphic.h: a size word in front of every object *)

Definition size_word : Z := 8.

(** The size words in memory, by address. *)
Definition poly_allocate (a : arena) (info : gmap Z Z) (sizeof_T base : Z)
    : outcome (Z * arena * gmap Z Z) :=
  '(ptr, a) ← arena_allocate a (sizeof_T + size_word) base;
  Ok (ptr + size_word, a, <[ptr := sizeof_T]> info).

Definition poly_deallocate (a : arena) (info : gmap Z Z) (ptr : Z) : outcome (arena * gmap Z Z) :=
  let alloc_ptr := ptr - size_word in
  match info !! alloc_ptr with
  | Some n =>
      let n := n + size_word in
      a ← arena_deallocate a alloc_ptr n;
      Ok (a, <[alloc_ptr := n]> info)
  | None => undefined IndeterminateRead
  end.

(** ** The invariant: live regions *)

(** A region is its address and its size. *)
Abbreviation region := (Z * Z)%type.
Definition disjoint_regions (r1 r2 : region) : Prop := r1.1 + r1.2 <= r2.1 \/ r2.1 + r2.2 <= r1.1.
Definition sizes (live : list region) : Z := foldr (fun r n => r.2 + n) 0 live.

(** The live regions of a slab are positive, lie below its head and do not
    overlap; [m_allocated] is the sum of their sizes. *)
Record slab_inv (s : slab) (live : list region) : Prop := {
  si_head : m_content s <= m_head s <= m_content s + m_size s;
  si_size : m_size s < 2 ^ 62;
  si_live : Forall (fun r => 0 < r.2 /\ m_content s <= r.1 /\ r.1 + r.2 <= m_head s) live;
  si_disjoint : ForallOrdPairs disjoint_regions live;
  si_allocated : m_allocated s = sizes live;
  si_fill : m_allocated s <= m_head s - m_content s
}.

Lemma sizes_cons r l : sizes (r :: l) = r.2 + sizes l.
Proof. done. Qed.

Lemma sizes_app l1 l2 : sizes (l1 ++ l2) = sizes l1 + sizes l2.
Proof. induction l1 as [|r l1 IH]; simpl; [done|]. lia. Qed.

Arguments sizes : simpl never.

Lemma sizes_nonneg (live : list region) P :
  Forall (fun r => 0 < r.2 /\ P r) live -> 0 <= sizes live.
Proof. induction 1 as [|r l [Hr _] _ IH]; [done|]. rewrite sizes_cons. lia. Qed.

(** Non-overlapping regions of an interval are not longer than it in total. *)
Lemma sizes_zero (live : list region) P :
  Forall (fun r => 0 < r.2 /\ P r) live -> sizes live = 0 -> live = [].
Proof.
  destruct 1 as [|r l [Hr _] Hl]; [done|]. rewrite sizes_cons. apply sizes_nonneg in Hl. lia.
Qed.

Lemma pairs_middle l1 r l2 :
  ForallOrdPairs disjoint_regions (l1 ++ r :: l2) ->
  ForallOrdPairs disjoint_regions (l1 ++ l2) /\ Forall (disjoint_regions r) (l1 ++ l2).
Proof.
  induction l1 as [|x l1 IH]; simpl; intros HP; inversion_clear HP as [|? ? H1 H2].
  { by split. }
  apply IH in H2 as [H2 H3]. apply Forall_app in H1 as [H1a H1b]. inversion_clear H1b as [|? ? Hxr H1c].
  split; (constructor; [|done]).
  - by apply Forall_app.
  - unfold disjoint_regions in *. lia.
Qed.

Lemma slab_allocate_inv s live size :
  slab_inv s live -> 0 < size <= slab_free s ->
  exists p s', slab_allocate s size = Ok (p, s') /\ slab_inv s' ((p, size) :: live) /\
    m_content s' = m_content s /\ m_size s' = m_size s.
Proof.
  intros [Hh Hs Hl Hd Ha Hfill] Hsz. unfold slab_free in Hsz. unfold slab_allocate, slab_free.
  rewrite (proj2 (Z.leb_le _ _)) by lia. cbn. do 2 eexists. split; [done|]. split; [|done].
  split; rewrite ?sizes_cons; cbn; try lia.
  - constructor; [cbn; lia|]. eapply Forall_impl; [exact Hl|]. cbn. intros r Hr. cbn in *. lia.
  - constructor; [|done]. eapply Forall_impl; [exact Hl|]. intros r Hr. right. cbn in *. lia.
Qed.

Lemma slab_deallocate_inv s l1 l2 p size :
  slab_inv s (l1 ++ (p, size) :: l2) ->
  exists s', slab_deallocate s p size = Ok s' /\ slab_inv s' (l1 ++ l2) /\
    m_content s' = m_content s /\ m_size s' = m_size s.
Proof.
  intros [Hh Hs Hl Hd Ha Hfill]. apply pairs_middle in Hd as [Hd Hdr].
  apply Forall_app in Hl as [Hl1 Hl2]. inversion_clear Hl2 as [|? ? (Hp0 & Hp1 & Hp2) Hl2'].
  assert (Forall (fun r => 0 < r.2 /\ m_content s <= r.1 /\ r.1 + r.2 <= m_head s) (l1 ++ l2)) as Hl
    by (by apply Forall_app). cbn [fst snd] in *.
  rewrite sizes_app, sizes_cons in Ha. cbn [snd] in Ha.
  pose proof (sizes_nonneg _ _ Hl) as Hn. rewrite sizes_app in Hn.
  unfold slab_deallocate, pointer_in_buffer. rewrite !(proj2 (Z.leb_le _ _)) by lia. cbn.
  rewrite wrap_small by lia. eexists. split; [done|]. split; [|done].
  destruct (Z.eqb_spec (m_allocated s - size) 0) as [E0|E0].
  - assert (l1 ++ l2 = []) as E by (apply (sizes_zero _ _ Hl); rewrite sizes_app; lia).
    split; cbn; rewrite ?E; try done; cbn; try lia; constructor.
  - destruct (Z.eqb_spec (p + size) (m_head s)) as [Eh|Eh].
    + split; cbn; rewrite ?sizes_app; try done; try lia.
      apply Forall_forall. intros r Hr. rewrite Forall_forall in Hl, Hdr.
      specialize (Hl r Hr). specialize (Hdr r Hr). unfold disjoint_regions in Hdr. cbn in *. lia.
    + split; cbn; rewrite ?sizes_app; try done; lia.
Qed.

(** The slabs of an arena with their live regions; the address ranges of
    different slabs are apart ([malloc] keeps its own bookkeeping between
    blocks). *)
Definition apart (s1 s2 : slab) : Prop :=
  m_content s1 + m_size s1 < m_content s2 \/ m_content s2 + m_size s2 < m_content s1.

Definition pairwise_apart (l : list slab) : Prop :=
  forall i j s1 s2, l !! i = Some s1 -> l !! j = Some s2 -> i <> j -> apart s1 s2.

Record arena_inv (a : arena) (live : list (list region)) : Prop := {
  ai_slabs : Forall2 slab_inv (slabs a) live;
  ai_apart : pairwise_apart (slabs a);
  ai_initial : 0 <= m_initial_size a < 2 ^ 62
}.

(** The address of a new slab is apart from the slabs there are. *)
Definition malloc_ok (a : arena) (base size : Z) : Prop :=
  Forall (fun s => apart s (slab_new base size)) (slabs a).

Lemma apart_sym s1 s2 : apart s1 s2 -> apart s2 s1.
Proof. unfold apart. tauto. Qed.

(** Changing a slab in place keeps the arena's slabs apart. *)
Lemma apart_insert l i s s' :
  pairwise_apart l -> l !! i = Some s -> m_content s' = m_content s -> m_size s' = m_size s ->
  pairwise_apart (<[i := s']> l).
Proof.
  intros A Hi Hc Hs a b s1 s2 Ha Hb Hne. apply list_lookup_insert_Some in Ha, Hb.
  destruct Ha as [(-> & <- & _)|[Ha1 Ha2]], Hb as [(-> & <- & _)|[Hb1 Hb2]]; try done.
  - specialize (A _ _ _ _ Hi Hb2 Hne). unfold apart in *. by rewrite Hc, Hs.
  - specialize (A _ _ _ _ Ha2 Hi Hne). unfold apart in *. by rewrite Hc, Hs.
  - by apply (A a b).
Qed.

Lemma apart_snoc l s : pairwise_apart l -> Forall (fun x => apart x s) l -> pairwise_apart (l ++ [s]).
Proof.
  intros A Hs i j s1 s2 Hi Hj Hne. rewrite Forall_lookup in Hs.
  apply lookup_app_Some in Hi, Hj.
  destruct Hi as [Hi|[Hi1 Hi2]], Hj as [Hj|[Hj1 Hj2]].
  - by apply (A i j).
  - apply list_lookup_singleton_Some in Hj2 as [_ <-]. by apply (Hs i).
  - apply list_lookup_singleton_Some in Hi2 as [_ <-]. by apply apart_sym, (Hs j).
  - apply list_lookup_singleton_Some in Hi2 as [? _], Hj2 as [? _]. lia.
Qed.

(** Every live region of the arena, and a change in slab [i]. *)
Lemma concat_insert {A} (l : list (list A)) i x y :
  l !! i = Some x -> concat (<[i := y]> l) ≡ₚ y ++ concat (delete i l).
Proof.
  revert i. induction l as [|z l IH]; intros [|i] Hi; simpl in *; try done.
  change (delete (S i) (z :: l)) with (z :: delete i l). simpl. rewrite (IH i Hi). solve_Permutation.
Qed.

Lemma concat_delete {A} (l : list (list A)) i x :
  l !! i = Some x -> concat l ≡ₚ x ++ concat (delete i l).
Proof. intros Hi. rewrite <- (list_insert_id l i x Hi) at 1. by apply concat_insert with x. Qed.

Lemma arena_new_inv n base : 0 <= n < 2 ^ 62 -> arena_inv (arena_new n base) [[]].
Proof.
  intros Hn. split; cbn; [| |done].
  2: { intros i j s1 s2 Hi Hj Hne.
       apply list_lookup_singleton_Some in Hi as [? _], Hj as [? _]. lia. }
  constructor; [|constructor]. split; cbn; try done; try lia; constructor.
Qed.

(** Regions in different slabs do not overlap. *)
Lemma cross_disjoint s1 s2 l1 l2 r1 r2 :
  slab_inv s1 l1 -> slab_inv s2 l2 -> apart s1 s2 -> r1 ∈ l1 -> r2 ∈ l2 -> disjoint_regions r1 r2.
Proof.
  intros I1 I2 A H1 H2. pose proof (si_live _ _ I1) as L1. pose proof (si_live _ _ I2) as L2.
  rewrite Forall_forall in L1, L2. specialize (L1 _ H1). specialize (L2 _ H2).
  pose proof (si_head _ _ I1). pose proof (si_head _ _ I2). unfold apart, disjoint_regions in *. lia.
Qed.

Lemma elem_of_concat_lookup {A} (x : A) ls :
  x ∈ concat ls <-> exists i l, ls !! i = Some l /\ x ∈ l.
Proof.
  rewrite list_elem_of_In, in_concat. split.
  - intros (l & Hl & Hx). apply list_elem_of_In, list_elem_of_lookup in Hl as [i Hi].
    exists i, l. by rewrite list_elem_of_In.
  - intros (i & l & Hi & Hx). exists l. rewrite <- !list_elem_of_In. split; [|done].
    by eapply list_elem_of_lookup_2.
Qed.

(** A slab with a new first region, in its arena. *)
Lemma arena_insert_new a live i s ls s' p size :
  arena_inv a live -> slabs a !! i = Some s -> live !! i = Some ls ->
  slab_inv s' ((p, size) :: ls) -> m_content s' = m_content s -> m_size s' = m_size s ->
  arena_inv (set_slab a i s') (<[i := (p, size) :: ls]> live) /\
  concat (<[i := (p, size) :: ls]> live) ≡ₚ (p, size) :: concat live /\
  Forall (disjoint_regions (p, size)) (concat live).
Proof.
  intros [HF A Hi] Hs Hl I' Hc Hm. split; [|split].
  - split; cbn; [by apply Forall2_insert|by eapply apart_insert|done].
  - rewrite (concat_insert _ _ _ _ Hl), (concat_delete _ _ _ Hl). done.
  - apply Forall_forall. intros r Hr. apply elem_of_concat_lookup in Hr as (j & lj & Hj & Hr).
    destruct (Forall2_lookup_r _ _ _ _ _ HF Hj) as (sj & Hsj & Ij).
    destruct (decide (i = j)) as [<-|Hne].
    + simplify_eq. pose proof (si_disjoint _ _ I') as D. inversion_clear D as [|? ? D1 _].
      rewrite Forall_forall in D1. by apply D1.
    + eapply (cross_disjoint s' sj); [done|done| |left|done].
      specialize (A i j s sj Hs Hsj Hne). unfold apart in *. by rewrite Hc, Hm.
Qed.

Lemma arena_allocate_inv a live size base :
  arena_inv a live -> 0 < size < 2 ^ 62 -> malloc_ok a base (Z.max size (m_initial_size a)) ->
  exists p a' live', arena_allocate a size base = Ok (p, a') /\ arena_inv a' live' /\
    concat live' ≡ₚ (p, size) :: concat live /\ Forall (disjoint_regions (p, size)) (concat live).
Proof.
  intros I Hsz Hm. unfold arena_allocate, find_slab_with_space.
  destruct (list_find _ (slabs a)) as [[i s]|] eqn:E; cbn.
  - apply list_find_Some in E as (Hi & Hfree & _). rewrite Hi.
    destruct (Forall2_lookup_l _ _ _ _ _ (ai_slabs _ _ I) Hi) as (ls & Hl & Is).
    destruct (slab_allocate_inv s ls size Is) as (p & s' & Ea & I' & Hc & Hms); [lia|]. rewrite Ea. cbn.
    destruct (arena_insert_new _ _ _ _ _ _ _ _ I Hi Hl I' Hc Hms) as (? & ? & ?). eauto 10.
  - set (n := Z.max size (m_initial_size a)) in *. pose proof (ai_initial _ _ I).
    assert (slab_inv (slab_new base n) []) as I0.
    { split; cbn; try done; try lia; constructor. }
    assert (arena_inv (mkArena (m_initial_size a) (slabs a ++ [slab_new base n])) (live ++ [[]])) as I1.
    { split; cbn; [|by apply apart_snoc; [apply I|]|done].
      apply Forall2_app; [apply I|constructor; [exact I0|constructor]]. }
    destruct (slab_allocate_inv (slab_new base n) [] size I0) as (p & s' & Ea & I' & Hc & Hms);
      [unfold slab_free; cbn; lia|]. rewrite Ea. cbn.
    pose proof (Forall2_length _ _ _ (ai_slabs _ _ I)) as Hlen.
    destruct (arena_insert_new _ _ (length (slabs a)) (slab_new base n) [] s' p size I1) as (I2 & P2 & D2);
      try done; cbn.
    + by rewrite lookup_app_r, Nat.sub_diag by lia.
    + by rewrite Hlen, lookup_app_r, Nat.sub_diag by lia.
    + rewrite concat_app in P2, D2. cbn in P2, D2. rewrite app_nil_r in P2, D2.
      do 3 eexists. split; [done|]. split; [|by split].
      unfold set_slab in I2. cbn in I2. by rewrite insert_app_r_alt, Nat.sub_diag in I2 by lia.
Qed.

(** C30: [arena::allocate] returns memory inside one of the arena's slabs that
    overlaps no allocation still in use, in an existing slab or, when none has
    room, in a new one that is always large enough. *)
Theorem arena_allocate_disjoint a live size base :
  arena_inv a live -> 0 < size < 2 ^ 62 -> malloc_ok a base (Z.max size (m_initial_size a)) ->
  exists p a' live', arena_allocate a size base = Ok (p, a') /\ arena_inv a' live' /\
    concat live' ≡ₚ (p, size) :: concat live /\ Forall (disjoint_regions (p, size)) (concat live).
Proof. apply arena_allocate_inv. Qed.

(** The slab that is found is the one the region is in. *)
Lemma find_slab_containing_live a live i s ls p size :
  arena_inv a live -> slabs a !! i = Some s -> live !! i = Some ls -> (p, size) ∈ ls ->
  find_slab_containing a p = Some i.
Proof.
  intros [HF A _] Hs Hl Hp. destruct (Forall2_lookup_lr _ _ _ _ _ _ HF Hs Hl) as [Hh _ Hlv _ _ _].
  rewrite Forall_forall in Hlv. specialize (Hlv _ Hp). cbn in Hlv.
  unfold find_slab_containing.
  assert (list_find (fun s => pointer_in_buffer s p = true) (slabs a) = Some (i, s)) as ->; [|done].
  apply list_find_Some. split; [done|]. split.
  - unfold pointer_in_buffer. rewrite !(proj2 (Z.leb_le _ _)) by lia. done.
  - intros j sj Hj Hlt Hin. apply andb_true_iff in Hin as [H1%Z.leb_le H2%Z.leb_le].
    destruct (Forall2_lookup_l _ _ _ _ _ HF Hj) as (lj & _ & [Hhj _ _ _ _ _]).
    specialize (A j i sj s Hj Hs ltac:(lia)). unfold apart in A. lia.
Qed.

Lemma arena_deallocate_inv a live p size :
  arena_inv a live -> (p, size) ∈ concat live ->
  exists a' live', arena_deallocate a p size = Ok a' /\ arena_inv a' live' /\
    concat live ≡ₚ (p, size) :: concat live'.
Proof.
  intros I Hin. apply elem_of_concat_lookup in Hin as (i & ls & Hl & Hp).
  destruct (Forall2_lookup_r _ _ _ _ _ (ai_slabs _ _ I) Hl) as (s & Hs & Is).
  unfold arena_deallocate. rewrite (find_slab_containing_live _ _ _ _ _ _ _ I Hs Hl Hp). cbn. rewrite Hs.
  apply list_elem_of_split in Hp as (l1 & l2 & ->).
  destruct (slab_deallocate_inv _ _ _ _ _ Is) as (s' & E & I' & Hc & Hm). rewrite E. cbn.
  do 2 eexists. split; [done|]. split.
  - split; cbn; [apply Forall2_insert; [apply I|exact I']|eapply apart_insert; [apply I|done..]|apply I].
  - rewrite (concat_delete _ _ _ Hl), (concat_insert _ _ _ _ Hl). by rewrite <- Permutation_middle.
Qed.

(** [arena::deallocate] of an allocation in use finds its slab, passes the
    assertions, and keeps every other allocation as it is. *)
Theorem arena_deallocate_keeps a live p size :
  arena_inv a live -> (p, size) ∈ concat live ->
  exists a' live', arena_deallocate a p size = Ok a' /\ arena_inv a' live' /\
    concat live ≡ₚ (p, size) :: concat live'.
Proof. apply arena_deallocate_inv. Qed.

(** ** All live regions of an arena are disjoint *)

Lemma pairs_app (l1 l2 : list region) :
  ForallOrdPairs disjoint_regions l1 -> ForallOrdPairs disjoint_regions l2 ->
  (forall r1 r2, r1 ∈ l1 -> r2 ∈ l2 -> disjoint_regions r1 r2) ->
  ForallOrdPairs disjoint_regions (l1 ++ l2).
Proof.
  intros H1 H2 Hc. induction H1 as [|r l1 Hr _ IH]; [done|]. simpl. constructor.
  - apply Forall_app. split; [done|]. apply Forall_forall. intros x Hx. apply Hc; [left|done].
  - apply IH. intros. apply Hc; [by right|done].
Qed.

Lemma live_disjoint ss live :
  Forall2 slab_inv ss live -> pairwise_apart ss -> ForallOrdPairs disjoint_regions (concat live).
Proof.
  induction 1 as [|s l ss live I HF IH]; intros A; [constructor|]. simpl. apply pairs_app.
  - apply I.
  - apply IH. intros i j s1 s2 Hi Hj Hne. apply (A (S i) (S j)); [done|done|lia].
  - intros r1 r2 H1 H2. apply elem_of_concat_lookup in H2 as (j & lj & Hj & H2).
    destruct (Forall2_lookup_r _ _ _ _ _ HF Hj) as (sj & Hsj & Ij).
    eapply (cross_disjoint s sj); [done..| |done|done]. by apply (A 0%nat (S j)).
Qed.

Lemma live_apart_from a live r rest :
  arena_inv a live -> concat live ≡ₚ r :: rest -> Forall (disjoint_regions r) rest.
Proof.
  intros I Hp. assert (r ∈ concat live) as Hr by (rewrite Hp; left).
  apply list_elem_of_split in Hr as (l1 & l2 & E).
  pose proof (live_disjoint _ _ (ai_slabs _ _ I) (ai_apart _ _ I)) as D. rewrite E in D, Hp.
  apply pairs_middle in D as [_ D]. rewrite <- Permutation_middle in Hp.
  apply Permutation_cons_inv in Hp. by rewrite <- Hp.
Qed.

(** ** Polymorphic objects *)

(** The word in front of every live object holds its size. *)
Definition poly_inv (a : arena) (info : gmap Z Z) (live : list (list region)) : Prop :=
  arena_inv a live /\ Forall (fun r => info !! r.1 = Some (r.2 - size_word)) (concat live).

Lemma live_positive a live : arena_inv a live -> Forall (fun r => 0 < r.2) (concat live).
Proof.
  intros [HF _ _]. apply Forall_forall. intros r Hr.
  apply elem_of_concat_lookup in Hr as (j & lj & Hj & Hr).
  destruct (Forall2_lookup_r _ _ _ _ _ HF Hj) as (sj & _ & Ij). pose proof (si_live _ _ Ij) as L.
  rewrite Forall_forall in L. by apply L.
Qed.

(** Writing the word of one live object leaves those of the others. *)
Lemma info_insert a live r rest (info : gmap Z Z) v :
  arena_inv a live -> concat live ≡ₚ r :: rest ->
  Forall (fun r => info !! r.1 = Some (r.2 - size_word)) rest ->
  Forall (fun r' => <[r.1 := v]> info !! r'.1 = Some (r'.2 - size_word)) rest.
Proof.
  intros I Hp Hinfo. pose proof (live_apart_from _ _ _ _ I Hp) as D.
  pose proof (live_positive _ _ I) as Pos. rewrite Hp in Pos. inversion_clear Pos as [|? ? Hr Pos'].
  apply Forall_forall. intros r' Hr'. rewrite Forall_forall in Hinfo, D, Pos'.
  specialize (D r' Hr'). specialize (Pos' r' Hr'). rewrite lookup_insert_ne; [by apply Hinfo|].
  unfold disjoint_regions in D. lia.
Qed.

Lemma poly_allocate_inv a info live n base :
  poly_inv a info live -> 0 < n < 2 ^ 61 ->
  malloc_ok a base (Z.max (n + size_word) (m_initial_size a)) ->
  exists q a' info' live', poly_allocate a info n base = Ok (q, a', info') /\
    poly_inv a' info' live' /\ concat live' ≡ₚ (q - size_word, n + size_word) :: concat live.
Proof.
  intros [I Hinfo] Hn Hm. unfold size_word in *.
  destruct (arena_allocate_inv a live (n + 8) base I) as (p & a' & live' & E & I' & Hp & _); [lia|done|].
  unfold poly_allocate, size_word. rewrite E. cbn. do 4 eexists. split; [done|].
  replace (p + 8 - 8) with p by lia. split; [|done]. split; [done|]. rewrite Hp. constructor.
  - cbn. rewrite lookup_insert_eq. unfold size_word. f_equal. lia.
  - by apply (info_insert _ _ _ _ _ _ I' Hp).
Qed.

(** An object allocated through [allocate_polymorphic] can be deallocated
    at any later point through a pointer that does not know its size: the
    arena gets back exactly the region it had handed out, and the size words
    of all other live objects stay intact. *)
Theorem poly_deallocate_exact a info live q n :
  poly_inv a info live -> (q - size_word, n + size_word) ∈ concat live ->
  exists a' info' live', poly_deallocate a info q = Ok (a', info') /\ poly_inv a' info' live' /\
    concat live ≡ₚ (q - size_word, n + size_word) :: concat live'.
Proof.
  intros [I Hinfo] Hin. unfold poly_deallocate.
  assert (info !! (q - size_word) = Some n) as ->.
  { rewrite Forall_forall in Hinfo. specialize (Hinfo _ Hin). cbn in Hinfo. rewrite Hinfo. f_equal. lia. }
  destruct (arena_deallocate_inv _ _ _ _ I Hin) as (a' & live' & E & I' & Hp). rewrite E. cbn.
  do 3 eexists. split; [done|]. split; [|done]. split; [done|].
  rewrite Hp in Hinfo. inversion_clear Hinfo as [|? ? _ Hinfo'].
  by apply (info_insert _ _ _ _ _ _ I Hp).
Qed.

(** ** Destruction *)

(** The destructor never frees the root slab, and with more than one slab it
    reads [m_next] of the slab it has just deleted. *)
Theorem arena_destroy_faults a :
  slabs a <> [] ->
  arena_destroy a = if (length (slabs a) =? 1)%nat then Ok [] else undefined UseAfterFree.
Proof.
  intros Hne. unfold arena_destroy. destruct (slabs a) as [|s [|s2 ss]]; done.
Qed.

(** ** Concrete arenas *)

Lemma arena_allocate_disjoint_witness :
  exists p a' live', arena_allocate (arena_new 64 4096) 100 8192 = Ok (p, a') /\
    arena_inv a' live' /\ concat live' ≡ₚ [(p, 100)].
Proof.
  destruct (arena_allocate_disjoint (arena_new 64 4096) [[]] 100 8192)
    as (p & a' & live' & E & I & P & _).
  - apply arena_new_inv. lia.
  - lia.
  - constructor; [unfold apart; cbn; lia|constructor].
  - exists p, a', live'. split; [exact E|]. split; [exact I|exact P].
Defined.

Definition one_object : arena := mkArena 64 [mkSlab 4096 64 40 4136].

Lemma one_object_inv : poly_inv one_object {[4096 := 32]} [[(4096, 40)]].
Proof.
  split; [split; cbn|].
  - constructor; [|constructor]. split; cbn; try lia.
    + constructor; [cbn; lia|constructor].
    + repeat constructor.
    + reflexivity.
  - intros i j s1 s2 Hi Hj Hne.
    apply list_lookup_singleton_Some in Hi as [? _], Hj as [? _]. lia.
  - lia.
  - constructor; [reflexivity|constructor].
Defined.

Lemma arena_deallocate_keeps_witness :
  exists a' live', arena_deallocate one_object 4096 40 = Ok a' /\ arena_inv a' live' /\
    [(4096, 40)] ≡ₚ (4096, 40) :: concat live'.
Proof.
  destruct (arena_deallocate_keeps one_object [[(4096, 40)]] 4096 40) as (a' & live' & E & I & P).
  - apply one_object_inv.
  - cbn. left.
  - exists a', live'. split; [exact E|]. split; [exact I|exact P].
Defined.

Lemma poly_deallocate_exact_witness :
  exists a' info' live', poly_deallocate one_object {[4096 := 32]} 4104 = Ok (a', info') /\
    poly_inv a' info' live'.
Proof.
  destruct (poly_deallocate_exact one_object {[4096 := 32]} [[(4096, 40)]] 4104 32)
    as (a' & info' & live' & E & I & _).
  - exact one_object_inv.
  - cbn. left.
  - exists a', info', live'. split; [exact E|exact I].
Defined.

Lemma arena_destroy_faults_witness :
  arena_destroy (mkArena 64 [slab_new 4096 64; slab_new 8192 64]) = undefined UseAfterFree.
Proof. apply (arena_destroy_faults (mkArena 64 [slab_new 4096 64; slab_new 8192 64])). done. Defined.
