(* ===== verification/Allocators.v ===== *)
(** * Allocators: the allocator interfaces of src/fastpath/utils

    utils/allocator (allocator_resource, std_allocator_resource, generic_allocator),
    transport/sm/shm_allocator.h, the allocator wrapper and the output of
    utils/fast_linear_allocator.h, and utils/ref_count_ptr.h. *)
From S2P Require Import Prelude Heap Arena Printing.

(** ** allocator_resource.h: the interface

    A resource over the memory [M] with pointers [P]; both operations are noexcept.
    A block of [size] bytes that was allocated can be given back with that size,
    and this leaves the memory as far as it is in use as it was. *)
Class AllocatorResource (M P : Type) := {
  res_allocate : Z -> M -> outcome (P * M);
  res_deallocate : P -> Z -> M -> outcome M;
  res_live : M -> P -> option Z;
  res_inv : M -> Prop;
  res_allocate_live size m p m' : res_inv m -> 0 <= size -> res_allocate size m = Ok (p, m') ->
    res_live m p = None /\ res_live m' p = Some size /\ (forall q, q <> p -> res_live m' q = res_live m q) /\ res_inv m';
  res_deallocate_live p size m : res_inv m -> res_live m p = Some size ->
    exists m', res_deallocate p size m = Ok m' /\ res_live m' p = None /\ (forall q, q <> p -> res_live m' q = res_live m q) /\ res_inv m'
}.

(** ** generic_allocator.h *)

Section generic.
Context {M P : Type} `{EqDecision P} `{AllocatorResource M P} (sizeof_T : Z).

(** [sizeof(T) * size] is a [std::size_t]. *)
Definition generic_allocate (size : Z) (m : M) : outcome (P * M) := res_allocate (u64 (sizeof_T * size)) m.
Definition generic_deallocate (p : P) (size : Z) (m : M) : outcome M := res_deallocate p (u64 (sizeof_T * size)) m.

(** What is allocated can be given back, whatever the resource, and then the same
    is in use as before. *)
Theorem generic_roundtrip size m p m' :
  res_inv m -> 0 <= sizeof_T -> 0 <= size -> generic_allocate size m = Ok (p, m') ->
  exists m'', generic_deallocate p size m' = Ok m'' /\ forall q, res_live m'' q = res_live m q.
Proof.
  intros Hi Ht Hs E. assert (0 <= u64 (sizeof_T * size)) as H0 by (apply Z.mod_pos_bound; lia).
  destruct (res_allocate_live _ _ _ _ Hi H0 E) as (Hn & Hl & Ho & Hi').
  destruct (res_deallocate_live _ _ _ Hi' Hl) as (m'' & E' & Hn' & Ho' & _).
  exists m''. split; [done|]. intros q. destruct (decide (q = p)) as [->|Hq]; [congruence|].
  by rewrite Ho', Ho by done.
Qed.

(** The product is not checked: a request that does not fit gets a smaller block. *)
Theorem generic_overflow size m p m' :
  res_inv m -> 0 <= sizeof_T -> 0 <= size -> 2 ^ 64 <= sizeof_T * size -> generic_allocate size m = Ok (p, m') ->
  exists n, res_live m' p = Some n /\ n < sizeof_T * size.
Proof.
  intros Hi Ht Hs Hov E. assert (0 <= u64 (sizeof_T * size) < 2 ^ 64) as H0 by (apply Z.mod_pos_bound; lia).
  destruct (res_allocate_live _ _ _ _ Hi (proj1 H0) E) as (_ & Hl & _). eexists. split; [exact Hl|]. lia.
Qed.
End generic.

(** ** std_allocator_resource.h: the heap *)

Definition block_size (h : heap) (p : ptr) : option Z :=
  match p with
  | Ptr b 0 => (fun c : cells => Z.of_nat (length c)) <$> h_blocks h !! b
  | _ => None
  end.

(** [std::allocator<char>]; [bad_alloc] in a noexcept function ends the program. *)
Definition std_allocate (limit size : Z) (h : heap) : outcome (ptr * heap) :=
  if limit <? size then Err Terminate else Ok (alloc h size).
Definition std_deallocate (p : ptr) (size : Z) (h : heap) : outcome heap := free h p size.

Lemma std_allocate_live limit size h p h' : heap_wf h -> 0 <= size -> std_allocate limit size h = Ok (p, h') ->
  block_size h p = None /\ block_size h' p = Some size /\ (forall q, q <> p -> block_size h' q = block_size h q) /\ heap_wf h'.
Proof.
  intros W Hs. unfold std_allocate. destruct (limit <? size); [done|]. pose proof (alloc_wf h size W) as W'.
  unfold alloc in *. intros [= <- <-]. cbn [block_size h_blocks].
  assert (h_blocks h !! h_next h = None) as Hn.
  { apply eq_None_not_Some. intros Hb. apply W in Hb. lia. }
  split; [by rewrite Hn|]. split; [|split; [|exact W']].
  - rewrite lookup_insert_eq. cbn. f_equal. rewrite length_replicate. lia.
  - intros [|b off] Hq; [done|]. destruct off; [|done..]. cbn [block_size h_blocks]. rewrite lookup_insert_ne; [done|congruence].
Qed.

Lemma std_deallocate_live p size h : heap_wf h -> block_size h p = Some size ->
  exists h', std_deallocate p size h = Ok h' /\ block_size h' p = None /\
    (forall q, q <> p -> block_size h' q = block_size h q) /\ heap_wf h'.
Proof.
  intros W. destruct p as [|b off]; [done|]. destruct off; [|done..]. unfold std_deallocate, free. cbn [block_size].
  destruct (h_blocks h !! b) as [c|] eqn:Eb; [|done]. cbn. intros [= <-]. rewrite bool_decide_eq_true_2 by done.
  eexists. split; [done|]. cbn [block_size h_blocks]. split; [by rewrite lookup_delete_eq|]. split.
  - intros [|b' off'] Hq; [done|]. destruct off'; [|done..]. cbn [block_size h_blocks]. rewrite lookup_delete_ne; [done|congruence].
  - intros b' [c' Hc]. cbn [h_blocks h_next] in *. apply lookup_delete_Some in Hc as [_ Hc]. apply W. eauto.
Qed.

(** The allocator of the storages of ByteStorage.v: for bytes it is the allocation
    of the heap model. *)
Theorem byte_allocator limit size h : 0 <= size < 2 ^ 64 -> size <= limit ->
  std_allocate limit (u64 (1 * size)) h = Ok (alloc h size).
Proof. intros Hs Hl. unfold std_allocate. rewrite Z.mul_1_l, wrap_small, (proj2 (Z.ltb_ge _ _)) by lia. done. Qed.

(** ** fast_linear_allocator.h: linear_allocator and the output of an arena *)

Definition linear_allocate (a : arena) (size base : Z) : outcome (Z * arena) := arena_allocate a size base.

(** [totals]: blocks, free, capacity and allocated over the chain of slabs. *)
Definition arena_totals (a : arena) : Z * Z * Z * Z :=
  foldl (fun t s => let '(block_count, total_free, total_capacity, total_allocated) := t in
           (block_count + 1, u64 (total_free + slab_free s), u64 (total_capacity + m_size s), u64 (total_allocated + m_allocated s)))
    (0, 0, 0, 0) (slabs a).
Definition arena_output (a : arena) (s : ostream) : ostream :=
  let '(block_count, total_free, total_capacity, total_allocated) := arena_totals a in
  let s := put_int 64 total_allocated (puts "allocated: " s) in
  let s := put_int 64 total_capacity (puts " capacity: " s) in
  let s := put_int 64 total_free (puts " allocatable: " s) in
  puts " blocks" (put_int 64 block_count (puts " from " s)).

Definition total (f : slab -> Z) (l : list slab) : Z := foldr (fun s n => f s + n) 0 l.

Lemma total_range f l : Forall (fun s => 0 <= f s <= m_size s) l -> 0 <= total f l <= total m_size l.
Proof. unfold total. induction 1 as [|s l Hs _ IH]; cbn; lia. Qed.

Lemma four_equal (a b c d a' b' c' d' : Z) : a = a' -> b = b' -> c = c' -> d = d' -> (a, b, c, d) = (a', b', c', d').
Proof. congruence. Qed.

Lemma totals_spec l live : Forall2 slab_inv l live -> forall n fr cap al,
  0 <= fr <= cap -> 0 <= al <= cap -> cap + total m_size l < 2 ^ 64 ->
  foldl (fun t s => let '(block_count, total_free, total_capacity, total_allocated) := t in
           (block_count + 1, u64 (total_free + slab_free s), u64 (total_capacity + m_size s), u64 (total_allocated + m_allocated s)))
    (n, fr, cap, al) l
  = (n + Z.of_nat (length l), fr + total slab_free l, cap + total m_size l, al + sizes (concat live)).
Proof.
  unfold total. induction 1 as [|s ls l live Is HF IH]; intros n fr cap al Hf Ha Hc; cbn [foldl foldr length concat].
  - unfold sizes. cbn. apply four_equal; lia.
  - pose proof (si_head _ _ Is). pose proof (si_fill _ _ Is). pose proof (si_allocated _ _ Is) as Hal.
    pose proof (sizes_nonneg _ _ (si_live _ _ Is)). unfold slab_free in *. cbn [foldr] in Hc.
    assert (0 <= foldr (fun s n => m_size s + n) 0 l).
    { clear -HF. induction HF as [|s ls l live Is _ IH]; cbn; [done|]. pose proof (si_head _ _ Is). lia. }
    rewrite !wrap_small by lia. rewrite IH by lia. rewrite sizes_app. apply four_equal; lia.
Qed.

(** What an arena prints: the bytes in use are exactly those of the live regions,
    and they and the free ones do not exceed the capacity. *)
Theorem arena_output_truth a live s : arena_inv a live -> total m_size (slabs a) < 2 ^ 64 -> plain_stream s ->
  o_text (arena_output a s) = o_text s ++ bytes_of_string "allocated: " ++ int_text (sizes (concat live))
    ++ bytes_of_string " capacity: " ++ int_text (total m_size (slabs a)) ++ bytes_of_string " allocatable: "
    ++ int_text (total slab_free (slabs a)) ++ bytes_of_string " from " ++ int_text (Z.of_nat (length (slabs a)))
    ++ bytes_of_string " blocks" /\
  sizes (concat live) + total slab_free (slabs a) <= total m_size (slabs a).
Proof.
  intros [HF _ _] Hc Hp. split.
  - unfold arena_output, arena_totals. rewrite (totals_spec _ _ HF) by lia.
    unfold puts. plain_puts Hp.
    rewrite !Z.add_0_l, !write_write. cbn [write o_text]. by rewrite <- ?app_assoc.
  - clear Hc. induction HF as [|s0 ls l live Is _ IH]; unfold total, sizes in *; [cbn; lia|]. cbn [concat foldr].
    fold (sizes (ls ++ concat live)). rewrite sizes_app. pose proof (si_fill _ _ Is). rewrite (si_allocated _ _ Is) in *.
    unfold sizes, slab_free in *. lia.
Qed.

(** The wrapper does not multiply with the size of its elements: [n] of them get [n]
    bytes, and the next allocation overlaps all but the first. *)
Theorem linear_allocator_overlap base (sizeof_T n : Z) :
  1 < sizeof_T -> 0 < n -> 2 * n <= 1024 -> 0 <= base ->
  exists p q a1 a2, linear_allocate (arena_new 1024 base) n 0 = Ok (p, a1) /\ linear_allocate a1 n 0 = Ok (q, a2) /\
    p < q < p + sizeof_T * n.
Proof.
  intros Ht Hn Hs Hb. unfold linear_allocate, arena_allocate, find_slab_with_space, arena_new, slab_new.
  cbn [slabs list_find]. rewrite decide_True by (unfold slab_free; cbn; lia).
  cbn [fmap option_fmap option_map fst lookup list_lookup]. unfold slab_allocate at 1.
  rewrite (proj2 (Z.leb_le _ _)) by (unfold slab_free; cbn; lia). cbn [assert_]. run_bind.
  eexists _, _, _, _. split; [reflexivity|]. cbn [set_slab slabs m_initial_size insert list_insert list_find].
  rewrite decide_True by (unfold slab_free; cbn; lia). cbn [fmap option_fmap option_map fst lookup list_lookup].
  unfold slab_allocate at 1. rewrite (proj2 (Z.leb_le _ _)) by (unfold slab_free; cbn; lia). cbn [assert_]. run_bind.
  split; [reflexivity|]. cbn. nia.
Qed.

(** The default resource. *)
#[export, refine] Instance std_allocator_resource : AllocatorResource heap ptr := {|
  res_allocate := std_allocate (2 ^ 47);
  res_deallocate := std_deallocate;
  res_live := block_size;
  res_inv := heap_wf
|}.
Proof.
  - intros size m p m'. apply std_allocate_live.
  - apply std_deallocate_live.
Defined.

(** ** shm_allocator.h: the segment *)

(** Boost's segment manager: [allocate(size, std::nothrow)] gives a block that was
    not in use or null, [deallocate] takes a block that is. *)
Class SegmentManager (M P : Type) := {
  seg_allocate : Z -> M -> option P * M;
  seg_deallocate : P -> M -> M;
  seg_live : M -> P -> option Z;
  seg_allocate_some size m p m' : seg_allocate size m = (Some p, m') ->
    seg_live m p = None /\ seg_live m' p = Some size /\ forall q, q <> p -> seg_live m' q = seg_live m q;
  seg_deallocate_live p m : is_Some (seg_live m p) ->
    seg_live (seg_deallocate p m) p = None /\ forall q, q <> p -> seg_live (seg_deallocate p m) q = seg_live m q
}.

Section shm_allocator.
Context {M P : Type} `{SegmentManager M P}.

(** [allocate] stops at its assertion when the segment is full; [deallocate] does not
    use the size. *)
Definition shm_allocate (size : Z) (m : M) : outcome (P * M) :=
  match seg_allocate size m with (Some p, m) => Ok (p, m) | (None, _) => Err AssertFail end.
Definition shm_deallocate (p : P) (size : Z) (m : M) : outcome M := Ok (seg_deallocate p m).

#[export, refine] Instance shm_allocator : AllocatorResource M P := {|
  res_allocate := shm_allocate;
  res_deallocate := shm_deallocate;
  res_live := seg_live;
  res_inv _ := True
|}.
Proof.
  - intros size m p m' _ _ E. unfold shm_allocate in E. destruct (seg_allocate size m) as [[p'|] m1] eqn:Ea; [|done].
    injection E as -> ->. by apply seg_allocate_some in Ea as (? & ? & ?).
  - intros p size m _ Hl. destruct (seg_deallocate_live p m ltac:(by eexists)) as [? ?]. by eexists.
Defined.
End shm_allocator.

(** ** ref_count_ptr.h

    [m_deleter] is not among the initialisers, so it is empty whatever deleter was
    given; [deleted] counts the calls of a deleter. *)
Record ref_count_ptr := mkRefCount { m_ref_counter : Z; m_deleter : bool; deleted : nat }.
Definition ref_count_new : ref_count_ptr := mkRefCount 1 false 0.
Definition retain (r : ref_count_ptr) : ref_count_ptr := mkRefCount (u32 (m_ref_counter r + 1)) (m_deleter r) (deleted r).
Definition ref_release (r : ref_count_ptr) : outcome ref_count_ptr :=
  let r' := mkRefCount (u32 (m_ref_counter r - 1)) (m_deleter r) (deleted r) in
  if m_ref_counter r =? 0 then
    if m_deleter r then Ok (mkRefCount (m_ref_counter r') (m_deleter r) (S (deleted r))) else Err Terminate
  else Ok r'.
Fixpoint release_times (n : nat) (r : ref_count_ptr) : outcome ref_count_ptr :=
  match n with O => Ok r | S n => r ← ref_release r; release_times n r end.

Lemma release_times_spec n : forall r, Z.of_nat n <= m_ref_counter r < 2 ^ 32 ->
  release_times n r = Ok (mkRefCount (m_ref_counter r - Z.of_nat n) (m_deleter r) (deleted r)).
Proof.
  induction n as [|n IH]; intros r Hn; cbn [release_times]; [rewrite Z.sub_0_r; by destruct r|].
  unfold ref_release. destruct (Z.eqb_spec (m_ref_counter r) 0); [lia|]. run_bind. rewrite wrap_small by lia.
  rewrite IH by (cbn; lia). cbn [m_ref_counter m_deleter deleted]. do 2 f_equal. lia.
Qed.

(** A pointer that is retained [n] times and released [n + 1] times is not deleted;
    one more release ends the program. *)
Theorem ref_count_leaks n : Z.of_nat n < 2 ^ 32 - 1 ->
  exists r, release_times (S n) (Nat.iter n retain ref_count_new) = Ok r /\ deleted r = O /\ ref_release r = Err Terminate.
Proof.
  intros Hn. assert (Nat.iter n retain ref_count_new = mkRefCount (Z.of_nat n + 1) false 0) as ->.
  { clear -Hn. induction n as [|n IH]; [done|]. rewrite Nat.iter_succ, IH by lia. unfold retain. cbn [m_ref_counter m_deleter deleted].
    rewrite wrap_small by lia. f_equal. lia. }
  rewrite release_times_spec by (cbn; lia). eexists. split; [done|]. split; [done|]. unfold ref_release.
  cbn [m_ref_counter m_deleter deleted]. by replace (Z.of_nat n + 1 - Z.of_nat (S n)) with 0 by lia.
Qed.

(** ** Samples *)

Lemma empty_wf_heap : heap_wf empty_heap.
Proof. intros b [c Hb]. by rewrite (lookup_empty (M := gmap positive) b : h_blocks empty_heap !! b = None) in Hb. Qed.
Definition block_of (n : Z) : heap := (alloc empty_heap n).2.

Lemma generic_roundtrip_witness :
  exists m'', generic_deallocate 4 (Ptr 1 0) 10 (block_of 40) = Ok m'' /\ res_live m'' (Ptr 1 0) = None.
Proof.
  destruct (generic_roundtrip 4 10 empty_heap (Ptr 1 0) (block_of 40)) as (m'' & E & Hl); [exact empty_wf_heap|lia|lia|reflexivity|].
  exists m''. split; [exact E|]. by rewrite Hl.
Defined.

Lemma generic_overflow_witness : exists n, res_live (block_of 4) (Ptr 1 0) = Some n /\ n < 4 * (2 ^ 62 + 1).
Proof.
  destruct (generic_overflow 4 (2 ^ 62 + 1) empty_heap (Ptr 1 0) (block_of 4)) as (n & E & Hn); [exact empty_wf_heap|lia|lia|lia|reflexivity|].
  exists n. split; [exact E|]. lia.
Defined.

Lemma linear_allocator_overlap_witness :
  exists p q a1 a2, linear_allocate (arena_new 1024 4096) 10 0 = Ok (p, a1) /\ linear_allocate a1 10 0 = Ok (q, a2) /\ p < q < p + 4 * 10.
Proof. apply (linear_allocator_overlap 4096 4 10); lia. Defined.

Lemma ref_count_leaks_witness :
  exists r, release_times 3 (retain (retain ref_count_new)) = Ok r /\ deleted r = O /\ ref_release r = Err Terminate.
Proof. apply (ref_count_leaks 2). lia. Defined.

Lemma arena_output_truth_witness :
  o_text (arena_output (arena_new 1024 4096) cout) = bytes_of_string "allocated: 0 capacity: 1024 allocatable: 1024 from 1 blocks".
Proof.
  destruct (arena_output_truth (arena_new 1024 4096) [[]] cout) as [E _];
    [apply arena_new_inv; lia|vm_compute; reflexivity|split; reflexivity|]. rewrite E. vm_compute. reflexivity.
Defined.
