(* ===== verification/Transport.v ===== *)
(** * Transport: the receiving side of a TCP connection

    src/fastpath/transport/TCPTransport.cpp ([processData] and the receiver
    event) over the message buffer, the codec and the message pool's reset
    messages, and [sendMessage].  The results of the system's [recv] and [send]
    calls are arguments: the theorems hold for every way the stream is cut into
    reads. *)
From S2P Require Import Prelude Heap ByteStorage MessageBuffer Types Field Message Codec RoundTrip.

(** ** Socket::read *)

(** What [::recv] returned: bytes, [0], or [-1] with [errno]. *)
Inductive RecvResult := RecvBytes (chunk : list Z) | RecvZero | RecvError (would_block : bool).

Inductive ReadResult := MoreData | NoData | Closed.

(** [Socket::read(data, maxLength, length)]: the result, the bytes written to
    [data], and whether [disconnect()] was called. *)
Definition Socket_read (r : RecvResult) : ReadResult * list Z * bool :=
  match r with
  | RecvZero => (Closed, [], true)
  | RecvError true => (NoData, [], false)
  | RecvError false => (Closed, [], true)
  | RecvBytes chunk => (MoreData, chunk, false)
  end.

(** ** TCPTransport *)

Record TCPTransport := mkTransport {
  m_connected : bool;                  (* m_peer->isConnected() *)
  m_shouldDisconnect : bool;
  m_readBuffer : MessageBuffer;
  delivered : list Message;            (* calls of the message callback, in order *)
  notifications : nat                  (* CORRUPT_MESSAGE notifications *)
}.

Definition MTU_SIZE : Z := 1500.

Definition set_readBuffer (t : TCPTransport) (mb : MessageBuffer) : TCPTransport :=
  mkTransport (m_connected t) (m_shouldDisconnect t) mb (delivered t) (notifications t).
Definition deliver (t : TCPTransport) (m : Message) : TCPTransport :=
  mkTransport (m_connected t) (m_shouldDisconnect t) (m_readBuffer t) (delivered t ++ [m]) (notifications t).
(** The [catch] block: the notification and [__disconnect()]. *)
Definition corrupt (t : TCPTransport) : TCPTransport :=
  mkTransport false true (m_readBuffer t) (delivered t) (S (notifications t)).
Definition peer_closed (t : TCPTransport) : TCPTransport :=
  mkTransport false (m_shouldDisconnect t) (m_readBuffer t) (delivered t) (notifications t).

Section transport.
Context `{Platform}.

(** [processData(storage, messageCallback)]: the return value, the transport and
    the storage.  After an exception the connection is closed for good; where
    the read pointer was left only decides which bytes of the dead stream are
    dropped, and the storage is returned as it was. *)
Definition processData (fuel : nat) (h : heap) (t : TCPTransport) (storage : ByteStorage)
    : outcome (bool * TCPTransport * ByteStorage) :=
  '(status, _) ← have_complete_message h storage;
  match status with
  | CompleteMessage =>
      let message := prepareForReuse Message_new in
      let storage := mark storage in
      match decode fuel h message storage with
      | Ok (true, message, storage) => Ok (true, deliver t message, storage)
      | Ok (false, _, storage) => Ok (false, t, resetRead storage)
      | throw FpException => Ok (false, corrupt t, storage)
      | Err e => Err e
      end
  | _ => Ok (false, t, storage)
  end.

(** [while (this->processData(storage, messageCallback));] *)
Fixpoint process_loop (n fuel : nat) (h : heap) (t : TCPTransport) (storage : ByteStorage)
    : outcome (TCPTransport * ByteStorage) :=
  match n with
  | O => Err OutOfFuel
  | S n =>
      '(more, t, storage) ← processData fuel h t storage;
      if (more : bool) then process_loop n fuel h t storage else Ok (t, storage)
  end.

(** The receiver event, over the results [recv] gives until the loop ends (on a
    socket that has been closed the next one is an error); also the results left
    for the next event.  Reconnecting is not part of the model. *)
Fixpoint receiver (n fuel : nat) (h : heap) (t : TCPTransport) (reads : list RecvResult)
    : outcome (TCPTransport * heap * list RecvResult) :=
  match reads with
  | [] => Ok (t, h, [])
  | r :: reads =>
      let '(result, chunk, disconnected) := Socket_read r in
      '(mb, h) ← mb_receive h (m_readBuffer t) MTU_SIZE chunk;
      let t := set_readBuffer t mb in
      match result with
      | MoreData =>
          '(storage, h) ← byteStorage h mb;
          '(t, storage) ← process_loop n fuel h t storage;
          k ← bytesRead storage;
          mb ← erase_front mb k;
          receiver n fuel h (set_readBuffer t mb) reads
      | NoData => Ok (t, h, reads)
      | Closed => Ok (if disconnected then peer_closed t else t, h, reads)
      end
  end.
End transport.

(** ** Reading does not change the storage around the read pointer *)

Definition same_storage (b b' : ByteStorage) : Prop :=
  m_first b' = m_first b /\ m_storedLength b' = m_storedLength b /\ m_mark_ptr b' = m_mark_ptr b.

Definition keeps {A} (b : ByteStorage) (o : outcome (A * ByteStorage)) : Prop :=
  forall a b', o = Ok (a, b') -> same_storage b b'.

Lemma same_storage_trans a b c : same_storage a b -> same_storage b c -> same_storage a c.
Proof. unfold same_storage. intuition congruence. Qed.

Lemma keeps_bind {A B} b (o : outcome (A * ByteStorage)) (f : A * ByteStorage -> outcome (B * ByteStorage)) :
  keeps b o -> (forall a b', keeps b' (f (a, b'))) -> keeps b (o ≫= f).
Proof.
  intros Ho Hf. destruct o as [[a b']|]; cbn; [|by intros ? ?]. intros x b2 E.
  eapply same_storage_trans; [by eapply Ho|by eapply Hf].
Qed.

Lemma keeps_pure {A B} b (o : outcome A) (f : A -> outcome (B * ByteStorage)) :
  (forall a, keeps b (f a)) -> keeps b (o ≫= f).
Proof. intros Hf. destruct o; cbn; [apply Hf|by intros ? ?]. Qed.

Lemma keeps_ret {A} b (a : A) : keeps b (Ok (a, b)).
Proof. by intros ? ? [= <- <-]. Qed.

Lemma keeps_err {A} b e : keeps (A:=A) b (Err e).
Proof. by intros ? ?. Qed.

Lemma keeps_advance {A} b k (a : A) : keeps b (Ok (a, advanceRead b k)).
Proof. by intros ? ? [= <- <-]. Qed.

Create HintDb keeps.
#[export] Hint Resolve keeps_ret keeps_err keeps_advance : keeps.

Section keeps.
Context `{Platform} (h : heap).

Lemma keeps_readScalar b n : keeps b (readScalar h b n).
Proof. unfold readScalar. apply keeps_pure. intros. by intros ? ? [= <- <-]. Qed.
#[local] Hint Resolve keeps_readScalar : keeps.

(** One step of a sequence of reads. *)
Ltac keep :=
  repeat first
    [ progress (auto with keeps)
    | match goal with
      | |- keeps _ (if ?c then _ else _) => destruct c
      | |- keeps _ (readScalar _ _ _ ≫= _) => apply keeps_bind; [auto with keeps|intros ? ?]
      | |- keeps _ (_ ≫= _) => apply keeps_pure; intros ?
      end ].

Lemma keeps_Field_read b : keeps b (Field_read h b).
Proof. unfold Field_read. keep. Qed.

Lemma keeps_after_header {B} b (f : FieldHeader * ByteStorage -> outcome (B * ByteStorage)) :
  (forall hd b', keeps b' (f (hd, b'))) -> keeps b (Field_read h b ≫= f).
Proof. intros Hf. apply keeps_bind; [apply keeps_Field_read|done]. Qed.

Lemma keeps_base loop m b :
  (forall n s m b', keeps b' (loop n s m b')) -> keeps b (decode_base_with loop h m b).
Proof. intros Hloop. unfold decode_base_with. keep. Qed.

Lemma keeps_fields fuel : forall n s m b, keeps b (decode_fields fuel h n s m b).
Proof.
  induction fuel as [|fuel IH]; intros n s m b; cbn [decode_fields]; keep.
  destruct a as [[t il] ds]. apply keeps_bind; [|intros; apply IH].
  destruct (_ || _); [|destruct (_ =? _); [|destruct (_ =? _)]].
  - unfold createDataField_read. destruct (_ <=? _); apply keeps_after_header; intros; keep.
  - apply keeps_after_header; intros; keep.
  - apply keeps_after_header. intros hd b1. apply keeps_bind; [by apply keeps_base|].
    intros [r inner] b2. keep.
  - apply keeps_after_header. intros; keep.
Qed.

Lemma keeps_decode fuel m b : keeps b (decode fuel h m b).
Proof.
  unfold decode. apply keeps_bind.
  - unfold addressing_details. apply keeps_pure. intros [st len]. destruct st, len; keep.
    by intros ? ? [= <- <-].
  - intros [st a] b'. destruct st, a; keep. apply keeps_base, keeps_fields.
Qed.
End keeps.

(** How far the cursor has come. *)
Lemma unread_bytesRead h b tail :
  unread h b tail -> bytesRead b = Ok (m_storedLength b - Z.of_nat (length tail)).
Proof.
  intros (blk & base & data & r & V & Hle & Hd).
  rewrite (rview_bytesRead _ _ _ _ _ _ V Hle), (rv_stored _ _ _ _ _ _ V).
  rewrite <- Hd, length_drop. f_equal. lia.
Qed.

(** ** Streams of messages *)

(** A message a sender can put on the stream. *)
Definition sendable (m : Message) : Prop :=
  message_wf m /\ m_payload m <> [] /\ Z.of_nat (length (wire_message m)) < 2 ^ 60.

Definition stream (ms : list Message) : list Z := concat (wire_message <$> ms).

(** What one successful [recv] of at most [MTU_SIZE] bytes can return. *)
Definition mtu_read (c : list Z) : Prop := 0 < Z.of_nat (length c) <= MTU_SIZE.

(** Enough fuel for every message of a stream. *)
Definition fuel_for (ms : list Message) (fuel : nat) : Prop :=
  Forall (fun m => list_sum (fields_in <$> m_payload m) <= fuel)%nat ms.

(** What is left of a stream that was cut inside its next message. *)
Definition partial (part : list Z) (ms : list Message) : Prop :=
  match ms with
  | [] => part = []
  | m :: _ => exists k, (k < length (wire_message m))%nat /\ part = take k (wire_message m)
  end.

(** Every prefix of a stream is some whole messages and a partial one. *)
Lemma prefix_split ms : forall l rest, stream ms = l ++ rest ->
  exists ms1 ms2 part, ms = ms1 ++ ms2 /\ l = stream ms1 ++ part /\ partial part ms2.
Proof.
  induction ms as [|m ms IH]; intros l rest E.
  - exists [], [], []. destruct l; [done|discriminate].
  - unfold stream in E. rewrite fmap_cons in E. cbn [concat] in E.
    destruct (decide (length l < length (wire_message m))%nat) as [Hlt|Hge].
    + exists [], (m :: ms), l. split; [done|]. split; [done|]. exists (length l). split; [done|].
      apply (f_equal (take (length l))) in E.
      by rewrite take_app_le, take_app_length in E by lia.
    + apply (f_equal (drop (length (wire_message m)))) in E as E2.
      rewrite drop_app_length, drop_app_le in E2 by lia.
      destruct (IH _ _ E2) as (ms1 & ms2 & part & -> & Hl & Hp).
      exists (m :: ms1), ms2, part. split; [done|]. split; [|done].
      unfold stream. rewrite fmap_cons. cbn [concat]. rewrite <- app_assoc. fold (stream ms1).
      rewrite <- Hl. apply (f_equal (take (length (wire_message m)))) in E.
      rewrite take_app_length, take_app_le in E by lia. rewrite E at 1. by rewrite take_drop.
Qed.

Lemma stream_app ms1 ms2 : stream (ms1 ++ ms2) = stream ms1 ++ stream ms2.
Proof. unfold stream. by rewrite fmap_app, concat_app. Qed.

Section receiving.
Context `{Platform}.

Lemma unread_same_cursor h b b' tail :
  unread h b tail -> m_first b' = m_first b -> m_storedLength b' = m_storedLength b ->
  m_read_ptr b' = m_read_ptr b -> unread h b' tail.
Proof.
  intros (blk & base & data & r & [Hf Hb Hs Hr Hby Hsm] & Hle & Hd) Ef Es Er.
  exists blk, base, data, r. split; [|by split]. split; congruence || done.
Qed.

Lemma unread_mark h b tail : unread h b tail -> unread h (mark b) tail.
Proof. intros U. by eapply unread_same_cursor. Qed.

(** [storage] after a turn: its cursor moved, its extent did not. *)
Definition same_extent (b b' : ByteStorage) : Prop :=
  m_first b' = m_first b /\ m_storedLength b' = m_storedLength b.

Lemma process_complete fuel h t b m rest :
  sendable m -> (list_sum (fields_in <$> m_payload m) <= fuel)%nat ->
  unread h b (wire_message m ++ rest) ->
  exists b', processData fuel h t b = Ok (true, deliver t (received_message m), b') /\
    unread h b' rest /\ same_extent b b'.
Proof.
  intros (W & Hne & _) Hf U. unfold processData. rewrite (have_complete_wire _ _ _ _ U). cbn -[decode].
  destruct (decode_wire fuel h (mark b) m rest W Hne (unread_mark _ _ _ U) Hf) as (b' & E & U').
  change (prepareForReuse Message_new) with Message_new. rewrite E.
  exists b'. split; [done|]. split; [done|].
  destruct (keeps_decode h fuel Message_new (mark b) (true, received_message m) b' E) as (? & ? & _).
  done.
Qed.

Lemma process_partial fuel h t b part ms :
  Forall sendable ms -> partial part ms -> unread h b part ->
  processData fuel h t b = Ok (false, t, b).
Proof.
  intros Hms Hp U. unfold processData. destruct ms as [|m ms].
  - rewrite Hp in U. by rewrite (have_complete_short _ _ _ U) by (simpl; lia).
  - destruct Hp as (k & Hk & ->). inversion_clear Hms as [|? ? (_ & _ & Hb) _].
    destruct (have_complete_prefix _ _ _ _ U Hk Hb) as [len ->]. done.
Qed.

(** The inner loop delivers the whole messages and stops at the partial one. *)
Lemma process_loop_stream ms1 : forall n fuel h t b part ms2,
  Forall sendable ms1 -> Forall sendable ms2 -> fuel_for ms1 fuel -> (length ms1 < n)%nat ->
  partial part ms2 -> unread h b (stream ms1 ++ part) ->
  exists b', process_loop n fuel h t b = Ok (foldl deliver t (received_message <$> ms1), b') /\
    unread h b' part /\ same_extent b b'.
Proof.
  induction ms1 as [|m ms1 IH]; intros n fuel h t b part ms2 Hs1 Hs2 Hf Hn Hp U;
    (destruct n as [|n]; [cbn in Hn; lia|]); cbn [process_loop].
  - rewrite (process_partial _ _ _ _ _ _ Hs2 Hp U). cbn. by exists b.
  - inversion_clear Hs1 as [|? ? Hm Hs1']. inversion_clear Hf as [|? ? Hfm Hf'].
    unfold stream in U. rewrite fmap_cons in U. cbn [concat] in U. rewrite <- app_assoc in U.
    destruct (process_complete fuel h t b m _ Hm Hfm U) as (b1 & -> & U1 & S1). cbn.
    destruct (IH n fuel h (deliver t (received_message m)) b1 part ms2) as (b2 & E & U2 & S2);
      [done..|cbn in Hn; lia|done|done|].
    exists b2. split; [exact E|]. split; [done|].
    unfold same_extent in *. intuition congruence.
Qed.

Lemma delivered_foldl ms : forall t,
  delivered (foldl deliver t ms) = delivered t ++ ms /\
  m_connected (foldl deliver t ms) = m_connected t /\
  m_readBuffer (foldl deliver t ms) = m_readBuffer t /\
  m_shouldDisconnect (foldl deliver t ms) = m_shouldDisconnect t /\
  notifications (foldl deliver t ms) = notifications t.
Proof.
  induction ms as [|m ms IH]; intros t; [by rewrite app_nil_r|]. cbn [foldl].
  destruct (IH (deliver t m)) as (E1 & E2 & E3 & E4 & E5). rewrite E1, E2, E3, E4, E5. cbn.
  by rewrite <- app_assoc.
Qed.
End receiving.

Lemma stream_bytes ms : Forall sendable ms -> Forall is_byte (stream ms).
Proof.
  intros Hms. apply concat_bytes, Forall_fmap. eapply Forall_impl; [exact Hms|].
  intros m (W & _). by apply wire_message_bytes.
Qed.

Lemma partial_all part ms : partial part ms -> stream ms = part -> ms = [] /\ part = [].
Proof.
  destruct ms as [|m ms]; [done|]. intros (k & Hk & ->) E. exfalso.
  unfold stream in E. rewrite fmap_cons in E. cbn [concat] in E.
  apply (f_equal length) in E. rewrite length_app, length_take in E. lia.
Qed.

Section end_to_end.
Context `{Platform}.

(** The receive buffer holds the bytes [part] and has held no more than [used]. *)
Record holds (h : heap) (t : TCPTransport) (part : list Z) (used : Z) : Prop := {
  ho_rep : mb_rep h (m_readBuffer t) (Some <$> part);
  ho_used : m_storedLength (m_storage (m_readBuffer t)) <= used
}.

(** One read event of the loop. *)
Lemma receiver_chunk n fuel h t part used chunk ms rest reads :
  Forall sendable ms -> fuel_for ms fuel -> (length ms < n)%nat ->
  holds h t part used -> m_connected t = true ->
  stream ms = (part ++ chunk) ++ rest -> mtu_read chunk ->
  used + MTU_SIZE <= max_stored -> Z.of_nat (length (stream ms)) <= max_stored ->
  exists ms1 ms2 part2 t' h', ms = ms1 ++ ms2 /\ stream ms2 = part2 ++ rest /\ partial part2 ms2 /\
    receiver n fuel h t (RecvBytes chunk :: reads) = receiver n fuel h' t' reads /\
    holds h' t' part2 (used + Z.of_nat (length chunk)) /\ m_connected t' = true /\
    delivered t' = delivered t ++ (received_message <$> ms1) /\ notifications t' = notifications t.
Proof.
  intros Hms Hf Hn [Rep Hused] Hcon Hstr [Hpos Hchunk] Hmax Hlen.
  destruct (mb_receive_spec _ _ _ MTU_SIZE chunk Rep Hchunk ltac:(lia)) as (mb1 & h1 & E1 & Rep1 & Hst1).
  rewrite <- fmap_app in Rep1.
  destruct (prefix_split ms (part ++ chunk) rest Hstr) as (ms1 & ms2 & part2 & -> & Hsplit & Hpart).
  pose proof (stream_bytes _ Hms) as Hby. rewrite Hstr in Hby. apply Forall_app in Hby as [Hby _].
  apply (f_equal length) in Hstr as Hll. rewrite length_app in Hll.
  assert (part ++ chunk <> []) as Hne by (destruct part, chunk; done || (cbn in Hpos; lia)).
  destruct (byteStorage_spec h1 mb1 (part ++ chunk) Rep1 Hne Hby ltac:(lia)) as (b & E2 & U & Hsl & _).
  apply Forall_app in Hms as [Hms1 Hms2]. apply Forall_app in Hf as [Hf1 Hf2].
  rewrite length_app in Hn. rewrite Hsplit in U.
  destruct (process_loop_stream ms1 n fuel h1 (set_readBuffer t mb1) b part2 ms2 Hms1 Hms2 Hf1
    ltac:(lia) Hpart U) as (b' & E3 & U' & [Hx1 Hx2]).
  assert (bytesRead b' = Ok (Z.of_nat (length (stream ms1)))) as E4.
  { rewrite (unread_bytesRead _ _ _ U'), Hx2, Hsl, Hsplit, length_app. f_equal. lia. }
  destruct (erase_front_spec h1 mb1 (Some <$> part ++ chunk) (Z.of_nat (length (stream ms1))) Rep1)
    as (mb2 & E5 & Rep2 & Hst2).
  { rewrite length_fmap, Hsplit, length_app. lia. }
  rewrite Nat2Z.id, Hsplit, fmap_app, drop_app_len in Rep2 by by rewrite length_fmap.
  destruct (delivered_foldl (received_message <$> ms1) (set_readBuffer t mb1)) as (D1 & D2 & _ & _ & D5).
  cbn [set_readBuffer m_connected delivered notifications] in D1, D2, D5.
  exists ms1, ms2, part2, (set_readBuffer (foldl deliver (set_readBuffer t mb1) (received_message <$> ms1)) mb2), h1.
  split; [done|]. split.
  { rewrite stream_app, Hsplit in Hstr. rewrite <- app_assoc in Hstr. by apply app_inv_head in Hstr. }
  split; [done|]. split.
  { cbn [receiver Socket_read]. rewrite E1. run_bind.
    rewrite E2. run_bind. rewrite E3. run_bind.
    rewrite E4. run_bind. rewrite E5. done. }
  split; [split; [exact Rep2|cbn; lia]|]. cbn. rewrite D1, D2, D5. done.
Qed.

Lemma receiver_stream chunks : forall n fuel h t part used ms rest more,
  Forall sendable ms -> fuel_for ms fuel -> (length ms < n)%nat ->
  holds h t part used -> m_connected t = true -> partial part ms ->
  stream ms = part ++ concat chunks ++ rest -> Forall mtu_read chunks ->
  used + Z.of_nat (length (concat chunks)) + MTU_SIZE <= max_stored ->
  Z.of_nat (length (stream ms)) <= max_stored ->
  exists ms1 ms2 part2 t' h',
    receiver n fuel h t ((RecvBytes <$> chunks) ++ RecvError true :: more) = Ok (t', h', more) /\
    ms = ms1 ++ ms2 /\ part ++ concat chunks = stream ms1 ++ part2 /\ partial part2 ms2 /\ stream ms2 = part2 ++ rest /\
    delivered t' = delivered t ++ (received_message <$> ms1) /\
    holds h' t' part2 (used + Z.of_nat (length (concat chunks))) /\
    m_connected t' = true /\ notifications t' = notifications t.
Proof.
  induction chunks as [|c chunks IH]; intros n fuel h t part used ms rest more Hms Hf Hn Ho Hcon Hp Hstr Hc Hmax Hlen.
  - destruct Ho as [Rep Hused]. cbn [concat length app] in Hmax, Hstr.
    destruct (mb_receive_spec _ _ _ MTU_SIZE [] Rep ltac:(cbn; unfold MTU_SIZE; lia) ltac:(lia))
      as (mb1 & h1 & E1 & Rep1 & Hst). cbn [fmap list_fmap length] in Rep1, Hst. rewrite app_nil_r in Rep1.
    exists [], ms, part. do 2 eexists. split; [cbn [fmap list_fmap app receiver Socket_read]; rewrite E1; done|].
    cbn [concat app stream fmap list_fmap]. rewrite !app_nil_r. split_and!; try done. split; [exact Rep1|cbn in *; lia].
  - inversion_clear Hc as [|? ? Hc1 Hc2]. cbn [concat] in Hstr, Hmax |- *. rewrite length_app in Hmax.
    rewrite <- app_assoc, app_assoc in Hstr.
    destruct (receiver_chunk n fuel h t part used c ms (concat chunks ++ rest)
      ((RecvBytes <$> chunks) ++ RecvError true :: more) Hms Hf Hn Ho Hcon Hstr Hc1 ltac:(lia) Hlen)
      as (ms1 & ms2 & part2 & t1 & h1 & -> & Hstr2 & Hp2 & E & Ho2 & Hcon2 & Hd & Hnot).
    apply Forall_app in Hms as [_ Hms2]. apply Forall_app in Hf as [_ Hf2].
    rewrite length_app in Hn. pose proof Hlen as Hlen2. rewrite stream_app, length_app in Hlen2.
    destruct (IH n fuel h1 t1 part2 _ ms2 rest more Hms2 Hf2 ltac:(lia) Ho2 Hcon2 Hp2 Hstr2 Hc2
      ltac:(lia) ltac:(lia)) as (ms3 & ms4 & part3 & t2 & h2 & E2 & -> & Hcut & Hp3 & Hs4 & Hd2 & Ho3 & Hcon3 & Hnot2).
    exists (ms1 ++ ms3), ms4, part3, t2, h2. split; [rewrite fmap_cons; cbn [app]; by rewrite E|].
    split; [by rewrite app_assoc|]. split.
    { rewrite stream_app, Hstr2 in Hstr. apply (app_inv_tail rest). rewrite stream_app, <- !app_assoc.
      rewrite <- !app_assoc in Hstr. rewrite <- Hstr, (app_assoc part2), Hcut, <- !app_assoc. done. }
    split; [done|]. split; [done|]. rewrite Hd2, Hd, fmap_app, <- app_assoc. split; [done|]. split; [|split; [done|congruence]].
    rewrite length_app, Nat2Z.inj_add, Z.add_assoc. done.
Qed.

Lemma partial_nil ms : partial [] ms.
Proof. destruct ms as [|m ms]; [done|]. exists 0%nat. split; [|done]. rewrite length_wire_message. lia. Qed.

Lemma receiver_delivers_spec n fuel h t ms chunks more :
  Forall sendable ms -> fuel_for ms fuel -> (length ms < n)%nat ->
  mb_rep h (m_readBuffer t) [] -> m_connected t = true ->
  concat chunks = stream ms -> Forall mtu_read chunks ->
  m_storedLength (m_storage (m_readBuffer t)) + Z.of_nat (length (stream ms)) + MTU_SIZE <= max_stored ->
  exists t' h', receiver n fuel h t ((RecvBytes <$> chunks) ++ RecvError true :: more) = Ok (t', h', more) /\
    delivered t' = delivered t ++ (received_message <$> ms) /\
    mb_rep h' (m_readBuffer t') [] /\ notifications t' = notifications t.
Proof.
  intros Hms Hf Hn Rep Hcon Hstr Hc Hmax.
  assert (0 <= m_storedLength (m_storage (m_readBuffer t))) as H0.
  { destruct Rep as [(blk & pre & sp & R & _ & _)]. rewrite (mr_stored _ _ _ _ _ R). lia. }
  assert (holds h t [] (m_storedLength (m_storage (m_readBuffer t)))) as Ho by (split; [exact Rep|lia]).
  unfold MTU_SIZE in *. destruct (receiver_stream chunks n fuel h t [] _ ms [] more Hms Hf Hn Ho Hcon (partial_nil ms))
    as (ms1 & ms2 & part2 & t' & h' & E & -> & _ & Hp2 & Hs2 & D & [R' _] & _ & N);
    [by rewrite app_nil_r, Hstr|done|rewrite Hstr; unfold MTU_SIZE; lia|lia|].
  rewrite app_nil_r in Hs2. destruct (partial_all _ _ Hp2 Hs2) as [-> ->]. rewrite app_nil_r. eauto 10.
Qed.

(** C6: the messages a peer sends arrive.  However the network cuts the byte stream of
    a sequence of messages into reads of up to one MTU, and wherever in it a read
    event of the receiver begins and ends: the event delivers exactly the messages
    whose last byte has arrived, each once and in order; the buffer holds the beginning
    of the next one afterwards, from which the next event goes on in the same way, and
    there is no corruption notice. *)
Theorem receiver_delivers n fuel h t part used ms chunks rest more :
  Forall sendable ms -> fuel_for ms fuel -> (length ms < n)%nat ->
  holds h t part used -> m_connected t = true -> partial part ms ->
  stream ms = part ++ concat chunks ++ rest -> Forall mtu_read chunks ->
  used + Z.of_nat (length (concat chunks)) + MTU_SIZE <= max_stored ->
  Z.of_nat (length (stream ms)) <= max_stored ->
  exists ms1 ms2 part2 t' h',
    receiver n fuel h t ((RecvBytes <$> chunks) ++ RecvError true :: more) = Ok (t', h', more) /\
    ms = ms1 ++ ms2 /\ part ++ concat chunks = stream ms1 ++ part2 /\ partial part2 ms2 /\ stream ms2 = part2 ++ rest /\
    delivered t' = delivered t ++ (received_message <$> ms1) /\
    holds h' t' part2 (used + Z.of_nat (length (concat chunks))) /\
    m_connected t' = true /\ notifications t' = notifications t.
Proof. apply receiver_stream. Qed.
End end_to_end.

(** ** Socket::send and TCPTransport::sendMessage *)

Record Socket := mkSocket { sk_connected : bool; sk_out : list Z }.

Definition Socket_disconnect (s : Socket) : bool * Socket :=
  if sk_connected s then (true, mkSocket false (sk_out s)) else (false, s).

(** [Socket::send(data, length)].  [kernel] lists what the calls of [::send]
    return; a call that returns [r >= 0] has taken [r] bytes at [data]. *)
Fixpoint Socket_send (kernel : list Z) (h : heap) (s : Socket) (data : ptr) (length : Z)
    : outcome (bool * Socket) :=
  if sk_connected s then
    match kernel with
    | [] => Err OutOfFuel
    | result :: kernel =>
        if 0 <=? result then
          taken ← load h data result;
          let s := mkSocket true (sk_out s ++ taken) in
          if result =? length then Ok (true, s)
          else Socket_send kernel h s (advance data length) (length - result)
        else Ok (false, (Socket_disconnect s).2)
    end
  else Ok (false, (Socket_disconnect s).2).

Section sending.
Context `{Platform}.

Definition sendMessage (kernel : list Z) (h : heap) (s : Socket) (m_sendBuffer : MessageBuffer)
    (msg : Message) : outcome (status * Socket * MessageBuffer * heap) :=
  if sk_connected s then
    b ← mutableBuffer m_sendBuffer;
    '(_, b, h) ← encode msg h b;
    let mb := with_storage m_sendBuffer b in
    '(p, len) ← mb_bytes mb;
    '(sent, s) ← Socket_send kernel h s p len;
    if (sent : bool) then mb ← erase_front mb len; Ok (OK, s, mb, h)
    else Ok (CANNOT_SEND, s, mb, h)
  else Ok (CANNOT_SEND, s, m_sendBuffer, h).

(** Messages sent one after the other; the kernel takes each in one call. *)
Fixpoint send_all (h : heap) (s : Socket) (mb : MessageBuffer) (ms : list Message)
    : outcome (Socket * MessageBuffer * heap) :=
  match ms with
  | [] => Ok (s, mb, h)
  | m :: ms =>
      '(_, s, mb, h) ← sendMessage [Z.of_nat (length (wire_message m))] h s mb m;
      send_all h s mb ms
  end.

(** An empty send buffer with room for [cap] bytes. *)
Definition send_ready (h : heap) (mb : MessageBuffer) (cap : nat) : Prop :=
  m_startIndex mb = 0 /\ exists blk spare, mut_rep h (m_storage mb) blk [] spare /\ length spare = cap.

Lemma sendMessage_spec (little_endian : big_endian = false) h s mb cap m :
  send_ready h mb cap -> sk_connected s = true -> (length (wire_message m) <= cap)%nat ->
  Z.of_nat cap <= max_stored ->
  exists mb' h',
    sendMessage [Z.of_nat (length (wire_message m))] h s mb m =
      Ok (OK, mkSocket true (sk_out s ++ wire_message m), mb', h') /\ send_ready h' mb' cap.
Proof.
  intros [H0 (blk & spare & R & Hcap)] Hc Hfit Hmax. unfold sendMessage, mutableBuffer. rewrite Hc, H0.
  unfold length_ at 1. rewrite (mr_stored _ _ _ _ _ R). change (0 <=? Z.of_nat (length [])) with true.
  cbn -[encode Socket_send erase_front mb_bytes wire_message].
  destruct (encode_spec little_endian m h (m_storage mb) blk [] spare R ltac:(lia) ltac:(cbn; lia))
    as (b' & h' & sp & -> & R' & Hsp). cbn -[Socket_send erase_front mb_bytes wire_message].
  assert (0 < m_storedLength b') as Hpos
    by (rewrite (mr_stored _ _ _ _ _ R'), length_app, length_fmap, length_wire_message; lia).
  unfold mb_bytes. cbn [m_storage with_storage]. rewrite (bytes_nonempty _ Hpos).
  unfold length_. cbn -[Socket_send erase_front wire_message].
  rewrite H0, (mr_first _ _ _ _ _ R'), (mr_stored _ _ _ _ _ R'). cbn [app]. rewrite length_fmap.
  rewrite (proj2 (Z.leb_le _ _)) by lia. rewrite Z.sub_0_r. cbn -[Socket_send erase_front load wire_message].
  cbn [Socket_send]. rewrite Hc, (proj2 (Z.leb_le _ _)) by lia.
  rewrite (load_middle h' blk [] (wire_message m) sp) by (apply R' || done). cbn -[erase_front wire_message].
  rewrite Z.eqb_refl. cbn -[erase_front wire_message].
  assert (mb_rep h' (with_storage mb b') (Some <$> wire_message m)) as Rep.
  { split. exists blk, (Some <$> wire_message m), sp. cbn. rewrite H0. split; [exact R'|]. split; [lia|done]. }
  unfold erase_front. rewrite (mb_rep_visible _ _ _ Rep), length_fmap. cbn [m_storage m_startIndex with_storage].
  rewrite H0. unfold length_. rewrite (mr_stored _ _ _ _ _ R'). cbn [app]. rewrite length_fmap, Z.add_0_r.
  pose proof Hmax. unfold max_stored in Hmax.
  rewrite wrap_small by lia. rewrite !(proj2 (Z.leb_le _ _)) by lia. cbn -[wire_message].
  do 2 eexists. split; [done|]. split; [done|]. exists blk, ((Some <$> wire_message m) ++ sp).
  split; [|rewrite length_app, length_fmap; lia].
  destruct R' as [Hf Hb Hsec Hst Hcap' Hr Hm Hwf]. split; cbn; eauto.
Qed.

Lemma send_all_spec (little_endian : big_endian = false) ms : forall h s mb cap,
  send_ready h mb cap -> sk_connected s = true -> Z.of_nat cap <= max_stored ->
  Forall (fun m => length (wire_message m) <= cap)%nat ms ->
  exists mb' h', send_all h s mb ms = Ok (mkSocket true (sk_out s ++ stream ms), mb', h') /\
    send_ready h' mb' cap.
Proof.
  induction ms as [|m ms IH]; intros h s mb cap Hr Hc Hmax Hall; cbn [send_all].
  - exists mb, h. unfold stream. cbn. rewrite app_nil_r. destruct s; cbn in *. by subst.
  - inversion_clear Hall as [|? ? Hm Hall'].
    destruct (sendMessage_spec little_endian h s mb cap m Hr Hc Hm Hmax) as (mb1 & h1 & -> & Hr1).
    cbn -[wire_message send_all].
    destruct (IH h1 (mkSocket true (sk_out s ++ wire_message m)) mb1 cap Hr1 eq_refl Hmax Hall')
      as (mb2 & h2 & E & Hr2).
    exists mb2, h2. split; [|done]. rewrite E. cbn [sk_out]. by rewrite <- app_assoc.
Qed.

(** C5: from [sendMessage] to the message callback.  Messages that fit the send
    buffer, sent one after the other over a connection whose kernel takes each
    message whole, and cut in any way on the receiving side, are delivered to
    the receiver's callback in order, each with its flags, subject, fields and
    index. *)
Theorem send_receive (little_endian : big_endian = false) hs s mb cap ms n fuel hr t chunks more :
  send_ready hs mb cap -> sk_connected s = true -> Z.of_nat cap <= max_stored -> sk_out s = [] ->
  Forall (fun m => length (wire_message m) <= cap)%nat ms ->
  Forall sendable ms -> fuel_for ms fuel -> (length ms < n)%nat ->
  mb_rep hr (m_readBuffer t) [] -> m_connected t = true -> delivered t = [] ->
  Forall mtu_read chunks ->
  m_storedLength (m_storage (m_readBuffer t)) + Z.of_nat (length (stream ms)) + MTU_SIZE <= max_stored ->
  exists s' mb' hs', send_all hs s mb ms = Ok (s', mb', hs') /\
    (concat chunks = sk_out s' ->
     exists t' hr', receiver n fuel hr t ((RecvBytes <$> chunks) ++ RecvError true :: more)
       = Ok (t', hr', more) /\ delivered t' = received_message <$> ms).
Proof.
  intros Hr Hc Hcap Hout Hfit Hms Hf Hn Rep Hcon Hd Hch Hmax.
  destruct (send_all_spec little_endian ms hs s mb cap Hr Hc Hcap Hfit) as (mb' & hs' & E & _).
  do 3 eexists. split; [exact E|]. cbn [sk_out]. rewrite Hout. cbn [app]. intros Hstr.
  destruct (receiver_delivers_spec n fuel hr t ms chunks more) as (t' & h' & E2 & D & _); try done.
  exists t', h'. by rewrite E2, D, Hd.
Qed.
End sending.

(** ** Where the transport fails *)

Section failures.
Context `{Platform}.

Lemma decode_no_fields fuel h m0 b m rest :
  message_wf m -> m_payload m = [] -> unread h b (wire_message m ++ rest) ->
  exists m' b', decode fuel h m0 b = Ok (false, m', b').
Proof.
  intros W Hp U. destruct (decode_addressing fuel _ _ _ m0 _ U W) as (b1 & U1 & ->).
  rewrite Hp in U1. pose proof (unread_length _ _ _ U1) as Hl. rewrite length_app in Hl.
  change (length (wire_body [])) with 5%nat in Hl. unfold decode_base, decode_base_with.
  rewrite (unread_remaining _ _ _ U1), length_app. change (length (wire_body [])) with 5%nat.
  rewrite (proj2 (Z.ltb_lt 0 _)) by lia. cbn [assert_ mbind outcome_bind].
  destruct (codec_header_size <? _); [|eauto].
  unfold wire_body, wire_body_header in U1. rewrite <- !app_assoc in U1.
  destruct (unread_scalar _ _ _ 1 _ _ U1 eq_refl) as [-> U2]. cbn -[decode_fields].
  destruct (unread_scalar _ _ _ 4 _ _ U2 eq_refl) as [-> U3]. cbn -[decode_fields].
  destruct fuel; cbn; eauto.
Qed.

(** A message without fields blocks its connection: [processData] leaves it
    at the front of the buffer, returns [false] and delivers nothing, now and
    whenever it is called again, whatever arrives behind it. *)
Theorem empty_message_blocks fuel h t b m rest :
  message_wf m -> m_payload m = [] -> unread h b (wire_message m ++ rest) ->
  exists b', processData fuel h t b = Ok (false, t, b') /\ unread h b' (wire_message m ++ rest).
Proof.
  intros W Hp U. unfold processData. rewrite (have_complete_wire _ _ _ _ U). cbn -[decode].
  destruct (decode_no_fields fuel h (prepareForReuse Message_new) (mark b) m rest W Hp (unread_mark _ _ _ U))
    as (m' & b' & E). rewrite E.
  destruct (keeps_decode h fuel _ (mark b) _ b' E) as (H1 & H2 & H3).
  eexists. split; [done|]. eapply unread_same_cursor; [exact U|done|done|]. cbn. by rewrite H3.
Qed.

(** A partial write is continued at the wrong place: after the kernel has
    taken the first [k] of [n] bytes, the recursive call sends from behind the
    end of the data, here behind the end of its block. *)
Theorem partial_send_out_of_bounds h s blk pre bytes k k2 kernel :
  sk_connected s = true -> h_blocks h !! blk = Some (pre ++ (Some <$> bytes)) ->
  0 <= k < Z.of_nat (length bytes) -> 0 < k2 ->
  Socket_send (k :: k2 :: kernel) h s (Ptr blk (Z.of_nat (length pre))) (Z.of_nat (length bytes))
    = undefined OutOfBounds.
Proof.
  intros Hc Hb Hk Hk2. cbn [Socket_send]. rewrite Hc, (proj2 (Z.leb_le 0 k)) by lia.
  rewrite (load_middle h blk pre (take (Z.to_nat k) bytes) (Some <$> drop (Z.to_nat k) bytes));
    [|by rewrite <- fmap_app, take_drop|done|rewrite length_take; lia].
  run_bind. rewrite (proj2 (Z.eqb_neq k _)) by lia. cbn [sk_connected].
  rewrite (proj2 (Z.leb_le 0 k2)) by lia. unfold load, load_cells.
  rewrite (proj2 (Z.leb_gt k2 0)) by lia. cbn [advance]. rewrite Hb.
  rewrite bool_decide_eq_false_2; [done|]. rewrite length_app, length_fmap. lia.
Qed.

(** When the send fails, [sendMessage] reports [CANNOT_SEND] but leaves the
    encoded message in the send buffer, in front of the next one. *)
Theorem failed_send_keeps_message (little_endian : big_endian = false) h s mb cap m :
  send_ready h mb cap -> sk_connected s = true -> (length (wire_message m) <= cap)%nat ->
  Z.of_nat cap <= max_stored ->
  exists mb' h', sendMessage [-1] h s mb m = Ok (CANNOT_SEND, mkSocket false (sk_out s), mb', h') /\
    mb_rep h' mb' (Some <$> wire_message m).
Proof.
  intros [H0 (blk & spare & R & Hcap)] Hc Hfit Hmax. unfold sendMessage, mutableBuffer. rewrite Hc, H0.
  unfold length_ at 1. rewrite (mr_stored _ _ _ _ _ R). change (0 <=? Z.of_nat (length [])) with true.
  cbn -[encode Socket_send erase_front mb_bytes wire_message].
  destruct (encode_spec little_endian m h (m_storage mb) blk [] spare R ltac:(lia) ltac:(cbn; lia))
    as (b' & h' & sp & -> & R' & Hsp). cbn -[Socket_send erase_front mb_bytes wire_message].
  assert (0 < m_storedLength b') as Hpos
    by (rewrite (mr_stored _ _ _ _ _ R'), length_app, length_fmap, length_wire_message; lia).
  unfold mb_bytes. cbn [m_storage with_storage]. rewrite (bytes_nonempty _ Hpos).
  unfold length_. cbn -[Socket_send erase_front wire_message].
  rewrite H0, (mr_stored _ _ _ _ _ R'). cbn [app]. rewrite length_fmap.
  rewrite (proj2 (Z.leb_le 0 _)) by lia. cbn -[wire_message Socket_disconnect]. rewrite Hc.
  unfold Socket_disconnect. rewrite Hc. cbn. do 2 eexists. split; [done|].
  split. exists blk, (Some <$> wire_message m), sp. cbn -[wire_message]. rewrite H0.
  split; [exact R'|]. split; [lia|done].
Qed.
End failures.
