(* ===== verification/Router.v ===== *)
(** * Router: src/fastpath/router

    peer_connection.h/.cpp, tcp_peer_connection.cpp, message_wrapper.h/.cpp and the
    handlers of bootstrap.cpp: the router reads the stream of each peer, keeps
    its subscriptions from the administration messages and forwards every other
    message, as the bytes it came in, to the connections that are interested. *)
From S2P Require Import Prelude Heap ByteStorage MessageBuffer Types Field Message Codec RoundTrip Subject Transport.

(** What a call of [Socket::send] with a message comes to.  [Wrote bytes ok]: the
    calls of [::send] took [bytes] in all, and the last succeeded or failed; after a
    part of the message [Socket::send] goes on at [&data[length]], so [bytes] are a
    beginning of the message and then what lies behind it. *)
Inductive SendOutcome := TakenWhole | Wrote (bytes : list Z) (ok : bool).

(** A connection: the part of [peer_connection] and [tcp_peer_connection] the
    handlers use.  [p_connected] is [m_connected] of its socket, [p_out] lists what
    each call of [Socket::send] wrote, and [p_sends] what the next calls will come to;
    when that is used up the kernel takes every message whole. *)
Record Peer := mkPeer {
  peer_address : positive;
  m_subscriptions : list subscription;
  p_connected : bool;
  p_out : list (list Z);
  p_sends : list SendOutcome
}.

Definition set_subscriptions (p : Peer) (l : list subscription) : Peer :=
  mkPeer (peer_address p) l (p_connected p) (p_out p) (p_sends p).

(** ** peer_connection.cpp *)

Definition RegisterObserver : subject := subject_new (bytes_of_string "_FP.REGISTER.OBSERVER").
Definition UnregisterObserver : subject := subject_new (bytes_of_string "_FP.UNREGISTER.OBSERVER").

Definition add_subscription (p : Peer) (s : list Z) : outcome Peer :=
  sub ← subscription_new s; Ok (set_subscriptions p (m_subscriptions p ++ [sub])).

(** [erase] of the first subscription equal to the string. *)
Fixpoint erase_first (f : subscription -> bool) (l : list subscription) : list subscription :=
  match l with [] => [] | s :: l => if f s then l else s :: erase_first f l end.
Definition remove_subscription (p : Peer) (s : list Z) : Peer :=
  set_subscriptions p (erase_first (fun x => subscription_eq_cstr x s) (m_subscriptions p)).

(** [find_if] over the subscriptions. *)
Fixpoint any_matches (l : list subscription) (s : subject) : outcome bool :=
  match l with
  | [] => Ok false
  | sub :: l => r ← matches sub s; if (r : bool) then Ok true else any_matches l s
  end.
Definition is_interested (p : Peer) (s : subject) : outcome bool := any_matches (m_subscriptions p) s.

(** [handle_admin_message]: both branches test for [RegisterObserver]. *)
Definition handle_admin_message (p : Peer) (s : subject) (m : Message) : outcome Peer :=
  if subject_eq s RegisterObserver then
    r ← getDataField m (Some (bytes_of_string "subject"));
    match r with
    | Some (text, len) => if len =? 0 then Ok p else add_subscription p (cstr text)
    | None => Ok p
    end
  else if subject_eq s RegisterObserver then
    r ← getDataField m (Some (bytes_of_string "subject"));
    match r with
    | Some (text, _) => Ok (remove_subscription p (cstr text))
    | None => undefined NullDeref     (* remove_subscription(nullptr) *)
    end
  else Ok p.

(** ** bootstrap.cpp *)

(** [tcp_peer_connection::sendBuffer] with [Socket::send]: a send that fails
    disconnects the socket, which has no state handler here, and nobody looks at the
    result. *)
Definition sendBuffer (p : Peer) (encoded : list Z) : Peer :=
  if p_connected p then
    match p_sends p with
    | Wrote bytes ok :: sends => mkPeer (peer_address p) (m_subscriptions p) ok (p_out p ++ [bytes]) sends
    | TakenWhole :: sends => mkPeer (peer_address p) (m_subscriptions p) true (p_out p ++ [encoded]) sends
    | [] => mkPeer (peer_address p) (m_subscriptions p) true (p_out p ++ [encoded]) []
    end
  else p.

(** [bootstrap::message_handler]: for each connection. *)
Fixpoint message_handler (connections : list Peer) (s : subject) (encoded : list Z)
    : outcome (list Peer) :=
  match connections with
  | [] => Ok []
  | c :: cs =>
      i ← is_interested c s;
      cs ← message_handler cs s encoded;
      Ok ((if (i : bool) then sendBuffer c encoded else c) :: cs)
  end.

(** [bootstrap::disconnection_handler]: erases the connection. *)
Fixpoint disconnection_handler (connections : list Peer) (a : positive) : list Peer :=
  match connections with
  | [] => []
  | c :: cs => if bool_decide (peer_address c = a) then cs else c :: disconnection_handler cs a
  end.

(** A change of the connection at address [a]. *)
Fixpoint update_peer (f : Peer -> outcome Peer) (a : positive) (connections : list Peer)
    : outcome (list Peer) :=
  match connections with
  | [] => undefined UseAfterFree
  | c :: cs =>
      if bool_decide (peer_address c = a) then c ← f c; Ok (c :: cs)
      else cs ← update_peer f a cs; Ok (c :: cs)
  end.

(** ** tcp_peer_connection.cpp *)

Section process.
Context `{Platform}.

(** The characters at [p] up to the NUL ([strlen] and the hash loops). *)
Fixpoint c_string (fuel : nat) (h : heap) (p : ptr) : outcome (list Z) :=
  match fuel with
  | O => Err OutOfFuel
  | S fuel =>
      l ← load h p 1;
      match l with
      | [c] => if c =? 0 then Ok [] else s ← c_string fuel h (advance p 1); Ok (c :: s)
      | _ => undefined IndeterminateRead
      end
  end.

(** An exception that leaves a [noexcept] function. *)
Definition noexcept {A} (o : outcome A) : outcome A :=
  match o with Err (Throw _) => Err Terminate | o => o end.

(** [process_buffer(buffer)] of the connection at address [a]: the status, all
    connections and the buffer. *)
Definition process_buffer (fuel : nat) (h : heap) (connections : list Peer) (a : positive)
    (buffer : ByteStorage) : outcome (MessageDecodeStatus * list Peer * ByteStorage) :=
  let buffer := mark buffer in
  '(status, details, buffer) ← addressing_details h buffer;
  let buffer := resetRead buffer in
  match status, details with
  | CompleteMessage, Some d =>
      if bool_decide (a_subject d <> null) && (0 <? a_subject_length d) then
        text ← c_string fuel h (a_subject d);
        let s := subject_new text in
        '(msgData, buffer, h) ← segment h buffer (a_msg_length d);
        if subj_is_admin s then
          '(ok, message, _) ← noexcept (decode fuel h Message_new msgData);
          if (ok : bool) then
            cs ← update_peer (fun c => handle_admin_message c s message) a connections;
            Ok (CompleteMessage, cs, mark buffer)
          else Ok (CorruptMessage, connections, mark buffer)
        else
          encoded ← load h (bytes msgData).1 (bytes msgData).2;
          cs ← message_handler connections s encoded;
          Ok (CompleteMessage, cs, mark buffer)
      else Ok (CorruptMessage, connections, buffer)
  | _, _ => Ok (status, connections, buffer)
  end.

(** [while ((status = process_buffer(storage)) == CompleteMessage);] *)
Fixpoint process_buffers (n fuel : nat) (h : heap) (connections : list Peer) (a : positive)
    (storage : ByteStorage) : outcome (MessageDecodeStatus * list Peer * ByteStorage) :=
  match n with
  | O => Err OutOfFuel
  | S n =>
      '(status, connections, storage) ← process_buffer fuel h connections a storage;
      match status with
      | CompleteMessage => process_buffers n fuel h connections a storage
      | _ => Ok (status, connections, storage)
      end
  end.

(** [data_handler] of the connection at [a], over the results of [recv]: the
    connections, its buffer, the heap, whether it is still connected, and the
    results left for the next event.  A connection that ends is erased here, in the
    callback of its own event: what that means for the queue that called it is said
    at [data_event] of Bootstrap.v. *)
Fixpoint data_handler (n fuel : nat) (h : heap) (connections : list Peer) (a : positive)
    (m_buffer : MessageBuffer) (reads : list RecvResult)
    : outcome (list Peer * MessageBuffer * heap * bool * list RecvResult) :=
  match reads with
  | [] => Ok (connections, m_buffer, h, true, [])
  | r :: reads =>
      let '(result, chunk, _) := Socket_read r in
      '(m_buffer, h) ← mb_receive h m_buffer MTU_SIZE chunk;
      match result with
      | MoreData =>
          '(storage, h) ← byteStorage h m_buffer;
          '(status, connections, storage) ← process_buffers n fuel h connections a storage;
          match status with
          | CompleteMessage => data_handler n fuel h connections a m_buffer reads
          | IncompleteMessage =>
              k ← bytesRead storage;
              m_buffer ← erase_front m_buffer k;
              data_handler n fuel h connections a m_buffer reads
          | CorruptMessage =>
              Ok (disconnection_handler connections a, m_buffer, h, false, reads)
          end
      | NoData => Ok (connections, m_buffer, h, true, reads)
      | Closed => Ok (disconnection_handler connections a, m_buffer, h, false, reads)
      end
  end.
End process.

(** ** Matching is total *)

Lemma find_if_not_total cs subj : forall i,
  (i + length cs <= length subj)%nat -> exists r, find_if_not_component cs subj i = Ok r.
Proof.
  induction cs as [|c cs IH]; intros i Hl; [eexists; done|]. cbn [length] in Hl. cbn [find_if_not_component].
  destruct (lookup_lt_is_Some_2 subj i ltac:(lia)) as [x Hx]. rewrite Hx.
  destruct (component_kind c); cbn; [destruct (_ =? _)|..]; try (apply IH; lia). eauto.
Qed.

Lemma matches_total sub s : exists r, matches sub s = Ok r.
Proof.
  unfold matches. destruct (negb _); [eauto|]. destruct (Nat.leb_spec (length (sub_components sub))
    (length (subj_components s))); [|eauto]. by apply find_if_not_total.
Qed.

(** Whether a connection is interested, as a truth value. *)
Definition interested (c : Peer) (s : subject) : bool :=
  existsb (fun sub => match matches sub s with Ok r => r | Err _ => false end) (m_subscriptions c).

Lemma is_interested_total c s : is_interested c s = Ok (interested c s).
Proof.
  unfold is_interested, interested. induction (m_subscriptions c) as [|sub l IH]; [done|].
  cbn. destruct (matches_total sub s) as [r ->]. cbn. destruct r; [done|]. by rewrite IH.
Qed.

(** What forwarding does to one connection. *)
Definition forward (s : subject) (encoded : list Z) (c : Peer) : Peer :=
  if interested c s then sendBuffer c encoded else c.

Lemma message_handler_spec cs s encoded : message_handler cs s encoded = Ok (forward s encoded <$> cs).
Proof.
  induction cs as [|c cs IH]; [done|]. cbn [message_handler]. rewrite is_interested_total, IH. done.
Qed.

(** [SendOutcome] covers what [Socket::send] does: it writes some bytes, and the
    socket stays connected exactly when it succeeds. *)
Lemma Socket_send_outcome kernel : forall h s p len ok s', sk_connected s = true ->
  Socket_send kernel h s p len = Ok (ok, s') -> exists bytes, sk_out s' = sk_out s ++ bytes /\ sk_connected s' = ok.
Proof.
  induction kernel as [|result kernel IH]; intros h s p len ok s' Hc E; cbn [Socket_send] in E; rewrite Hc in E; [done|].
  destruct (0 <=? result).
  - destruct (load h p result) as [taken|]; [|done]. run_bind in E. destruct (result =? len).
    + injection E as <- <-. by exists taken.
    + apply IH in E as (bytes & Eo & Ec); [|done]. exists (taken ++ bytes). split; [|done]. by rewrite Eo, app_assoc.
  - injection E as <- <-. exists []. unfold Socket_disconnect. rewrite Hc. cbn. by rewrite app_nil_r.
Qed.

(** Whole, when one call takes all. *)
Lemma Socket_send_whole h s p encoded : sk_connected s = true -> load h p (Z.of_nat (length encoded)) = Ok encoded ->
  Socket_send [Z.of_nat (length encoded)] h s p (Z.of_nat (length encoded)) = Ok (true, mkSocket true (sk_out s ++ encoded)).
Proof. intros Hc Hl. cbn [Socket_send]. rewrite Hc, (proj2 (Z.leb_le _ _)) by lia. rewrite Hl. run_bind. by rewrite Z.eqb_refl. Qed.

(** ** Reading a message out of the stream *)

Lemma load_cons h p x l :
  load h p (Z.of_nat (length (x :: l))) = Ok (x :: l) ->
  load h p 1 = Ok [x] /\ load h (advance p 1) (Z.of_nat (length l)) = Ok l.
Proof.
  unfold load, load_cells. rewrite (proj2 (Z.leb_gt _ _)) by (cbn; lia). cbn [length].
  destruct p as [|blk off]; [done|]. destruct (h_blocks h !! blk) as [c|] eqn:Hc; [|done].
  case_bool_decide as Hr; [|done]. run_bind. intros E. apply determinate_inv in E.
  rewrite Nat2Z.id in E.
  assert (drop (Z.to_nat off) c = Some x :: (Some <$> l) ++ drop (Z.to_nat off + S (length l)) c) as Ed.
  { rewrite <- drop_drop. rewrite <- (take_drop (S (length l)) (drop (Z.to_nat off) c)) at 1.
    rewrite E. done. }
  split.
  - rewrite bool_decide_eq_true_2 by lia. rewrite Ed. done.
  - destruct l as [|y l]; [done|]. rewrite (proj2 (Z.leb_gt _ _)) by (cbn; lia). cbn [advance]. rewrite Hc.
    rewrite bool_decide_eq_true_2 by (cbn [length] in *; lia). run_bind.
    replace (Z.to_nat (off + 1)) with (Z.to_nat off + 1)%nat by lia. rewrite <- drop_drop, Ed.
    cbn [drop]. rewrite drop_0, Nat2Z.id, take_app_len by by rewrite length_fmap. apply determinate_some.
Qed.

Lemma c_string_load h s : forall p fuel,
  load h p (Z.of_nat (length (s ++ [0]))) = Ok (s ++ [0]) -> is_cstr s -> (length s < fuel)%nat ->
  c_string fuel h p = Ok s.
Proof.
  induction s as [|c s IH]; intros p fuel Hl Hc Hf; (destruct fuel as [|fuel]; [cbn in Hf; lia|]);
    cbn [c_string].
  - rewrite (Hl : load h p 1 = _). done.
  - inversion_clear Hc as [|? ? Hc1 Hc2]. cbn [app] in Hl. apply load_cons in Hl as [-> Hl]. cbn.
    destruct (Z.eqb_spec c 0); [lia|]. rewrite (IH _ fuel Hl Hc2) by (cbn in Hf; lia). done.
Qed.

Section forwarding.
Context `{Platform}.

Lemma segment_spec h b w rest :
  unread h b (w ++ rest) -> w <> [] ->
  exists seg, segment h b (Z.of_nat (length w)) = Ok (seg, advanceRead b (Z.of_nat (length w)), h) /\
    unread h seg w /\ load h (bytes seg).1 (bytes seg).2 = Ok w.
Proof.
  intros U Hne. unfold segment. rewrite (unread_remaining _ _ _ U). cbn -[advanceRead bytes].
  rewrite (proj2 (Z.leb_le _ _)) by (rewrite length_app; lia). cbn -[advanceRead bytes].
  eexists. split; [done|]. rewrite bytes_nonempty by (destruct w; [done|cbn; lia]). pose proof (unread_load _ _ _ _ _ U eq_refl) as Hload.
  pose proof (unread_small _ _ _ U) as Hsm. pose proof (unread_is_byte _ _ _ U) as Hby.
  destruct U as (blk & base & data & r & [Hf (pre & post & Hpre & Hblk) Hs Hr _ _] & Hle & Hd).
  split; [|exact Hload]. exists blk, (base + r)%nat, w, 0%nat. split; [|split; [lia|apply drop_0]].
  split; cbn; try done.
  - exists (pre ++ (Some <$> take r data)), ((Some <$> rest) ++ post). split.
    + rewrite length_app, length_fmap, length_take. lia.
    + rewrite Hblk. f_equal. rewrite <- (take_drop r data) at 1. rewrite Hd, !fmap_app, <- !app_assoc. done.
  - rewrite Hr. f_equal. lia.
  - by apply Forall_app in Hby as [? _].
  - rewrite length_app in Hsm. lia.
Qed.

(** Reading the addressing part and going back to the mark. *)
Lemma read_addressing fuel h b m rest :
  message_wf m -> unread h b (wire_message m ++ rest) -> (length (m_subject m) < fuel)%nat ->
  exists d b1, addressing_details h (mark b) = Ok (CompleteMessage, Some d, b1) /\
    bool_decide (a_subject d <> null) && (0 <? a_subject_length d) = true /\
    c_string fuel h (a_subject d) = Ok (m_subject m) /\
    a_msg_length d = Z.of_nat (length (wire_message m)) /\
    unread h (resetRead b1) (wire_message m ++ rest) /\ same_extent b (resetRead b1).
Proof.
  intros W U Hf. apply unread_mark in U as Um.
  destruct (addressing_wire _ _ _ _ Um W) as (d & b1 & E & _ & _ & Hsub & Hlen & Hsl).
  assert (same_storage (mark b) b1) as (K1 & K2 & K3).
  { assert (keeps (mark b) (addressing_details h (mark b))) as K; [|by eapply K].
    unfold addressing_details. apply keeps_pure. intros [st len].
    destruct st, len; auto with keeps. do 2 (apply keeps_pure; intros ?). by intros ? ? [= <- <-]. }
  exists d, b1. split; [done|]. split.
  { apply andb_true_iff. rewrite Hsl, length_app in *. cbn [length] in *. split; [|apply Z.ltb_lt; lia].
    apply bool_decide_eq_true. intros Hnull. rewrite Hnull in Hsub. unfold load, load_cells in Hsub.
    by rewrite (proj2 (Z.leb_gt _ _)) in Hsub by lia. }
  split; [apply c_string_load; [by rewrite <- Hsl|apply W|done]|]. split; [done|]. split; [|done].
  eapply unread_same_cursor; [exact U|done|done|]. cbn. by rewrite K3.
Qed.

(** The part of [process_buffer] before the message is looked at. *)
Lemma process_addressing fuel h b m rest :
  message_wf m -> unread h b (wire_message m ++ rest) -> (length (m_subject m) < fuel)%nat ->
  exists d b1 seg, addressing_details h (mark b) = Ok (CompleteMessage, Some d, b1) /\
    bool_decide (a_subject d <> null) && (0 <? a_subject_length d) = true /\
    c_string fuel h (a_subject d) = Ok (m_subject m) /\
    segment h (resetRead b1) (a_msg_length d) =
      Ok (seg, advanceRead (resetRead b1) (Z.of_nat (length (wire_message m))), h) /\
    unread h seg (wire_message m) /\ load h (bytes seg).1 (bytes seg).2 = Ok (wire_message m) /\
    unread h (mark (advanceRead (resetRead b1) (Z.of_nat (length (wire_message m))))) rest /\
    same_extent b (resetRead b1).
Proof.
  intros W U Hf. destruct (read_addressing fuel h b m rest W U Hf) as (d & b1 & E1 & E2 & E3 & Hlen & Ur & X).
  destruct (segment_spec _ _ _ _ Ur ltac:(done)) as (seg & Es & Useg & Hseg).
  exists d, b1, seg. rewrite Hlen. do 6 (split; [done|]). split; [|done].
  apply unread_mark. by eapply unread_advance.
Qed.

(** A message with an ordinary subject goes to the message handler whole. *)
Lemma process_buffer_forward fuel h cs a b m rest :
  message_wf m -> unread h b (wire_message m ++ rest) -> (length (m_subject m) < fuel)%nat ->
  subj_is_admin (subject_new (m_subject m)) = false ->
  exists b', process_buffer fuel h cs a b =
      Ok (CompleteMessage, forward (subject_new (m_subject m)) (wire_message m) <$> cs, b') /\
    unread h b' rest /\ same_extent b b'.
Proof.
  intros W U Hf Hadm.
  destruct (process_addressing fuel h b m rest W U Hf) as (d & b1 & seg & E1 & E2 & E3 & E4 & _ & E5 & U' & X).
  unfold process_buffer. rewrite E1. run_bind. rewrite E2, E3. run_bind.
  rewrite E4. run_bind. rewrite Hadm, E5. run_bind.
  rewrite message_handler_spec. run_bind. eauto.
Qed.

(** A message with a reserved subject is decoded and handled here. *)
Lemma process_buffer_admin fuel h cs a b m rest :
  message_wf m -> m_payload m <> [] -> unread h b (wire_message m ++ rest) ->
  (length (m_subject m) < fuel)%nat -> (list_sum (fields_in <$> m_payload m) <= fuel)%nat ->
  subj_is_admin (subject_new (m_subject m)) = true ->
  exists b', unread h b' rest /\ same_extent b b' /\
    process_buffer fuel h cs a b =
      (cs ← update_peer (fun c => handle_admin_message c (subject_new (m_subject m)) (received_message m)) a cs;
       Ok (CompleteMessage, cs, b')).
Proof.
  intros W Hne U Hf Hf2 Hadm.
  destruct (process_addressing fuel h b m rest W U Hf) as (d & b1 & seg & E1 & E2 & E3 & E4 & Us & _ & U' & X).
  rewrite <- (app_nil_r (wire_message m)) in Us. destruct (decode_wire fuel h seg m [] W Hne Us Hf2) as (b2 & E5 & _).
  eexists. split; [exact U'|]. split; [exact X|]. unfold process_buffer. rewrite E1. run_bind.
  rewrite E2, E3. run_bind. rewrite E4. run_bind. rewrite Hadm, E5. done.
Qed.

Lemma process_buffer_partial fuel h cs a b part ms :
  Forall sendable ms -> partial part ms -> unread h b part ->
  exists b', process_buffer fuel h cs a b = Ok (IncompleteMessage, cs, b') /\ unread h b' part /\
    same_extent b b'.
Proof.
  intros Hms Hp U. apply unread_mark in U as Um.
  assert (exists len, have_complete_message h (mark b) = Ok (IncompleteMessage, len)) as [len E].
  { destruct ms as [|m ms].
    - rewrite Hp in Um. exists None. by apply (have_complete_short _ _ _ Um); simpl; lia.
    - destruct Hp as (k & Hk & ->). inversion_clear Hms as [|? ? (_ & _ & Hb) _].
      by eapply have_complete_prefix. }
  unfold process_buffer, addressing_details. rewrite E. cbn.
  eexists. split; [done|]. split; [by eapply unread_same_cursor|done].
Qed.

(** The messages of a stream that a connection is interested in. *)
Definition wanted (c : Peer) (ms : list Message) : list Message :=
  List.filter (fun m => interested c (subject_new (m_subject m))) ms.

(** What forwarding a stream does to one connection. *)
Definition forward_all (ms : list Message) (c : Peer) : Peer :=
  foldl (fun c m => forward (subject_new (m_subject m)) (wire_message m) c) c ms.

Lemma forward_all_cons m ms c :
  forward_all (m :: ms) c = forward_all ms (forward (subject_new (m_subject m)) (wire_message m) c).
Proof. done. Qed.

(** The kernel takes whatever is sent to the connection whole. *)
Definition takes_whole (c : Peer) : Prop := Forall (fun o => o = TakenWhole) (p_sends c).

Lemma sendBuffer_whole c encoded : takes_whole c -> p_connected c = true ->
  sendBuffer c encoded = mkPeer (peer_address c) (m_subscriptions c) true (p_out c ++ [encoded]) (tail (p_sends c)).
Proof. intros Hw Hc. unfold sendBuffer. rewrite Hc. by destruct Hw as [|o l ->]. Qed.

Lemma takes_whole_tail c l : takes_whole c -> takes_whole (mkPeer (peer_address c) (m_subscriptions c) true l (tail (p_sends c))).
Proof. unfold takes_whole. cbn. destruct 1; [constructor|done]. Qed.

Lemma forward_all_closed ms : forall c, p_connected c = false -> forward_all ms c = c.
Proof.
  induction ms as [|m ms IH]; intros c Hc; [done|]. rewrite forward_all_cons. unfold forward, sendBuffer. rewrite Hc.
  destruct (interested _ _); by apply IH.
Qed.

Lemma forward_all_out ms : forall c, takes_whole c -> p_connected c = true ->
  forward_all ms c = mkPeer (peer_address c) (m_subscriptions c) true (p_out c ++ (wire_message <$> wanted c ms))
    (drop (length (wanted c ms)) (p_sends c)).
Proof.
  induction ms as [|m ms IH]; intros c Hw Hc.
  - destruct c as [a s k o l]; cbn in *. by rewrite Hc, app_nil_r, drop_0.
  - rewrite forward_all_cons. unfold forward, wanted. cbn [List.filter].
    destruct (interested c (subject_new (m_subject m))) eqn:Ei; [|by apply IH].
    rewrite sendBuffer_whole by done.
    rewrite IH; [|by apply takes_whole_tail|done]. cbn [peer_address m_subscriptions p_out p_sends].
    change (wanted (mkPeer _ _ _ _ _) ms) with (wanted c ms). change (List.filter _ ms) with (wanted c ms).
    rewrite <- app_assoc. f_equal. destruct (p_sends c) as [|o l]; cbn [tail length drop]; [apply drop_nil|done].
Qed.

Lemma forward_keeps s encoded c :
  peer_address (forward s encoded c) = peer_address c /\ m_subscriptions (forward s encoded c) = m_subscriptions c.
Proof. unfold forward, sendBuffer. destruct (interested c s), (p_connected c), (p_sends c) as [|[|? ?] ?]; done. Qed.

Lemma forward_all_keeps ms : forall c,
  peer_address (forward_all ms c) = peer_address c /\ m_subscriptions (forward_all ms c) = m_subscriptions c.
Proof.
  induction ms as [|m ms IH]; intros c; [done|]. rewrite forward_all_cons.
  destruct (IH (forward (subject_new (m_subject m)) (wire_message m) c)) as [-> ->]. apply forward_keeps.
Qed.

(** An ordinary message: well-formed, with a subject that is not reserved. *)
Definition ordinary (m : Message) : Prop :=
  sendable m /\ subj_is_admin (subject_new (m_subject m)) = false.

Lemma process_buffers_stream ms1 : forall n fuel h cs a b part ms2,
  Forall ordinary ms1 -> Forall sendable ms2 -> partial part ms2 ->
  Forall (fun m => length (m_subject m) < fuel)%nat ms1 -> (length ms1 < n)%nat ->
  unread h b (stream ms1 ++ part) ->
  exists b', process_buffers n fuel h cs a b = Ok (IncompleteMessage, forward_all ms1 <$> cs, b') /\
    unread h b' part /\ same_extent b b'.
Proof.
  induction ms1 as [|m ms1 IH]; intros n fuel h cs a b part ms2 Ho Hs Hp Hf Hn U;
    (destruct n as [|n]; [cbn in Hn; lia|]); cbn [process_buffers].
  - destruct (process_buffer_partial fuel h cs a b part ms2 Hs Hp U) as (b' & -> & U' & X).
    cbn. exists b'. split; [|done]. do 3 f_equal. change (forward_all []) with (fun c : Peer => c).
    symmetry. apply list_fmap_id.
  - apply Forall_cons in Ho as [[(W & Hne & Hl) Hadm] Ho']. apply Forall_cons in Hf as [Hfm Hf'].
    unfold stream in U. rewrite fmap_cons in U. cbn [concat] in U. rewrite <- app_assoc in U.
    destruct (process_buffer_forward fuel h cs a b m _ W U Hfm Hadm) as (b1 & -> & U1 & X1).
    run_bind.
    destruct (IH n fuel h (forward (subject_new (m_subject m)) (wire_message m) <$> cs) a b1 part ms2)
      as (b2 & E & U2 & X2); [done..|cbn in Hn; lia|done|].
    exists b2. split; [|split; [done|unfold same_extent in *; intuition congruence]].
    rewrite E. do 3 f_equal. by rewrite <- list_fmap_compose.
Qed.

(** C7: the router forwards every message exactly to those who asked for it: after
    a buffer that holds any number of ordinary messages and the beginning of the
    next one, each live connection, if the kernel takes what is sent to it whole, has
    been sent the bytes of precisely the messages one of its subscriptions matches,
    unchanged and in order, the others nothing, and the unfinished message stays in
    the buffer. *)
Theorem router_forwards n fuel h cs a b ms1 ms2 part :
  Forall ordinary ms1 -> Forall sendable ms2 -> partial part ms2 ->
  Forall (fun m => length (m_subject m) < fuel)%nat ms1 -> (length ms1 < n)%nat ->
  unread h b (stream ms1 ++ part) ->
  exists cs' b', process_buffers n fuel h cs a b = Ok (IncompleteMessage, cs', b') /\
    unread h b' part /\
    Forall2 (fun c c' => peer_address c' = peer_address c /\ m_subscriptions c' = m_subscriptions c /\
      (takes_whole c ->
       p_out c' = if p_connected c then p_out c ++ (wire_message <$> wanted c ms1) else p_out c)) cs cs'.
Proof.
  intros Ho Hs Hp Hf Hn U.
  destruct (process_buffers_stream ms1 n fuel h cs a b part ms2 Ho Hs Hp Hf Hn U) as (b' & E & U' & _).
  do 2 eexists. split; [exact E|]. split; [done|]. apply Forall2_fmap_r, Forall_Forall2_diag.
  apply Forall_forall. intros c _. unfold compose. destruct (forward_all_keeps ms1 c) as [Ha Hsub]. split; [done|]. split; [done|].
  intros Hw. destruct (p_connected c) eqn:Hc; [by rewrite forward_all_out|by rewrite forward_all_closed].
Qed.
End forwarding.

(** ** Administration messages *)

Section admin.
Context `{Platform}.

(** The text of a string field, as [getDataField] gives it back. *)
Lemma getDataField_string m field s m' :
  keyed m -> is_cstr s -> addDataField_string m field s = Ok (true, m') ->
  getDataField m' (Some field) = Ok (Some (s ++ [0], Z.of_nat (length s) + 1)).
Proof.
  intros K Hs. unfold addDataField_string, createDataField_string, SmallDataField_string,
    LargeDataField_string, Field_new.
  destruct (length field <? 256)%nat; [|by destruct (_ <=? _)]. run_bind.
  assert (forall f, identifier f = field -> insert_field m f = (true, m') ->
    DataField_get string_ f = Ok (s ++ [0], Z.of_nat (length s) + 1) ->
    getDataField m' (Some field) = Ok (Some (s ++ [0], Z.of_nat (length s) + 1))) as A.
  { intros f Hid Hins Hget. unfold insert_field in Hins.
    destruct (m_keys m !! identifier f) eqn:Hk; [done|]. injection Hins as <-.
    unfold getDataField, payload_at. cbn. rewrite Hid, lookup_insert_eq.
    rewrite lookup_app_r, Nat.sub_diag by lia. cbn -[DataField_get]. rewrite Hget. done. }
  destruct (Z.leb_spec (Z.of_nat (length s) + 1) SmallDataField_max_size) as [Hle|Hgt]; run_bind.
  - cbn [m_data_length]. rewrite (proj2 (Z.leb_le _ _) Hle). intros [= E].
    by eapply A; [|exact E|].
  - intros [= E]. eapply A; [|exact E|]; [done|]. cbn. rewrite length_app. cbn [length]. do 2 f_equal. lia.
Qed.

(** What a register message does once its field has been read. *)
Lemma handle_register p m s :
  is_cstr s -> getDataField m (Some (bytes_of_string "subject")) = Ok (Some (s ++ [0], Z.of_nat (length s) + 1)) ->
  exists sub, subscription_new s = Ok sub /\
    handle_admin_message p RegisterObserver m = Ok (set_subscriptions p (m_subscriptions p ++ [sub])).
Proof.
  intros Hs Hg. unfold handle_admin_message, subject_eq. rewrite Z.eqb_refl, Hg. run_bind.
  rewrite (proj2 (Z.eqb_neq _ _)) by lia. rewrite cstr_app_nul by done.
  destruct (matches_hashed s [] Hs) as (sub & E & _). unfold add_subscription. rewrite E. eauto.
Qed.

(** A register message subscribes: after an administration message to
    ["_FP.REGISTER.OBSERVER"] whose ["subject"] field is the string [s], the
    connection has the subscription to [s] behind those it had, and is
    interested in exactly what it was interested in or [s] matches. *)
Theorem register_subscribes p m s m' t :
  keyed m -> is_cstr s -> addDataField_string m (bytes_of_string "subject") s = Ok (true, m') ->
  exists sub p', subscription_new s = Ok sub /\
    handle_admin_message p RegisterObserver m' = Ok p' /\
    m_subscriptions p' = m_subscriptions p ++ [sub] /\
    exists r, matches sub t = Ok r /\ interested p' t = interested p t || r.
Proof.
  intros K Hs Ha. pose proof (getDataField_string _ _ _ _ K Hs Ha) as Hg.
  destruct (handle_register p m' s Hs Hg) as (sub & E & ->). destruct (matches_total sub t) as [r Hr].
  do 2 eexists. split; [done|]. split; [done|]. split; [done|]. exists r. split; [done|].
  unfold interested. cbn [m_subscriptions set_subscriptions]. rewrite existsb_app. cbn. by rewrite Hr, orb_false_r.
Qed.

(** An unregister message does nothing: the branch that would remove the
    subscription tests for the register subject again, so whatever the message
    holds the connection keeps every subscription. *)
Theorem unregister_ignored p m : handle_admin_message p UnregisterObserver m = Ok p.
Proof. unfold handle_admin_message. by change (subject_eq UnregisterObserver RegisterObserver) with false. Qed.
End admin.

(** A complete message with a reserved subject and a wrong body marker. *)
Definition bad_admin : list Z :=
  le_bytes 1 addressing_flag ++ le_bytes 8 17 ++ le_bytes 1 0 ++ le_bytes 4 0 ++ le_bytes 2 4
  ++ bytes_of_string "_FP" ++ [0] ++ le_bytes 1 7 ++ le_bytes 4 1 ++ [0].

(** A peer can stop the router: there are bytes of a complete message with a
    reserved subject whose body does not decode, and the exception leaves the
    [noexcept] function that reads them. *)
Theorem admin_message_terminates :
  exists h b, unread h b bad_admin /\
    forall cs a, @process_buffer false 100 h cs a b = Err Terminate.
Proof.
  exists (Heap 2 {[1%positive := Some <$> bad_admin]}), (mkByteStorage (Ptr 1 0) 0 26 1 (Ptr 1 0) (Ptr 1 0)).
  split.
  - exists 1%positive, 0%nat, bad_admin, 0%nat. split; [|split; [lia|reflexivity]]. split; try reflexivity.
    + exists [], []. split; reflexivity.
    + apply (bool_decide_unpack _). vm_compute. exact I.
    + vm_compute. discriminate.
  - intros cs a. vm_compute. reflexivity.
Qed.
