(* ===== verification/Shm.v ===== *)
(** * Shm: the shared memory transport

    src/fastpath/SharedMemoryBuffer.h, transport/sm/SharedMemoryManager.h,
    transport/SHMTransport.cpp, router/shm_peer_connection.cpp and
    router/message_wrapper.h/.cpp.  A client encodes a message into memory of the
    segment it shares with the router and pushes a counted pointer to it onto
    its server queue; the router pushes copies of the pointer onto the client
    queues of the interested peers; the last owner gives the memory back.

    Boost is not part of the repository: [shared_ptr] is modelled by its
    documented behaviour (a control block with a use count and the deleter of
    SharedMemoryManager.h), the queues by any bounded FIFO with the operations
    of [spsc_queue].  Allocation in the segment does not fail. *)
From S2P Require Import Prelude Heap ByteStorage Types Field Message Codec RoundTrip Subject RingBuffer Transport Router.

(** ** The segment *)

Record BufferContainer := mkContainer { c_ptr : ptr; c_length : Z }.

(** A [shared_ptr] is null or refers to a control block. *)
Abbreviation shared_ptr := (option positive).

Definition queue_capacity : nat := Z.to_nat 1024.

(** The names of the queues ([sprintf] of the prefix and the process id). *)
Definition queue_name : Type := bool * Z.
Definition ClientQueue (pid : Z) : queue_name := (false, pid).
Definition ServerQueue (pid : Z) : queue_name := (true, pid).

(** A managed segment: its memory, the control blocks (container, use count) and
    the queues by address, with the index of their names.  A queue that was
    destroyed leaves [None] at its address. *)
Record Segment (Q : Type) := mkSegment {
  sg_heap : heap;
  sg_next : positive;
  sg_control : gmap positive (BufferContainer * nat);
  sg_queues : list (option Q);
  sg_names : gmap queue_name nat
}.
Arguments mkSegment {Q}.
Arguments sg_heap {Q}.
Arguments sg_next {Q}.
Arguments sg_control {Q}.
Arguments sg_queues {Q}.
Arguments sg_names {Q}.

Section shm.
Context {Q : Type} (queue_new : Q) (push : Q -> shared_ptr -> bool * Q) (pop : Q -> outcome (option shared_ptr * Q)).
(** Whether [DEBUG_LOG] evaluates its argument. *)
Context (debug : bool).

Abbreviation segment := (Segment Q).

Definition set_heap (s : segment) (h : heap) : segment :=
  mkSegment h (sg_next s) (sg_control s) (sg_queues s) (sg_names s).
Definition set_control (s : segment) (c : gmap positive (BufferContainer * nat)) : segment :=
  mkSegment (sg_heap s) (sg_next s) c (sg_queues s) (sg_names s).
Definition set_queue (s : segment) (a : nat) (q : option Q) : segment :=
  mkSegment (sg_heap s) (sg_next s) (sg_control s) (<[a := q]> (sg_queues s)) (sg_names s).

(** [segment_manager::deallocate(p)]: of null nothing, else a live block. *)
Definition segment_deallocate (h : heap) (p : ptr) : outcome heap :=
  match p with
  | null => Ok h
  | Ptr b off =>
      match h_blocks h !! b with
      | None => undefined UseAfterFree
      | Some c => free h p (Z.of_nat (length c))
      end
  end.

(** [deleter::operator()]. *)
Definition deleter (s : segment) (c : BufferContainer) : outcome segment :=
  h ← segment_deallocate (sg_heap s) (c_ptr c); Ok (set_heap s h).

(** [ptr->]. *)
Definition deref (s : segment) (p : shared_ptr) : outcome BufferContainer :=
  match p with
  | None => undefined NullDeref
  | Some k => match sg_control s !! k with Some (c, _) => Ok c | None => undefined UseAfterFree end
  end.

(** Copy construction and destruction of a [shared_ptr]. *)
Definition copy_ptr (s : segment) (p : shared_ptr) : outcome segment :=
  match p with
  | None => Ok s
  | Some k =>
      match sg_control s !! k with
      | Some (c, n) => Ok (set_control s (<[k := (c, S n)]> (sg_control s)))
      | None => undefined UseAfterFree
      end
  end.
Definition drop_ptr (s : segment) (p : shared_ptr) : outcome segment :=
  match p with
  | None => Ok s
  | Some k =>
      match sg_control s !! k with
      | Some (c, S (S n)) => Ok (set_control s (<[k := (c, S n)]> (sg_control s)))
      | Some (c, _) => deleter (set_control s (delete k (sg_control s))) c
      | None => undefined UseAfterFree
      end
  end.

(** [getInterprocessBuffer(buffer)]: the new pointer and what is left of the
    buffer. *)
Definition getInterprocessBuffer (s : segment) (buffer : ByteStorage) : shared_ptr * ByteStorage * segment :=
  let '(d, length) := bytes buffer in
  let k := sg_next s in
  (Some k, release_ownership buffer,
   mkSegment (sg_heap s) (Pos.succ k) (<[k := (mkContainer d length, 1%nat)]> (sg_control s))
     (sg_queues s) (sg_names s)).

(** ** SharedMemoryBuffer *)

Definition queue_at (s : segment) (a : nat) : outcome Q :=
  match sg_queues s !! a with Some (Some q) => Ok q | _ => undefined UseAfterFree end.

(** The constructor: [find_or_construct], the address of the queue. *)
Definition SharedMemoryBuffer_new (s : segment) (name : queue_name) : nat * segment :=
  match sg_names s !! name with
  | Some a => (a, s)
  | None =>
      let a := length (sg_queues s) in
      (a, mkSegment (sg_heap s) (sg_next s) (sg_control s) (sg_queues s ++ [Some queue_new])
            (<[name := a]> (sg_names s)))
  end.

(** Destruction of the elements of a queue, front to back. *)
Fixpoint drain (n : nat) (s : segment) (q : Q) : outcome segment :=
  '(o, q) ← pop q;
  match n, o with
  | _, None => Ok s
  | O, Some _ => Err OutOfFuel
  | S n, Some p => s ← drop_ptr s p; drain n s q
  end.

(** The destructor, of a buffer that does not share its queue ([destroy_ptr]). *)
Definition SharedMemoryBuffer_destroy (s : segment) (name : queue_name) (a : nat) : outcome segment :=
  q ← queue_at s a;
  s ← drain queue_capacity s q;
  Ok (mkSegment (sg_heap s) (sg_next s) (sg_control s) (<[a := None]> (sg_queues s)) (delete name (sg_names s))).

(** [notify(const shared_ptr_type &)]: the log, and a copy pushed if there is
    room; the result of [push] is ignored. *)
Definition notify (s : segment) (a : nat) (p : shared_ptr) : outcome segment :=
  _ ← if debug then deref s p else Ok (mkContainer null 0);
  q ← queue_at s a;
  match push q p with
  | (true, q) => s ← copy_ptr s p; Ok (set_queue s a (Some q))
  | (false, q) => Ok (set_queue s a (Some q))
  end.

(** [notify(shared_ptr_type &&)] with a temporary, which ends with the call. *)
Definition notify_move (s : segment) (a : nat) (p : shared_ptr) : outcome segment :=
  s ← notify s a p; drop_ptr s p.

(** [retrieve(callback)], where the callback acts on a state of its own and on
    the segment: the count, the state and the segment. *)
Fixpoint retrieve {St : Type} (n : nat) (callback : St -> segment -> ByteStorage -> shared_ptr -> outcome (St * segment))
    (s : segment) (a : nat) (st : St) (count : nat) : outcome (nat * St * segment) :=
  match n with
  | O => Err OutOfFuel
  | S n =>
      q ← queue_at s a;
      '(front, _) ← pop q;
      match front with
      | None => Ok (count, st, s)
      | Some p =>
          c ← deref s p;
          '(storage, h) ← ByteStorage_bytes (sg_heap s) (c_ptr c) (c_length c) TRANSIENT;
          '(st, s) ← callback st (set_heap s h) storage p;
          h ← ByteStorage_destroy (sg_heap s) storage;
          q ← queue_at (set_heap s h) a;
          '(front, q) ← pop q;
          match front with
          | None => undefined InvalidIterator
          | Some p =>
              s ← drop_ptr (set_queue (set_heap s h) a (Some q)) p;
              retrieve n callback s a st (S count)
          end
      end
  end.

(** ** SHMTransport *)

Record SHMTransport := mkSHM {
  st_pid : Z;
  st_connected : bool;
  st_shouldDisconnect : bool;
  st_recvQueue : option nat;             (* unique_ptr<SharedMemoryBuffer> *)
  st_sendQueue : option nat
}.

(** The handler [on_connect] of the constructor. *)
Definition on_connect (s : segment) (t : SHMTransport) : SHMTransport * segment :=
  let '(r, s) := SharedMemoryBuffer_new s (ClientQueue (st_pid t)) in
  let '(w, s) := SharedMemoryBuffer_new s (ServerQueue (st_pid t)) in
  (mkSHM (st_pid t) true (st_shouldDisconnect t) (Some r) (Some w), s).

(** [__disconnect()]: the receive queue is destroyed, the send queue released. *)
Definition shm_disconnect (s : segment) (t : SHMTransport) : outcome (SHMTransport * segment) :=
  s ← match st_recvQueue t with
      | Some r => SharedMemoryBuffer_destroy s (ClientQueue (st_pid t)) r
      | None => Ok s
      end;
  Ok (mkSHM (st_pid t) false true None None, s).

Context `{Platform}.

(** [sendMessage(msg)]; [is_connected] and [notified] are what the notifier
    answers. *)
Definition shm_sendMessage (is_connected notified : bool) (s : segment) (t : SHMTransport) (msg : Message)
    : outcome (status * segment) :=
  if st_connected t && is_connected then
    let '(storage, h) := ByteStorage_new (sg_heap s) 2048 in
    '(_, storage, h) ← noexcept (encode msg h storage);
    let '(p, storage, s) := getInterprocessBuffer (set_heap s h) storage in
    s ← match st_sendQueue t with Some a => notify_move s a p | None => undefined NullDeref end;
    h ← ByteStorage_destroy (sg_heap s) storage;
    Ok (if (notified : bool) then OK else CANNOT_SEND, set_heap s h)
  else Ok (CANNOT_SEND, s).

(** The callback of the receiver event: a decoded message goes to the message
    callback, another is dropped. *)
Definition shm_received (fuel : nat) (delivered : list Message) (s : segment) (storage : ByteStorage) (p : shared_ptr)
    : outcome (list Message * segment) :=
  '(ok, message, _) ← decode fuel (sg_heap s) (prepareForReuse Message_new) storage;
  Ok (if (ok : bool) then delivered ++ [message] else delivered, s).

(** The receiver event: the messages handed to the message callback. *)
Definition shm_receive (n fuel : nat) (s : segment) (t : SHMTransport) : outcome (nat * list Message * segment) :=
  match st_recvQueue t with
  | Some a => retrieve n (shm_received fuel) s a [] 0
  | None => undefined NullDeref
  end.

(** ** The router *)

Record message_wrapper := mkWrapper { m_byte_storage : ByteStorage; m_shared_ptr : shared_ptr }.
Definition getEncodedBuffer (w : message_wrapper) : ByteStorage := m_byte_storage w.
(** Both branches return the member. *)
Definition getSharedPtrBuffer (w : message_wrapper) : shared_ptr := m_shared_ptr w.

(** A connection of the router: the common part, and for a connection over
    shared memory its process and the addresses of its two queues. *)
Record Connection := mkConnection {
  cn_peer : Peer;
  cn_shm : option (Z * nat * nat)          (* m_process_id, m_clientQueue, m_serverQueue *)
}.

(** The constructor of [shm_peer_connection]. *)
Definition shm_peer_new (s : segment) (p : Peer) (pid : Z) : Connection * segment :=
  let '(c, s) := SharedMemoryBuffer_new s (ClientQueue pid) in
  let '(v, s) := SharedMemoryBuffer_new s (ServerQueue pid) in
  (mkConnection p (Some (pid, c, v)), s).

(** The destructor: the members in reverse order of declaration. *)
Definition shm_peer_destroy (s : segment) (c : Connection) : outcome segment :=
  match cn_shm c with
  | None => Ok s
  | Some (pid, cq, sq) =>
      s ← SharedMemoryBuffer_destroy s (ServerQueue pid) sq;
      SharedMemoryBuffer_destroy s (ClientQueue pid) cq
  end.

(** [sendBuffer] of the two kinds of connection; [mem] is the memory the encoded
    buffer lies in: the segment, or the heap of the router. *)
Definition connection_sendBuffer (mem : segment -> heap) (s : segment) (c : Connection) (w : message_wrapper)
    : outcome (Connection * segment) :=
  match cn_shm c with
  | None =>
      encoded ← load (mem s) (bytes (getEncodedBuffer w)).1 (bytes (getEncodedBuffer w)).2;
      Ok (mkConnection (sendBuffer (cn_peer c) encoded) None, s)
  | Some (_, cq, _) => s ← notify s cq (getSharedPtrBuffer w); Ok (c, s)
  end.

(** [bootstrap::message_handler]. *)
Fixpoint forward_wrapper (mem : segment -> heap) (s : segment) (connections : list Connection) (subject : subject) (w : message_wrapper)
    : outcome (list Connection * segment) :=
  match connections with
  | [] => Ok ([], s)
  | c :: cs =>
      i ← is_interested (cn_peer c) subject;
      '(c, s) ← if (i : bool) then connection_sendBuffer mem s c w else Ok (c, s);
      '(cs, s) ← forward_wrapper mem s cs subject w;
      Ok (c :: cs, s)
  end.

(** A change of the connection at address [a] ([this] of the handler). *)
Definition update_connection (f : Peer -> outcome Peer) (a : nat) (connections : list Connection)
    : outcome (list Connection) :=
  match connections !! a with
  | None => undefined UseAfterFree
  | Some c => p ← f (cn_peer c); Ok (<[a := mkConnection p (cn_shm c)]> connections)
  end.

(** The callback of [notificationHandler] for the connection at [a]. *)
Definition notification_message (fuel a : nat) (connections : list Connection) (s : segment)
    (storage : ByteStorage) (p : shared_ptr) : outcome (list Connection * segment) :=
  '(status, details, storage) ← addressing_details (sg_heap s) (mark storage);
  match status, details with
  | CompleteMessage, Some d =>
      let storage := resetRead storage in
      text ← c_string fuel (sg_heap s) (a_subject d);
      let subject := subject_new text in
      if subj_is_admin subject then
        '(ok, message, _) ← decode fuel (sg_heap s) Message_new storage;
        if (ok : bool) then
          cs ← update_connection (fun c => handle_admin_message c subject message) a connections;
          Ok (cs, s)
        else Ok (connections, s)
      else
        s ← copy_ptr s p;                                    (* message_wrapper mw(ptr, shared_ptr) *)
        '(cs, s) ← forward_wrapper sg_heap s connections subject (mkWrapper storage p);
        s ← drop_ptr s p;
        Ok (cs, s)
  | _, _ => Ok (connections, s)
  end.

(** [notificationHandler] of the connection at [a]; [reset] is what the notifier
    answers.  [disconnection_handler] erases the connection from the vector, which
    destroys it together with the event whose callback this is: then the result is
    [false], and the loop of the queue that called it goes on with invalid iterators
    (RouterLife.v). *)
Definition notificationHandler (n fuel a : nat) (reset : bool) (s : segment) (connections : list Connection)
    : outcome (list Connection * segment * bool) :=
  match connections !! a with
  | None => undefined UseAfterFree
  | Some c =>
      if reset then
        match cn_shm c with
        | Some (_, _, sq) =>
            '(_, cs, s) ← noexcept (retrieve n (notification_message fuel a) s sq connections 0);
            Ok (cs, s, true)
        | None => undefined NullDeref
        end
      else s ← shm_peer_destroy s c; Ok (delete a connections, s, false)
  end.

(** The handler of [socketEvent]: the [break]s leave the [switch] only, so the loop
    goes on until the socket is closed, whether there is data or not. *)
Fixpoint socket_handler (n : nat) (reads : nat -> RecvResult) : outcome unit :=
  match n with
  | O => Err OutOfFuel
  | S n =>
      match (Socket_read (reads 0%nat)).1.1 with
      | MoreData | NoData => socket_handler n (fun k => reads (S k))
      | Closed => Ok tt
      end
  end.

(** Forwarding of a message that came over TCP ([tcp_peer_connection::process_buffer]
    with its heap [h]): the wrapper has no pointer. *)
Definition tcp_forward (h : heap) (s : segment) (connections : list Connection) (subject : subject) (msgData : ByteStorage)
    : outcome (list Connection * segment) :=
  forward_wrapper (fun _ => h) s connections subject (mkWrapper msgData None).
End shm.
