(* ===== verification/ShmInvariant.v ===== *)
(** * ShmInvariant: the counts of the shared segment

    The invariant of the segment of [Shm]: the use count of each control block
    is the number of queue entries and held pointers that refer to it, and each
    container owns a block of its own.  Every operation keeps it, so the memory
    of a message is given back exactly when its last reference goes. *)
From S2P Require Import Prelude Heap ByteStorage Types Field Message Codec RingBuffer Shm.

(** ** Counting references *)

Definition one_if (k : positive) (p : shared_ptr) : nat := if bool_decide (p = Some k) then 1 else 0.
Definition count_in (k : positive) (q : list shared_ptr) : nat := sum_list_with (one_if k) q.
Definition slot_refs (k : positive) (q : option (list shared_ptr)) : nat := from_option (count_in k) 0%nat q.

(** The references to [k] from all queues. *)
Definition refs (k : positive) (qs : list (option (list shared_ptr))) : nat := sum_list_with (slot_refs k) qs.

Arguments count_in : simpl never.
Arguments refs : simpl never.

Lemma count_in_app k q1 q2 : count_in k (q1 ++ q2) = (count_in k q1 + count_in k q2)%nat.
Proof. apply sum_list_with_app. Qed.

Lemma refs_insert k qs a q q' :
  qs !! a = Some q -> (refs k (<[a := q']> qs) + slot_refs k q = refs k qs + slot_refs k q')%nat.
Proof. apply sum_insert. Qed.

Section invariant.
Context {Q : Type} {push : Q -> shared_ptr -> bool * Q} {pop : Q -> outcome (option shared_ptr * Q)}
  `{!BoundedFifo Q shared_ptr queue_capacity push pop}.
Context (debug : bool).
Abbreviation segment := (Segment Q).

Definition slot_rep (q : option Q) (l : option (list shared_ptr)) : Prop :=
  match q, l with Some q, Some l => fifo_rep q l | None, None => True | _, _ => False end.

(** [seg_ok s qs held]: the queues of [s] hold [qs], the program holds the
    pointers [held] besides. *)
Record seg_ok (s : segment) (qs : list (option (list shared_ptr))) (held : list shared_ptr) : Prop := {
  so_queues : Forall2 slot_rep (sg_queues s) qs;
  so_count k : match sg_control s !! k with
               | Some (_, n) => (0 < n)%nat /\ n = (refs k qs + count_in k held)%nat
               | None => (refs k qs + count_in k held = 0)%nat
               end;
  so_next k : is_Some (sg_control s !! k) -> (k < sg_next s)%positive;
  so_block k c n : sg_control s !! k = Some (c, n) ->
    exists blk cs, c_ptr c = Ptr blk 0 /\ h_blocks (sg_heap s) !! blk = Some cs;
  so_distinct k1 k2 c1 c2 n1 n2 : sg_control s !! k1 = Some (c1, n1) -> sg_control s !! k2 = Some (c2, n2) ->
    c_ptr c1 = c_ptr c2 -> k1 = k2;
  so_all blk : is_Some (h_blocks (sg_heap s) !! blk) ->
    exists k c n, sg_control s !! k = Some (c, n) /\ c_ptr c = Ptr blk 0;
  so_heap : heap_wf (sg_heap s)
}.

(** [carries s p blk w]: the pointer [p] refers to a buffer with the bytes [w] in
    block [blk]. *)
Definition carries (s : segment) (p : shared_ptr) (blk : positive) (w : list Z) : Prop :=
  exists k c n spare, p = Some k /\ sg_control s !! k = Some (c, n) /\ c_ptr c = Ptr blk 0 /\
    c_length c = Z.of_nat (length w) /\ h_blocks (sg_heap s) !! blk = Some ((Some <$> w) ++ spare).

(** A live pointer: null or with a control block. *)
Definition live (s : segment) (p : shared_ptr) : Prop :=
  match p with None => True | Some k => is_Some (sg_control s !! k) end.

(** What stays when pointers are copied and dropped: a buffer that is still
    referred to is the same. *)
Record stays (s s' : segment) : Prop := {
  st_next : (sg_next s <= sg_next s')%positive;
  st_dead k : (k < sg_next s)%positive -> sg_control s !! k = None -> sg_control s' !! k = None;
  st_carries p blk w : carries s p blk w -> live s' p -> carries s' p blk w
}.

Lemma stays_refl s : stays s s.
Proof. split; [lia|done|done]. Qed.

Lemma stays_trans s s1 s2 qs held : seg_ok s qs held -> stays s s1 -> stays s1 s2 -> stays s s2.
Proof.
  intros I [N1 D1 C1] [N2 D2 C2]. split; [lia| |].
  - intros k Hk Hn. apply D2; [lia|]. by apply D1.
  - intros p blk w Hc Hl. apply C2; [|done]. apply C1; [done|].
    destruct Hc as (k & c & n & sp & -> & E & _). cbn in *.
    pose proof (so_next _ _ _ I k ltac:(eauto)) as Hk.
    destruct (sg_control s1 !! k) eqn:E1; [by eexists|]. rewrite (D2 k) in Hl by (done || lia). by destruct Hl.
Qed.

Lemma held_live s qs held p : seg_ok s qs held -> p ∈ held -> live s p.
Proof.
  intros I Hp. destruct p as [k|]; [|done]. cbn. pose proof (so_count _ _ _ I k) as Hc.
  destruct (sg_control s !! k); [by eexists|]. exfalso.
  assert (1 <= count_in k held)%nat; [|lia]. apply list_elem_of_lookup in Hp as [i Hi].
  apply (sum_lookup (one_if k)) in Hi. unfold one_if in Hi at 1. rewrite bool_decide_eq_true_2 in Hi by done. done.
Qed.

Lemma queued_live s qs held p q a : seg_ok s qs held -> qs !! a = Some (Some q) -> p ∈ q -> live s p.
Proof.
  intros I Ha Hp. destruct p as [k|]; [|done]. cbn. pose proof (so_count _ _ _ I k) as Hc.
  destruct (sg_control s !! k); [by eexists|]. exfalso.
  apply (sum_lookup (slot_refs k)) in Ha. apply list_elem_of_lookup in Hp as [i Hi].
  apply (sum_lookup (one_if k)) in Hi. unfold one_if in Hi at 1. rewrite bool_decide_eq_true_2 in Hi by done.
  unfold refs, slot_refs, count_in in *. cbn in Ha. lia.
Qed.

(** ** Copying and dropping *)

Lemma carries_control s p blk w k c n n' :
  carries s p blk w -> sg_control s !! k = Some (c, n) ->
  carries (set_control s (<[k := (c, n')]> (sg_control s))) p blk w.
Proof.
  intros (k' & c' & m & sp & -> & Hk & H2 & H3 & H4) Hc. destruct (decide (k = k')) as [<-|Hne].
  - rewrite Hc in Hk. injection Hk as <- <-. exists k, c, n', sp. cbn. by rewrite lookup_insert_eq.
  - exists k', c', m, sp. cbn. by rewrite lookup_insert_ne.
Qed.

(** Changing the count of [k] with the held references. *)
Lemma set_count_ok s qs held held' k c n n' :
  seg_ok s qs held -> sg_control s !! k = Some (c, n) -> (0 < n')%nat ->
  (n' + count_in k held = n + count_in k held')%nat ->
  (forall k', k' <> k -> count_in k' held' = count_in k' held) ->
  seg_ok (set_control s (<[k := (c, n')]> (sg_control s))) qs held' /\
  stays s (set_control s (<[k := (c, n')]> (sg_control s))).
Proof.
  intros I Hk Hn' Hcount Hother.
  assert (forall k' c' m', (<[k := (c, n')]> (sg_control s)) !! k' = Some (c', m') ->
    exists m, sg_control s !! k' = Some (c', m)) as Hback.
  { intros k' c' m'. destruct (decide (k' = k)) as [->|]; [rewrite lookup_insert_eq; intros [= -> _]; eauto|].
    rewrite lookup_insert_ne by done. eauto. }
  split.
  2:{ split; cbn; [lia| |intros p x w Hc _; by eapply carries_control].
      intros k' _ E. rewrite lookup_insert_ne; [done|]. intros <-. by rewrite Hk in E. }
  destruct I as [I1 I2 I3 I4 I5 I6 I7]. split; cbn; try done.
  - intros k'. destruct (decide (k' = k)) as [->|Hne].
    + rewrite lookup_insert_eq. specialize (I2 k). rewrite Hk in I2. split; [done|lia].
    + rewrite lookup_insert_ne, (Hother k') by done. apply I2.
  - intros k' [[c' m'] E]. apply Hback in E as [m E]. apply I3. eauto.
  - intros k' c' m' E. apply Hback in E as [m E]. by eapply I4.
  - intros k1 k2 c1 c2 n1 n2 E1 E2. apply Hback in E1 as [? E1], E2 as [? E2]. by eapply I5.
  - intros blk Hb. destruct (I6 blk Hb) as (k' & c' & m & E & Hp). destruct (decide (k' = k)) as [->|].
    + rewrite E in Hk. injection Hk as -> ->. exists k, c, n'. by rewrite lookup_insert_eq.
    + exists k', c', m. by rewrite lookup_insert_ne.
Qed.

Lemma count_in_cons k p held : count_in k (p :: held) = (one_if k p + count_in k held)%nat.
Proof. done. Qed.

Lemma one_if_same k : one_if k (Some k) = 1%nat.
Proof. unfold one_if. by rewrite bool_decide_eq_true_2. Qed.
Lemma one_if_ne k k' : k' <> k -> one_if k' (Some k) = 0%nat.
Proof. unfold one_if. intros. rewrite bool_decide_eq_false_2; congruence. Qed.
Lemma one_if_null k : one_if k None = 0%nat.
Proof. done. Qed.

(** The invariant only looks at the counts of the held pointers. *)
Lemma seg_ok_held s qs held held' :
  seg_ok s qs held -> (forall k, count_in k held' = count_in k held) -> seg_ok s qs held'.
Proof.
  intros [I1 I2 I3 I4 I5 I6 I7] Hc. split; try done. intros k. rewrite Hc. apply I2.
Qed.

Lemma copy_ok s qs held p :
  seg_ok s qs held -> live s p ->
  exists s', copy_ptr s p = Ok s' /\ seg_ok s' qs (p :: held) /\ stays s s' /\ sg_queues s' = sg_queues s.
Proof.
  intros I Hl. destruct p as [k|].
  - destruct Hl as [[c n] Hk]. cbn. rewrite Hk. eexists. split; [done|].
    destruct (set_count_ok s qs held (Some k :: held) k c n (S n) I Hk) as [I' S']; [lia| | |done].
    + rewrite count_in_cons, one_if_same. lia.
    + intros k' Hne. by rewrite count_in_cons, one_if_ne.
  - exists s. split; [done|]. split; [|split; [apply stays_refl|done]]. by eapply seg_ok_held.
Qed.

Lemma carries_deleted s p blk w k c n h :
  carries s p blk w -> sg_control s !! k = Some (c, n) -> p <> Some k ->
  (forall b, c_ptr c <> Ptr b 0 -> h_blocks h !! b = h_blocks (sg_heap s) !! b) ->
  (forall k' c' n', sg_control s !! k' = Some (c', n') -> c_ptr c' = c_ptr c -> k' = k) ->
  carries (set_heap (set_control s (delete k (sg_control s))) h) p blk w.
Proof.
  intros (k' & c' & m & sp & -> & Hk & H2 & H3 & H4) Hc Hne Hh Hd. exists k', c', m, sp. cbn.
  assert (k' <> k) as Hne' by congruence. rewrite lookup_delete_ne by done. rewrite Hh; [done|].
  intros E. apply Hne'. eapply Hd; [exact Hk|congruence].
Qed.

(** The last reference frees the block, and only this block. *)
Lemma delete_ok s qs held k c n blk cs :
  seg_ok s qs held -> sg_control s !! k = Some (c, n) -> c_ptr c = Ptr blk 0 ->
  h_blocks (sg_heap s) !! blk = Some cs -> forall held', (refs k qs + count_in k held' = 0)%nat ->
  (forall k', k' <> k -> count_in k' held' = count_in k' held) ->
  let s' := set_heap (set_control s (delete k (sg_control s)))
              (Heap (h_next (sg_heap s)) (delete blk (h_blocks (sg_heap s)))) in
  seg_ok s' qs held' /\ stays s s'.
Proof.
  intros I Hk Hb Hcs held' Hz Hother s'.
  assert (forall k' c' n', k' <> k -> sg_control s !! k' = Some (c', n') -> c_ptr c' <> Ptr blk 0) as Hdist.
  { intros k' c' n' Hne E Hp. apply Hne. eapply (so_distinct _ _ _ I); [exact E|exact Hk|congruence]. }
  assert (stays s s') as Hstays.
  { split; cbn; [lia|intros k' _ E; by rewrite lookup_delete_None; auto|].
    intros p x w Hc Hl. apply carries_deleted with c n; try done.
    - intros ->. cbn in Hl. rewrite lookup_delete_eq in Hl. by destruct Hl.
    - intros b Hne. cbn. rewrite lookup_delete_ne; [done|]. rewrite Hb in Hne. congruence.
    - intros k' c' n' E Hp. by eapply (so_distinct _ _ _ I). }
  split; [|done]. destruct I as [I1 I2 I3 I4 I5 I6 I7]. split; cbn.
  - done.
  - intros k'. destruct (decide (k' = k)) as [->|Hne]; [by rewrite lookup_delete_eq|].
    rewrite lookup_delete_ne, (Hother k') by done. apply I2.
  - intros k' [? E]. apply lookup_delete_Some in E as [_ E]. apply I3. eauto.
  - intros k' c' n' E. apply lookup_delete_Some in E as [Hne E]. destruct (I4 _ _ _ E) as (b & cs' & Hp & Hb').
    exists b, cs'. split; [done|]. rewrite lookup_delete_ne; [done|]. intros <-. by eapply Hdist.
  - intros k1 k2 c1 c2 n1 n2 E1 E2. apply lookup_delete_Some in E1 as [_ E1], E2 as [_ E2]. by eapply I5.
  - intros b [? E]. apply lookup_delete_Some in E as [Hne E]. destruct (I6 b ltac:(eauto)) as (k' & c' & m & E' & Hp).
    exists k', c', m. split; [|done]. rewrite lookup_delete_ne; [done|]. intros <-.
    rewrite Hk in E'. injection E' as -> ->. congruence.
  - intros b [? E]. cbn in E. apply lookup_delete_Some in E as [_ E]. apply I7. eauto.
Qed.

Lemma drop_ok s qs held p :
  seg_ok s qs (p :: held) ->
  exists s', drop_ptr s p = Ok s' /\ seg_ok s' qs held /\ stays s s' /\ sg_queues s' = sg_queues s.
Proof.
  intros I. destruct p as [k|].
  2:{ exists s. split; [done|]. split; [|split; [apply stays_refl|done]]. by eapply seg_ok_held. }
  destruct (held_live _ _ _ (Some k) I ltac:(left)) as [[c n] Hk].
  pose proof (so_count _ _ _ I k) as Hn. rewrite Hk, count_in_cons, one_if_same in Hn.
  assert (forall k', k' <> k -> count_in k' held = count_in k' (Some k :: held)) as Hother.
  { intros k' Hne. by rewrite count_in_cons, one_if_ne. }
  cbn [drop_ptr]. rewrite Hk. destruct n as [|[|n]]; [lia| |].
  - destruct (so_block _ _ _ I k c _ Hk) as (blk & cs & Hb & Hcs).
    destruct (delete_ok s qs _ k c _ blk cs I Hk Hb Hcs held ltac:(lia) Hother) as [I' S'].
    unfold deleter, segment_deallocate. cbn [sg_heap set_control]. rewrite Hb, Hcs.
    erewrite free_block by done. run_bind. eauto.
  - destruct (set_count_ok s qs (Some k :: held) held k c (S (S n)) (S n) I Hk) as [I' S']; eauto; [lia|].
    rewrite count_in_cons, one_if_same. lia.
Qed.

(** ** Queues *)

Lemma queue_ok s qs held a l :
  seg_ok s qs held -> qs !! a = Some (Some l) ->
  exists q, queue_at s a = Ok q /\ sg_queues s !! a = Some (Some q) /\ fifo_rep q l.
Proof.
  intros I Ha. destruct (Forall2_lookup_r _ _ _ _ _ (so_queues _ _ _ I) Ha) as (x & Hx & R).
  destruct x as [q|]; [|done]. exists q. unfold queue_at. by rewrite Hx.
Qed.

(** Replacing the content of a queue, with the held pointers making up for it. *)
Lemma set_queue_ok s qs held held' a l l' q' :
  seg_ok s qs held -> qs !! a = Some (Some l) -> fifo_rep q' l' ->
  (forall k, count_in k l' + count_in k held' = count_in k l + count_in k held)%nat ->
  seg_ok (set_queue s a (Some q')) (<[a := Some l']> qs) held' /\ stays s (set_queue s a (Some q')).
Proof.
  intros I Ha R Hc. split; [|split; cbn; [lia|done|by intros p x w]]. destruct I as [I1 I2 I3 I4 I5 I6 I7]. split; cbn; try done.
  - by apply Forall2_insert.
  - intros k. specialize (I2 k). specialize (Hc k). pose proof (refs_insert k qs a _ (Some l') Ha) as Hr. cbn in Hr.
    destruct (sg_control s !! k) as [[c n]|]; lia.
Qed.

(** [notify]: the pointer is queued if there is room, and dropped silently if
    not. *)
Lemma notify_ok s qs held a l p :
  seg_ok s qs held -> qs !! a = Some (Some l) -> live s p -> (debug = true -> p <> None) ->
  exists s', notify push debug s a p = Ok s' /\
    seg_ok s' (if decide (length l = queue_capacity) then qs else <[a := Some (l ++ [p])]> qs) held /\ stays s s'.
Proof.
  intros I Ha Hl Hd. destruct (queue_ok _ _ _ _ _ I Ha) as (q & Eq & Hq & R). unfold notify.
  assert (exists c, (if debug then deref s p else Ok (mkContainer null 0)) = Ok c) as [c ->].
  { destruct debug; [|eauto]. destruct p as [k|]; [|by destruct Hd]. cbn. destruct Hl as [[c n] ->]. eauto. }
  run_bind. rewrite Eq. run_bind. pose proof (fifo_push _ _ p R) as Hp. destruct (decide (length l = queue_capacity)).
  - rewrite Hp. eexists. split; [done|].
    replace (set_queue s a (Some q)) with s; [split; [done|apply stays_refl]|].
    unfold set_queue. rewrite list_insert_id by done. by destruct s.
  - destruct Hp as (q' & -> & R'). destruct (copy_ok _ _ _ _ I Hl) as (s1 & -> & I1 & S1 & Q1). run_bind.
    eexists. split; [done|].
    destruct (set_queue_ok s1 qs (p :: held) held a l (l ++ [p]) q' I1 Ha R') as [I2 S2].
    { intros k. rewrite count_in_app, !count_in_cons. unfold count_in at 2. cbn. lia. }
    split; [done|]. by eapply stays_trans.
Qed.

(** [notify] with a temporary: one reference moves into the queue or goes. *)
Lemma notify_move_ok s qs held a l p :
  seg_ok s qs (p :: held) -> qs !! a = Some (Some l) -> (debug = true -> p <> None) ->
  exists s', notify_move push debug s a p = Ok s' /\
    seg_ok s' (if decide (length l = queue_capacity) then qs else <[a := Some (l ++ [p])]> qs) held /\ stays s s'.
Proof.
  intros I Ha Hd. unfold notify_move.
  destruct (notify_ok s qs (p :: held) a l p I Ha) as (s1 & -> & I1 & S1); [by eapply held_live; [exact I|left]|done|].
  run_bind. destruct (drop_ok _ _ _ _ I1) as (s2 & E2 & I2 & S2 & _). exists s2. split; [done|]. split; [done|].
  by eapply stays_trans.
Qed.

(** Taking the front pointer off a queue and dropping it. *)
Lemma pop_ok s qs held a p l :
  seg_ok s qs held -> qs !! a = Some (Some (p :: l)) ->
  exists q q' s', queue_at s a = Ok q /\ pop q = Ok (Some p, q') /\
    drop_ptr (set_queue s a (Some q')) p = Ok s' /\ seg_ok s' (<[a := Some l]> qs) held /\ stays s s'.
Proof.
  intros I Ha. destruct (queue_ok _ _ _ _ _ I Ha) as (q & Eq & _ & R).
  destruct (fifo_pop _ _ R) as (q' & E & R').
  destruct (set_queue_ok s qs held (p :: held) a (p :: l) l q' I Ha R') as [I1 S1].
  { intros k. rewrite !count_in_cons. lia. }
  destruct (drop_ok _ _ _ _ I1) as (s' & E' & I2 & S2 & _).
  exists q, q', s'. do 4 (split; [done|]). by eapply stays_trans.
Qed.
End invariant.
