(* ===== verification/ShmRoute.v ===== *)
(** * ShmRoute: messages through shared memory

    What [SHMTransport::sendMessage], the notification handler of the router
    and the receiver event of a client do to the segment and its queues, on top of
    the invariant of [ShmInvariant]: a message sent over shared memory reaches
    the interested peers with its bytes, and its memory is given back when the
    last of them has read it. *)
From S2P Require Import Prelude Heap ByteStorage Types Field Message Codec EncodeFrame RoundTrip Subject RingBuffer Transport Router Shm ShmInvariant.

Section route.
Context {Q : Type} {push : Q -> shared_ptr -> bool * Q} {pop : Q -> outcome (option shared_ptr * Q)}
  `{!BoundedFifo Q shared_ptr queue_capacity push pop}.
Context (debug : bool).
Context `{Platform} (little_endian : big_endian = false).
Abbreviation segment := (Segment Q).

(** ** Sending *)

(** A message [sendMessage] has room for. *)
Definition shm_sendable (m : Message) : Prop :=
  message_wf m /\ m_payload m <> [] /\ (length (wire_message m) <= 2048)%nat.

(** The new pointer of [getInterprocessBuffer] over a block nothing else uses. *)
Lemma getInterprocessBuffer_ok (s : segment) qs held h b blk w spare :
  seg_ok s qs held -> mut_rep h b blk (Some <$> w) spare -> w <> [] ->
  h_blocks (sg_heap s) !! blk = None ->
  (forall x, x <> blk -> h_blocks h !! x = h_blocks (sg_heap s) !! x) ->
  exists p b' s', getInterprocessBuffer (set_heap s h) b = (p, b', s') /\ (forall h, ByteStorage_destroy h b' = Ok h) /\
    seg_ok s' qs (p :: held) /\ stays s s' /\ carries s' p blk w /\ p <> None.
Proof.
  intros I R Hw Hfresh Hother.
  assert (sg_control s !! sg_next s = None) as Hk.
  { apply eq_None_not_Some. intros Hs%(so_next _ _ _ I). lia. }
  unfold getInterprocessBuffer. rewrite bytes_nonempty.
  2:{ rewrite (mr_stored _ _ _ _ _ R), length_fmap. destruct w; [done|cbn; lia]. }
  do 3 eexists. split; [reflexivity|]. cbn [sg_heap set_heap sg_next sg_control].
  split.
  { intros h0. unfold ByteStorage_destroy, release_ownership. cbn. by rewrite <- Z.land_assoc, Z.land_0_r. }
  rewrite (mr_first _ _ _ _ _ R), (mr_stored _ _ _ _ _ R), length_fmap.
  assert (forall b, is_Some (h_blocks (sg_heap s) !! b) -> b <> blk) as Hold.
  { intros x [? E] ->. by rewrite Hfresh in E. }
  split; [|split; [|split; [|done]]].
  - destruct I as [I1 I2 I3 I4 I5 I6 I7]. split; cbn.
    + done.
    + intros k. destruct (decide (k = sg_next s)) as [->|Hne].
      * rewrite lookup_insert_eq. specialize (I2 (sg_next s)). rewrite Hk in I2.
        rewrite count_in_cons, one_if_same. lia.
      * rewrite lookup_insert_ne, count_in_cons, one_if_ne by congruence. apply I2.
    + intros k [? E]. apply lookup_insert_Some in E as [[<- _]|[_ E]]; [lia|]. specialize (I3 k ltac:(eauto)). lia.
    + intros k c n E. apply lookup_insert_Some in E as [[<- [= <- _]]|[_ E]].
      * exists blk. cbn. rewrite (mr_block _ _ _ _ _ R). eauto.
      * destruct (I4 _ _ _ E) as (x & cs & Hp & Hx). exists x, cs. split; [done|].
        rewrite Hother; [done|]. apply Hold. eauto.
    + intros k1 k2 c1 c2 n1 n2 E1 E2 Hp.
      apply lookup_insert_Some in E1 as [[<- [= <- _]]|[_ E1]], E2 as [[<- [= <- _]]|[_ E2]]; [done| | |by eapply I5].
      * destruct (I4 _ _ _ E2) as (x & cs & Hp2 & Hx). cbn in Hp. exfalso. apply (Hold x); [eauto|congruence].
      * destruct (I4 _ _ _ E1) as (x & cs & Hp1 & Hx). cbn in Hp. exfalso. apply (Hold x); [eauto|congruence].
    + intros x Hx. destruct (decide (x = blk)) as [->|Hne].
      * exists (sg_next s), (mkContainer (Ptr blk 0) (Z.of_nat (length w))), 1%nat. by rewrite lookup_insert_eq.
      * rewrite Hother in Hx by done. destruct (I6 x Hx) as (k & c & n & E & Hp).
        exists k, c, n. split; [|done]. rewrite lookup_insert_ne; [done|]. intros <-. by rewrite Hk in E.
    + apply R.
  - split; cbn; [lia| |].
    { intros k Hlt E. by rewrite lookup_insert_ne by lia. }
    intros p x w' (k & c & n & sp & -> & E & Hp & Hl & Hx) _. exists k, c, n, sp. cbn.
    rewrite lookup_insert_ne by (intros <-; by rewrite Hk in E). rewrite Hother by (apply Hold; eauto). done.
  - exists (sg_next s), (mkContainer (Ptr blk 0) (Z.of_nat (length w))), 1%nat, spare. cbn.
    rewrite lookup_insert_eq, (mr_block _ _ _ _ _ R). done.
Qed.

Lemma new_2048 (s : segment) qs held b h :
  seg_ok s qs held -> ByteStorage_new (sg_heap s) 2048 = (b, h) ->
  mut_rep h b (h_next (sg_heap s)) [] (replicate (Z.to_nat 2048) None) /\
  h_blocks (sg_heap s) !! h_next (sg_heap s) = None /\
  forall x, x <> h_next (sg_heap s) -> h_blocks h !! x = h_blocks (sg_heap s) !! x.
Proof.
  intros I E. split; [|split].
  - exact (ByteStorage_new_rep _ 2048 _ _ (so_heap _ _ _ I) ltac:(lia) E).
  - apply heap_wf_next, I.
  - unfold ByteStorage_new, allocateStorage, alloc in E. injection E as _ <-. intros x Hx. cbn. by rewrite lookup_insert_ne.
Qed.

Lemma shm_send_ok (s : segment) qs held t a l m notified :
  seg_ok s qs held -> st_connected t = true -> st_sendQueue t = Some a -> qs !! a = Some (Some l) ->
  (length (wire_message m) <= 2048)%nat ->
  exists s' p blk, shm_sendMessage push debug true notified s t m = Ok (if notified then OK else CANNOT_SEND, s') /\
    stays s s' /\
    if decide (length l = queue_capacity) then seg_ok s' qs held
    else seg_ok s' (<[a := Some (l ++ [p])]> qs) held /\ carries s' p blk (wire_message m).
Proof.
  intros I Hc Hq Ha Hl. unfold shm_sendMessage. rewrite Hc, Hq. cbn [andb].
  destruct (ByteStorage_new (sg_heap s) 2048) as [b h] eqn:Eb.
  destruct (new_2048 _ _ _ _ _ I Eb) as (R & Hfresh & Hother).
  destruct (encode_full little_endian m h b _ [] _ R) as (b1 & h1 & sp & -> & R1 & _ & _ & O1).
  { rewrite length_replicate. lia. }
  { unfold max_stored. cbn [length]. lia. }
  cbn [noexcept]. run_bind. cbn [app] in R1.
  destruct (getInterprocessBuffer_ok s qs held h1 b1 _ (wire_message m) sp I R1 ltac:(done) Hfresh) as (p & b2 & s2 & -> & D & I2 & S2 & C2 & Hp).
  { intros x Hx. rewrite O1, Hother by done. done. }
  destruct (notify_move_ok debug s2 qs held a l p I2 Ha) as (s3 & -> & I3 & S3); [done|]. run_bind.
  rewrite D. run_bind. exists s3, p, (h_next (sg_heap s)). replace (set_heap s3 (sg_heap s3)) with s3 by by destruct s3.
  split; [done|]. split.
  - eapply stays_trans; [exact I|exact S2|exact S3].
  - destruct (decide (length l = queue_capacity)) as [|Hroom]; [done|]. split; [done|].
    apply (st_carries _ _ S3); [done|]. eapply queued_live; [exact I3| |].
    + apply list_lookup_insert_eq. by eapply lookup_lt_Some.
    + apply elem_of_app. right. left.
Qed.

(** ** Taking a message off a queue *)

(** The transient storage [retrieve] hands to its callback. *)
Record view_of (s : segment) (storage : ByteStorage) (blk : positive) (w : list Z) : Prop := {
  vo_unread : unread (sg_heap s) storage w;
  vo_bytes : bytes storage = (Ptr blk 0, Z.of_nat (length w));
  vo_transient : m_options storage = TRANSIENT
}.

Lemma carries_view s p blk w :
  carries s p blk w -> w <> [] -> Forall is_byte w -> Z.of_nat (length w) <= max_stored ->
  exists c storage, deref s p = Ok c /\
    ByteStorage_bytes (sg_heap s) (c_ptr c) (c_length c) TRANSIENT = Ok (storage, sg_heap s) /\
    view_of s storage blk w.
Proof.
  intros (k & c & n & sp & -> & E & Hp & Hl & Hb) Hne Hby Hmax. exists c. eexists. cbn [deref]. rewrite E.
  split; [done|]. split; [reflexivity|]. rewrite Hp, Hl. split; [|rewrite bytes_nonempty; [done|]|done].
  - exists blk, 0%nat, w, 0%nat. split; [|split; [lia|apply drop_0]]. split; cbn; try done.
    by exists [], sp.
  - cbn. destruct w; [done|cbn; lia].
Qed.

Lemma carries_load (s : segment) p blk w :
  carries s p blk w -> load (sg_heap s) (Ptr blk 0) (Z.of_nat (length w)) = Ok w.
Proof. intros (k & c & n & sp & _ & _ & _ & _ & Hb). by eapply (load_middle _ _ []). Qed.

Section retrieve.
Context {St : Type} (callback : St -> segment -> ByteStorage -> shared_ptr -> outcome (St * segment)).

(** One turn of the loop of [retrieve], for a callback that leaves the front of
    the queue alone. *)
Lemma retrieve_step n s qs held a st count p l blk w st' qs1 :
  seg_ok s qs held -> qs !! a = Some (Some (p :: l)) -> carries s p blk w ->
  w <> [] -> Forall is_byte w -> Z.of_nat (length w) <= max_stored ->
  (forall storage, view_of s storage blk w -> exists s1,
     callback st s storage p = Ok (st', s1) /\ seg_ok s1 qs1 held /\ stays s s1) ->
  qs1 !! a = Some (Some (p :: l)) ->
  exists s2, retrieve pop (S n) callback s a st count = retrieve pop n callback s2 a st' (S count) /\
    seg_ok s2 (<[a := Some l]> qs1) held /\ stays s s2.
Proof.
  intros I Ha Hc Hne Hby Hmax Hcb Ha1. cbn [retrieve].
  destruct (queue_ok _ _ _ _ _ I Ha) as (q & -> & _ & R). run_bind.
  destruct (fifo_pop _ _ R) as (q' & -> & _). run_bind.
  destruct (carries_view _ _ _ _ Hc Hne Hby Hmax) as (c & storage & -> & E & V). run_bind. rewrite E. run_bind.
  replace (set_heap s (sg_heap s)) with s by by destruct s. destruct (Hcb storage V) as (s1 & -> & I1 & S1). run_bind.
  unfold ByteStorage_destroy. rewrite (vo_transient _ _ _ _ V).
  change (Z.land TRANSIENT TAKE_OWNERSHIP =? TAKE_OWNERSHIP) with false. cbn match. run_bind. replace (set_heap s1 (sg_heap s1)) with s1 by by destruct s1.
  destruct (pop_ok _ _ _ _ _ _ I1 Ha1) as (q1 & q1' & s2 & -> & Ep & E2 & I2 & S2). run_bind. rewrite Ep. run_bind.
  rewrite E2. run_bind. exists s2. split; [done|]. split; [done|]. by eapply stays_trans.
Qed.

Lemma retrieve_empty n s qs held a st count :
  seg_ok s qs held -> qs !! a = Some (Some []) ->
  retrieve pop (S n) callback s a st count = Ok (count, st, s).
Proof.
  intros I Ha. cbn [retrieve]. destruct (queue_ok _ _ _ _ _ I Ha) as (q & -> & _ & R). run_bind.
  pose proof (fifo_pop _ _ R) as E. cbn in E. rewrite E. done.
Qed.
End retrieve.

(** ** Receiving *)

Lemma shm_sendable_wire m :
  shm_sendable m -> wire_message m <> [] /\ Forall is_byte (wire_message m) /\
    Z.of_nat (length (wire_message m)) <= max_stored.
Proof.
  intros (W & _ & Hl). split; [done|]. split; [by apply wire_message_bytes|]. unfold max_stored. lia.
Qed.

(** The pointers of a queue carry these messages. *)
Definition carry_all (s : segment) (ps : list shared_ptr) (ms : list Message) : Prop :=
  Forall2 (fun p m => exists blk, carries s p blk (wire_message m)) ps ms.

Lemma carry_all_stays s s' ps ms :
  carry_all s ps ms -> stays s s' -> (forall p, p ∈ ps -> live s' p) -> carry_all s' ps ms.
Proof.
  intros Hc S Hl. induction Hc as [|p m ps ms [blk Hp] _ IH]; constructor.
  - exists blk. apply (st_carries _ _ S); [done|]. apply Hl. left.
  - apply IH. intros p' Hp'. apply Hl. by right.
Qed.

Lemma shm_receive_loop ms : forall n fuel s qs held a ps got count,
  seg_ok s qs held -> qs !! a = Some (Some ps) -> carry_all s ps ms -> Forall shm_sendable ms ->
  fuel_for ms fuel -> (length ms < n)%nat ->
  exists s', retrieve pop n (shm_received fuel) s a got count =
      Ok ((count + length ms)%nat, got ++ (received_message <$> ms), s') /\
    seg_ok s' (<[a := Some []]> qs) held /\ stays s s'.
Proof.
  induction ms as [|m ms IH]; intros n fuel s qs held a ps got count I Ha Hc Hs Hf Hn;
    (destruct n as [|n]; [cbn in Hn; lia|]); apply Forall2_cons_inv_r in Hc || apply Forall2_nil_inv_r in Hc.
  - subst ps. exists s. rewrite (retrieve_empty _ n s qs held) by done. rewrite list_insert_id by done.
    rewrite Nat.add_0_r, app_nil_r. split; [done|]. split; [done|apply stays_refl].
  - destruct Hc as (p & ps' & [blk Hp] & Hc & ->). inversion_clear Hs as [|? ? Hm Hs']. inversion_clear Hf as [|? ? Hfm Hf'].
    destruct (shm_sendable_wire _ Hm) as (H1 & H2 & H3). pose proof Hm as (W & Hne & _).
    destruct (retrieve_step (shm_received fuel) n s qs held a got count p ps' blk (wire_message m)
      (got ++ [received_message m]) qs I Ha Hp H1 H2 H3) as (s2 & -> & I2 & S2); [|done|].
    { intros storage V. unfold shm_received. pose proof (vo_unread _ _ _ _ V) as U. rewrite <- (app_nil_r (wire_message m)) in U.
      destruct (decode_wire fuel _ storage m [] W Hne U Hfm) as (b' & E & _).
      change (prepareForReuse Message_new) with Message_new. rewrite E. exists s.
      split; [done|]. split; [done|apply stays_refl]. }
    assert ((<[a := Some ps']> qs) !! a = Some (Some ps')) as Ha2 by (apply list_lookup_insert_eq; by eapply lookup_lt_Some).
    destruct (IH n fuel s2 _ held a ps' (got ++ [received_message m]) (S count) I2 Ha2) as (s' & -> & I' & S');
      [|done|done|cbn in Hn; lia|].
    { eapply carry_all_stays; [exact Hc|exact S2|]. intros p' Hp'. by eapply queued_live. }
    exists s'. rewrite list_insert_insert_eq in I'. split; [|split; [done|by eapply stays_trans]].
    do 3 f_equal; [cbn [length]; lia|]. by rewrite <- app_assoc.
Qed.

(** ** Forwarding *)

(** What a [notify] of [p] does to the queue at [a]. *)
Definition enqueue (p : shared_ptr) (a : nat) (qs : list (option (list shared_ptr))) : list (option (list shared_ptr)) :=
  match qs !! a with
  | Some (Some l) => if decide (length l = queue_capacity) then qs else <[a := Some (l ++ [p])]> qs
  | _ => qs
  end.

(** What forwarding a message does to the queues, for one connection, and to the
    connection. *)
Definition forward_queue (p : shared_ptr) (t : subject) (qs : list (option (list shared_ptr))) (c : Connection) :=
  if interested (cn_peer c) t
  then match cn_shm c with Some (_, cq, _) => enqueue p cq qs | None => qs end else qs.
Definition forward_connection (t : subject) (w : list Z) (c : Connection) : Connection :=
  match cn_shm c with None => mkConnection (forward t w (cn_peer c)) None | Some _ => c end.

(** The client queue of a connection over shared memory is there. *)
Definition connection_queue (qs : list (option (list shared_ptr))) (c : Connection) : Prop :=
  match cn_shm c with Some (_, cq, _) => exists l, qs !! cq = Some (Some l) | None => True end.

Lemma enqueue_lookup p a b qs l :
  qs !! b = Some (Some l) ->
  enqueue p a qs !! b =
    Some (Some (if decide (a = b /\ length l <> queue_capacity) then l ++ [p] else l)).
Proof.
  intros Hb. unfold enqueue. destruct (decide (a = b)) as [->|Hne].
  - rewrite Hb. destruct (decide (length l = queue_capacity)).
    + rewrite decide_False by tauto. done.
    + rewrite decide_True by done. apply list_lookup_insert_eq. by eapply lookup_lt_Some.
  - rewrite decide_False by tauto. destruct (qs !! a) as [[l'|]|]; [|done|done].
    case_decide; [done|]. by rewrite list_lookup_insert_ne.
Qed.

Lemma forward_queue_lookup p t qs c b l :
  qs !! b = Some (Some l) -> exists l', forward_queue p t qs c !! b = Some (Some l').
Proof.
  intros Hb. unfold forward_queue. destruct (interested _ _); [|eauto]. destruct (cn_shm c) as [[[? cq] ?]|]; [|eauto].
  eexists. by apply enqueue_lookup.
Qed.

Lemma forward_queue_queues p t qs c cs :
  Forall (connection_queue qs) cs -> Forall (connection_queue (forward_queue p t qs c)) cs.
Proof.
  intros Hcs. eapply Forall_impl; [exact Hcs|]. intros c' Hc'. unfold connection_queue in *.
  destruct (cn_shm c') as [[[? cq] ?]|]; [|done]. destruct Hc' as [l Hl]. by eapply forward_queue_lookup.
Qed.

Lemma fold_queues p t cs' : forall qs cs,
  Forall (connection_queue qs) cs -> Forall (connection_queue (foldl (forward_queue p t) qs cs')) cs.
Proof. induction cs' as [|c cs' IH]; intros qs cs Hcs; [done|]. cbn [foldl]. by apply IH, forward_queue_queues. Qed.

Lemma forward_wrapper_ok cs : forall (s : segment) qs held t storage p blk w,
  seg_ok s qs held -> p ∈ held -> p <> None -> carries s p blk w ->
  bytes storage = (Ptr blk 0, Z.of_nat (length w)) -> Forall (connection_queue qs) cs ->
  exists s', forward_wrapper push debug sg_heap s cs t (mkWrapper storage p) = Ok (forward_connection t w <$> cs, s') /\
    seg_ok s' (foldl (forward_queue p t) qs cs) held /\ stays s s'.
Proof.
  induction cs as [|c cs IH]; intros s qs held t storage p blk w I Hp Hn Hc Hb Hq.
  { exists s. split; [done|]. split; [done|apply stays_refl]. }
  apply Forall_cons in Hq as [Hqc Hq].
  assert (exists s1, (if interested (cn_peer c) t then connection_sendBuffer push debug sg_heap s c (mkWrapper storage p) else Ok (c, s)) =
      Ok (forward_connection t w c, s1) /\ seg_ok s1 (forward_queue p t qs c) held /\ stays s s1) as (s1 & E1 & I1 & S1).
  { unfold forward_queue, forward_connection, forward, connection_sendBuffer, connection_queue in *.
    destruct (interested (cn_peer c) t).
    - destruct (cn_shm c) as [[[pid cq] sq]|] eqn:Ec.
      + destruct Hqc as [l Hl]. destruct (notify_ok debug s qs held cq l p I Hl) as (s1 & E & I1 & S1);
          [by eapply held_live|done|]. cbn [getSharedPtrBuffer m_shared_ptr]. rewrite E. run_bind. exists s1.
        split; [done|]. split; [|done]. unfold enqueue. by rewrite Hl.
      + cbn [getEncodedBuffer m_byte_storage]. rewrite Hb. cbn [fst snd].
        rewrite (carries_load _ _ _ _ Hc). run_bind. exists s. split; [done|]. split; [done|apply stays_refl].
    - exists s. split; [|split; [done|apply stays_refl]]. destruct (cn_shm c) eqn:Ec; [done|]. by rewrite <- Ec; destruct c. }
  assert (carries s1 p blk w) as Hc1 by (apply (st_carries _ _ S1); [done|by eapply held_live]).
  destruct (IH s1 _ held t storage p blk w I1 Hp Hn Hc1 Hb ltac:(by apply forward_queue_queues)) as (s2 & E2 & I2 & S2).
  exists s2. cbn [forward_wrapper foldl]. rewrite is_interested_total. run_bind. rewrite E1. run_bind. rewrite E2.
  split; [done|]. split; [done|]. by eapply stays_trans.
Qed.

(** One message at the router. *)
Lemma notification_message_ok fuel a cs (s : segment) qs held p l b blk m storage :
  seg_ok s qs held -> qs !! b = Some (Some (p :: l)) -> carries s p blk (wire_message m) ->
  view_of s storage blk (wire_message m) -> shm_sendable m -> (length (m_subject m) < fuel)%nat ->
  subj_is_admin (subject_new (m_subject m)) = false -> Forall (connection_queue qs) cs ->
  exists s', notification_message push debug fuel a cs s storage p =
      Ok (forward_connection (subject_new (m_subject m)) (wire_message m) <$> cs, s') /\
    seg_ok s' (foldl (forward_queue p (subject_new (m_subject m))) qs cs) held /\ stays s s'.
Proof.
  intros I Hb Hc V (W & _ & _) Hf Hadm Hq. unfold notification_message.
  pose proof (vo_unread _ _ _ _ V) as U. rewrite <- (app_nil_r (wire_message m)) in U.
  destruct (read_addressing fuel _ storage m [] W U Hf) as (d & b1 & -> & _ & E3 & _ & _ & X1 & X2). run_bind.
  rewrite E3. run_bind. rewrite Hadm.
  destruct (copy_ok s qs held p I) as (s1 & -> & I1 & S1 & _); [eapply queued_live; [exact I|exact Hb|left]|]. run_bind.
  destruct (forward_wrapper_ok cs s1 qs (p :: held) (subject_new (m_subject m)) (resetRead b1) p blk (wire_message m) I1)
    as (s2 & -> & I2 & S2); [left| | | |done|].
  { intros ->. by destruct Hc as (? & ? & ? & ? & ? & _). }
  { apply (st_carries _ _ S1); [done|]. eapply held_live; [exact I1|left]. }
  { rewrite <- (vo_bytes _ _ _ _ V). unfold bytes. by rewrite X1, X2. }
  run_bind. destruct (drop_ok _ _ _ _ I2) as (s3 & -> & I3 & S3 & _). run_bind. exists s3. split; [done|]. split; [done|].
  eapply stays_trans; [exact I| |exact S3]. by eapply stays_trans.
Qed.

Definition client_queue (c : Connection) : option nat := '(_, cq, _) ← cn_shm c; Some cq.

Lemma fold_other p t cs : forall qs b,
  (forall c, c ∈ cs -> client_queue c <> Some b) -> foldl (forward_queue p t) qs cs !! b = qs !! b.
Proof.
  induction cs as [|c cs IH]; intros qs b Hb; [done|]. cbn [foldl].
  rewrite IH by (intros c' Hc'; apply Hb; by right). specialize (Hb c ltac:(left)).
  unfold forward_queue, client_queue in *. destruct (interested _ _); [|done].
  destruct (cn_shm c) as [[[? cq] ?]|]; [|done]. cbn in Hb. unfold enqueue.
  destruct (qs !! cq) as [[l|]|]; [|done|done]. case_decide; [done|]. rewrite list_lookup_insert_ne; [done|congruence].
Qed.

Lemma fold_own p t cs : forall qs c cq l,
  NoDup (omap client_queue cs) -> c ∈ cs -> client_queue c = Some cq -> qs !! cq = Some (Some l) ->
  (interested (cn_peer c) t = true -> (length l < queue_capacity)%nat) ->
  foldl (forward_queue p t) qs cs !! cq = Some (Some (if interested (cn_peer c) t then l ++ [p] else l)).
Proof.
  induction cs as [|x cs IH]; intros qs c cq l Hnd Hc Hcq Hl Hroom; [by apply elem_of_nil in Hc|]. cbn [foldl].
  apply elem_of_cons in Hc as [<-|Hc].
  - cbn in Hnd. rewrite Hcq in Hnd. apply NoDup_cons in Hnd as [Hnot _]. rewrite fold_other.
    + unfold forward_queue. unfold client_queue in Hcq. destruct (interested _ _); [|done].
      destruct (cn_shm c) as [[[? cq'] ?]|]; [|done]. cbn in Hcq. injection Hcq as ->. specialize (Hroom eq_refl).
      rewrite (enqueue_lookup p cq cq qs l Hl). rewrite decide_True by (split; [done|lia]). done.
    + intros c' Hc' E. apply Hnot. apply list_elem_of_omap. eauto.
  - assert (NoDup (omap client_queue cs)) as Hnd'.
    { cbn in Hnd. destruct (client_queue x); [by apply NoDup_cons in Hnd as [_ ?]|done]. }
    apply IH; try done. destruct (decide (client_queue x = Some cq)) as [E|Hne].
    + exfalso. cbn in Hnd. rewrite E in Hnd. apply NoDup_cons in Hnd as [Hnot _]. apply Hnot, list_elem_of_omap. eauto.
    + pose proof (fold_other p t [x] qs cq) as F. cbn [foldl] in F. rewrite F; [done|]. by intros c' ->%list_elem_of_singleton.
Qed.

Lemma forward_connection_peer t w c :
  cn_shm (forward_connection t w c) = cn_shm c /\
  m_subscriptions (cn_peer (forward_connection t w c)) = m_subscriptions (cn_peer c).
Proof.
  unfold forward_connection. destruct (cn_shm c) eqn:E; [done|]. cbn. split; [done|]. apply forward_keeps.
Qed.

Lemma client_queue_forward t w c : client_queue (forward_connection t w c) = client_queue c.
Proof. unfold client_queue. by rewrite (proj1 (forward_connection_peer t w c)). Qed.

Lemma wanted_forward t w c ms : wanted (cn_peer (forward_connection t w c)) ms = wanted (cn_peer c) ms.
Proof. unfold wanted, interested. by rewrite (proj2 (forward_connection_peer t w c)). Qed.

Lemma omap_client_queue t w (cs : list Connection) : omap client_queue (forward_connection t w <$> cs) = omap client_queue cs.
Proof. induction cs as [|c cs IH]; [done|]. cbn. by rewrite client_queue_forward, IH. Qed.

(** What the router does to a connection for a list of messages. *)
Definition forward_connections (ms : list Message) (c : Connection) : Connection :=
  foldl (fun c m => forward_connection (subject_new (m_subject m)) (wire_message m) c) c ms.

(** The queue of a client after the messages [ms] were forwarded: its pointers
    carry those it wants. *)
Definition client_got (s : segment) (qs qs' : list (option (list shared_ptr))) (ms : list Message) (c : Connection) : Prop :=
  forall cq l, client_queue c = Some cq -> qs !! cq = Some (Some l) ->
    (length l + length (wanted (cn_peer c) ms) <= queue_capacity)%nat ->
    exists ps, qs' !! cq = Some (Some (l ++ ps)) /\ carry_all s ps (wanted (cn_peer c) ms).

(** A message that goes through: it fits, and it is not for the router. *)
Definition shm_ordinary (m : Message) : Prop :=
  shm_sendable m /\ subj_is_admin (subject_new (m_subject m)) = false.

Lemma notification_loop ms : forall n fuel (s : segment) qs held a sq cs ps count,
  seg_ok s qs held -> qs !! sq = Some (Some ps) -> carry_all s ps ms -> Forall shm_ordinary ms ->
  Forall (fun m => length (m_subject m) < fuel)%nat ms -> (length ms < n)%nat ->
  Forall (connection_queue qs) cs -> NoDup (omap client_queue cs) -> (forall c, c ∈ cs -> client_queue c <> Some sq) ->
  exists s' qs', retrieve pop n (notification_message push debug fuel a) s sq cs count =
      Ok ((count + length ms)%nat, forward_connections ms <$> cs, s') /\
    seg_ok s' qs' held /\ stays s s' /\ qs' !! sq = Some (Some []) /\
    (forall c, c ∈ cs -> client_got s' qs qs' ms c).
Proof.
  induction ms as [|m ms IH]; intros n fuel s qs held a sq cs ps count I Hsq Hc Ho Hf Hn Hq Hnd Hns;
    (destruct n as [|n]; [cbn in Hn; lia|]); apply Forall2_cons_inv_r in Hc || apply Forall2_nil_inv_r in Hc.
  - subst ps. exists s, qs. rewrite (retrieve_empty _ n s qs held) by done. rewrite Nat.add_0_r.
    change (forward_connections []) with (fun c : Connection => c). rewrite list_fmap_id.
    split; [done|]. split; [done|]. split; [apply stays_refl|]. split; [done|].
    intros c _ cq l _ Hl _. exists []. rewrite app_nil_r. by split; [|constructor].
  - destruct Hc as (p & ps' & [blk Hp] & Hc & ->). inversion_clear Ho as [|? ? [Hm Hadm] Ho'].
    inversion_clear Hf as [|? ? Hfm Hf'].
    destruct (shm_sendable_wire _ Hm) as (H1 & H2 & H3). set (t := subject_new (m_subject m)) in *.
    set (qs1 := foldl (forward_queue p t) qs cs).
    assert (qs1 !! sq = Some (Some (p :: ps'))) as Hsq1 by by unfold qs1; rewrite fold_other.
    destruct (retrieve_step (notification_message push debug fuel a) n s qs held sq cs count p ps' blk (wire_message m)
      (forward_connection t (wire_message m) <$> cs) qs1 I Hsq Hp H1 H2 H3) as (s2 & -> & I2 & S2); [|done|].
    { intros storage V. by apply (notification_message_ok fuel a cs s qs held p ps' sq blk m storage). }
    set (qs2 := <[sq := Some ps']> qs1) in *.
    assert (qs2 !! sq = Some (Some ps')) as Hsq2 by (apply list_lookup_insert_eq; by eapply lookup_lt_Some).
    destruct (IH n fuel s2 qs2 held a sq (forward_connection t (wire_message m) <$> cs) ps' (S count) I2 Hsq2)
      as (s' & qs' & -> & I' & S' & Hsq' & Hgot); try done.
    { eapply carry_all_stays; [exact Hc|exact S2|]. intros p' Hp'. by eapply queued_live. }
    { cbn in Hn. lia. }
    { apply Forall_fmap, Forall_forall. intros c Hc'. pose proof (fold_queues p t cs qs cs Hq) as Hq1.
      rewrite Forall_forall in Hq1. specialize (Hq1 c Hc'). specialize (Hns c Hc'). fold qs1 in Hq1.
      unfold connection_queue, client_queue in *. cbn. rewrite (proj1 (forward_connection_peer _ _ _)).
      destruct (cn_shm c) as [[[? cq] ?]|]; [|done]. cbn in Hns. unfold qs2. rewrite list_lookup_insert_ne by congruence. done. }
    { by rewrite omap_client_queue. }
    { intros c' (c & -> & Hc')%list_elem_of_fmap. rewrite client_queue_forward. by apply Hns. }
    exists s', qs'. split; [|split; [done|split; [by eapply stays_trans|split; [done|]]]].
    { do 3 f_equal; [cbn [length]; lia|]. by rewrite <- list_fmap_compose. }
    intros c Hcin cq l Hcq Hl Hroom.
    specialize (Hgot (forward_connection t (wire_message m) c) ltac:(by apply list_elem_of_fmap_2) cq
      (if interested (cn_peer c) t then l ++ [p] else l)). rewrite client_queue_forward, wanted_forward in Hgot.
    assert (qs2 !! cq = Some (Some (if interested (cn_peer c) t then l ++ [p] else l))) as Hcq2.
    { unfold qs2. specialize (Hns c Hcin). rewrite list_lookup_insert_ne by congruence. apply fold_own; try done.
      intros Ei. unfold wanted in Hroom. cbn [List.filter] in Hroom. fold t in Hroom. rewrite Ei in Hroom. cbn in Hroom. lia. }
    unfold wanted in Hroom, Hgot |- *. cbn [List.filter] in Hroom |- *. fold t in Hroom |- *.
    destruct (interested (cn_peer c) t) eqn:Ei.
    + destruct (Hgot Hcq Hcq2) as (ps1 & E1 & C1); [rewrite length_app; cbn in Hroom |- *; lia|].
      exists (p :: ps1). rewrite <- app_assoc in E1. split; [exact E1|]. constructor; [|exact C1].
      exists blk. apply (st_carries _ _ S'); [|eapply queued_live; [exact I'|exact E1|apply elem_of_app; right; left]].
      apply (st_carries _ _ S2); [done|]. eapply queued_live; [exact I2|exact Hcq2|apply elem_of_app; right; left].
    + destruct (Hgot Hcq Hcq2 Hroom) as (ps1 & E1 & C1). exists ps1. by split.
Qed.

(** ** From client to client *)

(** A program that sends messages one after the other. *)
Fixpoint shm_send_all (s : segment) (t : SHMTransport) (ms : list Message) : outcome (list status * segment) :=
  match ms with
  | [] => Ok ([], s)
  | m :: ms =>
      '(r, s) ← shm_sendMessage push debug true true s t m;
      '(rs, s) ← shm_send_all s t ms;
      Ok (r :: rs, s)
  end.

Lemma shm_send_all_ok ms : forall (s : segment) qs held t a l ls,
  seg_ok s qs held -> st_connected t = true -> st_sendQueue t = Some a -> qs !! a = Some (Some l) ->
  carry_all s l ls -> Forall shm_sendable ms -> (length l + length ms <= queue_capacity)%nat ->
  exists s' ps, shm_send_all s t ms = Ok (replicate (length ms) OK, s') /\
    seg_ok s' (<[a := Some (l ++ ps)]> qs) held /\ carry_all s' (l ++ ps) (ls ++ ms).
Proof.
  induction ms as [|m ms IH]; intros s qs held t a l ls I Hc Hq Ha Hl Hs Hroom.
  - exists s, []. rewrite !app_nil_r, list_insert_id by done. done.
  - inversion_clear Hs as [|? ? Hm Hs']. cbn [length] in Hroom.
    destruct (shm_send_ok s qs held t a l m true I Hc Hq Ha ltac:(apply Hm)) as (s1 & p & blk & E & S1 & I1).
    rewrite decide_False in I1 by lia. destruct I1 as [I1 Hp].
    assert ((<[a := Some (l ++ [p])]> qs) !! a = Some (Some (l ++ [p]))) as Ha1
      by (apply list_lookup_insert_eq; by eapply lookup_lt_Some).
    destruct (IH s1 _ held t a (l ++ [p]) (ls ++ [m]) I1 Hc Hq Ha1) as (s2 & ps & E2 & I2 & C2); [|done|rewrite length_app; cbn [length]; lia|].
    { apply Forall2_app; [|by constructor; [exists blk|constructor]]. eapply carry_all_stays; [exact Hl|exact S1|].
      intros p' Hp'. eapply queued_live; [exact I1|exact Ha1|]. apply elem_of_app. by left. }
    exists s2, (p :: ps). cbn [shm_send_all]. rewrite E. run_bind. rewrite E2. run_bind.
    rewrite list_insert_insert_eq, <- app_assoc in I2. rewrite <- !app_assoc in C2. done.
Qed.

(** The router with the connections [cs], of which the one at [i] serves the
    client of [t]: every client queue is there, no two connections share one, and
    no client queue is the queue [sq] of [t]. *)
Record router_ok (qs : list (option (list shared_ptr))) (cs : list Connection) (i sq : nat) : Prop := {
  ro_self : exists c pid cq, cs !! i = Some c /\ cn_shm c = Some (pid, cq, sq);
  ro_server : qs !! sq = Some (Some []);
  ro_queues : Forall (connection_queue qs) cs;
  ro_distinct : NoDup (omap client_queue cs);
  ro_not_server c : c ∈ cs -> client_queue c <> Some sq
}.

(** C16: at most 1024 messages, none of them empty, for the router or longer than
    2048 bytes on the wire, that a client sends over shared memory through an empty
    queue are handed to the router in one notification; each client that is
    connected over shared memory, and whose queue was empty, then receives exactly
    those its subscriptions match, complete and in order, and each TCP connection has
    been handed the bytes of those it wants.  (Full queues and longer messages:
    [shm_full_queue] and [shm_long_message].) *)
Theorem shm_route (s : segment) qs t ms cs i sq n fuel :
  seg_ok s qs [] -> st_connected t = true -> st_sendQueue t = Some sq -> router_ok qs cs i sq ->
  Forall shm_ordinary ms -> (length ms <= queue_capacity)%nat -> (length ms < n)%nat ->
  Forall (fun m => length (m_subject m) < fuel)%nat ms -> fuel_for ms fuel ->
  exists s1 s2, shm_send_all s t ms = Ok (replicate (length ms) OK, s1) /\
    notificationHandler push pop debug n fuel i true s1 cs = Ok (forward_connections ms <$> cs, s2, true) /\
    (forall c, c ∈ cs -> cn_shm c = None -> cn_peer (forward_connections ms c) = forward_all ms (cn_peer c)) /\
    (forall c cq t', c ∈ cs -> client_queue c = Some cq -> qs !! cq = Some (Some []) -> st_recvQueue t' = Some cq ->
       exists s3, shm_receive pop n fuel s2 t' =
         Ok (length (wanted (cn_peer c) ms), received_message <$> wanted (cn_peer c) ms, s3)).
Proof.
  intros I Hc Hq [(c0 & pid & cq0 & Hi & Hshm) Hsq Hqs Hnd Hns] Ho Hcap Hn Hf Hfuel.
  assert (Forall shm_sendable ms) as Hs by (eapply Forall_impl; [exact Ho|]; by intros m []).
  destruct (shm_send_all_ok ms s qs [] t sq [] [] I Hc Hq Hsq ltac:(constructor) Hs Hcap) as (s1 & ps & E1 & I1 & C1).
  cbn [app] in *.
  assert ((<[sq := Some ps]> qs) !! sq = Some (Some ps)) as Hsq1 by (apply list_lookup_insert_eq; by eapply lookup_lt_Some).
  destruct (notification_loop ms n fuel s1 _ [] i sq cs ps 0 I1 Hsq1 C1 Ho Hf Hn) as (s2 & qs2 & E2 & I2 & _ & _ & Hgot); try done.
  { apply Forall_forall. intros c Hc'. rewrite Forall_forall in Hqs. specialize (Hqs c Hc'). specialize (Hns c Hc').
    unfold connection_queue, client_queue in *. destruct (cn_shm c) as [[[? cq] ?]|]; [|done]. cbn in Hns.
    by rewrite list_lookup_insert_ne by congruence. }
  exists s1, s2. split; [done|]. split; [|split].
  - unfold notificationHandler. rewrite Hi, Hshm. cbn [noexcept]. rewrite E2. done.
  - intros c _ Hnone. clear -Hnone. revert c Hnone. induction ms as [|m ms IH]; intros c Hnone; [done|].
    cbn [forward_connections foldl forward_all]. unfold forward_connections, forward_all in IH. rewrite IH.
    + unfold forward_connection. by rewrite Hnone.
    + by rewrite (proj1 (forward_connection_peer _ _ _)).
  - intros c cq t' Hin Hcq Hempty Ht'.
    assert (length (wanted (cn_peer c) ms) <= length ms)%nat as Hw.
    { unfold wanted. clear. induction ms as [|m ms IH]; [done|]. cbn [List.filter]. destruct (interested _ _); cbn [length]; lia. }
    destruct (Hgot c Hin cq [] Hcq) as (ps' & Hps & Cps).
    { rewrite list_lookup_insert_ne; [done|]. intros ->. by apply (Hns c Hin). }
    { cbn. lia. }
    destruct (shm_receive_loop (wanted (cn_peer c) ms) n fuel s2 qs2 [] cq ps' [] 0 I2 Hps Cps) as (s3 & E3 & _).
    { unfold wanted. apply Forall_forall. intros m Hm. apply list_elem_of_In, filter_In in Hm as [Hm _].
      rewrite Forall_forall in Hs. apply Hs. by apply list_elem_of_In. }
    { unfold fuel_for, wanted in *. apply Forall_forall. intros m Hm. apply list_elem_of_In, filter_In in Hm as [Hm _].
      rewrite Forall_forall in Hfuel. apply Hfuel. by apply list_elem_of_In. }
    { lia. }
    exists s3. unfold shm_receive. by rewrite Ht', E3.
Qed.

End route.
