(* ===== verification/ShmSafety.v ===== *)
(** * ShmSafety: what can and what cannot go wrong in shared memory

    Any interleaving of the operations of clients and router on the segment of
    [Shm] that return, as a step relation: a queued pointer never dangles and nothing
    leaks.
    After these, where the code departs from what it means to do: full queues,
    long messages, messages that come over TCP, and the end of a client. *)
From S2P Require Import Prelude Heap ByteStorage Types Field Message Codec RoundTrip Subject RingBuffer Transport Router Shm ShmInvariant ShmRoute.

Section safety.
Context {Q : Type} {push : Q -> shared_ptr -> bool * Q} {pop : Q -> outcome (option shared_ptr * Q)}
  `{!BoundedFifo Q shared_ptr queue_capacity push pop}.
Context (queue_new : Q) (Hnew : fifo_rep queue_new []).
Context (debug : bool).
Context `{Platform} (little_endian : big_endian = false).
Abbreviation segment := (Segment Q).

(** The invariant, for some contents of the queues. *)
Definition good (held : list shared_ptr) (s : segment) : Prop := exists qs, seg_ok s qs held.

(** [o] keeps the invariant if it returns. *)
Definition preserves {A} (held : list shared_ptr) (o : outcome (A * segment)) : Prop :=
  forall a s', o = Ok (a, s') -> good held s'.

(** ** Each operation keeps the invariant *)

Lemma queue_at_inv (s : segment) qs held a q :
  seg_ok s qs held -> queue_at s a = Ok q -> exists l, qs !! a = Some (Some l) /\ fifo_rep q l.
Proof.
  unfold queue_at. intros I E. destruct (sg_queues s !! a) as [[q'|]|] eqn:Ea; [|done|done]. injection E as ->.
  destruct (Forall2_lookup_l _ _ _ _ _ (so_queues _ _ _ I) Ea) as (x & Hx & R). destruct x as [l|]; [|done]. eauto.
Qed.

Lemma copy_good (s : segment) held p s' : good held s -> copy_ptr s p = Ok s' -> good (p :: held) s'.
Proof.
  intros [qs I] E. destruct (copy_ok s qs held p I) as (s1 & E1 & I1 & _).
  - destruct p as [k|]; [|done]. cbn in *. destruct (sg_control s !! k); [by eexists|done].
  - rewrite E in E1. injection E1 as <-. by exists qs.
Qed.

Lemma drop_good (s : segment) held p s' : good (p :: held) s -> drop_ptr s p = Ok s' -> good held s'.
Proof.
  intros [qs I] E. destruct (drop_ok s qs held p I) as (s1 & E1 & I1 & _). rewrite E in E1. injection E1 as <-. by exists qs.
Qed.

Lemma notify_good (s : segment) held a p s' :
  good held s -> live s p -> notify push debug s a p = Ok s' -> good held s'.
Proof.
  intros [qs I] Hl E. pose proof E as E'. unfold notify in E'. apply bind_Ok_inv in E' as (c & Hc & E').
  apply bind_Ok_inv in E' as (q & Hq & _). destruct (queue_at_inv _ _ _ _ _ I Hq) as (l & Ha & _).
  destruct (notify_ok debug s qs held a l p I Ha Hl) as (s1 & E1 & I1 & _).
  - intros -> ->. done.
  - rewrite E in E1. injection E1 as <-. eexists. exact I1.
Qed.

Lemma live_held (s : segment) held p : good held s -> p ∈ held -> live s p.
Proof. intros [qs I]. by eapply held_live. Qed.

Lemma forward_good cs : forall mem (s : segment) held t w,
  good held s -> m_shared_ptr w ∈ held -> preserves held (forward_wrapper push debug mem s cs t w).
Proof.
  induction cs as [|c cs IH]; intros mem s held t w G Hw l s' E; cbn [forward_wrapper] in E; [by injection E as _ <-|].
  apply bind_Ok_inv in E as (i & _ & E). apply bind_Ok_inv in E as ([c1 s1] & E1 & E).
  apply bind_Ok_inv in E as ([cs1 s2] & E2 & [= _ <-]). eapply IH; [|exact Hw|exact E2].
  destruct i; [|by injection E1 as _ <-]. unfold connection_sendBuffer in E1.
  destruct (cn_shm c) as [[[pid cq] sq]|].
  - apply bind_Ok_inv in E1 as (s3 & E3 & [= _ <-]). eapply notify_good; [exact G| |exact E3]. by eapply live_held.
  - apply bind_Ok_inv in E1 as (e & _ & [= _ <-]). done.
Qed.

Lemma notification_good fuel a cs (s : segment) held storage p :
  good held s -> preserves held (notification_message push debug fuel a cs s storage p).
Proof.
  intros G l s' E. unfold notification_message in E. apply bind_Ok_inv in E as ([[st d] b] & _ & E).
  destruct st, d as [d|]; try by injection E as _ <-.
  apply bind_Ok_inv in E as (text & _ & E). destruct (subj_is_admin _).
  - apply bind_Ok_inv in E as ([[ok m] b'] & _ & E). destruct ok; [|by injection E as _ <-].
    apply bind_Ok_inv in E as (cs' & _ & E). by injection E as _ <-.
  - apply bind_Ok_inv in E as (s1 & E1 & E). apply bind_Ok_inv in E as ([cs' s2] & E2 & E).
    apply bind_Ok_inv in E as (s3 & E3 & [= _ <-]). eapply drop_good; [|exact E3].
    refine (forward_good _ _ _ (p :: held) _ (mkWrapper _ p) _ _ _ _ E2); [by eapply copy_good|left].
Qed.

Lemma received_good fuel got (s : segment) held storage p :
  good held s -> preserves held (shm_received fuel got s storage p).
Proof.
  intros G l s' E. unfold shm_received in E. apply bind_Ok_inv in E as ([[ok m] b] & _ & [= _ <-]). done.
Qed.

Lemma retrieve_good {St} (callback : St -> segment -> ByteStorage -> shared_ptr -> outcome (St * segment)) held a :
  (forall st s storage p, good held s -> preserves held (callback st s storage p)) ->
  forall n s st count, good held s -> preserves held (retrieve pop n callback s a st count).
Proof.
  intros Hcb. induction n as [|n IH]; intros s st count G r s' E; [done|]. cbn [retrieve] in E.
  apply bind_Ok_inv in E as (q & _ & E). apply bind_Ok_inv in E as ([front q1] & _ & E).
  destruct front as [p|]; [|by injection E as _ <-]. apply bind_Ok_inv in E as (c & _ & E).
  unfold ByteStorage_bytes in E. change (Z.land TRANSIENT COPY_ON_CONSTRUCT =? COPY_ON_CONSTRUCT) with false in E.
  cbn match in E. run_bind in E. replace (set_heap s (sg_heap s)) with s in E by by destruct s.
  apply bind_Ok_inv in E as ([st1 s1] & E1 & E). pose proof (Hcb _ _ _ _ G _ _ E1) as G1.
  unfold ByteStorage_destroy in E. change (Z.land (m_options _) TAKE_OWNERSHIP =? TAKE_OWNERSHIP) with false in E.
  cbn match in E. run_bind in E. replace (set_heap s1 (sg_heap s1)) with s1 in E by by destruct s1.
  apply bind_Ok_inv in E as (q2 & Hq2 & E). apply bind_Ok_inv in E as ([front q3] & Hp & E).
  destruct front as [p2|]; [|done]. apply bind_Ok_inv in E as (s2 & E2 & E). eapply IH; [|exact E].
  destruct G1 as [qs1 I1]. destruct (queue_at_inv _ _ _ _ _ I1 Hq2) as (l & Ha & R).
  pose proof (fifo_pop _ _ R) as Hf. destruct l as [|p' l]; [by rewrite Hp in Hf|].
  destruct (pop_ok _ _ _ _ _ _ I1 Ha) as (q4 & q5 & s3 & Hq4 & Hp5 & E3 & I3 & _).
  rewrite Hq2 in Hq4. injection Hq4 as <-. rewrite Hp in Hp5. injection Hp5 as -> <-. rewrite E2 in E3. injection E3 as <-.
  eexists. exact I3.
Qed.

(** A message that does not fit into what [sendMessage] reserves is encoded through
    a pointer into freed memory, so a send that returns was of one that fits. *)
Definition in_memory (m : Message) : Prop := Z.of_nat (length (wire_message m)) <= max_stored.

Lemma send_good connected notified (s : segment) t m :
  in_memory m -> good [] s -> preserves [] (shm_sendMessage push debug connected notified s t m).
Proof.
  intros Hm [qs I] r s' E. pose proof E as E0. unfold shm_sendMessage in E.
  destruct (st_connected t) eqn:Hc, connected; cbn [andb] in E; try by (injection E as _ <-; exists qs).
  destruct (ByteStorage_new (sg_heap s) 2048) as [b h] eqn:Eb.
  assert (length (wire_message m) <= 2048)%nat as Hfit.
  { destruct (Nat.leb_spec (length (wire_message m)) 2048) as [|Hl]; [done|]. exfalso.
    destruct (new_2048 _ _ _ _ _ I Eb) as (R & _). rewrite (encode_moves little_endian m h b _ [] _ R) in E; [done| |cbn [length]; done].
    rewrite length_replicate. lia. }
  apply bind_Ok_inv in E as ([[n b1] h1] & En & E).
  destruct (getInterprocessBuffer (set_heap s h1) b1) as [[p b2] s1] eqn:Eg.
  apply bind_Ok_inv in E as (s2 & E2 & _). destruct (st_sendQueue t) as [a|] eqn:Hq; [|done].
  unfold notify_move, notify in E2. apply bind_Ok_inv in E2 as (s3 & E3 & _).
  apply bind_Ok_inv in E3 as (c & _ & E3). apply bind_Ok_inv in E3 as (q & Hqa & _).
  assert (queue_at s a = Ok q) as Hqa'.
  { unfold getInterprocessBuffer in Eg. destruct (bytes b1). injection Eg as _ _ <-. exact Hqa. }
  destruct (queue_at_inv _ _ _ _ _ I Hqa') as (l & Ha & _).
  destruct (shm_send_ok debug little_endian s qs [] t a l m notified I Hc Hq Ha Hfit) as (s4 & p4 & blk & E4 & _ & I4).
  rewrite E0 in E4. injection E4 as _ <-. destruct (decide _) in I4; [by eexists|]. destruct I4 as [I4 _]. by eexists.
Qed.

Lemma connect_good (s : segment) name : good [] s -> good [] (SharedMemoryBuffer_new queue_new s name).2.
Proof.
  intros [qs I]. unfold SharedMemoryBuffer_new. destruct (sg_names s !! name); [by exists qs|].
  exists (qs ++ [Some []]). destruct I as [I1 I2 I3 I4 I5 I6 I7]. split; cbn; try done.
  - apply Forall2_app; [done|]. by repeat constructor.
  - intros k. specialize (I2 k). assert (refs k (qs ++ [Some []]) = refs k qs) as ->; [|done].
    unfold refs. rewrite sum_list_with_app. change (sum_list_with (slot_refs k) [Some []]) with 0%nat. lia.
Qed.

(** Draining does not look at the queues. *)
Lemma drop_set_queue (s : segment) a q p : drop_ptr (set_queue s a q) p = (fun s => set_queue s a q) <$> drop_ptr s p.
Proof.
  destruct p as [k|]; [|done]. cbn [drop_ptr]. cbn [sg_control set_queue]. destruct (sg_control s !! k) as [[c [|[|n]]]|]; try done;
    unfold deleter; cbn; by destruct (segment_deallocate _ _).
Qed.

Lemma drain_good n : forall (s : segment) a qs q l held s',
  qs !! a = Some (Some l) -> fifo_rep q l -> seg_ok (set_queue s a None) (<[a := None]> qs) (l ++ held) ->
  drain pop n s q = Ok s' -> seg_ok (set_queue s' a None) (<[a := None]> qs) held.
Proof.
  induction n as [|n IH]; intros s a qs q l held s' Ha R I E; cbn [drain] in E;
    apply bind_Ok_inv in E as ([o q1] & Ep & E); pose proof (fifo_pop _ _ R) as Hf; destruct l as [|p l].
  1,3: rewrite Hf in Ep; injection Ep as <- <-; by injection E as <-.
  - destruct Hf as (q2 & Hf & _). rewrite Hf in Ep. by injection Ep as <- <-.
  - destruct Hf as (q2 & Hf & R2). rewrite Hf in Ep. injection Ep as <- <-. apply bind_Ok_inv in E as (s1 & E1 & E).
    destruct (drop_ok _ _ _ _ I) as (s2 & E2 & I2 & _). rewrite drop_set_queue, E1 in E2. injection E2 as <-.
    pose proof (IH s1 a (<[a := Some l]> qs) q2 l held s') as IH'. rewrite list_insert_insert_eq in IH'.
    apply IH'; [|done|exact I2|done]. apply list_lookup_insert_eq. by eapply lookup_lt_Some.
Qed.

Lemma destroy_good (s : segment) name a s' :
  good [] s -> SharedMemoryBuffer_destroy pop s name a = Ok s' -> good [] s'.
Proof.
  intros [qs I] E. unfold SharedMemoryBuffer_destroy in E. apply bind_Ok_inv in E as (q & Hq & E).
  apply bind_Ok_inv in E as (s1 & E1 & [= <-]). destruct (queue_at_inv _ _ _ _ _ I Hq) as (l & Ha & R).
  exists (<[a := None]> qs).
  assert (seg_ok (set_queue s a None) (<[a := None]> qs) (l ++ [])) as I1.
  { rewrite app_nil_r. destruct I as [I1 I2 I3 I4 I5 I6 I7]. split; cbn; try done.
    - by apply Forall2_insert.
    - intros k. specialize (I2 k). pose proof (refs_insert k qs a _ None Ha) as Hr. cbn in Hr.
      change (count_in k []) with 0%nat in I2. destruct (sg_control s !! k) as [[c n]|]; lia. }
  pose proof (drain_good _ _ _ _ _ _ _ _ Ha R I1 E1) as [J1 J2 J3 J4 J5 J6 J7]. by split.
Qed.

(** ** Every state the segment can get into *)

Definition empty_segment : segment := mkSegment empty_heap 1%positive ∅ [] ∅.

(** An operation of a client or of the router that returns: a client or the
    router opens a queue, a client sends a message, the router is notified by a client
    (or of its end, which destroys the connection: [erased]) or forwards a message
    that came over TCP, a client receives, or disconnects.  Operations that meet
    undefined behaviour have no result and are no steps; those of ShmFaults.v do. *)
Inductive shm_step (s : segment) : segment -> Prop :=
  | StepOpen name : shm_step s (SharedMemoryBuffer_new queue_new s name).2
  | StepSend connected notified t m r s' :
      in_memory m -> shm_sendMessage push debug connected notified s t m = Ok (r, s') -> shm_step s s'
  | StepNotified n fuel a reset cs cs' s' erased :
      notificationHandler push pop debug n fuel a reset s cs = Ok (cs', s', erased) -> shm_step s s'
  | StepTcp h cs t msgData cs' s' :
      tcp_forward push debug h s cs t msgData = Ok (cs', s') -> shm_step s s'
  | StepReceive n fuel t k ms s' : shm_receive pop n fuel s t = Ok (k, ms, s') -> shm_step s s'
  | StepDisconnect t t' s' : shm_disconnect pop s t = Ok (t', s') -> shm_step s s'.

Lemma empty_good : good [] empty_segment.
Proof.
  exists []. split; cbn; try done.
  - intros k [? E]. done.
  - intros blk [? E]. done.
  - intros blk [? E]. done.
Qed.

Lemma step_good s s' : good [] s -> shm_step s s' -> good [] s'.
Proof.
  intros G Hs. inversion Hs as [name|connected notified t m r s1 Hm E|n fuel a reset cs cs' s1 er E|h cs t msgData cs' s1 E
    |n fuel t k ms s1 E|t t' s1 E]; subst.
  - by apply connect_good.
  - by eapply send_good.
  - unfold notificationHandler in E. destruct (cs !! a) as [c|]; [|done]. destruct reset.
    + destruct (cn_shm c) as [[[pid cq] sq]|]; [|done]. apply bind_Ok_inv in E as ([[k cs1] s2] & E & [= _ <- _]).
      unfold noexcept in E. destruct (retrieve _ _ _ _ _ _ _) as [|[]] eqn:Er; try done. injection E as ->.
      eapply retrieve_good; [|exact G|exact Er]. intros. by apply notification_good.
    + apply bind_Ok_inv in E as (s2 & E & [= _ <- _]). unfold shm_peer_destroy in E.
      destruct (cn_shm c) as [[[pid cq] sq]|]; [|by injection E as <-].
      apply bind_Ok_inv in E as (s3 & E3 & E). eapply destroy_good; [|exact E]. by eapply destroy_good.
  - destruct G as [qs I]. refine (_ (forward_good cs (fun _ => h) s [None] t (mkWrapper msgData None) _ _ cs' s' E)).
    + intros [qs' I']. exists qs'. by eapply seg_ok_held.
    + exists qs. by eapply seg_ok_held.
    + left.
  - unfold shm_receive in E. destruct (st_recvQueue t) as [a|]; [|done].
    assert (preserves [] (retrieve pop n (shm_received fuel) s a [] 0)) as P; [|by eapply P].
    apply retrieve_good; [|done]. intros. by apply received_good.
  - unfold shm_disconnect in E. apply bind_Ok_inv in E as (s2 & E2 & [= _ <-]).
    destruct (st_recvQueue t) as [r|]; [by eapply destroy_good|by injection E2 as <-].
Qed.

Lemma reachable_good s : rtc shm_step empty_segment s -> good [] s.
Proof.
  assert (forall s0, rtc shm_step s0 s -> good [] s0 -> good [] s) as Hind; [|by intros Hr; apply (Hind _ Hr), empty_good].
  induction 1 as [|s0 s1 s2 Hs _ IH]; [done|]. intros G. apply IH. by eapply step_good.
Qed.

Lemma no_refs_empty (s : segment) qs :
  seg_ok s qs [] -> (forall k, refs k qs = 0%nat) -> sg_control s = ∅ /\ h_blocks (sg_heap s) = ∅.
Proof.
  intros I Hz. assert (sg_control s = ∅) as Hc.
  { apply map_empty. intros k. pose proof (so_count _ _ _ I k) as H1. rewrite Hz in H1.
    destruct (sg_control s !! k) as [[c n]|]; [|done]. change (count_in k []) with 0%nat in H1. lia. }
  split; [done|]. apply map_empty. intros b. apply eq_None_not_Some. intros Hb.
  destruct (so_all _ _ _ I b Hb) as (k & c & n & E & _). by rewrite Hc in E.
Qed.

(** C17: after any sequence of operations of clients and router that return - none of
    them met undefined behaviour, as a send of more than 2048 bytes, a forward to a
    queue its client has destroyed and the null pointer of a message from TCP do
    (ShmFaults.v): a pointer at the front of a queue refers to a buffer that has not
    been given back, and when the queues are empty all memory has been given back. *)
Theorem shm_memory_safe s :
  rtc shm_step empty_segment s ->
  (forall a q k q', sg_queues s !! a = Some (Some q) -> pop q = Ok (Some (Some k), q') ->
     exists c n blk cs, sg_control s !! k = Some (c, n) /\ (0 < n)%nat /\ c_ptr c = Ptr blk 0 /\
       h_blocks (sg_heap s) !! blk = Some cs) /\
  ((forall a q, sg_queues s !! a = Some (Some q) -> pop q = Ok (None, q)) ->
   sg_control s = ∅ /\ h_blocks (sg_heap s) = ∅).
Proof.
  intros [qs I]%reachable_good. split.
  - intros a q k q' Ha Hp. destruct (Forall2_lookup_l _ _ _ _ _ (so_queues _ _ _ I) Ha) as ([l|] & Hl & R); [|done].
    pose proof (fifo_pop _ _ R) as Hf. destruct l as [|p l]; [by rewrite Hp in Hf|]. destruct Hf as (q2 & Hf & _).
    rewrite Hp in Hf. injection Hf as <- <-.
    destruct (queued_live _ _ _ (Some k) _ _ I Hl ltac:(left)) as [[c n] Hk].
    destruct (so_block _ _ _ I k c n Hk) as (blk & cs & Hb & Hcs). pose proof (so_count _ _ _ I k) as Hn. rewrite Hk in Hn.
    exists c, n, blk, cs. intuition.
  - intros He. apply (no_refs_empty s qs I). intros k. unfold refs.
    assert (Forall (fun q => slot_refs k q = 0%nat) qs) as Hall.
    { apply Forall_lookup. intros a [l|] Hl; [|done].
      destruct (Forall2_lookup_r _ _ _ _ _ (so_queues _ _ _ I) Hl) as ([q|] & Hq & R); [|done].
      specialize (He a q Hq). pose proof (fifo_pop _ _ R) as Hf. destruct l as [|p l]; [done|].
      destruct Hf as (q2 & Hf & _). by rewrite He in Hf. }
    clear -Hall. induction Hall as [|q qs Hq _ IH]; [done|]. cbn. by rewrite Hq, IH.
Qed.
End safety.
