(* ===== verification/Listener.v ===== *)
(** * Listener: subscribers and the message listener

    src/fastpath/event: Subscriber.h/.cpp, MessageEvent.h/.cpp and
    MessageListener.h/.cpp.  The listener tells the router what it wants with
    administration messages and hands every message that arrives on a transport
    to the observers of that transport that are interested.  The last section
    follows a subscription from the listener into the router. *)
From S2P Require Import Prelude Heap ByteStorage MessageBuffer Types Field Message Codec RoundTrip Built Subject Transport Router.

(** ** Subscribers *)

Record Subscriber := mkSubscriber {
  sub_transport : positive;
  sub_subject : list Z;            (* the characters in m_subject[65535] *)
  sub_subscription : subscription
}.

(** [strncpy(m_subject, subject, max_subject_length)] *)
Definition Subscriber_new (transport : positive) (subject : list Z) : outcome Subscriber :=
  s ← subscription_new subject;
  Ok (mkSubscriber transport (take (Z.to_nat max_subject_length) subject) s).

(** Reading [subject()] as a C string: a text that fills the array has no NUL. *)
Definition Subscriber_subject (s : Subscriber) : outcome (list Z) :=
  if Z.of_nat (length (sub_subject s)) <? max_subject_length
  then Ok (sub_subject s) else undefined OutOfBounds.

Definition Subscriber_is_interested (s : Subscriber) (subj : subject) : outcome bool :=
  matches (sub_subscription s) subj.

Record MessageEvent := mkMessageEvent {
  me_queue : positive; me_subscriber : positive; me_awaitingDispatch : Z
}.

(** ** The listener *)

Record TransportState := mkTransportState {
  tr_manager : option positive;       (* m_eventManager *)
  tr_valid : bool;
  tr_sent : list Message              (* the calls of sendMessage *)
}.

(** The notification handler of a transport holds a reference to an element of
    [m_transportConnections]: its index, and the storage of the vector at that
    time, which a later [push_back] may replace. *)
Record Listener := mkListener {
  l_transports : gmap positive TransportState;
  l_connections : list (positive * bool);        (* transport, and whether its receiver event is registered *)
  l_capacity : nat;                              (* capacity() and storage of that vector *)
  l_storage : nat;
  l_handlers : gmap positive (nat * nat);        (* setNotificationHandler: index and storage *)
  l_observers : gmap positive (list MessageEvent);
  l_subscribers : gmap positive Subscriber;      (* the client's subscriber objects *)
  l_queued : list (positive * positive * Message) (* calls of __enqueue: queue, subscriber, message *)
}.

Definition set_transport (l : Listener) (t : positive) (x : TransportState) : Listener :=
  mkListener (<[t := x]> (l_transports l)) (l_connections l) (l_capacity l) (l_storage l) (l_handlers l)
    (l_observers l) (l_subscribers l) (l_queued l).
Definition set_connections (l : Listener) (c : list (positive * bool)) : Listener :=
  mkListener (l_transports l) c (l_capacity l) (l_storage l) (l_handlers l)
    (l_observers l) (l_subscribers l) (l_queued l).
Definition set_observers (l : Listener) (o : gmap positive (list MessageEvent)) : Listener :=
  mkListener (l_transports l) (l_connections l) (l_capacity l) (l_storage l) (l_handlers l)
    o (l_subscribers l) (l_queued l).
Definition add_queued (l : Listener) (x : positive * positive * Message) : Listener :=
  mkListener (l_transports l) (l_connections l) (l_capacity l) (l_storage l) (l_handlers l)
    (l_observers l) (l_subscribers l) (l_queued l ++ [x]).

Definition deref_transport (l : Listener) (t : positive) : outcome TransportState :=
  match l_transports l !! t with Some x => Ok x | None => undefined UseAfterFree end.
Definition deref_subscriber (l : Listener) (s : positive) : outcome Subscriber :=
  match l_subscribers l !! s with Some x => Ok x | None => undefined UseAfterFree end.

Section listener.
Context `{Platform} (self : Z)      (* the listener's address, sent as ["id"] *)
  (growth : nat -> nat).

(** [transport->sendMessage(msg)] *)
Definition send (l : Listener) (t : positive) (m : Message) : outcome Listener :=
  x ← deref_transport l t;
  Ok (set_transport l t (mkTransportState (tr_manager x) (tr_valid x) (tr_sent x ++ [m]))).

(** The message of [subscribe] and [unsubscribe]. *)
Definition observer_message (admin subject : list Z) : outcome Message :=
  let msg := (setSubject Message_new admin).2 in
  '(_, msg) ← addDataField_string msg (bytes_of_string "subject") subject;
  '(_, msg) ← addScalarField msg (bytes_of_string "id") T_uint64 self;
  Ok msg.
Definition subscribe (l : Listener) (t : positive) (subject : list Z) : outcome Listener :=
  msg ← observer_message (bytes_of_string "_FP.REGISTER.OBSERVER") subject; send l t msg.
Definition unsubscribe (l : Listener) (t : positive) (subject : list Z) : outcome Listener :=
  msg ← observer_message (bytes_of_string "_FP.UNREGISTER.OBSERVER") subject; send l t msg.

(** [m_transportConnections.push_back(container)], and the handler that refers to
    its last element; [growth] is the capacity a full vector grows to. *)
Definition add_connection (l : Listener) (t : positive) (registered : bool) : Listener :=
  let n := length (l_connections l) in
  let full := (n =? l_capacity l)%nat in
  let storage := if full then S (l_storage l) else l_storage l in
  mkListener (l_transports l) (l_connections l ++ [(t, registered)])
    (if full then growth n else l_capacity l) storage (<[t := (n, storage)]> (l_handlers l))
    (l_observers l) (l_subscribers l) (l_queued l).

(** [registerTransport]: a receiver event is created when the transport is valid. *)
Definition registerTransport (l : Listener) (t manager : positive) : outcome (bool * Listener) :=
  x ← deref_transport l t;
  match tr_manager x with
  | None =>
      let l := set_transport l t (mkTransportState (Some manager) (tr_valid x) (tr_sent x)) in
      Ok (true, add_connection l t (tr_valid x))
  | Some manager' => Ok (bool_decide (manager' = manager), l)
  end.

(** [transport_container->event = event] through the captured reference. *)
Definition set_event (l : Listener) (r : nat * nat) (registered : bool) : outcome Listener :=
  if (r.2 =? l_storage l)%nat then
    match l_connections l !! r.1 with
    | Some (t, _) => Ok (set_connections l (<[r.1 := (t, registered)]> (l_connections l)))
    | None => undefined OutOfBounds
    end
  else undefined UseAfterFree.

(** The [CONNECTED] notification: a new receiver event, then subscribe again for
    every observer. *)
Fixpoint resubscribe (l : Listener) (t : positive) (observers : list MessageEvent) : outcome Listener :=
  match observers with
  | [] => Ok l
  | o :: observers =>
      s ← deref_subscriber l (me_subscriber o);
      subject ← Subscriber_subject s;
      l ← subscribe l t subject;
      resubscribe l t observers
  end.
Definition on_connected (l : Listener) (t : positive) : outcome Listener :=
  match l_handlers l !! t with
  | None => Ok l
  | Some r =>
      x ← deref_transport l t;
      l ← set_event l r (tr_valid x);
      match l_observers l !! t with Some observers => resubscribe l t observers | None => Ok l end
  end.

(** The [DISCONNECTED] notification: the receiver event is unregistered. *)
Definition on_disconnected (l : Listener) (t : positive) : outcome Listener :=
  match l_handlers l !! t with
  | None => Ok l
  | Some r => set_event l r false
  end.

(** [handleMessage]: the loop over the observers, with [__notify] for those that
    are interested; the observers with their counters. *)
Fixpoint notify_observers (l : Listener) (observers : list MessageEvent) (subj : subject) (m : Message)
    : outcome (Listener * list MessageEvent) :=
  match observers with
  | [] => Ok (l, [])
  | o :: observers =>
      s ← deref_subscriber l (me_subscriber o);
      i ← Subscriber_is_interested s subj;
      let '(l, o) :=
        if (i : bool) then (add_queued l (me_queue o, me_subscriber o, m),
                   mkMessageEvent (me_queue o) (me_subscriber o) (u16 (me_awaitingDispatch o + 1)))
        else (l, o) in
      '(l, observers) ← notify_observers l observers subj m;
      Ok (l, o :: observers)
  end.
Definition handleMessage (l : Listener) (t : positive) (m : Message) : outcome Listener :=
  match l_observers l !! t with
  | Some observers =>
      '(l, observers) ← notify_observers l observers (subject_new (m_subject m)) m;
      Ok (set_observers l (<[t := observers]> (l_observers l)))
  | None => Ok l
  end.

Definition addObserver (l : Listener) (queue subscriber manager : positive) : outcome (status * Listener) :=
  s ← deref_subscriber l subscriber;
  let t := sub_transport s in
  '(ok, l) ← registerTransport l t manager;
  if (ok : bool) then
    let observers := match l_observers l !! t with Some o => o | None => [] end in
    let l := set_observers l (<[t := observers ++ [mkMessageEvent queue subscriber 0]]> (l_observers l)) in
    x ← deref_transport l t;
    l ← (if tr_valid x then subject ← Subscriber_subject s; subscribe l t subject else Ok l);
    Ok (OK, l)
  else Ok (INVALID_TRANSPORT_STATE, l).

(** [erase] of the first observer for the subscriber. *)
Fixpoint erase_observer (subscriber : positive) (o : list MessageEvent) : option (list MessageEvent) :=
  match o with
  | [] => None
  | x :: o => if bool_decide (me_subscriber x = subscriber) then Some o else cons x <$> erase_observer subscriber o
  end.
Definition removeObserver (l : Listener) (subscriber : positive) : outcome (status * Listener) :=
  s ← deref_subscriber l subscriber;
  let t := sub_transport s in
  match l_observers l !! t with
  | Some observers =>
      match erase_observer subscriber observers with
      | Some rest =>
          subject ← Subscriber_subject s;
          l ← unsubscribe l t subject;
          Ok (OK, set_observers l (<[t := rest]> (l_observers l)))
      | None => Ok (CANNOT_DESTROY, l)
      end
  | None => Ok (CANNOT_DESTROY, l)
  end.
End listener.

(** ** Delivery to the observers *)

(** Whether an observer's subscription matches. *)
Definition observes (l : Listener) (subj : subject) (o : MessageEvent) : bool :=
  match l_subscribers l !! me_subscriber o with
  | Some s => match matches (sub_subscription s) subj with Ok r => r | Err _ => false end
  | None => false
  end.

Definition queued_for (m : Message) (o : MessageEvent) : positive * positive * Message :=
  (me_queue o, me_subscriber o, m).

Lemma notify_observers_spec subj m obs : forall l,
  Forall (fun o => is_Some (l_subscribers l !! me_subscriber o)) obs ->
  exists l' obs', notify_observers l obs subj m = Ok (l', obs') /\
    l_queued l' = l_queued l ++ (queued_for m <$> List.filter (observes l subj) obs) /\
    l_subscribers l' = l_subscribers l /\ l_observers l' = l_observers l /\
    Forall2 (fun o o' => queued_for m o' = queued_for m o) obs obs'.
Proof.
  induction obs as [|o obs IH]; intros l Hl.
  - exists l, []. cbn. by rewrite app_nil_r.
  - apply Forall_cons in Hl as [[s Hs] Hl]. cbn [notify_observers List.filter]. unfold deref_subscriber, observes at 1.
    rewrite Hs. run_bind. unfold Subscriber_is_interested.
    destruct (matches_total (sub_subscription s) subj) as [i ->]. run_bind. destruct i.
    + destruct (IH (add_queued l (me_queue o, me_subscriber o, m)) Hl) as (l' & obs' & -> & E1 & E2 & E3 & E4).
      do 2 eexists. split; [done|]. rewrite E1, E2, E3. cbn. rewrite <- app_assoc. split; [done|].
      split; [done|]. split; [done|]. by constructor.
    + destruct (IH l Hl) as (l' & obs' & -> & E1 & E2 & E3 & E4).
      do 2 eexists. split; [done|]. rewrite E1, E2, E3. split; [done|]. split; [done|]. split; [done|]. by constructor.
Qed.

(** C27: a message that arrives on a transport is queued for exactly the
    observers of that transport whose subscription matches its subject: each
    once, in the order in which they were added, on the queue each was added
    with; and the observers stay as they are. *)
Theorem handleMessage_notifies l t m obs :
  l_observers l !! t = Some obs ->
  Forall (fun o => is_Some (l_subscribers l !! me_subscriber o)) obs ->
  exists l' obs', handleMessage l t m = Ok l' /\
    l_queued l' = l_queued l ++ (queued_for m <$> List.filter (observes l (subject_new (m_subject m))) obs) /\
    l_observers l' !! t = Some obs' /\ Forall2 (fun o o' => queued_for m o' = queued_for m o) obs obs'.
Proof.
  intros Ho Hl. unfold handleMessage. rewrite Ho.
  destruct (notify_observers_spec (subject_new (m_subject m)) m obs l Hl) as (l' & obs' & -> & E1 & _ & _ & E4).
  do 2 eexists. split; [done|]. split; [exact E1|]. split; [apply lookup_insert_eq|done].
Qed.

(** ** The listener over many messages *)

(** [handleMessage] for each message of the callback. *)
Fixpoint handle_all (l : Listener) (t : positive) (ms : list Message) : outcome Listener :=
  match ms with
  | [] => Ok l
  | m :: ms => l ← handleMessage l t m; handle_all l t ms
  end.

(** What a message puts into the queues. *)
Definition queued_by (l : Listener) (obs : list MessageEvent) (m : Message) : list (positive * positive * Message) :=
  queued_for m <$> List.filter (observes l (subject_new (m_subject m))) obs.

Lemma queued_by_ext l l' obs obs' m m0 :
  l_subscribers l' = l_subscribers l -> Forall2 (fun o o' => queued_for m0 o' = queued_for m0 o) obs obs' ->
  queued_by l' obs' m = queued_by l obs m.
Proof.
  intros El. unfold queued_by. induction 1 as [|o o' obs obs' Eq _ IH]; [done|]. cbn [List.filter].
  unfold queued_for in Eq. injection Eq as E1 E2.
  assert (observes l' (subject_new (m_subject m)) o' = observes l (subject_new (m_subject m)) o) as -> by (unfold observes; by rewrite El, E2).
  destruct (observes _ _ o); [|done]. rewrite !fmap_cons, IH. unfold queued_for. by rewrite E1, E2.
Qed.

Lemma handle_all_spec ms : forall l t obs,
  l_observers l !! t = Some obs -> Forall (fun o => is_Some (l_subscribers l !! me_subscriber o)) obs ->
  exists l', handle_all l t ms = Ok l' /\ l_queued l' = l_queued l ++ (ms ≫= queued_by l obs).
Proof.
  induction ms as [|m ms IH]; intros l t obs Ho Hs; cbn [handle_all].
  - exists l. by rewrite app_nil_r.
  - unfold handleMessage. rewrite Ho.
    destruct (notify_observers_spec (subject_new (m_subject m)) m obs l Hs) as (l1 & obs1 & -> & Q1 & S1 & _ & F1).
    run_bind. destruct (IH (set_observers l1 (<[t := obs1]> (l_observers l1))) t obs1) as (l2 & E2 & Q2).
    + apply lookup_insert_eq.
    + cbn [l_subscribers set_observers]. rewrite S1. clear -Hs F1. induction F1 as [|o o' ? ? Eq]; [done|].
      apply Forall_cons in Hs as [H1 H2]. injection Eq as _ E. constructor; [by rewrite E|auto].
    + exists l2. split; [done|]. rewrite Q2. cbn [l_queued set_observers]. rewrite Q1, <- app_assoc. f_equal.
      transitivity (queued_by l obs m ++ (ms ≫= queued_by l obs)); [|done]. f_equal.
      apply list_bind_ext; [|done]. intros m'. by apply (queued_by_ext _ _ _ _ _ m).
Qed.

(** ** The administration messages *)

Section messages.
Context `{Platform}.

(** A field that is there stays when another one is added. *)
Lemma getDataField_insert m k r e :
  keyed m -> getDataField m (Some k) = Ok (Some r) -> getDataField (insert_field m e).2 (Some k) = Ok (Some r).
Proof.
  unfold getDataField, payload_at, insert_field. intros K Hg.
  destruct (m_keys m !! identifier e) eqn:He; [done|]. cbn.
  destruct (m_keys m !! k) as [i|] eqn:Hk; [|done].
  rewrite lookup_insert_ne by (intros <-; congruence). rewrite Hk.
  destruct (m_payload m !! i) eqn:Hi; [|done]. by rewrite (lookup_app_l_Some _ _ _ _ Hi).
Qed.

(** A data field arrives as it was sent. *)
Lemma getDataField_received m k r :
  keyed m -> getDataField m (Some k) = Ok (Some r) -> getDataField (received_message m) (Some k) = Ok (Some r).
Proof.
  intros K. destruct (received_message_parts m K) as (_ & _ & Ep & Ek & _).
  unfold getDataField, payload_at. rewrite Ek, Ep. destruct (m_keys m !! k) as [i|]; [|done].
  rewrite list_lookup_fmap. destruct (m_payload m !! i) as [f|]; [|done]. cbn [fmap option_fmap option_map mbind outcome_bind].
  by destruct f.
Qed.

Lemma createDataField_string_ok id v : id_valid id -> exists e, createDataField_string id v = Ok e.
Proof.
  intros Hid. unfold createDataField_string, SmallDataField_string, LargeDataField_string.
  destruct (Field_new_valid id string_ (Z.of_nat (length v) + 1) Hid) as [-> _]. cbn.
  destruct (Z.leb_spec (Z.of_nat (length v) + 1) SmallDataField_max_size); eauto.
Qed.

Definition text_ok (s : list Z) : Prop := is_cstr s /\ Z.of_nat (length s) < max_subject_length.

Lemma observer_message_spec self admin s :
  text_ok admin -> text_ok s ->
  exists m, observer_message self admin s = Ok m /\ built m /\ m_subject m = admin /\ m_payload m <> [] /\
    list_sum (fields_in <$> m_payload m) = 2%nat /\
    getDataField m (Some (bytes_of_string "subject")) = Ok (Some (s ++ [0], Z.of_nat (length s) + 1)).
Proof.
  intros [Ha Hal] [Hs Hsl]. unfold max_subject_length in *.
  assert (id_valid (bytes_of_string "subject")) as Hid1 by (split; [apply (bool_decide_unpack _); vm_compute; exact I|cbn; lia]).
  assert (id_valid (bytes_of_string "id")) as Hid2 by (split; [apply (bool_decide_unpack _); vm_compute; exact I|cbn; lia]).
  unfold observer_message. set (m0 := (setSubject Message_new admin).2).
  assert (built m0) as B0 by (apply built_subject; [apply built_new|done]).
  assert (m0 = set_subject Message_new admin) as E0.
  { unfold m0, setSubject, max_subject_length. by rewrite (proj2 (Z.ltb_lt _ _) Hal). }
  clearbody m0. subst m0. set (m0 := set_subject Message_new admin) in *.
  destruct (createDataField_string_ok (bytes_of_string "subject") s Hid1) as [e1 He1].
  destruct (createDataField_string_wf _ _ _ Hid1 Hs ltac:(lia) He1) as [_ Hi1].
  set (m1 := set_fields m0 [e1] (<[bytes_of_string "subject" := 0%nat]> ∅)).
  assert (addDataField_string m0 (bytes_of_string "subject") s = Ok (true, m1)) as A1.
  { unfold addDataField_string. rewrite He1. cbn. unfold insert_field. by rewrite Hi1, (lookup_empty (M := gmap _) _ : m_keys m0 !! _ = None). }
  assert (built m1) as B1.
  { eapply (built_add m0 (AddString (bytes_of_string "subject") s)); [done| | |exact A1].
    - split; [done|]. split; [done|lia].
    - by vm_compute. }
  rewrite A1. run_bind.
  destruct (ScalarField_new_ok (bytes_of_string "id") T_uint64 self ltac:(apply Hid2)) as [e2 He2].
  destruct (ScalarField_new_wf _ _ _ _ Hid2 He2) as [_ Hi2].
  assert (addScalarField m1 (bytes_of_string "id") T_uint64 self = Ok (insert_field m1 e2)) as A2
    by (unfold addScalarField; by rewrite He2).
  assert (insert_field m1 e2 = (true, (insert_field m1 e2).2)) as Ei
    by (unfold insert_field; rewrite Hi2; done).
  assert (m_payload (insert_field m1 e2).2 = [e1; e2]) as Ep by (unfold insert_field; rewrite Hi2; done).
  rewrite A2, Ei. run_bind. eexists. split; [done|]. split.
  { rewrite Ei in A2. refine (built_add m1 (AddScalar (bytes_of_string "id") T_uint64 self) _ _ B1 _ _ A2);
      [split; [exact Hid2|exact I]|by vm_compute]. }
  split; [unfold insert_field; rewrite Hi2; done|]. split; [by rewrite Ep|]. split.
  { rewrite Ep. assert (forall e, createDataField_string (bytes_of_string "subject") s = Ok e -> fields_in e = 1%nat) as F1.
    { intros e. unfold createDataField_string, SmallDataField_string, LargeDataField_string.
      destruct (Z.leb_spec (Z.of_nat (length s) + 1) SmallDataField_max_size).
      - cbn. destruct (_ <=? _); [|done]. by intros [= <-].
      - by intros [= <-]. }
    cbn [fmap list_fmap list_sum fold_right foldr]. rewrite (F1 _ He1).
    unfold ScalarField_new in He2. cbn in He2. by injection He2 as <-. }
  apply getDataField_insert; [apply built_inv, B1|].
  eapply (getDataField_string m0 _ _ _ (proj2 (built_inv _ B0)) Hs A1).
Qed.
End messages.

(** ** Connections that come back *)

Section reconnect.
Context `{Platform} (self : Z) (growth : nat -> nat).

Definition registration (l : Listener) (o : MessageEvent) (m : Message) : Prop :=
  exists s, l_subscribers l !! me_subscriber o = Some s /\
    observer_message self (bytes_of_string "_FP.REGISTER.OBSERVER") (sub_subject s) = Ok m.
Definition can_register (l : Listener) (o : MessageEvent) : Prop :=
  exists s, l_subscribers l !! me_subscriber o = Some s /\ text_ok (sub_subject s).

Lemma register_admin : text_ok (bytes_of_string "_FP.REGISTER.OBSERVER").
Proof. split; [apply (bool_decide_unpack _); vm_compute; exact I|by vm_compute]. Qed.
Lemma unregister_admin : text_ok (bytes_of_string "_FP.UNREGISTER.OBSERVER").
Proof. split; [apply (bool_decide_unpack _); vm_compute; exact I|by vm_compute]. Qed.

Lemma resubscribe_spec t obs : forall l x,
  l_transports l !! t = Some x -> Forall (can_register l) obs ->
  exists l' ms, resubscribe self l t obs = Ok l' /\ Forall2 (registration l) obs ms /\
    l_transports l' !! t = Some (mkTransportState (tr_manager x) (tr_valid x) (tr_sent x ++ ms)) /\
    l_connections l' = l_connections l /\ l_observers l' = l_observers l.
Proof.
  induction obs as [|o obs IH]; intros l x Hx Ho.
  - exists l, []. rewrite app_nil_r. by destruct x.
  - apply Forall_cons in Ho as [(s & Hs & Ht) Ho]. cbn [resubscribe]. unfold deref_subscriber, Subscriber_subject.
    rewrite Hs. run_bind. rewrite (proj2 (Z.ltb_lt _ _) (proj2 Ht)). run_bind.
    destruct (observer_message_spec self _ _ register_admin Ht) as (m & Em & _).
    unfold subscribe, send, deref_transport. rewrite Em. run_bind. rewrite Hx. run_bind.
    destruct (IH (set_transport l t (mkTransportState (tr_manager x) (tr_valid x) (tr_sent x ++ [m]))) _
      (lookup_insert_eq _ _ _) Ho) as (l' & ms & E & F & Et & Ec & Eo).
    exists l', (m :: ms). split; [exact E|]. split.
    + constructor; [by exists s|]. eapply Forall2_impl; [exact F|]. done.
    + split; [rewrite Et; cbn; by rewrite <- app_assoc|]. by rewrite Ec, Eo.
Qed.

(** After a connection is lost and made again every subscription is sent to
    the router again: on [CONNECTED] the receiver event is created anew and the
    transport is handed one register message per observer, in their order. *)
Theorem reconnect_resubscribes l t x obs i e :
  l_transports l !! t = Some x -> l_observers l !! t = Some obs -> Forall (can_register l) obs ->
  l_handlers l !! t = Some (i, l_storage l) -> l_connections l !! i = Some (t, e) ->
  exists l' ms, on_connected self l t = Ok l' /\ Forall2 (registration l) obs ms /\
    l_transports l' !! t = Some (mkTransportState (tr_manager x) (tr_valid x) (tr_sent x ++ ms)) /\
    l_connections l' = <[i := (t, tr_valid x)]> (l_connections l).
Proof.
  intros Hx Ho Hobs Hh Hc. unfold on_connected, deref_transport, set_event. rewrite Hh, Hx. run_bind. cbn [fst snd].
  rewrite Nat.eqb_refl, Hc. run_bind. cbn [l_observers set_connections]. rewrite Ho.
  destruct (resubscribe_spec t obs (set_connections l (<[i := (t, tr_valid x)]> (l_connections l))) x Hx Hobs)
    as (l' & ms & E & F & Et & Ec & _). exists l', ms. done.
Qed.

(** The notification handler of a transport does not outlive the registration
    of another one that makes the vector grow: its reference dangles. *)
Theorem notification_dangles l t t' x x' r manager :
  l_transports l !! t = Some x -> l_transports l !! t' = Some x' -> tr_manager x' = None -> t <> t' ->
  l_handlers l !! t = Some r -> r.2 = l_storage l -> length (l_connections l) = l_capacity l ->
  exists l', registerTransport growth l t' manager = Ok (true, l') /\
    on_connected self l' t = undefined UseAfterFree /\ on_disconnected l' t = undefined UseAfterFree.
Proof.
  intros Hx Hx' Hm Hne Hh Hr Hfull. unfold registerTransport, deref_transport. rewrite Hx'. run_bind. rewrite Hm.
  eexists. split; [done|]. unfold on_connected, on_disconnected, deref_transport, set_event, add_connection.
  cbn [l_handlers l_transports l_storage l_connections l_capacity set_transport].
  rewrite !lookup_insert_ne by done. rewrite Hh, Hx. run_bind. rewrite Hfull, Nat.eqb_refl, Hr.
  by rewrite (proj2 (Nat.eqb_neq (l_storage l) (S (l_storage l)))) by lia.
Qed.
End reconnect.

(** ** From the listener to the router *)

Section end_to_end.
Context `{Platform}.

Lemma update_peer_at f pre c post :
  Forall (fun x => peer_address x <> peer_address c) pre ->
  update_peer f (peer_address c) (pre ++ c :: post) = (c' ← f c; Ok (pre ++ c' :: post)).
Proof.
  induction pre as [|x pre IH]; intros Hp; cbn [app update_peer].
  - by rewrite bool_decide_eq_true_2.
  - apply Forall_cons in Hp as [Hx Hp]. rewrite bool_decide_eq_false_2 by done. rewrite (IH Hp).
    by destruct (f c).
Qed.

(** An administration message of the listener in the router's buffer. *)
Lemma admin_message_handled self admin s fuel h b rest cs a :
  text_ok admin -> text_ok s -> (length admin < fuel)%nat -> (2 <= fuel)%nat ->
  subj_is_admin (subject_new admin) = true ->
  exists m, observer_message self admin s = Ok m /\
    getDataField (received_message m) (Some (bytes_of_string "subject")) = Ok (Some (s ++ [0], Z.of_nat (length s) + 1)) /\
    (unread h b (wire_message m ++ rest) ->
     exists b', unread h b' rest /\
       process_buffer fuel h cs a b =
         (cs ← update_peer (fun c => handle_admin_message c (subject_new admin) (received_message m)) a cs;
          Ok (CompleteMessage, cs, b'))).
Proof.
  intros Ha Hs Hf1 Hf2 Hadm. destruct (observer_message_spec self admin s Ha Hs) as (m & E & B & Esub & Hne & Hn & Hg).
  destruct (built_inv _ B) as [W K]. exists m. split; [done|]. split; [by apply getDataField_received|].
  intros U. destruct (process_buffer_admin fuel h cs a b m rest W Hne U) as (b' & U' & _ & E');
    [by rewrite Esub|lia|by rewrite Esub|]. rewrite Esub in E'. eauto.
Qed.

(** C8: a subscription reaches the router.  The message [subscribe] hands to the
    transport, when the router reads it from the connection of the listener,
    adds the subscription to that connection and to no other, and from then on
    the connection is interested in every subject the subscription covers. *)
Theorem subscription_reaches_router self l t x s fuel h b rest pre c post :
  l_transports l !! t = Some x -> text_ok s -> (22 <= fuel)%nat ->
  Forall (fun y => peer_address y <> peer_address c) pre ->
  exists m l', subscribe self l t s = Ok l' /\
    l_transports l' !! t = Some (mkTransportState (tr_manager x) (tr_valid x) (tr_sent x ++ [m])) /\
    (unread h b (wire_message m ++ rest) ->
     exists sub b', subscription_new s = Ok sub /\ unread h b' rest /\
       process_buffer fuel h (pre ++ c :: post) (peer_address c) b =
         Ok (CompleteMessage, pre ++ set_subscriptions c (m_subscriptions c ++ [sub]) :: post, b') /\
       forall subj, covers s subj ->
         interested (set_subscriptions c (m_subscriptions c ++ [sub])) (subject_new subj) = true).
Proof.
  intros Hx Hs Hf Hpre.
  destruct (admin_message_handled self (bytes_of_string "_FP.REGISTER.OBSERVER") s fuel h b rest
    (pre ++ c :: post) (peer_address c) register_admin Hs) as (m & Em & Hg & Hb); [cbn; lia|lia|by vm_compute|].
  unfold subscribe, send, deref_transport. rewrite Em. run_bind. rewrite Hx. run_bind.
  exists m. eexists. split; [done|]. split; [apply lookup_insert_eq|]. intros U. destruct (Hb U) as (b' & U' & E').
  destruct (handle_register c (received_message m) s (proj1 Hs) Hg) as (sub & Esub & Eh).
  exists sub, b'. split; [done|]. split; [done|]. split.
  - rewrite E', update_peer_at by done.
    change (subject_new (bytes_of_string "_FP.REGISTER.OBSERVER")) with RegisterObserver. by rewrite Eh.
  - intros subj Hc. destruct (covers_matches_spec s subj (proj1 Hs) Hc) as (sub' & E1 & E2).
    rewrite Esub in E1. injection E1 as <-. unfold interested. cbn [m_subscriptions set_subscriptions].
    rewrite existsb_app. cbn. by rewrite E2, orb_true_r.
Qed.

(** An unsubscription does not reach the router: the message [unsubscribe]
    hands to the transport is read and consumed, and every connection keeps
    every subscription, so the router goes on forwarding. *)
Theorem unsubscription_lost self l t x s fuel h b rest pre c post :
  l_transports l !! t = Some x -> text_ok s -> (24 <= fuel)%nat ->
  Forall (fun y => peer_address y <> peer_address c) pre ->
  exists m l', unsubscribe self l t s = Ok l' /\
    l_transports l' !! t = Some (mkTransportState (tr_manager x) (tr_valid x) (tr_sent x ++ [m])) /\
    (unread h b (wire_message m ++ rest) ->
     exists b', unread h b' rest /\
       process_buffer fuel h (pre ++ c :: post) (peer_address c) b = Ok (CompleteMessage, pre ++ c :: post, b')).
Proof.
  intros Hx Hs Hf Hpre.
  destruct (admin_message_handled self (bytes_of_string "_FP.UNREGISTER.OBSERVER") s fuel h b rest
    (pre ++ c :: post) (peer_address c) unregister_admin Hs) as (m & Em & _ & Hb); [cbn; lia|lia|by vm_compute|].
  unfold unsubscribe, send, deref_transport. rewrite Em. run_bind. rewrite Hx. run_bind.
  exists m. eexists. split; [done|]. split; [apply lookup_insert_eq|]. intros U. destruct (Hb U) as (b' & U' & E').
  exists b'. split; [done|]. rewrite E', update_peer_at by done. unfold handle_admin_message.
  by change (subject_eq (subject_new (bytes_of_string "_FP.UNREGISTER.OBSERVER")) RegisterObserver) with false.
Qed.
End end_to_end.
