(* ===== verification/Poll.v ===== *)
(** * Poll: src/fastpath/event/PollManager.h and src/fastpath/event/arch/linux/PollManager.cpp

    The wrapper of epoll the event managers wait on.  The kernel's epoll
    instance is a parameter: class [Epoll] states what epoll_ctl(2) documents
    of it.  [EventPoll::run] takes what [epoll_wait] returned as an argument and
    hands the elements to the three service functions it is given. *)
From S2P Require Import Prelude Types.

(** ** The kernel *)

Inductive CtlResult := CtlOk | CtlBadFd | CtlError.
#[export] Instance CtlResult_eq_dec : EqDecision CtlResult.
Proof. solve_decision. Defined.

(** An epoll instance: its interest list (events and data word of each file
    descriptor) and [epoll_ctl] with [EPOLL_CTL_ADD] and [EPOLL_CTL_DEL]. *)
Class Epoll (K : Type) := {
  interest : K -> gmap Z (Z * Z);
  ctl_add : K -> Z -> Z * Z -> CtlResult * K;
  ctl_del : K -> Z -> CtlResult * K;
  ctl_add_ok k fd e k' : ctl_add k fd e = (CtlOk, k') -> interest k' = <[fd := e]> (interest k);
  ctl_add_exists k fd e k' :                               (* EEXIST *)
    ctl_add k fd e = (CtlOk, k') -> interest k !! fd = None;
  ctl_add_fails k fd e r k' : ctl_add k fd e = (r, k') -> r <> CtlOk -> interest k' = interest k;
  ctl_del_ok k fd k' : ctl_del k fd = (CtlOk, k') -> interest k' = delete fd (interest k);
  ctl_del_missing k fd k' :                                (* ENOENT *)
    ctl_del k fd = (CtlOk, k') -> is_Some (interest k !! fd);
  ctl_del_fails k fd r k' : ctl_del k fd = (r, k') -> r <> CtlOk -> interest k' = interest k
}.

Definition EPOLLIN : Z := 1.
Definition EPOLLOUT : Z := 4.
Definition EPOLLET : Z := Z.shiftl 1 31.

(** ** EventPoll *)

Definition TimerIdentifier : Z := Z.shiftl 1 33.
Definition SignalIdentifier : Z := Z.shiftl 2 33.

Record EventPoll (K : Type) := mkPoll { ep_fd : K; m_events : Z; m_err_count : Z }.
Arguments mkPoll {K} _ _ _.
Arguments ep_fd {K} _.
Arguments m_events {K} _.
Arguments m_err_count {K} _.

(** [has_bits v b]: [(v & b) == b]. *)
Definition has_bits (v b : Z) : bool := Z.land v b =? b.

(** The data words: [identifier | TimerIdentifier], with the [int] converted to
    [uint64_t], and the union member [fd] of a word set to zero before (its low
    half on a little-endian machine). *)
Definition timer_data (identifier : Z) : Z := Z.lor (u64 identifier) TimerIdentifier.
Definition signal_data (identifier : Z) : Z := Z.lor (u64 identifier) SignalIdentifier.
Definition io_data (identifier : Z) : Z := u32 identifier.
Definition data_fd (word : Z) : Z := to_signed 32 word.

Section poll.
Context {K : Type} `{Epoll K}.

(** The common end of the three [add] functions. *)
Definition poll_add (p : EventPoll K) (identifier events word : Z) : bool * EventPoll K :=
  let '(r, k) := ctl_add (ep_fd p) identifier (events, word) in
  if bool_decide (r = CtlOk) then (true, mkPoll k (m_events p + 1) (m_err_count p))
  else (false, mkPoll k (m_events p) (m_err_count p)).

Definition add_timer (p : EventPoll K) (identifier : Z) : bool * EventPoll K :=
  poll_add p identifier EPOLLIN (timer_data identifier).

Definition update_timer (p : EventPoll K) (identifier : Z) : bool * EventPoll K := (true, p).

Definition io_filter (filter : Z) : Z :=
  let f := EPOLLET in
  let f := if has_bits filter EventType_READ then Z.lor f EPOLLIN else f in
  if has_bits filter EventType_WRITE then Z.lor f EPOLLOUT else f.
Definition add_io (p : EventPoll K) (identifier filter : Z) : bool * EventPoll K :=
  poll_add p identifier (io_filter filter) (io_data identifier).

Definition add_signal (p : EventPoll K) (identifier : Z) : bool * EventPoll K :=
  poll_add p identifier EPOLLIN (signal_data identifier).

(** [remove] of a timer and of a signal ([EPOLL_CTL_DEL] ignores the event). *)
Definition remove_timer (p : EventPoll K) (identifier : Z) : bool * EventPoll K :=
  let '(r, k) := ctl_del (ep_fd p) identifier in
  if bool_decide (r = CtlOk) then (true, mkPoll k (m_events p - 1) (m_err_count p))
  else (false, mkPoll k (m_events p) (m_err_count p)).
Definition remove_signal (p : EventPoll K) (identifier : Z) : bool * EventPoll K :=
  remove_timer p identifier.

(** [remove] of an IO element: a closed descriptor counts as removed. *)
Definition remove_io (p : EventPoll K) (identifier : Z) : bool * EventPoll K :=
  let '(r, k) := ctl_del (ep_fd p) identifier in
  if bool_decide (r = CtlError) then (false, mkPoll k (m_events p) (m_err_count p))
  else (true, mkPoll k (m_events p - 1) (m_err_count p)).

(** ** EventPoll::run *)

Inductive PollElement :=
  | TimerElement (identifier : Z)
  | SignalElement (identifier : Z)
  | IOElement (identifier filter : Z)
  | NoElement.

Definition ready_filter (events : Z) : Z :=
  let f := EventType_NONE in
  let f := if has_bits events EPOLLIN then Z.lor f EventType_READ else f in
  if has_bits events EPOLLOUT then Z.lor f EventType_WRITE else f.

(** The case distinction of the loop body on one [epoll_event]. *)
Definition classify (events word : Z) : PollElement :=
  let filter := ready_filter events in
  if has_bits word TimerIdentifier then TimerElement (data_fd word)
  else if has_bits word SignalIdentifier then SignalElement (data_fd word)
  else if negb (filter =? EventType_NONE) then IOElement (data_fd word) filter
  else NoElement.

Inductive WaitResult := Ready (l : list (Z * Z)) | WaitError (interrupted : bool).

Context {St : Type}.

(** The service functions [run] is given; [sig_read fd] is the signal number
    read from a signal descriptor. *)
Record Services := {
  io_events : St -> Z -> Z -> outcome St;
  timer_events : St -> Z -> outcome St;
  signal_events : St -> Z -> Z -> outcome St
}.

Fixpoint run_events (s : Services) (sig_read : Z -> Z) (st : St) (l : list (Z * Z)) : outcome St :=
  match l with
  | [] => Ok st
  | (events, word) :: l =>
      st ← match classify events word with
           | TimerElement id => timer_events s st id
           | SignalElement id => signal_events s st id (sig_read id)
           | IOElement id filter => io_events s st id filter
           | NoElement => Ok st
           end;
      run_events s sig_read st l
  end.

Definition run (s : Services) (sig_read : Z -> Z) (p : EventPoll K) (st : St) (w : WaitResult)
    : outcome (Z * EventPoll K * St) :=
  if m_events p =? 0 then Ok (0, p, st) else
  match w with
  | Ready [] => Ok (0, p, st)
  | Ready l => st ← run_events s sig_read st l; Ok (0, mkPoll (ep_fd p) (m_events p) 0, st)
  | WaitError interrupted =>
      if interrupted && (m_err_count p <? 10)
      then Ok (0, mkPoll (ep_fd p) (m_events p) (m_err_count p + 1), st)
      else Ok (-1, p, st)
  end.
End poll.
Arguments Services : clear implicits.

(** ** Data words *)

Definition is_fd (fd : Z) : Prop := 0 <= fd < 2 ^ 31.

Lemma fd_high_bit fd i : is_fd fd -> 31 <= i -> Z.testbit fd i = false.
Proof.
  intros Hfd Hi. rewrite <- (Z.mod_small fd (2 ^ 31)) by exact Hfd.
  by rewrite Z.mod_pow2_bits_high by lia.
Qed.

Lemma fd_word fd : is_fd fd -> u64 fd = fd /\ u32 fd = fd.
Proof. unfold is_fd. intros. split; apply wrap_small; lia. Qed.

(** Masking a descriptor with one high bit set. *)
Lemma land_flag fd m n : is_fd fd -> 31 <= m -> 31 <= n ->
  Z.land (Z.lor fd (Z.shiftl 1 m)) (Z.shiftl 1 n) = if m =? n then Z.shiftl 1 n else 0.
Proof.
  intros Hfd Hm Hn. apply Z.bits_inj'. intros i Hi.
  rewrite Z.land_spec, Z.lor_spec, !Z.shiftl_spec by lia.
  assert (forall k, Z.testbit 1 k = (k =? 0)) as H1.
  { intros k. by destruct k as [|[]|]. }
  destruct (Z.eqb_spec m n) as [->|Hne]; rewrite ?Z.shiftl_spec, ?Z.bits_0, !H1 by lia.
  - destruct (Z.eqb_spec (i - n) 0); [by rewrite orb_true_r|by rewrite andb_false_r].
  - destruct (Z.eqb_spec (i - n) 0) as [E|]; [|by rewrite andb_false_r].
    rewrite fd_high_bit by (done || lia). destruct (Z.eqb_spec (i - m) 0); [lia|done].
Qed.

Lemma data_fd_flag fd m : is_fd fd -> 32 <= m -> data_fd (Z.lor fd (Z.shiftl 1 m)) = fd.
Proof.
  intros Hfd Hm. unfold data_fd.
  assert (wrap 32 (Z.lor fd (Z.shiftl 1 m)) = fd) as E.
  { unfold wrap. apply Z.bits_inj'. intros i Hi. destruct (Z.ltb_spec i 32).
    - rewrite Z.mod_pow2_bits_low, Z.lor_spec, Z.shiftl_spec by lia.
      by rewrite (Z.testbit_neg_r 1) by lia; rewrite orb_false_r.
    - rewrite Z.mod_pow2_bits_high by lia. symmetry. apply fd_high_bit; [done|lia]. }
  rewrite <- to_signed_wrap, E. unfold is_fd in Hfd. apply to_signed_small; simpl; lia.
Qed.

(** The kind and the descriptor of an element survive the round trip through
    the 64 bit data word: what [run] reads off the word that [add] of a timer, a
    signal or an IO element registered is that element, whatever events are
    reported (for an IO element at least one of read and write). *)
Theorem poll_element_roundtrip fd events :
  is_fd fd ->
  classify events (timer_data fd) = TimerElement fd /\
  classify events (signal_data fd) = SignalElement fd /\
  (ready_filter events <> EventType_NONE ->
   classify events (io_data fd) = IOElement fd (ready_filter events)).
Proof.
  intros Hfd. destruct (fd_word fd Hfd) as [E64 E32].
  unfold classify, has_bits, timer_data, signal_data, io_data. rewrite E64, E32.
  change SignalIdentifier with (Z.shiftl 1 34). unfold TimerIdentifier.
  rewrite !land_flag, !data_fd_flag by (done || lia). split; [done|]. split; [done|].
  intros Hf. assert (forall m, 31 <= m -> Z.land fd (Z.shiftl 1 m) = 0) as L.
  { intros m Hm. apply Z.bits_inj'. intros i Hi. rewrite Z.land_spec, Z.bits_0.
    destruct (Z.ltb_spec i m).
    - rewrite Z.shiftl_spec, (Z.testbit_neg_r 1) by lia. apply andb_false_r.
    - by rewrite fd_high_bit by (done || lia). }
  rewrite !L by lia. cbn. rewrite (proj2 (Z.eqb_neq _ _) Hf). cbn. f_equal.
  unfold data_fd, is_fd in *. apply to_signed_small; simpl; lia.
Qed.

Lemma poll_element_roundtrip_witness :
  classify EPOLLIN (timer_data 7) = TimerElement 7 /\ classify EPOLLIN (io_data 7) = IOElement 7 1.
Proof.
  destruct (poll_element_roundtrip 7 EPOLLIN) as (H1 & _ & H2); [split; reflexivity || discriminate|].
  split; [exact H1|]. apply H2. discriminate.
Defined.

(** ** The number of registered elements *)

Section counting.
Context {K : Type} `{Epoll K}.

Definition poll_counts (p : EventPoll K) : Prop := m_events p = Z.of_nat (size (interest (ep_fd p))).

Lemma poll_add_counts p fd e w : poll_counts p -> poll_counts (poll_add p fd e w).2.
Proof.
  unfold poll_counts, poll_add. intros Hc. destruct (ctl_add (ep_fd p) fd (e, w)) as [r k] eqn:E.
  case_bool_decide as Hr; cbn.
  - subst r. rewrite (ctl_add_ok _ _ _ _ E), map_size_insert_None by by eapply ctl_add_exists. lia.
  - by rewrite (ctl_add_fails _ _ _ _ _ E Hr).
Qed.

Lemma del_counts k fd r k' :
  ctl_del k fd = (r, k') -> r <> CtlBadFd ->
  Z.of_nat (size (interest k')) = Z.of_nat (size (interest k)) - (if bool_decide (r = CtlOk) then 1 else 0).
Proof.
  intros E Hb. case_bool_decide as Hr.
  - subst r. destruct (ctl_del_missing _ _ _ E) as [x Hx].
    rewrite (ctl_del_ok _ _ _ E), map_size_delete, Hx. cbn.
    assert (size (interest k) <> 0)%nat by (apply (map_size_ne_0_lookup_2 _ fd); by rewrite Hx). lia.
  - rewrite (ctl_del_fails _ _ _ _ E Hr). lia.
Qed.

(** The counter by which [run] decides whether there is anything to wait
    for is the size of the kernel's interest list: every [add] and [remove]
    keeps it so, whether the system call succeeds or not, as long as no
    registered descriptor was closed behind it. *)
Theorem poll_counts_interest p fd e w :
  poll_counts p -> (ctl_del (ep_fd p) fd).1 <> CtlBadFd ->
  poll_counts (poll_add p fd e w).2 /\ poll_counts (remove_timer p fd).2 /\ poll_counts (remove_io p fd).2.
Proof.
  intros Hc Hb. split; [by apply poll_add_counts|]. unfold poll_counts, remove_timer, remove_io in *.
  destruct (ctl_del (ep_fd p) fd) as [r k] eqn:E. cbn in Hb. pose proof (del_counts _ _ _ _ E Hb) as Hd.
  split; repeat case_bool_decide; cbn; destruct r; done || lia.
Qed.
End counting.

(** An epoll instance that refuses nothing but what it has to. *)
#[export, refine] Instance simple_epoll : Epoll (gmap Z (Z * Z)) := {
  interest k := k;
  ctl_add k fd e := match k !! fd with Some _ => (CtlError, k) | None => (CtlOk, <[fd := e]> k) end;
  ctl_del k fd := match k !! fd with Some _ => (CtlOk, delete fd k) | None => (CtlError, k) end
}.
Proof.
  all: intros k fd *; destruct (k !! fd) eqn:E; intros; simplify_eq; eauto.
Defined.

Lemma poll_counts_interest_witness :
  let p := (poll_add (mkPoll (∅ : gmap Z (Z * Z)) 0 0) 5 EPOLLIN 5).2 in
  m_events p = 1 /\ poll_counts (remove_io p 5).2.
Proof.
  split; [reflexivity|]. apply (poll_counts_interest _ 5 0 0); [|vm_compute; discriminate].
  apply (poll_counts_interest _ 5 EPOLLIN 5); [reflexivity|vm_compute; discriminate].
Defined.
