(* ===== verification/PollSelect.v ===== *)
(** * PollSelect: src/fastpath/event/PollManager_select.h

    The poll manager over select(2).  [fd_set] is a finite set of descriptors
    below [FD_SETSIZE]; [FD_SET], [FD_CLR] and [FD_ISSET] outside that range are
    undefined behaviour.  The calls of [select] are an argument: the list of
    their results, of which the loop of [run] drops the interrupted ones.  The
    element type is the pair of members the file uses of it ([EventPollElement]
    itself is declared nowhere in the repository, and no file includes this
    header). *)
From S2P Require Import Prelude Types Poll.

Definition FD_SETSIZE : Z := 1024.
Definition fd_ok (fd : Z) : bool := (0 <=? fd) && (fd <? FD_SETSIZE).

Definition FD_SET (fd : Z) (s : gset Z) : outcome (gset Z) :=
  if fd_ok fd then Ok ({[fd]} ∪ s) else undefined OutOfBounds.
Definition FD_CLR (fd : Z) (s : gset Z) : outcome (gset Z) :=
  if fd_ok fd then Ok (s ∖ {[fd]}) else undefined OutOfBounds.
Definition FD_ISSET (fd : Z) (s : gset Z) : outcome bool :=
  if fd_ok fd then Ok (bool_decide (fd ∈ s)) else undefined OutOfBounds.

Record EventPollElement := mkElement { el_fd : Z; el_filter : Z }.
#[export] Instance EventPollElement_eq_dec : EqDecision EventPollElement.
Proof. solve_decision. Defined.

Record SelectPoll := mkSelect { m_readSet : gset Z; m_writeSet : gset Z; m_fdmax : Z }.
#[export] Instance SelectPoll_eq_dec : EqDecision SelectPoll.
Proof. solve_decision. Defined.

Definition select_new : SelectPoll := mkSelect ∅ ∅ 0.

Definition reads (filter : Z) : bool := has_bits filter EventType_READ.
Definition writes (filter : Z) : bool := has_bits filter EventType_WRITE.

Definition select_add (p : SelectPoll) (event : EventPollElement) : outcome (bool * SelectPoll) :=
  r ← if reads (el_filter event) then FD_SET (el_fd event) (m_readSet p) else Ok (m_readSet p);
  w ← if writes (el_filter event) then FD_SET (el_fd event) (m_writeSet p) else Ok (m_writeSet p);
  Ok (true, mkSelect r w (Z.max (m_fdmax p) (el_fd event))).

(** The loop [for (i = 0; i < event.fd; i++)], with [n] turns left. *)
Fixpoint fdmax_loop (r w : gset Z) (n : nat) (i fdmax : Z) : outcome Z :=
  match n with
  | O => Ok fdmax
  | S n =>
      a ← FD_ISSET i r;
      b ← if (a : bool) then Ok true else FD_ISSET i w;
      fdmax_loop r w n (i + 1) (if (b : bool) then Z.max i fdmax else fdmax)
  end.

Definition select_remove (p : SelectPoll) (event : EventPollElement) : outcome (bool * SelectPoll) :=
  r ← if reads (el_filter event) then FD_CLR (el_fd event) (m_readSet p) else Ok (m_readSet p);
  w ← if writes (el_filter event) then FD_CLR (el_fd event) (m_writeSet p) else Ok (m_writeSet p);
  fdmax ← if m_fdmax p =? el_fd event
          then fdmax_loop r w (Z.to_nat (el_fd event)) 0 (m_fdmax p) else Ok (m_fdmax p);
  Ok (true, mkSelect r w fdmax).

(** ** run *)

Record timeval := mkTimeval { tv_sec : Z; tv_usec : Z }.

(** The conversion of a [steady_clock::duration] (nanoseconds); [None] is
    [DistantFuture].  [duration_cast] truncates towards zero. *)
Definition timeval_of (duration : Z) : timeval :=
  if duration =? 0 then mkTimeval 0 0
  else mkTimeval (Z.quot duration 1000000000)
         (Z.quot duration 1000 - Z.quot duration 1000000000 * 1000000).
Definition timeout_ptr (duration : option Z) : option timeval := timeval_of <$> duration.

(** What one call of [select] answers: the number of bits set in the two sets it
    leaves behind, or an error. *)
Inductive SelectResult :=
  | Selected (count : Z) (r w : gset Z)
  | SelectFailed (again : bool).

Fixpoint ready_loop (r w : gset Z) (n : nat) (j : Z) (events : list EventPollElement) (numEvents : Z)
    : outcome (list EventPollElement * Z) :=
  match n with
  | O => Ok (events, numEvents)
  | S n =>
      a ← FD_ISSET j r;
      b ← FD_ISSET j w;
      let filter := if (a : bool) then Z.lor EventType_NONE EventType_READ else EventType_NONE in
      let filter := if (b : bool) then Z.lor filter EventType_WRITE else filter in
      if filter =? EventType_NONE then ready_loop r w n (j + 1) events numEvents
      else if (0 <=? numEvents) && (numEvents <? Z.of_nat (length events)) then
        ready_loop r w n (j + 1) (<[Z.to_nat numEvents := mkElement j filter]> events) (numEvents + 1)
      else undefined OutOfBounds
  end.

(** [calls] are the answers of the successive calls of [select]; the restart
    loop takes the first that is not an interruption. *)
Fixpoint select_run (p : SelectPoll) (calls : list SelectResult) (events : list EventPollElement) (numEvents : Z)
    : outcome (Z * list EventPollElement * Z) :=
  match calls with
  | [] => Err OutOfFuel
  | SelectFailed true :: calls => select_run p calls events numEvents
  | SelectFailed false :: _ => Ok (-1, events, numEvents)
  | Selected count r w :: _ =>
      if count =? 0 then Ok (0, events, numEvents)
      else '(events, numEvents) ← ready_loop r w (Z.to_nat (m_fdmax p + 1)) 0 events 0;
           Ok (0, events, numEvents)
  end.

(** ** The registered descriptors *)

(** The descriptors are in range and not above [m_fdmax]: what [select] is
    called with and the loop of [run] goes through covers all of them. *)
Record select_wf (p : SelectPoll) : Prop := {
  wf_fdmax : 0 <= m_fdmax p < FD_SETSIZE;
  wf_sets fd : fd ∈ m_readSet p ∪ m_writeSet p -> 0 <= fd <= m_fdmax p
}.

Lemma fd_ok_range fd : fd_ok fd = true <-> 0 <= fd < FD_SETSIZE.
Proof. unfold fd_ok. rewrite andb_true_iff, Z.leb_le, Z.ltb_lt. done. Qed.

Lemma fd_ok_true fd : 0 <= fd < FD_SETSIZE -> fd_ok fd = true.
Proof. apply fd_ok_range. Qed.

(** The loop of [remove] starts from the old maximum, which no smaller
    descriptor exceeds. *)
Lemma fdmax_loop_same r w n i fdmax :
  0 <= i -> i + Z.of_nat n <= FD_SETSIZE -> i + Z.of_nat n <= fdmax + 1 ->
  fdmax_loop r w n i fdmax = Ok fdmax.
Proof.
  revert i. induction n as [|n IH]; intros i Hi Hn Hm; [done|]. cbn [fdmax_loop]. unfold FD_ISSET.
  rewrite fd_ok_true by lia. run_bind.
  destruct (bool_decide (i ∈ r)); run_bind; [|destruct (bool_decide (i ∈ w))];
    rewrite ?Z.max_r by lia; apply IH; lia.
Qed.

Definition add_if (b : bool) (fd : Z) (s : gset Z) : gset Z := if b then {[fd]} ∪ s else s.
Definition remove_if (b : bool) (fd : Z) (s : gset Z) : gset Z := if b then s ∖ {[fd]} else s.

Lemma select_add_eq p fd filter :
  0 <= fd < FD_SETSIZE ->
  select_add p (mkElement fd filter) =
    Ok (true, mkSelect (add_if (reads filter) fd (m_readSet p)) (add_if (writes filter) fd (m_writeSet p))
                (Z.max (m_fdmax p) fd)).
Proof.
  intros Hfd. unfold select_add, FD_SET, add_if. cbn [el_fd el_filter]. rewrite fd_ok_true by done.
  destruct (reads filter), (writes filter); done.
Qed.

Lemma select_remove_eq p fd filter :
  0 <= fd < FD_SETSIZE ->
  select_remove p (mkElement fd filter) =
    Ok (true, mkSelect (remove_if (reads filter) fd (m_readSet p)) (remove_if (writes filter) fd (m_writeSet p))
                (m_fdmax p)).
Proof.
  intros Hfd. unfold select_remove, FD_CLR, remove_if. cbn [el_fd el_filter]. rewrite fd_ok_true by done.
  destruct (Z.eqb_spec (m_fdmax p) fd) as [->|].
  - destruct (reads filter), (writes filter); run_bind; rewrite fdmax_loop_same by lia; done.
  - destruct (reads filter), (writes filter); done.
Qed.

(** [remove] never lowers [m_fdmax], although it goes through the descriptors
    left to compute it again. *)
Theorem remove_keeps_fdmax p fd filter p' :
  0 <= fd < FD_SETSIZE -> select_remove p (mkElement fd filter) = Ok (true, p') -> m_fdmax p' = m_fdmax p.
Proof. intros Hfd. rewrite select_remove_eq by done. by intros [= <-]. Qed.

Inductive select_op := Add (event : EventPollElement) | Remove (event : EventPollElement).
Definition op_event (o : select_op) : EventPollElement := match o with Add e | Remove e => e end.
Definition select_perform (p : SelectPoll) (o : select_op) : outcome SelectPoll :=
  snd <$> match o with Add e => select_add p e | Remove e => select_remove p e end.
Fixpoint select_performs (p : SelectPoll) (os : list select_op) : outcome SelectPoll :=
  match os with [] => Ok p | o :: os => p ← select_perform p o; select_performs p os end.

(** What a program has registered: the last operation on a descriptor decides. *)
Definition select_registers (bit : Z -> bool) (s : gset Z) (o : select_op) : gset Z :=
  match o with
  | Add e => add_if (bit (el_filter e)) (el_fd e) s
  | Remove e => remove_if (bit (el_filter e)) (el_fd e) s
  end.

Lemma select_perform_wf p o :
  select_wf p -> 0 <= el_fd (op_event o) < FD_SETSIZE ->
  exists p', select_perform p o = Ok p' /\ select_wf p' /\
    m_readSet p' = select_registers reads (m_readSet p) o /\
    m_writeSet p' = select_registers writes (m_writeSet p) o.
Proof.
  intros [Hm Hs] Hfd. unfold select_perform. destruct o as [[fd filter]|[fd filter]]; cbn in Hfd.
  - rewrite select_add_eq by done. eexists. split; [done|]. split; [|done]. split; cbn; [lia|].
    intros x Hx. assert (x = fd \/ x ∈ m_readSet p ∪ m_writeSet p) as [->|H].
    { unfold add_if in Hx. destruct (reads filter), (writes filter); set_solver. }
    + lia.
    + specialize (Hs _ H). lia.
  - rewrite select_remove_eq by done. eexists. split; [done|]. split; [|done]. split; cbn; [lia|].
    intros x Hx. apply Hs. unfold remove_if in Hx. destruct (reads filter), (writes filter); set_solver.
Qed.

Lemma select_new_wf : select_wf select_new.
Proof. split; cbn; unfold FD_SETSIZE; [lia|set_solver]. Qed.

Lemma select_performs_wf os p :
  select_wf p -> Forall (fun o => 0 <= el_fd (op_event o) < FD_SETSIZE) os ->
  exists p', select_performs p os = Ok p' /\ select_wf p' /\
    m_readSet p' = foldl (select_registers reads) (m_readSet p) os /\
    m_writeSet p' = foldl (select_registers writes) (m_writeSet p) os.
Proof.
  intros Hp Hos. revert p Hp. induction Hos as [|o os Ho _ IH]; intros p Hp; [by exists p|].
  destruct (select_perform_wf p o Hp Ho) as (p1 & E1 & Hp1 & Hr & Hw). cbn [select_performs foldl].
  rewrite (bind_Ok_eq _ _ _ E1), <- Hr, <- Hw. by apply IH.
Qed.

(** ** What [run] reports *)

Definition ready_mask (r w : gset Z) (j : Z) : Z :=
  Z.lor (if bool_decide (j ∈ r) then EventType_READ else EventType_NONE)
        (if bool_decide (j ∈ w) then EventType_WRITE else EventType_NONE).

(** The elements of the ready descriptors, in ascending order. *)
Definition ready_elements (r w : gset Z) (j : Z) (n : nat) : list EventPollElement :=
  (fun j => mkElement j (ready_mask r w j)) <$>
    filter (fun j => j ∈ r ∪ w) ((fun k => j + Z.of_nat k) <$> seq 0 n).

Lemma ready_elements_S r w j n :
  ready_elements r w j (S n) =
    (if bool_decide (j ∈ r ∪ w) then [mkElement j (ready_mask r w j)] else []) ++
    ready_elements r w (j + 1) n.
Proof.
  unfold ready_elements. cbn [seq fmap list_fmap]. rewrite Z.add_0_r, filter_cons.
  replace ((fun k => j + Z.of_nat k) <$> seq 1 n) with ((fun k => j + 1 + Z.of_nat k) <$> seq 0 n).
  - case_decide; by rewrite ?bool_decide_true, ?bool_decide_false by done.
  - rewrite <- fmap_S_seq, <- list_fmap_compose. apply list_fmap_ext. intros _ k _. cbn. lia.
Qed.

Lemma ready_loop_spec r w n : forall j events k,
  0 <= j -> j + Z.of_nat n <= FD_SETSIZE ->
  (k + length (ready_elements r w j n) <= length events)%nat ->
  ready_loop r w n j events (Z.of_nat k) =
    Ok (take k events ++ ready_elements r w j n ++ drop (k + length (ready_elements r w j n)) events,
        Z.of_nat (k + length (ready_elements r w j n))).
Proof.
  induction n as [|n IH]; intros j events k Hj Hn Hk.
  { cbn [ready_loop]. unfold ready_elements at 1 2 3. cbn. by rewrite Nat.add_0_r, take_drop. }
  rewrite ready_elements_S in Hk |- *. cbn [ready_loop]. unfold FD_ISSET. rewrite fd_ok_true by lia. run_bind.
  set (f := ready_mask r w j).
  assert ((if bool_decide (j ∈ w) then Z.lor (if bool_decide (j ∈ r) then Z.lor EventType_NONE EventType_READ else EventType_NONE) EventType_WRITE
     else (if bool_decide (j ∈ r) then Z.lor EventType_NONE EventType_READ else EventType_NONE)) = f) as ->.
  { unfold f, ready_mask. repeat case_bool_decide; done. }
  assert ((f =? EventType_NONE) = negb (bool_decide (j ∈ r ∪ w))) as ->.
  { unfold f, ready_mask. repeat case_bool_decide; try done; set_solver. }
  case_bool_decide as Hin; cbn [negb app length] in *; [|by apply IH; lia].
  rewrite (proj2 (andb_true_iff _ _)) by (rewrite Z.leb_le, Z.ltb_lt; lia).
  rewrite Nat2Z.id. replace (Z.of_nat k + 1) with (Z.of_nat (S k)) by lia.
  rewrite IH by (rewrite ?length_insert; lia). do 2 f_equal; [|lia].
  rewrite drop_insert_lt by lia. rewrite (take_S_r _ _ (mkElement j f)).
  - rewrite take_insert_ge by lia. rewrite <- app_assoc. cbn [app]. do 4 f_equal. lia.
  - apply list_lookup_insert_eq. lia.
Qed.

Lemma ready_loop_overflow r w n : forall j events k,
  0 <= j -> j + Z.of_nat n <= FD_SETSIZE -> (k <= length events)%nat ->
  (length events < k + length (ready_elements r w j n))%nat ->
  ready_loop r w n j events (Z.of_nat k) = undefined OutOfBounds.
Proof.
  induction n as [|n IH]; intros j events k Hj Hn Hk Ho.
  { unfold ready_elements in Ho. cbn in Ho. lia. }
  rewrite ready_elements_S, length_app in Ho. cbn [ready_loop]. unfold FD_ISSET. rewrite fd_ok_true by lia. run_bind.
  destruct (bool_decide_reflect (j ∈ r)), (bool_decide_reflect (j ∈ w));
    (case_bool_decide; [|try set_solver]); cbn [length Z.eqb] in *; try set_solver; cbn -[ready_loop Z.ltb Z.leb];
    try (apply IH; lia);
    (destruct (Z.ltb_spec (Z.of_nat k) (Z.of_nat (length events)));
     [|rewrite andb_false_r; done]);
    rewrite (proj2 (Z.leb_le _ _)) by lia; cbn [andb];
    replace (Z.of_nat k + 1) with (Z.of_nat (S k)) by lia; apply IH; rewrite ?length_insert; lia.
Qed.

(** All descriptors a set can hold. *)
Definition all_ready (r w : gset Z) : list EventPollElement := ready_elements r w 0 (Z.to_nat FD_SETSIZE).

Lemma ready_elements_app r w j n m :
  ready_elements r w j (n + m) = ready_elements r w j n ++ ready_elements r w (j + Z.of_nat n) m.
Proof.
  revert j. induction n as [|n IH]; intros j.
  - unfold ready_elements at 2. cbn. by rewrite Z.add_0_r.
  - cbn [plus]. rewrite !ready_elements_S, IH, <- app_assoc. do 3 f_equal. lia.
Qed.

Lemma ready_elements_nil r w j n :
  (forall fd, fd ∈ r ∪ w -> fd < j) -> ready_elements r w j n = [].
Proof.
  revert j. induction n as [|n IH]; intros j Hj; [done|]. rewrite ready_elements_S.
  case_bool_decide as Hin; [specialize (Hj _ Hin); lia|].
  apply IH. intros fd Hfd. specialize (Hj _ Hfd). lia.
Qed.

(** The loop of [run], which stops at [m_fdmax], misses nothing. *)
Lemma all_ready_upto r w m :
  0 <= m < FD_SETSIZE -> (forall fd, fd ∈ r ∪ w -> fd <= m) ->
  all_ready r w = ready_elements r w 0 (Z.to_nat (m + 1)).
Proof.
  intros Hm Hs. unfold all_ready.
  replace (Z.to_nat FD_SETSIZE) with (Z.to_nat (m + 1) + Z.to_nat (FD_SETSIZE - (m + 1)))%nat by lia.
  rewrite ready_elements_app, (ready_elements_nil r w (0 + _)), app_nil_r; [done|].
  intros fd Hfd. specialize (Hs _ Hfd). lia.
Qed.

Lemma elem_of_ready_elements r w j n fd :
  fd ∈ el_fd <$> ready_elements r w j n <-> fd ∈ r ∪ w /\ j <= fd < j + Z.of_nat n.
Proof.
  unfold ready_elements. rewrite <- list_fmap_compose, list_elem_of_fmap. cbn. split.
  - intros (x & -> & Hx). apply list_elem_of_filter in Hx as [H1 H2].
    apply list_elem_of_fmap in H2 as (k & -> & Hk%elem_of_seq). split; [done|lia].
  - intros [H1 H2]. exists fd. split; [done|]. apply list_elem_of_filter. split; [done|].
    apply list_elem_of_fmap. exists (Z.to_nat (fd - j)). split; [lia|]. apply elem_of_seq. lia.
Qed.

Lemma ready_elements_NoDup r w j n : NoDup (el_fd <$> ready_elements r w j n).
Proof.
  unfold ready_elements. rewrite <- list_fmap_compose. apply NoDup_fmap_2; [by intros ??|].
  apply NoDup_filter, NoDup_fmap_2; [intros ???; lia|apply NoDup_seq].
Qed.

(** As many elements as there are ready descriptors. *)
Lemma length_all_ready r w :
  (forall fd, fd ∈ r ∪ w -> 0 <= fd < FD_SETSIZE) -> length (all_ready r w) = size (r ∪ w).
Proof.
  intros Hs. rewrite <- (length_fmap el_fd), <- (size_list_to_set (C := gset Z)) by apply ready_elements_NoDup.
  f_equal. apply set_eq. intros fd. rewrite elem_of_list_to_set. unfold all_ready.
  rewrite elem_of_ready_elements. specialize (Hs fd). naive_solver lia.
Qed.

(** What select(2) promises of an answer to the call with the sets of [p]: the
    sets it leaves are subsets of those it was given, and the result counts them. *)
Definition select_answer (p : SelectPoll) (count : Z) (r w : gset Z) : Prop :=
  r ⊆ m_readSet p /\ w ⊆ m_writeSet p /\ count = Z.of_nat (size r + size w).

Section run.
Context (p : SelectPoll) (interrupted : nat) (count : Z) (r w : gset Z) (rest : list SelectResult).
Context (Hp : select_wf p) (Ha : select_answer p count r w).
Abbreviation calls := (replicate interrupted (SelectFailed true) ++ Selected count r w :: rest).

Lemma select_answer_range fd : fd ∈ r ∪ w -> 0 <= fd <= m_fdmax p.
Proof. intros Hin. apply (wf_sets _ Hp). destruct Ha as (H1 & H2 & _). set_solver. Qed.

Context (Hc : count <> 0).

Lemma select_run_calls events n0 :
  select_run p calls events n0 =
    '(events, n) ← ready_loop r w (Z.to_nat (m_fdmax p + 1)) 0 events 0; Ok (0, events, n).
Proof.
  induction interrupted as [|k IH]; cbn [replicate app select_run]; [|done].
  by rewrite (proj2 (Z.eqb_neq _ _) Hc).
Qed.

Lemma select_run_spec events n0 :
  select_run p calls events n0 =
    if (size (r ∪ w) <=? length events)%nat
    then Ok (0, all_ready r w ++ drop (size (r ∪ w)) events, Z.of_nat (size (r ∪ w)))
    else undefined OutOfBounds.
Proof.
  pose proof (wf_fdmax _ Hp) as Hm. rewrite select_run_calls, <- length_all_ready.
  2:{ intros fd Hfd%select_answer_range. lia. }
  rewrite (all_ready_upto _ _ (m_fdmax p)) by (done || intros fd Hfd%select_answer_range; lia).
  destruct (Nat.leb_spec (length (ready_elements r w 0 (Z.to_nat (m_fdmax p + 1)))) (length events)).
  - by rewrite (ready_loop_spec _ _ _ _ _ 0) by lia.
  - by rewrite (ready_loop_overflow _ _ _ _ _ 0) by lia.
Qed.
End run.

Lemma select_run_nothing p interrupted r w rest events n0 :
  select_run p (replicate interrupted (SelectFailed true) ++ Selected 0 r w :: rest) events n0 = Ok (0, events, n0).
Proof. by induction interrupted. Qed.

(** C32: whatever descriptors a program registers and removes below FD_SETSIZE,
    [run] returns after the interruptions of [select] with exactly the ready
    descriptors, each once, in ascending order and with the events [select]
    reported, in the first [numEvents] places of the array; the rest of the array
    stays.  More ready descriptors than the array has places are written out of
    its bounds.  When nothing is ready within the timeout [run] returns with the array
    and the number of events of the turn before. *)
Theorem select_run_reports os p interrupted count r w rest events n0 :
  Forall (fun o => 0 <= el_fd (op_event o) < FD_SETSIZE) os ->
  select_performs select_new os = Ok p ->
  select_answer p count r w ->
  (forall fd, fd ∈ el_fd <$> all_ready r w <-> fd ∈ r ∪ w) /\ NoDup (el_fd <$> all_ready r w) /\
  (forall e, e ∈ all_ready r w -> el_filter e = ready_mask r w (el_fd e)) /\
  select_run p (replicate interrupted (SelectFailed true) ++ Selected count r w :: rest) events n0 =
    if count =? 0 then Ok (0, events, n0)
    else if (size (r ∪ w) <=? length events)%nat
    then Ok (0, all_ready r w ++ drop (size (r ∪ w)) events, Z.of_nat (size (r ∪ w)))
    else undefined OutOfBounds.
Proof.
  intros Hos E Ha. destruct (select_performs_wf os select_new select_new_wf Hos) as (p' & E' & Hp & _).
  rewrite E in E'. injection E' as <-.
  split; [|split; [apply ready_elements_NoDup|split]].
  - intros fd. unfold all_ready. rewrite elem_of_ready_elements.
    pose proof (select_answer_range p count r w Hp Ha fd). pose proof (wf_fdmax _ Hp). naive_solver lia.
  - unfold all_ready, ready_elements. intros e (x & -> & _)%list_elem_of_fmap. done.
  - destruct (Z.eqb_spec count 0) as [->|Hc]; [apply select_run_nothing|by apply select_run_spec].
Qed.

Lemma select_run_reports_witness :
  select_run (mkSelect {[4; 7]} {[4]} 9)
    (replicate 2 (SelectFailed true) ++ [Selected 3 {[4; 7]} {[4]}]) (replicate 3 (mkElement (-1) 0)) 5
  = Ok (0, [mkElement 4 3; mkElement 7 1; mkElement (-1) 0], 2).
Proof.
  destruct (select_run_reports
    [Add (mkElement 4 3); Add (mkElement 7 1); Add (mkElement 9 2); Remove (mkElement 9 2)]
    (mkSelect {[4; 7]} {[4]} 9) 2 3 {[4; 7]} {[4]} [] (replicate 3 (mkElement (-1) 0)) 5) as (_ & _ & _ & E).
  - repeat constructor; unfold FD_SETSIZE; cbn; lia.
  - apply (bool_decide_unpack _). vm_compute. exact I.
  - split; [done|]. split; [done|]. reflexivity.
  - rewrite E. apply (bool_decide_unpack _). vm_compute. exact I.
Defined.

(** With no descriptor ready within the timeout [run] leaves the number of
    events of the turn before in place. *)
Theorem select_timeout_stale p rest events numEvents :
  select_run p (Selected 0 ∅ ∅ :: rest) events numEvents = Ok (0, events, numEvents).
Proof. reflexivity. Qed.

(** The timeout handed to [select] is the duration in whole microseconds, with
    the microseconds below a second. *)
Lemma timeval_of_exact duration :
  0 <= duration ->
  0 <= tv_usec (timeval_of duration) < 1000000 /\
  tv_sec (timeval_of duration) * 1000000 + tv_usec (timeval_of duration) = duration / 1000.
Proof.
  intros Hd. unfold timeval_of. destruct (Z.eqb_spec duration 0) as [->|]; cbn [tv_sec tv_usec]; [done|].
  rewrite !Z.quot_div_nonneg by lia. replace 1000000000 with (1000 * 1000000) by done.
  rewrite <- Z.div_div by lia. pose proof (Z.mod_pos_bound (duration / 1000) 1000000 ltac:(lia)) as Hb.
  pose proof (Z.div_mod (duration / 1000) 1000000 ltac:(lia)). lia.
Qed.
