(* ===== verification/Kqueue.v ===== *)
(** * Kqueue: src/fastpath/event/arch/mac/PollManager.cpp

    The wrapper of kqueue that takes the place of that of epoll on macOS.  The
    kernel's queue is a parameter: class [Kernel_queue] states what kevent(2)
    documents of changes.  [run] takes what [kevent] returned as an argument; the
    array it is returned in has [maxDispatchSize] elements, and those behind the
    result are indeterminate. *)
From S2P Require Import Prelude Types Poll.

(** ** The kernel *)

(** Filters of sys/event.h *)
Definition EVFILT_READ : Z := -1.
Definition EVFILT_WRITE : Z := -2.
Definition EVFILT_SIGNAL : Z := -6.
Definition EVFILT_TIMER : Z := -7.

Inductive Change := EV_ADD (clear : bool) (data : Z) | EV_DELETE.

(** The registered events by identifier and filter, and one change. *)
Class Kernel_queue (K : Type) := {
  registered : K -> gmap (Z * Z) (bool * Z);
  kevent : K -> Z -> Z -> Change -> CtlResult * K;
  kevent_added k ident filter clear data k' :
    kevent k ident filter (EV_ADD clear data) = (CtlOk, k') -> registered k' = <[(ident, filter) := (clear, data)]> (registered k);
  kevent_deleted k ident filter k' :
    kevent k ident filter EV_DELETE = (CtlOk, k') ->
    is_Some (registered k !! (ident, filter)) /\ registered k' = delete (ident, filter) (registered k);
  kevent_fails k ident filter c r k' : kevent k ident filter c = (r, k') -> r <> CtlOk -> registered k' = registered k
}.

Section kqueue.
Context {K : Type} `{Kernel_queue K}.

(** ** Changes *)

(** The common end of the [add] and of the [remove] functions. *)
Definition kq_add (p : EventPoll K) (ident filter : Z) (clear : bool) (data : Z) : bool * EventPoll K :=
  let '(r, k) := kevent (ep_fd p) ident filter (EV_ADD clear data) in
  if bool_decide (r = CtlOk) then (true, mkPoll k (m_events p + 1) (m_err_count p))
  else (false, mkPoll k (m_events p) (m_err_count p)).
Definition kq_remove (p : EventPoll K) (ident filter : Z) : bool * EventPoll K :=
  let '(r, k) := kevent (ep_fd p) ident filter EV_DELETE in
  if bool_decide (r = CtlOk) then (true, mkPoll k (m_events p - 1) (m_err_count p))
  else (false, mkPoll k (m_events p) (m_err_count p)).

Definition kq_add_timer (p : EventPoll K) (identifier timeout : Z) : bool * EventPoll K :=
  kq_add p identifier EVFILT_TIMER false timeout.
Definition kq_update_timer (p : EventPoll K) (identifier timeout : Z) : bool * EventPoll K :=
  let '(r, k) := kevent (ep_fd p) identifier EVFILT_TIMER (EV_ADD false timeout) in
  (bool_decide (r = CtlOk), mkPoll k (m_events p) (m_err_count p)).
Definition kq_remove_timer (p : EventPoll K) (identifier : Z) : bool * EventPoll K :=
  kq_remove p identifier EVFILT_TIMER.

(** The filter of an IO element, built like a set of flags. *)
Definition kq_filter (filter : Z) : Z :=
  let f := 0 in
  let f := if has_bits filter EventType_READ then Z.lor f EVFILT_READ else f in
  if has_bits filter EventType_WRITE then Z.lor f EVFILT_WRITE else f.
Definition kq_add_io (p : EventPoll K) (identifier filter : Z) : bool * EventPoll K :=
  kq_add p identifier (kq_filter filter) true 0.
Definition kq_remove_io (p : EventPoll K) (identifier filter : Z) : bool * EventPoll K :=
  let '(r, k) := kevent (ep_fd p) identifier (kq_filter filter) EV_DELETE in
  if bool_decide (r = CtlError) then (false, mkPoll k (m_events p) (m_err_count p))
  else (true, mkPoll k (m_events p - 1) (m_err_count p)).

Definition kq_add_signal (p : EventPoll K) (signal : Z) : bool * EventPoll K :=
  kq_add p signal EVFILT_SIGNAL false 0.
Definition kq_remove_signal (p : EventPoll K) (signal : Z) : bool * EventPoll K :=
  kq_remove p signal EVFILT_SIGNAL.

(** ** EventPoll::run *)

Record kevent_t := mkKevent { ke_ident : Z; ke_filter : Z; ke_data : Z }.
Inductive KeventResult := KeventReady (l : list kevent_t) | KeventError (interrupted : bool).

Definition maxDispatchSize : nat := 256.

Context {St : Type}.

(** [_events[i]] after [kevent] has stored [l]. *)
Definition event_at (l : list kevent_t) (i : nat) : outcome kevent_t :=
  match l !! i with
  | Some e => Ok e
  | None => if (i <? maxDispatchSize)%nat then undefined IndeterminateRead else undefined OutOfBounds
  end.

(** [for (int64_t i = 0; i < _events[i].data; i++)]: the counter of the inner loop
    hides the index of the event that is handled. *)
Fixpoint repeat_loop (n : nat) (l : list kevent_t) (call : St -> Z -> outcome St) (i : nat) (st : St) : outcome St :=
  match n with
  | O => Err OutOfFuel
  | S n =>
      e ← event_at l i;
      if Z.of_nat i <? ke_data e then st ← call st (ke_ident e); repeat_loop n l call (S i) st
      else Ok st
  end.
(** The index cannot pass [maxDispatchSize]. *)
Definition repeat_fuel : nat := S maxDispatchSize.

Definition reported_filter (filter : Z) : Z :=
  let f := 0 in
  let f := if has_bits filter EVFILT_READ then Z.lor f EventType_READ else f in
  if has_bits filter EVFILT_WRITE then Z.lor f EventType_WRITE else f.

(** The loop body for event [e] of the result [l]. *)
Definition kq_event (s : Services St) (l : list kevent_t) (st : St) (e : kevent_t) : outcome St :=
  let filter := reported_filter (ke_filter e) in
  if negb (filter =? EventType_NONE) then io_events s st (ke_ident e) filter
  else if has_bits (ke_filter e) EVFILT_TIMER then repeat_loop repeat_fuel l (timer_events s) 0 st
  else if has_bits (ke_filter e) EVFILT_SIGNAL
  then repeat_loop repeat_fuel l (fun st signal => signal_events s st (-1) signal) 0 st
  else Ok st.

Fixpoint kq_events (s : Services St) (l : list kevent_t) (st : St) (rest : list kevent_t) : outcome St :=
  match rest with
  | [] => Ok st
  | e :: rest => st ← kq_event s l st e; kq_events s l st rest
  end.

Definition kq_run (s : Services St) (p : EventPoll K) (st : St) (w : KeventResult) : outcome (Z * EventPoll K * St) :=
  if m_events p =? 0 then Ok (0, p, st) else
  match w with
  | KeventReady [] => Ok (0, p, st)
  | KeventReady l => st ← kq_events s l st l; Ok (0, mkPoll (ep_fd p) (m_events p) 0, st)
  | KeventError interrupted =>
      if interrupted && (m_err_count p <? 10)
      then Ok (0, mkPoll (ep_fd p) (m_events p) (m_err_count p + 1), st)
      else Ok (-1, p, st)
  end.

(** ** Filters *)

(** The filters are small negative numbers, not bits: a descriptor that is
    registered for reading and writing is registered for reading only, and one
    that is readable is reported as readable and writable. *)
Theorem kq_filters_confused :
  (forall p fd, kq_add_io p fd (Z.lor EventType_READ EventType_WRITE) = kq_add_io p fd EventType_READ) /\
  reported_filter EVFILT_READ = Z.lor EventType_READ EventType_WRITE /\
  reported_filter EVFILT_WRITE = EventType_WRITE /\
  reported_filter EVFILT_TIMER = EventType_NONE /\ reported_filter EVFILT_SIGNAL = EventType_NONE.
Proof. by split_and!. Qed.

(** ** Reports *)

Definition is_io (e : kevent_t) : Prop := ke_filter e = EVFILT_READ \/ ke_filter e = EVFILT_WRITE.

Lemma kq_event_io s l st e : is_io e ->
  kq_event s l st e = io_events s st (ke_ident e) (reported_filter (ke_filter e)).
Proof. unfold kq_event. by intros [-> | ->]. Qed.

(** A result that holds descriptors only is handed over completely and in order. *)
Theorem kq_run_io s p st l : m_events p <> 0 -> l <> [] -> Forall is_io l ->
  kq_run s p st (KeventReady l) =
    st ← foldl (fun o e => st ← o; io_events s st (ke_ident e) (reported_filter (ke_filter e))) (Ok st) l;
    Ok (0, mkPoll (ep_fd p) (m_events p) 0, st).
Proof.
  intros Hm Hn Hl. unfold kq_run. rewrite (proj2 (Z.eqb_neq _ _) Hm).
  destruct l as [|e l]; [done|]. f_equal. clear Hm Hn. generalize (e :: l) at 1. intros all. revert st.
  induction Hl as [|x l' Hx Hl IH]; intros st; [done|]. cbn [kq_events foldl]. rewrite kq_event_io by done. run_bind.
  destruct (io_events s st _ _) as [st'|f]; run_bind; [apply IH|].
  clear. induction l' as [|y l' IH]; [done|]. cbn [foldl]. run_bind. exact IH.
Qed.

(** A timer that fired alone: after the calls the loop reads the next element of the
    array, which [kevent] has not written. *)
Theorem kq_timer_alone_faults s p st id n : m_events p <> 0 -> 0 < n ->
  (forall st', exists st'', timer_events s st' id = Ok st'') ->
  kq_run s p st (KeventReady [mkKevent id EVFILT_TIMER n]) = undefined IndeterminateRead.
Proof.
  intros Hm Hn Hs. unfold kq_run. rewrite (proj2 (Z.eqb_neq _ _) Hm). cbn [kq_events].
  unfold kq_event. cbn [ke_filter].
  change (reported_filter EVFILT_TIMER) with EventType_NONE.
  change (has_bits EVFILT_TIMER EVFILT_TIMER) with true. change (negb (EventType_NONE =? EventType_NONE)) with false. cbv iota.
  unfold repeat_fuel, maxDispatchSize. cbn [repeat_loop]. cbn [event_at lookup list_lookup]. run_bind.
  cbn [ke_data ke_ident]. destruct (Z.ltb_spec (Z.of_nat 0) n); [|lia].
  destruct (Hs st) as (st' & ->). run_bind. done.
Qed.

(** A timer behind a descriptor without data, as a closed one, is not called at all. *)
Theorem kq_timer_lost s p st fd id n st' : m_events p <> 0 ->
  io_events s st fd (reported_filter EVFILT_READ) = Ok st' ->
  kq_run s p st (KeventReady [mkKevent fd EVFILT_READ 0; mkKevent id EVFILT_TIMER n])
  = Ok (0, mkPoll (ep_fd p) (m_events p) 0, st').
Proof.
  intros Hm Hs. unfold kq_run. rewrite (proj2 (Z.eqb_neq _ _) Hm). cbn [kq_events].
  rewrite kq_event_io by (by left). cbn [ke_ident ke_filter]. rewrite Hs. run_bind. done.
Qed.

(** ** The counter *)

Lemma kq_add_counts p ident filter clear data : registered (ep_fd p) !! (ident, filter) = None ->
  let '(r, p') := kq_add p ident filter clear data in
  m_events p' - Z.of_nat (size (registered (ep_fd p'))) = m_events p - Z.of_nat (size (registered (ep_fd p))).
Proof.
  intros Hn. unfold kq_add. destruct (kevent _ _ _ _) as [r k] eqn:E. case_bool_decide as Hr; cbn.
  - subst r. rewrite (kevent_added _ _ _ _ _ _ E), map_size_insert_None by done. lia.
  - by rewrite (kevent_fails _ _ _ _ _ _ E Hr).
Qed.

Lemma kq_remove_counts p ident filter :
  let '(r, p') := kq_remove p ident filter in
  m_events p' - Z.of_nat (size (registered (ep_fd p'))) = m_events p - Z.of_nat (size (registered (ep_fd p))).
Proof.
  unfold kq_remove. destruct (kevent _ _ _ _) as [r k] eqn:E. case_bool_decide as Hr; cbn.
  - subst r. destruct (kevent_deleted _ _ _ _ E) as [[v Hv] ->]. rewrite map_size_delete_Some by eauto.
    assert (size (registered (ep_fd p)) <> 0%nat) 
      by (apply map_size_non_empty_iff; intros E0; by rewrite E0 in Hv). lia.
  - by rewrite (kevent_fails _ _ _ _ _ _ E Hr).
Qed.

(** Adding what is registered already changes it in place, but counts it again. *)
Lemma kq_add_twice p ident filter clear data v k : registered (ep_fd p) !! (ident, filter) = Some v ->
  kevent (ep_fd p) ident filter (EV_ADD clear data) = (CtlOk, k) ->
  let p' := (kq_add p ident filter clear data).2 in
  m_events p' = m_events p + 1 /\ size (registered (ep_fd p')) = size (registered (ep_fd p)).
Proof.
  intros Hv E. unfold kq_add. rewrite E. rewrite bool_decide_eq_true_2 by done. cbn. split; [done|].
  rewrite (kevent_added _ _ _ _ _ _ E). by apply map_size_insert_Some.
Qed.
End kqueue.

(** ** Samples *)

(** A kernel queue that accepts every change that kevent(2) accepts. *)
#[export, refine] Instance map_queue : Kernel_queue (gmap (Z * Z) (bool * Z)) := {|
  registered k := k;
  kevent k ident filter c :=
    match c with
    | EV_ADD clear d => (CtlOk, <[(ident, filter) := (clear, d)]> k)
    | EV_DELETE => if bool_decide (is_Some (k !! (ident, filter))) then (CtlOk, delete (ident, filter) k) else (CtlError, k)
    end
|}.
Proof.
  - intros k ident filter clear data k' [= <-]. done.
  - intros k ident filter k'. case_bool_decide; [|done]. by intros [= <-].
  - intros k ident filter [clear data|] r k'; [by intros [= <- <-]|]. case_bool_decide; by intros [= <- <-].
Defined.

(** Services that write down what they are called with. *)
Definition notes : Services (list PollElement) := {|
  io_events st id filter := Ok (st ++ [IOElement id filter]);
  timer_events st id := Ok (st ++ [TimerElement id]);
  signal_events st id signal := Ok (st ++ [SignalElement signal])
|}.

(** Two events are registered. *)
Definition two_events : EventPoll (gmap (Z * Z) (bool * Z)) :=
  (kq_add_timer (kq_add_io (mkPoll ∅ 0 0) 5 EventType_READ).2 9 1000).2.

Lemma kq_run_io_witness :
  kq_run notes two_events [] (KeventReady [mkKevent 5 EVFILT_READ 12; mkKevent 6 EVFILT_WRITE 0])
  = Ok (0, mkPoll (ep_fd two_events) 2 0, [IOElement 5 (Z.lor EventType_READ EventType_WRITE); IOElement 6 EventType_WRITE]).
Proof.
  rewrite (kq_run_io notes two_events [] [mkKevent 5 EVFILT_READ 12; mkKevent 6 EVFILT_WRITE 0]); [reflexivity|discriminate|discriminate|].
  constructor; [left; reflexivity|]. constructor; [right; reflexivity|constructor].
Defined.

Lemma kq_timer_alone_faults_witness :
  kq_run notes two_events [] (KeventReady [mkKevent 9 EVFILT_TIMER 1]) = undefined IndeterminateRead.
Proof. apply (kq_timer_alone_faults notes two_events [] 9 1); [discriminate|reflexivity|eauto]. Defined.

Lemma kq_timer_lost_witness :
  kq_run notes two_events [] (KeventReady [mkKevent 5 EVFILT_READ 0; mkKevent 9 EVFILT_TIMER 1])
  = Ok (0, mkPoll (ep_fd two_events) 2 0, [IOElement 5 (Z.lor EventType_READ EventType_WRITE)]).
Proof. apply (kq_timer_lost notes two_events [] 5 9 1); [discriminate|reflexivity]. Defined.
