(* ===== verification/Events.v ===== *)
(** * Events: event objects and event managers

    src/fastpath/event: Event.h, IOEvent.h/.cpp, DataEvent.cpp, TimerEvent.cpp,
    SignalEvent.cpp, GlobalEventManager.h/.cpp and InlineEventManager.h/.cpp.
    Event objects live in a store by address, so a pointer kept in a table
    after the object was deleted is seen.  The managers' operations are taken
    one at a time (the global one's run under its lock). *)
From S2P Require Import Prelude Types Poll.

(** ** Event objects *)

Inductive EventKind :=
  | DataEvent (fd eventTypes : Z)
  | TimerEvent (identifier timeout : Z)
  | SignalEvent (identifier signal : Z).

Record Event := mkEvent {
  ev_kind : EventKind;
  m_pendingRemoval : bool;
  m_awaitingDispatch : Z        (* std::atomic<uint16_t> *)
}.

Definition Event_new (k : EventKind) : Event := mkEvent k false 0.
Definition pushDispatch (e : Event) : Event :=
  mkEvent (ev_kind e) (m_pendingRemoval e) (u16 (m_awaitingDispatch e + 1)).
Definition popDispatch (e : Event) : Event :=
  mkEvent (ev_kind e) (m_pendingRemoval e) (u16 (m_awaitingDispatch e - 1)).
Definition setPendingRemoval (e : Event) (flag : bool) : Event :=
  mkEvent (ev_kind e) flag (m_awaitingDispatch e).
Definition awaitingDispatch (e : Event) : bool := negb (m_awaitingDispatch e =? 0).

Definition eventTypes (e : Event) : Z :=
  match ev_kind e with DataEvent _ t => t | _ => EventType_NONE end.

(** The virtual [isEqual]: that of a data event compares [typeid(other)] with
    [typeid(IOEvent)], an abstract class. *)
Definition isEqual (a b : Event) : bool :=
  match ev_kind a, ev_kind b with
  | TimerEvent _ t1, TimerEvent _ t2 => t1 =? t2
  | SignalEvent _ s1, SignalEvent _ s2 => s1 =? s2
  | _, _ => false
  end.

(** The [timespec] a timer is armed with, from its timeout in microseconds. *)
Definition timespec_of (timeout : Z) : Z * Z :=
  let tv_sec := Z.quot timeout 1000000 in
  (tv_sec, timeout * 1000 - tv_sec * 1000000000).

(** The event objects by address, and access through a pointer. *)
Abbreviation objects := (gmap positive Event).
Definition deref (o : objects) (p : positive) : outcome Event :=
  match o !! p with Some e => Ok e | None => undefined UseAfterFree end.

(** ** Event managers *)

Record EventManager (K : Type) := mkManager {
  m_ioHandlerLookup : gmap Z (list positive);
  m_timerHandlerLookup : gmap Z positive;
  m_signalHandlerLookup : gmap Z positive;
  m_eventLoop : EventPoll K
}.
Arguments mkManager {K} _ _ _ _.
Arguments m_ioHandlerLookup {K} _.
Arguments m_timerHandlerLookup {K} _.
Arguments m_signalHandlerLookup {K} _.
Arguments m_eventLoop {K} _.

(** [unordered_map::emplace]: an entry that exists is kept. *)
Definition emplace_new {V} (m : gmap Z V) (k : Z) (v : V) : gmap Z V :=
  match m !! k with Some _ => m | None => <[k := v]> m end.

Section managers.
Context {K : Type} `{Epoll K}.

Definition set_loop (em : EventManager K) (l : EventPoll K) : EventManager K :=
  mkManager (m_ioHandlerLookup em) (m_timerHandlerLookup em) (m_signalHandlerLookup em) l.
Definition set_io (em : EventManager K) (t : gmap Z (list positive)) : EventManager K :=
  mkManager t (m_timerHandlerLookup em) (m_signalHandlerLookup em) (m_eventLoop em).
Definition set_timers (em : EventManager K) (t : gmap Z positive) : EventManager K :=
  mkManager (m_ioHandlerLookup em) t (m_signalHandlerLookup em) (m_eventLoop em).
Definition set_signals (em : EventManager K) (t : gmap Z positive) : EventManager K :=
  mkManager (m_ioHandlerLookup em) (m_timerHandlerLookup em) t (m_eventLoop em).

(** *** registerHandler *)

Definition register_timer (em : EventManager K) (id : Z) (p : positive) : bool * EventManager K :=
  let em := set_timers em (emplace_new (m_timerHandlerLookup em) id p) in
  let '(r, l) := add_timer (m_eventLoop em) id in (r, set_loop em l).

Definition register_signal (em : EventManager K) (id signal : Z) (p : positive)
    : bool * EventManager K :=
  let em := set_signals em (emplace_new (m_signalHandlerLookup em) signal p) in
  let '(r, l) := add_signal (m_eventLoop em) id in (r, set_loop em l).

Definition register_io (em : EventManager K) (fd types : Z) (p : positive) : bool * EventManager K :=
  let events := match m_ioHandlerLookup em !! fd with Some l => l ++ [p] | None => [p] end in
  let em := set_io em (<[fd := events]> (m_ioHandlerLookup em)) in
  let '(r, l) := add_io (m_eventLoop em) fd types in (r, set_loop em l).

Definition global_registerHandler (o : objects) (em : EventManager K) (p : positive)
    : outcome (bool * EventManager K) :=
  e ← deref o p;
  match ev_kind e with
  | TimerEvent id _ => Ok (register_timer em id p)
  | SignalEvent id signal => Ok (register_signal em id signal p)
  | DataEvent fd types => if fd <=? 0 then Ok (false, em) else Ok (register_io em fd types p)
  end.

(** The inline manager throws out of a [noexcept] function. *)
Definition inline_registerHandler (o : objects) (em : EventManager K) (p : positive)
    : outcome (bool * EventManager K) :=
  e ← deref o p;
  match ev_kind e with
  | TimerEvent id _ => Ok (register_timer em id p)
  | SignalEvent id signal => Ok (register_signal em id signal p)
  | DataEvent fd types => if fd <=? 0 then Err Terminate else Ok (register_io em fd types p)
  end.

Definition updateHandler (em : EventManager K) (id : Z) : bool * EventManager K :=
  let '(r, l) := update_timer (m_eventLoop em) id in (r, set_loop em l).

(** *** unregisterHandler *)

Definition unregister_timer (em : EventManager K) (id : Z) : bool * EventManager K :=
  match m_timerHandlerLookup em !! id with
  | Some _ =>
      let '(r, l) := remove_timer (m_eventLoop em) id in
      (r, set_loop (set_timers em (delete id (m_timerHandlerLookup em))) l)
  | None => (false, em)
  end.

Definition unregister_signal (em : EventManager K) (id signal : Z) : bool * EventManager K :=
  match m_signalHandlerLookup em !! signal with
  | Some _ =>
      let em := set_signals em (delete signal (m_signalHandlerLookup em)) in
      let '(r, l) := remove_signal (m_eventLoop em) id in (r, set_loop em l)
  | None => (false, em)
  end.

(** Of an IO event: with other handlers on the descriptor, the event is erased
    from [registered_events], a copy of the vector in the table.  The last
    component says whether the event was found. *)
Definition unregister_io (em : EventManager K) (fd : Z) (p : positive)
    : bool * EventManager K * bool :=
  match m_ioHandlerLookup em !! fd with
  | Some registered_events =>
      if bool_decide (p ∈ registered_events) then
        if (length registered_events =? 1)%nat then
          let '(r, l) := remove_io (m_eventLoop em) fd in
          (r, set_loop (set_io em (delete fd (m_ioHandlerLookup em))) l, true)
        else (true, em, true)
      else (false, em, false)
  | None => (false, em, false)
  end.

Definition global_unregisterHandler (o : objects) (em : EventManager K) (p : positive)
    : outcome (bool * EventManager K) :=
  e ← deref o p;
  match ev_kind e with
  | TimerEvent id _ => Ok (unregister_timer em id)
  | SignalEvent id signal => Ok (unregister_signal em id signal)
  | DataEvent fd _ => Ok (unregister_io em fd p).1
  end.

(** The inline manager stops when the event is awaiting dispatch. *)
Definition inline_unregisterHandler (o : objects) (em : EventManager K) (p : positive)
    : outcome (bool * EventManager K) :=
  e ← deref o p;
  match ev_kind e with
  | TimerEvent id _ => Ok (unregister_timer em id)
  | SignalEvent id signal => Ok (unregister_signal em id signal)
  | DataEvent fd _ =>
      let '(r, em, found) := unregister_io em fd p in
      _ ← assert_ (negb (found && awaitingDispatch e)); Ok (r, em)
  end.

Definition haveHandlers (em : EventManager K) : bool :=
  negb (bool_decide (m_timerHandlerLookup em = ∅) && bool_decide (m_ioHandlerLookup em = ∅)).

(** The virtual functions a queue calls on its manager. *)
Record ManagerOps := {
  registerHandler : objects -> EventManager K -> positive -> outcome (bool * EventManager K);
  unregisterHandler : objects -> EventManager K -> positive -> outcome (bool * EventManager K)
}.
Definition GlobalEventManager : ManagerOps :=
  {| registerHandler := global_registerHandler; unregisterHandler := global_unregisterHandler |}.
Definition InlineEventManager : ManagerOps :=
  {| registerHandler := inline_registerHandler; unregisterHandler := inline_unregisterHandler |}.
End managers.
Arguments ManagerOps : clear implicits.

(** ** Timers *)

(** The [timespec] of a timer is normalised and exact: for every timeout of
    a microsecond or more that [int64_t] nanoseconds can express, seconds and
    nanoseconds are in range, not both zero (which would disarm the timer), and
    together they are the timeout. *)
Theorem timespec_normalised timeout :
  0 < timeout < 2 ^ 63 / 1000 ->
  let '(s, ns) := timespec_of timeout in
  0 <= s /\ 0 <= ns < 1000000000 /\ (s <> 0 \/ ns <> 0) /\ s * 1000000000 + ns = timeout * 1000.
Proof.
  intros Ht. unfold timespec_of. rewrite Z.quot_div_nonneg by lia.
  pose proof (Z.div_mod timeout 1000000 ltac:(lia)). pose proof (Z.mod_pos_bound timeout 1000000 ltac:(lia)).
  assert (0 <= timeout / 1000000) by (apply Z.div_pos; lia). lia.
Qed.

Lemma timespec_normalised_witness :
  let '(s, ns) := timespec_of 2500000 in 0 <= ns < 1000000000 /\ s * 1000000000 + ns = 2500000 * 1000.
Proof.
  pose proof (timespec_normalised 2500000 ltac:(by vm_compute)) as T.
  destruct (timespec_of 2500000) as [s ns]. split; apply T.
Defined.

(** ** Descriptors *)

Section descriptors.
Context {K : Type} `{Epoll K}.

(** A second handler on a descriptor does not widen what is polled for: once
    the kernel watches the descriptor, registering another handler returns
    [false] and leaves the events it is watched for as they were, although the
    handler is in the table. *)
Theorem second_handler_not_polled em fd types p l e :
  m_ioHandlerLookup em !! fd = Some l -> interest (ep_fd (m_eventLoop em)) !! fd = Some e ->
  exists em', register_io em fd types p = (false, em') /\
    m_ioHandlerLookup em' !! fd = Some (l ++ [p]) /\
    interest (ep_fd (m_eventLoop em')) !! fd = Some e.
Proof.
  intros Hl He. unfold register_io, add_io, poll_add. rewrite Hl. cbn [m_eventLoop set_io].
  destruct (ctl_add _ _ _) as [r k] eqn:E. case_bool_decide as Hr.
  - subst r. apply ctl_add_exists in E. congruence.
  - eexists. split; [done|]. cbn. split; [apply lookup_insert_eq|].
    by rewrite (ctl_add_fails _ _ _ _ _ E Hr).
Qed.
End descriptors.

(** A manager with a reader on descriptor 5. *)
Definition reader_manager : EventManager (gmap Z (Z * Z)) :=
  (register_io (mkManager ∅ ∅ ∅ (mkPoll ∅ 0 0)) 5 EventType_READ 1).2.

Lemma second_handler_not_polled_witness :
  exists em', register_io reader_manager 5 EventType_WRITE 2 = (false, em') /\
    m_ioHandlerLookup em' !! 5 = Some [1%positive; 2%positive].
Proof.
  destruct (second_handler_not_polled reader_manager 5 EventType_WRITE 2 [1%positive]
    (io_filter EventType_READ, 5)) as (em' & E & Hl & _); [vm_compute; reflexivity..|].
  exists em'. split; [exact E|exact Hl].
Defined.
