(* ===== verification/Timers.v ===== *)
(** * Timers: TimerEvent.cpp and SignalEvent.cpp of src/fastpath/event

    Construction, move, [reset] and destruction of timer and signal events over
    the descriptors of the kernel (the Linux build), and when a timer fires.
    Their dispatch is in EventQueue.v, [setTimeout] in TimedDispatch.v. *)
From S2P Require Import Prelude Types Poll Events.

(** ** timerfd and signalfd *)

(** A [timespec] the kernel accepts. *)
Definition timespec_valid (t : Z * Z) : bool := (0 <=? t.1) && (0 <=? t.2) && (t.2 <? 1000000000).

(** [timerfd_settime] gets the same [timespec] as first expiration and as
    interval; one of zero disarms the timer, an invalid one is refused. *)
Class TimerKernel (K : Type) := {
  tk_opened : K -> gset Z;
  tk_armed : K -> Z -> option (Z * Z);
  tk_blocked : K -> gset Z;
  timerfd_create : K -> option Z * K;
  timerfd_settime : K -> Z -> Z * Z -> bool * K;
  signalfd : K -> Z -> option Z * K;
  block_signal : K -> Z -> bool * K;
  timerfd_create_some k fd k' : timerfd_create k = (Some fd, k') ->
    0 <= fd /\ fd ∉ tk_opened k /\ tk_opened k' = {[fd]} ∪ tk_opened k;
  timerfd_create_none k k' : timerfd_create k = (None, k') -> tk_opened k' = tk_opened k;
  settime_opened k fd t : tk_opened (timerfd_settime k fd t).2 = tk_opened k;
  settime_armed k fd t k' : timerfd_settime k fd t = (true, k') ->
    tk_armed k' fd = if bool_decide (t = (0, 0)) then None else Some t;
  settime_invalid k fd t : timespec_valid t = false -> (timerfd_settime k fd t).1 = false;
  signalfd_some k s fd k' : signalfd k s = (Some fd, k') ->
    0 <= fd /\ fd ∉ tk_opened k /\ tk_opened k' = {[fd]} ∪ tk_opened k;
  block_opened k s : tk_opened (block_signal k s).2 = tk_opened k;
  block_blocked k s k' : block_signal k s = (true, k') -> tk_blocked k' = {[s]} ∪ tk_blocked k
}.

(** How often an armed timer has expired after [elapsed] nanoseconds. *)
Definition expirations (armed : option (Z * Z)) (elapsed : Z) : Z :=
  match armed with Some (s, ns) => elapsed / (s * 1000000000 + ns) | None => 0 end.

Section timers.
Context {K : Type} `{TimerKernel K}.

(** [TimerEvent(queue, timeout, callback)]: the event or the exception, and the
    kernel in either case. *)
Definition TimerEvent_new (timeout : Z) (k : K) : outcome Event * K :=
  match timerfd_create k with
  | (None, k) => (throw FpException, k)
  | (Some m_identifier, k) =>
      let '(ok, k) := timerfd_settime k m_identifier (timespec_of timeout) in
      if ok then (Ok (Event_new (TimerEvent m_identifier timeout)), k) else (throw FpException, k)
  end.

(** [Event(Event &&)]: the count of pending dispatches starts anew. *)
Definition Event_move (other : Event) : Event := mkEvent (ev_kind other) (m_pendingRemoval other) 0.

(** [reset] (noexcept) *)
Definition TimerEvent_reset (e : Event) (k : K) : outcome K :=
  match ev_kind e with
  | TimerEvent m_identifier timeout =>
      let '(ok, k) := timerfd_settime k m_identifier (timespec_of timeout) in
      if ok then Ok k else Err Terminate
  | _ => undefined TypeConfusion
  end.

(** [~Event] is defaulted, and neither class has a destructor of its own. *)
Definition Event_destroy (e : Event) (k : K) : K := k.

(** [SignalEvent(queue, signal, callback)]: the mask is set for the process and for
    the thread, and failures are only logged. *)
Definition SignalEvent_new (signal : Z) (k : K) : outcome Event * K :=
  match signalfd k signal with
  | (None, k) => (throw FpException, k)
  | (Some m_identifier, k) =>
      let k := (block_signal k signal).2 in
      let k := (block_signal k signal).2 in
      (Ok (Event_new (SignalEvent m_identifier signal)), k)
  end.

(** An event that is created and destroyed. *)
Definition timer_lifetime (k : K) (timeout : Z) : K :=
  match TimerEvent_new timeout k with (Ok e, k) => Event_destroy e k | (Err _, k) => k end.

(** ** When a timer fires *)

Lemma timespec_exact timeout : 0 < timeout ->
  timespec_valid (timespec_of timeout) = true /\ timespec_of timeout <> (0, 0) /\
  (timespec_of timeout).1 * 1000000000 + (timespec_of timeout).2 = timeout * 1000.
Proof.
  intros Ht. unfold timespec_of, timespec_valid. rewrite Z.quot_div_nonneg by lia. cbn [fst snd].
  pose proof (Z.div_mod timeout 1000000 ltac:(lia)) as E. pose proof (Z.mod_pos_bound timeout 1000000 ltac:(lia)).
  assert (0 <= timeout / 1000000) by (apply Z.div_pos; lia). split.
  - rewrite !andb_true_iff, !Z.leb_le, Z.ltb_lt. lia.
  - split; [|lia]. intros [= E1 E2]. lia.
Qed.

Lemma timespec_negative timeout : timeout < 0 -> timespec_valid (timespec_of timeout) = false.
Proof.
  intros Ht. unfold timespec_of, timespec_valid. cbn [fst snd].
  pose proof (Z.quot_rem' timeout 1000000) as E. pose proof (Z.rem_bound_pos_neg timeout 1000000 ltac:(lia) ltac:(lia)).
  rewrite !andb_false_iff, !Z.leb_gt, Z.ltb_ge. lia.
Qed.

Lemma timespec_zero : timespec_of 0 = (0, 0).
Proof. done. Qed.

Lemma TimerEvent_new_Ok timeout k e k' : TimerEvent_new timeout k = (Ok e, k') ->
  exists fd, e = Event_new (TimerEvent fd timeout) /\ 0 <= fd /\ fd ∉ tk_opened k /\ tk_opened k' = {[fd]} ∪ tk_opened k /\
    tk_armed k' fd = (if bool_decide (timespec_of timeout = (0, 0)) then None else Some (timespec_of timeout)) /\
    timespec_valid (timespec_of timeout) = true.
Proof.
  unfold TimerEvent_new. destruct (timerfd_create k) as [[fd|] k1] eqn:E1; [|done].
  apply timerfd_create_some in E1 as (H0 & Hn & Ho). pose proof (settime_opened k1 fd (timespec_of timeout)) as Hs.
  pose proof (settime_invalid k1 fd (timespec_of timeout)) as Hi.
  destruct (timerfd_settime k1 fd _) as [ok k2] eqn:E2. cbn in Hs, Hi. destruct ok; intros [= <- <-].
  exists fd. split; [done|]. split; [done|]. split; [done|]. split; [by rewrite Hs|]. split; [by eapply settime_armed|].
  by destruct (timespec_valid _); [|specialize (Hi eq_refl)].
Qed.

(** A timer event expires at every multiple of its timeout and at no other time: a
    timeout of zero never fires, and an event with a negative timeout cannot be
    created. *)
Theorem timer_fires timeout k e k' : TimerEvent_new timeout k = (Ok e, k') ->
  0 <= timeout /\ exists fd, ev_kind e = TimerEvent fd timeout /\ fd ∉ tk_opened k /\ fd ∈ tk_opened k' /\
    forall elapsed, 0 <= elapsed ->
      expirations (tk_armed k' fd) elapsed = if timeout =? 0 then 0 else elapsed / (timeout * 1000).
Proof.
  intros E. destruct (TimerEvent_new_Ok _ _ _ _ E) as (fd & -> & _ & Hn & Ho & Ha & Hv). split.
  { destruct (Z.lt_ge_cases timeout 0) as [Hlt|]; [|done]. by rewrite timespec_negative in Hv. }
  exists fd. split; [done|]. split; [done|]. split; [set_solver|]. intros elapsed _. rewrite Ha.
  destruct (Z.eqb_spec timeout 0) as [->|Hne]; [by rewrite timespec_zero|].
  destruct (Z.lt_ge_cases timeout 0) as [Hlt|]; [by rewrite timespec_negative in Hv|].
  destruct (timespec_exact timeout ltac:(lia)) as (_ & Hz & Hs). rewrite bool_decide_eq_false_2 by done.
  destruct (timespec_of timeout) as [s ns]. cbn [expirations fst snd] in *. by rewrite Hs.
Qed.

(** The descriptor of a timer is never closed: not when the event is destroyed, and
    not when its constructor throws. *)
Theorem timers_leak timeouts : forall k,
  (forall k, (timerfd_create k).1 <> None) ->
  (size (tk_opened (foldl timer_lifetime k timeouts)) = size (tk_opened k) + length timeouts)%nat.
Proof.
  induction timeouts as [|timeout l IH]; intros k Hc; cbn [foldl length]; [lia|]. rewrite IH by done.
  unfold timer_lifetime, TimerEvent_new, Event_destroy. specialize (Hc k).
  destruct (timerfd_create k) as [[fd|] k1] eqn:E; [|done]. apply timerfd_create_some in E as (_ & Hn & Ho).
  pose proof (settime_opened k1 fd (timespec_of timeout)) as Hs. destruct (timerfd_settime k1 fd _) as [[] k2]; cbn in Hs;
    rewrite Hs, Ho, size_union, size_singleton by set_solver; lia.
Qed.

(** A new signal event: its descriptor is open, and the signal is blocked if the
    kernel does it. *)
Theorem signal_blocked signal k e k' : SignalEvent_new signal k = (Ok e, k') ->
  exists fd k1, ev_kind e = SignalEvent fd signal /\ fd ∉ tk_opened k /\ tk_opened k' = {[fd]} ∪ tk_opened k /\
    signalfd k signal = (Some fd, k1) /\
    ((block_signal (block_signal k1 signal).2 signal).1 = true -> signal ∈ tk_blocked k').
Proof.
  unfold SignalEvent_new. destruct (signalfd k signal) as [[fd|] k1] eqn:E; [|done]. intros [= <- <-].
  pose proof (signalfd_some _ _ _ _ E) as (_ & Hn & Ho). exists fd, k1. split; [done|]. split; [done|].
  split; [by rewrite !block_opened|]. split; [done|]. intros Hb.
  destruct (block_signal (block_signal k1 signal).2 signal) as [ok k2] eqn:E2. cbn in Hb |- *. subst ok.
  apply block_blocked in E2. rewrite E2. set_solver.
Qed.
End timers.

(** ** A kernel *)

Record timer_table := mkTable { tt_opened : gset Z; tt_armed : gmap Z (Z * Z); tt_blocked : gset Z }.
Definition open_one (k : timer_table) : option Z * timer_table :=
  let fd := above (tt_opened k) in (Some fd, mkTable ({[fd]} ∪ tt_opened k) (delete fd (tt_armed k)) (tt_blocked k)).

Lemma open_one_some k fd k' : open_one k = (Some fd, k') ->
  0 <= fd /\ fd ∉ tt_opened k /\ tt_opened k' = {[fd]} ∪ tt_opened k.
Proof. intros [= <- <-]. destruct (above_fresh (tt_opened k)). done. Qed.

#[export, refine] Instance timer_table_kernel : TimerKernel timer_table := {|
  tk_opened := tt_opened;
  tk_armed k fd := tt_armed k !! fd;
  tk_blocked := tt_blocked;
  timerfd_create := open_one;
  timerfd_settime k fd t :=
    if timespec_valid t
    then (true, mkTable (tt_opened k) (if bool_decide (t = (0, 0)) then delete fd (tt_armed k) else <[fd := t]> (tt_armed k)) (tt_blocked k))
    else (false, k);
  signalfd k _ := open_one k;
  block_signal k s := (true, mkTable (tt_opened k) (tt_armed k) ({[s]} ∪ tt_blocked k))
|}.
Proof.
  - apply open_one_some.
  - intros k k' [=].
  - intros k fd t. by destruct (timespec_valid t).
  - intros k fd t k'. destruct (timespec_valid t); [|done]. intros [= <-]. cbn [tt_armed]. case_bool_decide.
    + apply lookup_delete_eq.
    + apply lookup_insert_eq.
  - intros k fd t ->. done.
  - intros k _. apply open_one_some.
  - done.
  - intros k s k' [= <-]. done.
Defined.

Definition no_timers : timer_table := mkTable {[0; 1; 2]} ∅ ∅.

Lemma timer_fires_witness :
  exists e k' fd, TimerEvent_new 2500000 no_timers = (Ok e, k') /\ ev_kind e = TimerEvent fd 2500000 /\
    expirations (tk_armed k' fd) 6000000000 = 2.
Proof.
  destruct (TimerEvent_new 2500000 no_timers) as [[e|f] k'] eqn:E; [|vm_compute in E; discriminate].
  destruct (timer_fires 2500000 no_timers e k' E) as (_ & fd & Hk & _ & _ & X). exists e, k', fd. split; [done|]. split; [done|].
  by rewrite X.
Defined.

Lemma timers_leak_witness : size (tk_opened (foldl timer_lifetime no_timers [500; 0; -3])) = 6%nat.
Proof. rewrite (timers_leak [500; 0; -3] no_timers); [vm_compute; reflexivity|by intros k]. Defined.

Lemma signal_blocked_witness : exists e k', SignalEvent_new 15 no_timers = (Ok e, k') /\ 15 ∈ tk_blocked k'.
Proof.
  destruct (SignalEvent_new 15 no_timers) as [[e|f] k'] eqn:E; [|vm_compute in E; discriminate].
  destruct (signal_blocked 15 no_timers e k' E) as (fd & k1 & _ & _ & _ & _ & B). exists e, k'. split; [done|]. by apply B.
Defined.
