(* ===== verification/EventQueue.v ===== *)
(** * EventQueue: queues and the delivery of events

    src/fastpath/event: EventManager.cpp (the service functions), Queue.h/.cpp,
    SharedQueue.h, BlockingQueue.h, BusySpinQueue.h, InlineQueue.h and the
    [__notify] and [dispatch] functions of the event classes.  [SharedQueue] is a
    template over its queue type; its theorems are proved for every bounded
    FIFO and hold of the ring buffer.  [s_calls] lists the calls of client
    callbacks, in order; what a callback does to its queue comes after it, as
    a step of its own. *)
From S2P Require Import Prelude Types RingBuffer Poll Events.

(** [QueueElement(event, bind(dispatch, event, argument))] *)
Record QueueElement := mkElement { el_event : positive; el_argument : Z }.
#[export] Instance QueueElement_eq_dec : EqDecision QueueElement.
Proof. solve_decision. Defined.

Record Sys (K Q : Type) := mkSys {
  s_objects : objects;
  s_next : positive;                  (* the address of the next event object *)
  m_registeredEvents : gset positive;
  s_queue : Q;
  s_manager : EventManager K;
  s_calls : list (positive * Z)
}.
Arguments mkSys {K Q} _ _ _ _ _ _.
Arguments s_objects {K Q} _.
Arguments s_next {K Q} _.
Arguments m_registeredEvents {K Q} _.
Arguments s_queue {K Q} _.
Arguments s_manager {K Q} _.
Arguments s_calls {K Q} _.

Section system.
Context {K Q : Type} `{Epoll K}.
Abbreviation sys := (Sys K Q).

Definition set_object (s : sys) (p : positive) (e : Event) : sys :=
  mkSys (<[p := e]> (s_objects s)) (s_next s) (m_registeredEvents s) (s_queue s) (s_manager s) (s_calls s).
Definition set_queue (s : sys) (q : Q) : sys :=
  mkSys (s_objects s) (s_next s) (m_registeredEvents s) q (s_manager s) (s_calls s).
Definition set_manager (s : sys) (em : EventManager K) : sys :=
  mkSys (s_objects s) (s_next s) (m_registeredEvents s) (s_queue s) em (s_calls s).
Definition callback (s : sys) (p : positive) (a : Z) : sys :=
  mkSys (s_objects s) (s_next s) (m_registeredEvents s) (s_queue s) (s_manager s) (s_calls s ++ [(p, a)]).

(** [dispatch] of an event: what the queued function runs. *)
Definition event_dispatch (s : sys) (x : QueueElement) : outcome sys :=
  e ← deref (s_objects s) (el_event x);
  let s := set_object s (el_event x) (popDispatch e) in
  Ok (if m_pendingRemoval e then s else callback s (el_event x) (el_argument x)).

(** ** Notification, over the queue's [__enqueue] *)

Section notification.
Context (enqueue : sys -> QueueElement -> outcome (bool * sys)).

Definition notify (s : sys) (p : positive) (a : Z) : outcome (bool * sys) :=
  e ← deref (s_objects s) p;
  enqueue (set_object s p (pushDispatch e)) (mkElement p a).

(** [EventManager::serviceIOEvent] with [foreach_event_matching]. *)
Fixpoint service_io_handlers (s : sys) (handlers : list positive) (filter : Z) : outcome sys :=
  match handlers with
  | [] => Ok s
  | p :: handlers =>
      e ← deref (s_objects s) p;
      let types := Z.land (eventTypes e) filter in
      s ← (if negb (types =? EventType_NONE) && negb (awaitingDispatch e)
           then '(_, s) ← notify s p types; Ok s else Ok s);
      service_io_handlers s handlers filter
  end.
Definition serviceIOEvent (s : sys) (fd filter : Z) : outcome sys :=
  match m_ioHandlerLookup (s_manager s) !! fd with
  | Some handlers => service_io_handlers s handlers filter
  | None => Ok s
  end.

Definition serviceTimerEvent (s : sys) (id : Z) : outcome sys :=
  match m_timerHandlerLookup (s_manager s) !! id with
  | Some p => '(_, s) ← notify s p EventType_NONE; Ok s
  | None => Ok s
  end.

Definition serviceSignalEvent (s : sys) (id signal : Z) : outcome sys :=
  match m_signalHandlerLookup (s_manager s) !! signal with
  | Some p => '(_, s) ← notify s p EventType_NONE; Ok s
  | None => Ok s
  end.

Definition services : Services sys := {|
  io_events := serviceIOEvent; timer_events := serviceTimerEvent; signal_events := serviceSignalEvent |}.

(** [EventManager::waitForEvent] for what [epoll_wait] returned. *)
Definition waitForEvent (sig_read : Z -> Z) (s : sys) (w : WaitResult) : outcome (Z * sys) :=
  '(r, p, s) ← run services sig_read (m_eventLoop (s_manager s)) s w;
  Ok (r, set_manager s (set_loop (s_manager s) p)).
End notification.

(** ** Queue.cpp *)

Section registration.
Context (ops : ManagerOps K) (em_running : bool).

(** [registerEvent]: without an event manager it throws out of [noexcept]. *)
Definition registerEvent (s : sys) (k : EventKind) : outcome (positive * sys) :=
  let p := s_next s in
  let s := mkSys (<[p := Event_new k]> (s_objects s)) (Pos.succ p) ({[p]} ∪ m_registeredEvents s)
             (s_queue s) (s_manager s) (s_calls s) in
  if em_running then
    '(_, em) ← registerHandler ops (s_objects s) (s_manager s) p; Ok (p, set_manager s em)
  else Err Terminate.

Definition updateEvent (s : sys) (event : option positive) : outcome (status * sys) :=
  match event with
  | None => Ok (INVALID_EVENT, s)
  | Some p =>
      if em_running then
        e ← deref (s_objects s) p;
        match ev_kind e with
        | TimerEvent id _ => Ok (OK, set_manager s (updateHandler (s_manager s) id).2)
        | _ => undefined TypeConfusion
        end
      else Ok (EVM_NOTRUNNING, s)
  end.

Definition unregisterEvent (s : sys) (event : option positive) : outcome (status * sys) :=
  match event with
  | None => Ok (INVALID_EVENT, s)
  | Some p =>
      if em_running then
        '(_, em) ← unregisterHandler ops (s_objects s) (s_manager s) p;
        let s := set_manager s em in
        if bool_decide (p ∈ m_registeredEvents s) then
          e ← deref (s_objects s) p;
          if awaitingDispatch e then Ok (OK, set_object s p (setPendingRemoval e true))
          else Ok (OK, mkSys (delete p (s_objects s)) (s_next s) (m_registeredEvents s ∖ {[p]})
                         (s_queue s) (s_manager s) (s_calls s))
        else Ok (OK, s)
      else Ok (EVM_NOTRUNNING, s)
  end.

(** [~Queue()]: [erase(it)], then [*it]. *)
Definition Queue_destroy (s : sys) : outcome sys :=
  if bool_decide (m_registeredEvents s = ∅) then Ok s else undefined InvalidIterator.

Definition event_count (s : sys) : nat := size (m_registeredEvents s).
End registration.

(** ** SharedQueue.h, BlockingQueue.h, BusySpinQueue.h *)

Section shared_queue.
Context {capacity : nat} (push : Q -> QueueElement -> bool * Q)
  (pop : Q -> outcome (option QueueElement * Q)).

Definition shared_enqueue (s : sys) (x : QueueElement) : outcome (bool * sys) :=
  let '(r, q) := push (s_queue s) x in Ok (r, set_queue s q).

(** [dispatch_event]: [erase(it)] is followed by [delete *it]. *)
Definition dispatch_event (s : sys) (x : QueueElement) : outcome sys :=
  s ← event_dispatch s x;
  e ← deref (s_objects s) (el_event x);
  if m_pendingRemoval e && negb (awaitingDispatch e) then
    _ ← assert_ (bool_decide (el_event x ∈ m_registeredEvents s));
    undefined InvalidIterator
  else Ok s.

(** [while (m_queue.pop(dispatcher))] *)
Fixpoint dispatch_loop (n : nat) (s : sys) (result : status) : outcome (status * sys) :=
  match n with
  | O => Err OutOfFuel
  | S n =>
      '(o, q) ← pop (s_queue s);
      let s := set_queue s q in
      match o with
      | Some x => s ← dispatch_event s x; dispatch_loop n s OK
      | None => Ok (result, s)
      end
  end.
Definition try_dispatch (n : nat) (initialised : bool) (s : sys) : outcome (status * sys) :=
  if initialised then dispatch_loop n s NO_EVENTS else Ok (EVM_NOTRUNNING, s).

(** [BlockingQueue::dispatch()]: [None] when it waits for an element. *)
Definition blocking_dispatch (s : sys) : outcome (option (status * sys)) :=
  '(o, q) ← pop (s_queue s);
  let s := set_queue s q in
  match o with
  | Some x => s ← dispatch_event s x; Ok (Some (OK, s))
  | None => Ok None
  end.

(** [BusySpinQueue::dispatch()]: [None] when it spins. *)
Definition spin_dispatch (n : nat) (initialised : bool) (s : sys) : outcome (option (status * sys)) :=
  '(r, s) ← try_dispatch n initialised s;
  Ok (if bool_decide (r = NO_EVENTS) then None else Some (r, s)).
End shared_queue.

(** ** InlineQueue.h *)

(** [__enqueue] runs the function at once. *)
Definition inline_enqueue (s : sys) (x : QueueElement) : outcome (bool * sys) :=
  s ← event_dispatch s x; Ok (true, s).
Definition inline_try_dispatch (s : sys) : status := NO_EVENTS.
Definition inline_dispatch (sig_read : Z -> Z) (s : sys) (w : WaitResult) : outcome (status * sys) :=
  '(_, s) ← waitForEvent inline_enqueue sig_read s w; Ok (OK, s).
End system.
