(* ===== verification/EventDelivery.v ===== *)
(** * EventDelivery: what the event queues guarantee, and where they fail

    The queues of EventQueue over any bounded FIFO: every readiness report
    reaches each interested handler exactly once and in order, as long as the
    queue has room; and the paths that leave a handler cut off or dangling. *)
From stdpp Require Import relations.
From S2P Require Import Prelude Types RingBuffer Poll Events EventQueue.

(** How many elements of the queue are for event [p]. *)
Definition queued (p : positive) (q : list QueueElement) : nat :=
  length (filter (fun x => el_event x = p) q).

(** The dispatch counters are right: every queued element is for a live event,
    and each event's counter is the number of its elements. *)
Record accounted (o : objects) (q : list QueueElement) : Prop := {
  ac_live : Forall (fun x => is_Some (o !! el_event x)) q;
  ac_count : forall p e, o !! p = Some e -> m_awaitingDispatch e = Z.of_nat (queued p q)
}.

(** What does not change when events are queued and dispatched. *)
Definition static (o : objects) : gmap positive (EventKind * bool) :=
  (fun e => (ev_kind e, m_pendingRemoval e)) <$> o.
Definition none_pending (o : objects) : Prop := forall p e, o !! p = Some e -> m_pendingRemoval e = false.

Definition call_of (x : QueueElement) : positive * Z := (el_event x, el_argument x).

Lemma queued_cons p x q : queued p (x :: q) = ((if decide (el_event x = p) then 1 else 0) + queued p q)%nat.
Proof. unfold queued. rewrite filter_cons. by case_decide. Qed.

Lemma queued_snoc p q x : queued p (q ++ [x]) = ((if decide (el_event x = p) then 1 else 0) + queued p q)%nat.
Proof.
  unfold queued. rewrite filter_app, length_app, filter_cons, filter_nil. case_decide; cbn; lia.
Qed.

Lemma queued_le p q : (queued p q <= length q)%nat.
Proof. apply length_filter. Qed.

Lemma static_insert o p e e' :
  o !! p = Some e -> ev_kind e' = ev_kind e -> m_pendingRemoval e' = m_pendingRemoval e ->
  static (<[p := e']> o) = static o.
Proof.
  intros Hp Hk Hr. unfold static. rewrite fmap_insert, Hk, Hr. apply insert_id.
  by rewrite lookup_fmap, Hp.
Qed.

Lemma static_lookup o o' p e :
  static o' = static o -> o !! p = Some e ->
  exists e', o' !! p = Some e' /\ ev_kind e' = ev_kind e /\ m_pendingRemoval e' = m_pendingRemoval e.
Proof.
  unfold static. intros E Hp. apply (f_equal (lookup p)) in E. rewrite !lookup_fmap, Hp in E.
  destruct (o' !! p) as [e'|]; [|done]. cbn in E. injection E as E1 E2. eauto.
Qed.

Lemma static_pending o o' : static o' = static o -> none_pending o -> none_pending o'.
Proof.
  intros E Hn p e Hp. destruct (static_lookup o' o p e ltac:(done) Hp) as (e' & Hp' & _ & <-). by eapply Hn.
Qed.

(** Queueing one more element for an event. *)
Lemma accounted_push o q p e a :
  accounted o q -> o !! p = Some e -> Z.of_nat (S (length q)) < 2 ^ 16 ->
  accounted (<[p := pushDispatch e]> o) (q ++ [mkElement p a]).
Proof.
  intros [Hl Hc] Hp Hs. split.
  - apply Forall_app. split.
    + eapply Forall_impl; [exact Hl|]. intros x [ex Hx]. rewrite lookup_insert. case_decide; eauto.
    + repeat constructor. cbn. rewrite lookup_insert_eq. eauto.
  - intros p' e' Hp'. rewrite queued_snoc. cbn [el_event]. rewrite lookup_insert in Hp'. case_decide.
    + subst. injection Hp' as <-. cbn. rewrite (Hc _ _ Hp). pose proof (queued_le p' q).
      rewrite wrap_small; lia.
    + by rewrite (Hc _ _ Hp').
Qed.

(** Taking the first element of the queue. *)
Lemma accounted_pop o x q e :
  accounted o (x :: q) -> o !! el_event x = Some e -> Z.of_nat (length q) < 2 ^ 16 ->
  accounted (<[el_event x := popDispatch e]> o) q.
Proof.
  intros [Hl Hc] Hp Hs. apply Forall_cons in Hl as [_ Hl]. split.
  - eapply Forall_impl; [exact Hl|]. intros y [ey Hy]. rewrite lookup_insert. case_decide; eauto.
  - intros p' e' Hp'. rewrite lookup_insert in Hp'. case_decide as E.
    + injection Hp' as <-. cbn. rewrite (Hc _ _ Hp), queued_cons, E, decide_True by done.
      pose proof (queued_le p' q). rewrite wrap_small; lia.
    + rewrite (Hc _ _ Hp'), queued_cons, decide_False by done. done.
Qed.

Section delivery.
Context {K Q : Type} `{Epoll K} {capacity : nat} {push : Q -> QueueElement -> bool * Q}
  {pop : Q -> outcome (option QueueElement * Q)} `{!BoundedFifo Q QueueElement capacity push pop}.
Context (small : Z.of_nat capacity < 2 ^ 16).
Abbreviation sys := (Sys K Q).
Abbreviation service := (service_io_handlers (shared_enqueue push)).

(** What queueing and dispatching leave alone. *)
Definition frame (s s' : sys) : Prop :=
  static (s_objects s') = static (s_objects s) /\ s_manager s' = s_manager s /\
  m_registeredEvents s' = m_registeredEvents s.

Lemma frame_trans s1 s2 s3 : frame s1 s2 -> frame s2 s3 -> frame s1 s3.
Proof. unfold frame. intuition congruence. Qed.

(** ** Dispatching *)

Lemma dispatch_event_spec s x q :
  accounted (s_objects s) (x :: q) -> none_pending (s_objects s) -> Z.of_nat (length q) < 2 ^ 16 ->
  exists s', dispatch_event s x = Ok s' /\ accounted (s_objects s') q /\ frame s s' /\
    s_queue s' = s_queue s /\ s_calls s' = s_calls s ++ [call_of x].
Proof.
  intros A Hn Hs. pose proof (ac_live _ _ A) as Hl. apply Forall_cons in Hl as [[e He] _].
  unfold dispatch_event, event_dispatch, deref. rewrite He. run_bind.
  rewrite (Hn _ _ He). cbn [callback set_object s_objects]. rewrite lookup_insert_eq. run_bind.
  change (m_pendingRemoval (popDispatch e)) with (m_pendingRemoval e). rewrite (Hn _ _ He).
  eexists. split; [done|]. cbn. split; [by apply accounted_pop|]. split; [|done].
  split; [by eapply static_insert|done].
Qed.

Lemma dispatch_loop_spec q : forall n s r,
  fifo_rep (s_queue s) q -> accounted (s_objects s) q -> none_pending (s_objects s) -> (length q < n)%nat ->
  exists s', dispatch_loop pop n s r = Ok (match q with [] => r | _ => OK end, s') /\
    fifo_rep (s_queue s') [] /\ accounted (s_objects s') [] /\ frame s s' /\
    s_calls s' = s_calls s ++ (call_of <$> q).
Proof.
  induction q as [|x q IH]; intros n s r R A Hp Hn; (destruct n as [|n]; [cbn in Hn; lia|]);
    cbn [dispatch_loop]; pose proof (fifo_pop _ _ R) as Hpop.
  - rewrite Hpop. cbn. eexists. split; [done|]. cbn. split; [done|]. split; [done|].
    split; [done|]. by rewrite app_nil_r.
  - destruct Hpop as (q' & -> & R'). run_bind.
    pose proof (fifo_bound _ _ R') as Hb.
    destruct (dispatch_event_spec (set_queue s q') x q A Hp ltac:(lia)) as (s1 & -> & A1 & F1 & E1 & C1).
    run_bind.
    destruct (IH n s1 OK) as (s2 & E2 & R2 & A2 & F2 & C2).
    { by rewrite E1. } { done. } { eapply static_pending; [apply F1|done]. } { cbn in Hn; lia. }
    exists s2. rewrite E2. split; [by destruct q|]. split; [done|]. split; [done|].
    split; [eapply frame_trans; [|exact F2]; exact F1|].
    rewrite C2, C1. cbn. by rewrite <- app_assoc.
Qed.

(** ** Servicing a descriptor *)

(** The elements a readiness report queues: one for each handler that is
    interested and has none in the queue. *)
Definition wants (e : Event) (filter : Z) : bool :=
  negb (Z.land (eventTypes e) filter =? EventType_NONE) && negb (awaitingDispatch e).
Definition notified (o : objects) (handlers : list positive) (filter : Z) : list QueueElement :=
  omap (fun p => e ← o !! p;
          if wants e filter then Some (mkElement p (Z.land (eventTypes e) filter)) else None) handlers.

Lemma notified_ext o o' l f : (forall p, p ∈ l -> o' !! p = o !! p) -> notified o' l f = notified o l f.
Proof.
  intros E. induction l as [|p l IH]; [done|]. unfold notified in *. cbn.
  rewrite (E p) by apply list_elem_of_here. rewrite IH; [done|]. intros p' Hp'. apply E. by apply list_elem_of_further.
Qed.

Lemma notified_length o l f : (length (notified o l f) <= length l)%nat.
Proof. induction l as [|p l IH]; [done|]. unfold notified in *. cbn. destruct (_ ≫= _); cbn; lia. Qed.

Lemma service_spec l f : forall s q,
  fifo_rep (s_queue s) q -> accounted (s_objects s) q -> NoDup l ->
  Forall (fun p => is_Some (s_objects s !! p)) l -> (length q + length l <= capacity)%nat ->
  exists s', service s l f = Ok s' /\ fifo_rep (s_queue s') (q ++ notified (s_objects s) l f) /\
    accounted (s_objects s') (q ++ notified (s_objects s) l f) /\ frame s s' /\ s_calls s' = s_calls s.
Proof.
  induction l as [|p l IH]; intros s q R A Hd Hl Hroom.
  - exists s. rewrite app_nil_r. done.
  - inversion_clear Hd as [|? ? Hp Hd']. apply Forall_cons in Hl as [[e He] Hl]. cbn [length] in Hroom.
    cbn [service_io_handlers]. unfold deref at 1. rewrite He. run_bind.
    replace (notified (s_objects s) (p :: l) f) with
      ((if wants e f then [mkElement p (Z.land (eventTypes e) f)] else []) ++ notified (s_objects s) l f)
      by (unfold notified; cbn; rewrite He; cbn; by destruct (wants e f)).
    fold (wants e f). destruct (wants e f).
    + unfold notify, deref. rewrite He. run_bind. unfold shared_enqueue.
      cbn [set_object s_queue].
      pose proof (fifo_push _ _ (mkElement p (Z.land (eventTypes e) f)) R) as Hpush.
      rewrite decide_False in Hpush by lia. destruct Hpush as (q' & -> & R'). run_bind.
      set (s1 := set_queue _ q'). set (q1 := q ++ [mkElement p (Z.land (eventTypes e) f)]) in *.
      destruct (IH s1 q1) as (s2 & E2 & R2 & A2 & F2 & C2); [done| |done| | |].
      { apply accounted_push; [done|done|lia]. }
      { eapply Forall_impl; [exact Hl|]. intros p' [e' Hp']. cbn. rewrite lookup_insert. case_decide; eauto. }
      { unfold q1. rewrite length_app. cbn. lia. }
      assert (notified (s_objects s1) l f = notified (s_objects s) l f) as En.
      { apply notified_ext. intros p' Hp'. apply lookup_insert_ne. intros ->. done. }
      rewrite En in *. unfold q1 in *. rewrite <- app_assoc in R2, A2. exists s2. split; [done|].
      split; [done|]. split; [done|]. split; [|done]. eapply frame_trans; [|exact F2].
      split; [by eapply static_insert|done].
    + cbn [mbind outcome_bind app]. apply IH; [done|done|done|done|lia].
Qed.

(** C28: readiness is delivered.  With room in the queue, servicing a readiness
    report of a descriptor and dispatching calls back, after everything queued
    before, each handler of the descriptor that is interested in it and not
    waiting to be called already: once, in the order of registration, with the
    events it registered for; afterwards the queue is empty and no event is
    waiting, so the next report will be delivered as well. *)
Theorem io_event_delivered (s : sys) q fd l f n :
  fifo_rep (s_queue s) q -> accounted (s_objects s) q -> none_pending (s_objects s) ->
  m_ioHandlerLookup (s_manager s) !! fd = Some l -> NoDup l ->
  Forall (fun p => is_Some (s_objects s !! p)) l -> (length q + length l <= capacity)%nat ->
  (capacity < n)%nat ->
  exists s1 r s2, serviceIOEvent (shared_enqueue push) s fd f = Ok s1 /\
    try_dispatch pop n true s1 = Ok (r, s2) /\
    s_calls s2 = s_calls s ++ (call_of <$> q ++ notified (s_objects s) l f) /\
    fifo_rep (s_queue s2) [] /\ (forall p e, s_objects s2 !! p = Some e -> m_awaitingDispatch e = 0).
Proof.
  intros R A Hp Hl Hd Hlive Hroom Hn. unfold serviceIOEvent. rewrite Hl.
  destruct (service_spec l f s q R A Hd Hlive Hroom) as (s1 & -> & R1 & A1 & F1 & C1).
  pose proof (fifo_bound _ _ R1).
  destruct (dispatch_loop_spec _ n s1 NO_EVENTS R1 A1) as (s2 & E2 & R2 & A2 & _ & C2).
  { eapply static_pending; [apply F1|done]. } { lia. }
  do 3 eexists. split; [done|]. split; [exact E2|]. rewrite C2, C1. split; [done|]. split; [done|].
  intros p e He. by rewrite (ac_count _ _ A2 _ _ He).
Qed.

(** Reports are coalesced: while the handlers of a descriptor wait to be
    called, the same report again queues nothing. *)
Theorem io_event_coalesced (s : sys) q fd l f :
  fifo_rep (s_queue s) q -> accounted (s_objects s) q ->
  m_ioHandlerLookup (s_manager s) !! fd = Some l -> NoDup l ->
  Forall (fun p => is_Some (s_objects s !! p)) l -> (length q + length l <= capacity)%nat ->
  exists s1, serviceIOEvent (shared_enqueue push) s fd f = Ok s1 /\ notified (s_objects s1) l f = [].
Proof.
  intros R A Hl Hd Hlive Hroom. unfold serviceIOEvent. rewrite Hl.
  destruct (service_spec l f s q R A Hd Hlive Hroom) as (s1 & -> & _ & A1 & (F & _) & _).
  exists s1. split; [done|]. unfold notified. apply elem_of_nil_inv. intros x Hx.
  apply list_elem_of_omap in Hx as (p & Hp & Hx). destruct (s_objects s1 !! p) as [e1|] eqn:He1; [|done].
  cbn in Hx. destruct (wants e1 f) eqn:Hw; [|done]. apply andb_true_iff in Hw as [Hi Ha].
  destruct (static_lookup _ _ p e1 (eq_sym F) He1) as (e & He & Hk & _).
  unfold awaitingDispatch in Ha. rewrite (ac_count _ _ A1 _ _ He1) in Ha.
  assert (queued p (q ++ notified (s_objects s) l f) <> 0)%nat as Hq;
    [|by rewrite (proj2 (Z.eqb_neq _ 0)) in Ha by lia].
  unfold queued. rewrite filter_app, length_app.
  destruct (awaitingDispatch e) eqn:Haw.
  - unfold awaitingDispatch in Haw. rewrite (ac_count _ _ A _ _ He) in Haw. unfold queued in Haw.
    destruct (length (filter (fun x => el_event x = p) q)); [done|lia].
  - assert (mkElement p (Z.land (eventTypes e) f) ∈ filter (fun x => el_event x = p) (notified (s_objects s) l f)) as Hin.
    { apply list_elem_of_filter. split; [done|]. apply list_elem_of_omap. exists p. split; [done|].
      rewrite He. cbn. unfold wants, eventTypes in *. by rewrite Hk, Hi, Haw. }
    destruct (filter _ (notified _ _ _)); [by apply elem_of_nil in Hin|cbn; lia].
Qed.

(** ** A full queue *)

Definition calls_to (p : positive) (s : sys) : list (positive * Z) := filter (fun c => c.1 = p) (s_calls s).

(** Event [p] counts as waiting, but no element of the queue is for it. *)
Record cut_off (p : positive) (c : list (positive * Z)) (s : sys) : Prop := {
  co_queue : exists q, fifo_rep (s_queue s) q /\ Forall (fun x => el_event x <> p) q;
  co_event : exists e, s_objects s !! p = Some e /\ m_awaitingDispatch e = 1;
  co_timer : forall id, m_timerHandlerLookup (s_manager s) !! id <> Some p;
  co_signal : forall sg, m_signalHandlerLookup (s_manager s) !! sg <> Some p;
  co_calls : calls_to p s = c
}.

Lemma notify_cut_off p c s p' a r s' :
  cut_off p c s -> p' <> p -> notify (shared_enqueue push) s p' a = Ok (r, s') -> cut_off p c s'.
Proof.
  intros [(q & R & Hq) (e & He & Ha) Ht Hs Hc] Hne. unfold notify, deref.
  destruct (s_objects s !! p') as [e'|] eqn:He'; [|done]. run_bind.
  unfold shared_enqueue. cbn [set_object s_queue].
  pose proof (fifo_push _ _ (mkElement p' a) R) as Hpush.
  destruct (push (s_queue s) (mkElement p' a)) as [r' q1] eqn:Ep. intros [= <- <-].
  split; cbn; [|exists e; by rewrite lookup_insert_ne|done|done|done].
  case_decide.
  - injection Hpush as _ ->. by exists q.
  - destruct Hpush as (q2 & [= _ ->] & R2). eexists. split; [exact R2|]. apply Forall_app.
    split; [done|]. by repeat constructor.
Qed.

Lemma service_cut_off p c l f : forall s s',
  cut_off p c s -> service s l f = Ok s' -> cut_off p c s'.
Proof.
  induction l as [|p' l IH]; intros s s' C E; cbn [service_io_handlers] in E; [by injection E as <-|].
  unfold deref at 1 in E. destruct (s_objects s !! p') as [e'|] eqn:He'; [|done]. run_bind in E.
  destruct (decide (p' = p)) as [->|Hne].
  - pose proof (co_event _ _ _ C) as (e & He & Ha). rewrite He in He'. injection He' as <-.
    unfold awaitingDispatch in E at 1. rewrite Ha in E. cbn in E. rewrite andb_false_r in E.
    run_bind in E. by eapply IH.
  - destruct (_ && _) in E; [|run_bind in E; by eapply IH].
    destruct (notify _ s p' _) as [[r s1]|] eqn:En; [|done]. run_bind in E.
    eapply IH; [|exact E]. by eapply notify_cut_off.
Qed.

Lemma dispatch_event_cut_off p c s x s' :
  cut_off p c s -> el_event x <> p -> dispatch_event s x = Ok s' -> cut_off p c s'.
Proof.
  intros [Hq (e & He & Ha) Ht Hs Hc] Hne. unfold dispatch_event, event_dispatch, deref.
  destruct (s_objects s !! el_event x) as [e'|] eqn:He'; [|done]. run_bind.
  destruct (m_pendingRemoval e') eqn:Hp; cbn [set_object callback s_objects];
    rewrite lookup_insert_eq; run_bind; change (m_pendingRemoval (popDispatch e')) with (m_pendingRemoval e');
    rewrite Hp; cbn [andb].
  - destruct (negb _); [|intros [= <-]].
    + unfold assert_. by destruct (bool_decide _).
    + split; cbn; try done. exists e. by rewrite lookup_insert_ne.
  - intros [= <-]. split; cbn; try done; [exists e; by rewrite lookup_insert_ne|].
    unfold calls_to in *. cbn. rewrite filter_app, filter_cons, filter_nil, decide_False by done.
    by rewrite app_nil_r.
Qed.

Lemma dispatch_loop_cut_off p c n : forall s r r' s',
  cut_off p c s -> dispatch_loop pop n s r = Ok (r', s') -> cut_off p c s'.
Proof.
  induction n as [|n IH]; intros s r r' s' C E; [done|]. cbn [dispatch_loop] in E.
  destruct C as [(q & R & Hq) He Ht Hs Hc]. pose proof (fifo_pop _ _ R) as Hpop. destruct q as [|x q].
  - rewrite Hpop in E. cbn in E. injection E as <- <-. by split; [exists []|..].
  - destruct Hpop as (q1 & Ep & R1). rewrite Ep in E. run_bind in E.
    apply Forall_cons in Hq as [Hx Hq].
    destruct (dispatch_event (set_queue s q1) x) as [s1|] eqn:Ed; [|done]. run_bind in E.
    eapply IH; [|exact E]. eapply dispatch_event_cut_off; [|exact Hx|exact Ed].
    by split; [exists q|..].
Qed.

(** What the event thread and the dispatching thread do from then on. *)
Inductive loop_step : sys -> sys -> Prop :=
  | ls_io s fd f s' : serviceIOEvent (shared_enqueue push) s fd f = Ok s' -> loop_step s s'
  | ls_timer s id s' : serviceTimerEvent (shared_enqueue push) s id = Ok s' -> loop_step s s'
  | ls_signal s id sg s' : serviceSignalEvent (shared_enqueue push) s id sg = Ok s' -> loop_step s s'
  | ls_dispatch s n r s' : try_dispatch pop n true s = Ok (r, s') -> loop_step s s'.

Lemma step_cut_off p c s s' : cut_off p c s -> loop_step s s' -> cut_off p c s'.
Proof.
  intros C St. destruct St as [s fd f s' E|s id s' E|s id sg s' E|s n r s' E].
  - unfold serviceIOEvent in E. destruct (_ !! fd); [by eapply service_cut_off|by injection E as <-].
  - unfold serviceTimerEvent in E. destruct (_ !! id) as [p'|] eqn:Hp; [|by injection E as <-].
    destruct (notify _ _ _ _) as [[r s1]|] eqn:En; [|done]. injection E as <-.
    eapply notify_cut_off; [done| |exact En]. intros ->. by apply (co_timer _ _ _ C id).
  - unfold serviceSignalEvent in E. destruct (_ !! sg) as [p'|] eqn:Hp; [|by injection E as <-].
    destruct (notify _ _ _ _) as [[r s1]|] eqn:En; [|done]. injection E as <-.
    eapply notify_cut_off; [done| |exact En]. intros ->. by apply (co_signal _ _ _ C sg).
  - by eapply dispatch_loop_cut_off.
Qed.

(** Servicing handlers other than [p] while the queue is full. *)
Lemma service_full s l f p q :
  fifo_rep (s_queue s) q -> length q = capacity -> p ∉ l ->
  Forall (fun p => is_Some (s_objects s !! p)) l ->
  exists s', service s l f = Ok s' /\ s_queue s' = s_queue s /\ s_objects s' !! p = s_objects s !! p /\
    frame s s' /\ s_calls s' = s_calls s.
Proof.
  intros R Hfull. revert s R. induction l as [|p' l IH]; intros s R Hp Hl; [by exists s|].
  apply not_elem_of_cons in Hp as [Hne Hp]. apply Forall_cons in Hl as [[e He] Hl].
  cbn [service_io_handlers]. unfold deref at 1. rewrite He. run_bind.
  destruct (_ && _); [|run_bind; by apply IH].
  unfold notify, deref, shared_enqueue. rewrite He. cbn [mbind outcome_bind set_object s_queue].
  pose proof (fifo_push _ _ (mkElement p' (Z.land (eventTypes e) f)) R) as Hpush.
  rewrite decide_True in Hpush by done. rewrite Hpush. run_bind.
  destruct (IH (set_queue (set_object s p' (pushDispatch e)) (s_queue s))) as (s' & E & Eq & Eo & F & C);
    [done|done| |].
  { eapply Forall_impl; [exact Hl|]. intros p2 [e2 He2]. cbn. rewrite lookup_insert. case_decide; eauto. }
  exists s'. split; [exact E|]. split; [done|]. split; [rewrite Eo; cbn; by rewrite lookup_insert_ne|].
  split; [|done]. eapply frame_trans; [|exact F]. split; [by eapply static_insert|done].
Qed.

Lemma service_total l f : forall s : sys,
  Forall (fun p => is_Some (s_objects s !! p)) l -> exists s', service s l f = Ok s'.
Proof.
  induction l as [|p l IH]; intros s Hl; [by exists s|]. apply Forall_cons in Hl as [[e He] Hl].
  cbn [service_io_handlers]. unfold deref at 1. rewrite He. run_bind.
  destruct (_ && _); [|run_bind; by apply IH].
  unfold notify, deref, shared_enqueue. rewrite He. run_bind.
  destruct (push _ _) as [r q]. run_bind. apply IH.
  eapply Forall_impl; [exact Hl|]. intros p2 [e2 He2]. cbn. rewrite lookup_insert. case_decide; eauto.
Qed.

Lemma service_app (s : sys) l1 l2 f : service s (l1 ++ l2) f = service s l1 f ≫= fun s => service s l2 f.
Proof.
  revert s. induction l1 as [|p l1 IH]; intros s; [done|]. cbn [app service_io_handlers].
  rewrite bind_assoc. destruct (deref (s_objects s) p); [|done]. run_bind.
  rewrite bind_assoc. destruct (if _ && _ then _ else _); [|done]. run_bind. apply IH.
Qed.

(** A handler that becomes ready while the queue is full is cut off: its
    notification is dropped but stays counted as waiting, so no later report,
    timer, signal or dispatch ever calls it again. *)
Theorem full_queue_cuts_off (s : sys) q fd l1 l2 p e f :
  fifo_rep (s_queue s) q -> length q = capacity -> accounted (s_objects s) q ->
  m_ioHandlerLookup (s_manager s) !! fd = Some (l1 ++ p :: l2) -> p ∉ l1 ->
  Forall (fun p => is_Some (s_objects s !! p)) (l1 ++ p :: l2) ->
  s_objects s !! p = Some e -> wants e f = true ->
  (forall id, m_timerHandlerLookup (s_manager s) !! id <> Some p) ->
  (forall sg, m_signalHandlerLookup (s_manager s) !! sg <> Some p) ->
  exists s1, serviceIOEvent (shared_enqueue push) s fd f = Ok s1 /\
    forall s2, rtc loop_step s1 s2 -> calls_to p s2 = calls_to p s.
Proof.
  intros R Hfull A Hl Hp Hlive He Hw Ht Hs. unfold serviceIOEvent. rewrite Hl, service_app.
  apply Forall_app in Hlive as [Hl1 Hl2]. apply Forall_cons in Hl2 as [_ Hl2].
  destruct (service_full s l1 f p q R Hfull Hp Hl1) as (s1 & -> & Eq1 & Eo1 & F1 & C1).
  cbn [mbind outcome_bind service_io_handlers]. unfold deref at 1. rewrite Eo1, He. run_bind.
  fold (wants e f). rewrite Hw. unfold notify, deref, shared_enqueue. rewrite Eo1, He.
  cbn [mbind outcome_bind set_object s_queue]. rewrite Eq1.
  pose proof (fifo_push _ _ (mkElement p (Z.land (eventTypes e) f)) R) as Hpush.
  rewrite decide_True in Hpush by done. rewrite Hpush. run_bind.
  set (s2 := set_queue _ _).
  assert (m_awaitingDispatch e = 0) as Ha.
  { apply andb_true_iff in Hw as [_ Hw]. unfold awaitingDispatch in Hw. by apply negb_true_iff, negb_false_iff, Z.eqb_eq in Hw. }
  assert (cut_off p (calls_to p s) s2) as C2.
  { destruct F1 as (_ & Em & _). split; cbn.
    - exists q. split; [done|]. pose proof (ac_count _ _ A _ _ He) as Hq. rewrite Ha in Hq.
      apply Forall_forall. intros x Hx Ex. assert (x ∈ filter (fun x => el_event x = p) q) as Hin
        by (apply list_elem_of_filter; done). unfold queued in Hq.
      destruct (filter _ q); [by apply elem_of_nil in Hin|cbn in Hq; lia].
    - eexists. rewrite lookup_insert_eq. split; [done|]. cbn. by rewrite Ha.
    - by rewrite Em.
    - by rewrite Em.
    - unfold calls_to. cbn. by rewrite C1. }
  destruct (service_total l2 f s2) as [s3 E3].
  { apply Forall_forall. intros p' Hp'. rewrite Forall_forall in Hl2. destruct (Hl2 p' Hp') as [e' He'].
    cbn. rewrite lookup_insert. case_decide; [eauto|].
    destruct (static_lookup _ _ p' e' (proj1 F1) He') as (e2 & -> & _). eauto. }
  exists s3. split; [exact E3|]. intros s4 St. apply (co_calls p (calls_to p s) s4).
  apply (service_cut_off _ _ _ _ _ _ C2) in E3 as C3. clear -C3 St small BoundedFifo0.
  induction St as [|a b c Hab _ IH]; [done|]. apply IH. by eapply step_cut_off.
Qed.

(** ** Unregistering *)

Lemma not_in_removed (p : positive) (X : gset positive) : p ∉ X ∖ {[p]}.
Proof. rewrite elem_of_difference, elem_of_singleton. intros [_ Hp]. by apply Hp. Qed.

Abbreviation unregister := (unregisterEvent GlobalEventManager true).

(** Servicing a list with a dead handler in it. *)
Lemma service_dead l1 l2 p f : forall s : sys,
  Forall (fun p => is_Some (s_objects s !! p)) l1 -> s_objects s !! p = None ->
  service s (l1 ++ p :: l2) f = undefined UseAfterFree.
Proof.
  induction l1 as [|p1 l1 IH]; intros s Hl Hp; cbn [app service_io_handlers].
  - unfold deref. by rewrite Hp.
  - apply Forall_cons in Hl as [[e He] Hl]. assert (p <> p1) by congruence.
    unfold deref at 1. rewrite He. run_bind.
    destruct (_ && _); [|run_bind; by apply IH].
    unfold notify, deref, shared_enqueue. rewrite He. run_bind.
    destruct (push _ _) as [r q]. run_bind. apply IH; cbn; [|by rewrite lookup_insert_ne].
    eapply Forall_impl; [exact Hl|]. intros p2 [e2 He2]. rewrite lookup_insert. case_decide; eauto.
Qed.

(** A handler that shares its descriptor cannot be unregistered safely:
    [unregisterEvent] reports success and deletes the event, but the manager
    has erased it from a copy of its table, and the next report on the
    descriptor uses the deleted event. *)
Theorem unregister_shared_descriptor (s : sys) fd t l1 l2 p e f :
  s_objects s !! p = Some e -> ev_kind e = DataEvent fd t -> awaitingDispatch e = false ->
  p ∈ m_registeredEvents s -> m_ioHandlerLookup (s_manager s) !! fd = Some (l1 ++ p :: l2) ->
  length (l1 ++ p :: l2) <> 1%nat -> p ∉ l1 -> Forall (fun p => is_Some (s_objects s !! p)) l1 ->
  exists s', unregister s (Some p) = Ok (OK, s') /\ (p ∉ m_registeredEvents s') /\
    serviceIOEvent (shared_enqueue push) s' fd f = undefined UseAfterFree.
Proof.
  intros He Hk Ha Hr Hl Hlen Hp Hlive. unfold unregisterEvent, GlobalEventManager, global_unregisterHandler, deref.
  cbn [unregisterHandler]. rewrite He. run_bind. rewrite Hk. unfold unregister_io. rewrite Hl.
  rewrite bool_decide_eq_true_2 by (apply elem_of_app; right; apply list_elem_of_here).
  rewrite (proj2 (Nat.eqb_neq _ _) Hlen). cbn [mbind outcome_bind fst set_manager m_registeredEvents s_objects].
  rewrite bool_decide_eq_true_2 by done. rewrite He. run_bind. rewrite Ha.
  eexists. split; [done|]. split; [apply not_in_removed|]. unfold serviceIOEvent. cbn [s_manager set_manager]. rewrite Hl.
  apply service_dead; cbn; [|apply lookup_delete_eq].
  apply Forall_forall. intros p' Hp'. rewrite Forall_forall in Hlive. destruct (Hlive p' Hp') as [e' He'].
  rewrite lookup_delete_ne by (intros ->; done). eauto.
Qed.

(** Unregistering the only handler of a descriptor is clean: the event is
    deleted and out of the queue's set, the manager's table has no entry for the
    descriptor, the kernel no longer watches it, and a late report on it
    changes nothing. *)
Theorem unregister_sole_handler (s : sys) fd t p e f :
  s_objects s !! p = Some e -> ev_kind e = DataEvent fd t -> awaitingDispatch e = false ->
  p ∈ m_registeredEvents s -> m_ioHandlerLookup (s_manager s) !! fd = Some [p] ->
  (ctl_del (ep_fd (m_eventLoop (s_manager s))) fd).1 = CtlOk ->
  exists s', unregister s (Some p) = Ok (OK, s') /\
    s_objects s' = delete p (s_objects s) /\ (p ∉ m_registeredEvents s') /\
    m_ioHandlerLookup (s_manager s') !! fd = None /\
    interest (ep_fd (m_eventLoop (s_manager s'))) !! fd = None /\
    serviceIOEvent (shared_enqueue push) s' fd f = Ok s'.
Proof.
  intros He Hk Ha Hr Hl Hc. unfold unregisterEvent, GlobalEventManager, global_unregisterHandler, deref.
  cbn [unregisterHandler]. rewrite He. run_bind. rewrite Hk. unfold unregister_io. rewrite Hl.
  rewrite bool_decide_eq_true_2 by apply list_elem_of_here. cbn [length Nat.eqb]. unfold remove_io.
  destruct (ctl_del _ fd) as [r k] eqn:E. cbn in Hc. subst r. rewrite bool_decide_eq_false_2 by done.
  cbn [mbind outcome_bind fst set_manager m_registeredEvents s_objects].
  rewrite bool_decide_eq_true_2 by done. rewrite He. run_bind. rewrite Ha.
  eexists. split; [done|]. split; [done|]. split; [apply not_in_removed|]. cbn. split; [apply lookup_delete_eq|].
  split; [rewrite (ctl_del_ok _ _ _ E); apply lookup_delete_eq|].
  unfold serviceIOEvent. cbn. by rewrite lookup_delete_eq.
Qed.

(** An event that is unregistered while it waits to be called takes the
    queue down: it is marked for removal, and the dispatch that removes it
    follows the iterator it has just erased. *)
Theorem pending_removal_faults (s : sys) fd t p e a q n :
  fifo_rep (s_queue s) (mkElement p a :: q) -> accounted (s_objects s) (mkElement p a :: q) ->
  queued p q = 0%nat -> s_objects s !! p = Some e -> ev_kind e = DataEvent fd t ->
  p ∈ m_registeredEvents s ->
  exists s', unregister s (Some p) = Ok (OK, s') /\
    try_dispatch pop (S n) true s' = undefined InvalidIterator.
Proof.
  intros R A Hq He Hk Hr. pose proof (ac_count _ _ A _ _ He) as Ha.
  rewrite queued_cons, decide_True, Hq in Ha by done. cbn in Ha.
  unfold unregisterEvent, GlobalEventManager, global_unregisterHandler, deref.
  cbn [unregisterHandler]. rewrite He. run_bind. rewrite Hk.
  destruct (unregister_io _ fd p).1 as [r em]. cbn [mbind outcome_bind set_manager m_registeredEvents s_objects].
  rewrite bool_decide_eq_true_2 by done. rewrite He. run_bind. unfold awaitingDispatch.
  rewrite Ha. cbn [Z.eqb negb Pos.eqb]. eexists. split; [done|]. unfold try_dispatch. cbn [dispatch_loop s_queue set_object set_manager].
  destruct (fifo_pop _ _ R) as (q' & -> & _). run_bind.
  unfold dispatch_event, event_dispatch, deref. cbn [set_queue set_object set_manager s_objects el_event].
  rewrite lookup_insert_eq. cbn [mbind outcome_bind setPendingRemoval m_pendingRemoval set_object s_objects].
  rewrite lookup_insert_eq. run_bind. unfold awaitingDispatch. cbn. rewrite Ha. cbn.
  by rewrite bool_decide_eq_true_2.
Qed.
End delivery.

(** ** The inline queue *)

Section inline.
Context {K Q : Type} `{Epoll K}.

(** The inline queue calls back at once: servicing a timer that is idle
    leaves its event idle and adds exactly one call, and afterwards nothing is
    queued. *)
Theorem inline_timer_called (s : Sys K Q) id p e :
  m_timerHandlerLookup (s_manager s) !! id = Some p -> s_objects s !! p = Some e ->
  m_pendingRemoval e = false -> 0 <= m_awaitingDispatch e < 2 ^ 16 ->
  exists s', serviceTimerEvent inline_enqueue s id = Ok s' /\
    s_calls s' = s_calls s ++ [(p, EventType_NONE)] /\ s_objects s' = s_objects s /\
    s_queue s' = s_queue s /\ inline_try_dispatch s' = NO_EVENTS.
Proof.
  intros Hp He Hr Ha. unfold serviceTimerEvent, notify, inline_enqueue, event_dispatch, deref.
  rewrite Hp, He. cbn [mbind outcome_bind set_object s_objects el_event].
  rewrite lookup_insert_eq. cbn [mbind outcome_bind pushDispatch m_pendingRemoval]. rewrite Hr.
  eexists. split; [done|]. cbn. split; [done|]. split; [|done].
  rewrite insert_insert_eq. apply insert_id. rewrite He. f_equal. destruct e as [k pr aw]. cbn in *. subst pr.
  unfold popDispatch, pushDispatch. cbn. f_equal. unfold wrap. rewrite Zminus_mod_idemp_l.
  replace (aw + 1 - 1) with aw by lia. symmetry. by apply Z.mod_small.
Qed.

(** Destroying a queue that still has a registered event follows an erased
    iterator. *)
Theorem queue_destroy_faults (s : Sys K Q) p :
  p ∈ m_registeredEvents s -> Queue_destroy s = undefined InvalidIterator.
Proof.
  intros Hp. unfold Queue_destroy. rewrite bool_decide_eq_false_2; [done|]. set_solver.
Qed.
End inline.

(** ** Concrete queues *)

#[export] Instance accounted_dec o q : Decision (accounted o q).
Proof.
  refine (cast_if (decide (Forall (fun x => is_Some (o !! el_event x)) q /\
    map_Forall (fun p e => m_awaitingDispatch e = Z.of_nat (queued p q)) o))).
  - destruct a as [H1 H2]. split; [exact H1|intros p e; apply H2].
  - intros [H1 H2]. apply n. split; [exact H1|intros p e; apply H2].
Defined.
#[export] Instance none_pending_dec o : Decision (none_pending o).
Proof. apply (decide (map_Forall (fun _ e => m_pendingRemoval e = false) o)). Defined.

Abbreviation ring_sys := (Sys (gmap Z (Z * Z)) (ringbuffer QueueElement)).

(** A queue of [size - 1] slots and the events registered with it. *)
Definition empty_sys (size : nat) : ring_sys :=
  mkSys ∅ 1 ∅ (ring_new size) (mkManager ∅ ∅ ∅ (mkPoll ∅ 0 0)) [].
Definition register_all (s : ring_sys) (l : list EventKind) : ring_sys :=
  foldl (fun s k => match registerEvent GlobalEventManager true s k with Ok (_, s) => s | Err _ => s end) s l.

(** Events 1 and 2 read descriptor 5, event 3 descriptor 6, event 4 is a timer. *)
Definition readers (size : nat) : ring_sys :=
  register_all (empty_sys size)
    [DataEvent 5 EventType_READ; DataEvent 5 EventType_READ; DataEvent 6 EventType_READ; TimerEvent 9 1000].

Lemma io_event_delivered_witness :
  exists s1 r s2, serviceIOEvent (shared_enqueue (ring_push 4)) (readers 4) 5 EventType_READ = Ok s1 /\
    try_dispatch (ring_pop 4) 4 true s1 = Ok (r, s2) /\ s_calls s2 = [(1%positive, 1); (2%positive, 1)].
Proof.
  destruct (io_event_delivered (push := ring_push 4) (pop := ring_pop 4) (capacity := 4 - 1)
    ltac:(by vm_compute) (readers 4) [] 5 [1%positive; 2%positive] EventType_READ 4)
    as (s1 & r & s2 & E1 & E2 & C & _).
  - apply ring_new_rep. lia.
  - apply (bool_decide_unpack _). vm_compute. exact I.
  - apply (bool_decide_unpack _). vm_compute. exact I.
  - vm_compute. reflexivity.
  - apply (bool_decide_unpack _). vm_compute. exact I.
  - apply (bool_decide_unpack _). vm_compute. exact I.
  - cbn. lia.
  - lia.
  - exists s1, r, s2. split; [exact E1|]. split; [exact E2|]. rewrite C. vm_compute. reflexivity.
Defined.

Lemma io_event_coalesced_witness :
  exists s1, serviceIOEvent (shared_enqueue (ring_push 4)) (readers 4) 5 EventType_READ = Ok s1 /\
    notified (s_objects s1) [1%positive; 2%positive] EventType_READ = [].
Proof.
  apply (io_event_coalesced (push := ring_push 4) (pop := ring_pop 4) (capacity := 4 - 1)
    ltac:(by vm_compute) (readers 4) [] 5 [1%positive; 2%positive] EventType_READ).
  - apply ring_new_rep. lia.
  - apply (bool_decide_unpack _). vm_compute. exact I.
  - vm_compute. reflexivity.
  - apply (bool_decide_unpack _). vm_compute. exact I.
  - apply (bool_decide_unpack _). vm_compute. exact I.
  - cbn. lia.
Defined.

(** A queue of one slot that holds the notification of event 3. *)
Definition full_sys : ring_sys :=
  match serviceIOEvent (shared_enqueue (ring_push 2)) (readers 2) 6 EventType_READ with
  | Ok s => s | Err _ => readers 2 end.
Lemma full_sys_rep : ring_rep 2 (s_queue full_sys) [mkElement 3 1].
Proof.
  apply (push_all_rep (BoundedFifo0 := ring_fifo 2) [mkElement 3 1] (ring_new 2) []); [|cbn; lia].
  apply ring_new_rep. lia.
Qed.

Lemma full_queue_cuts_off_witness :
  exists s1, serviceIOEvent (shared_enqueue (ring_push 2)) full_sys 5 EventType_READ = Ok s1 /\
    forall s2, rtc (loop_step (push := ring_push 2) (pop := ring_pop 2)) s1 s2 -> calls_to 1 s2 = [].
Proof.
  apply (full_queue_cuts_off (push := ring_push 2) (pop := ring_pop 2) (capacity := 2 - 1)
    full_sys [mkElement 3 1] 5 [] [2%positive] 1 (Event_new (DataEvent 5 EventType_READ)) EventType_READ).
  - exact full_sys_rep.
  - reflexivity.
  - apply (bool_decide_unpack _). vm_compute. exact I.
  - vm_compute. reflexivity.
  - apply (bool_decide_unpack _). vm_compute. exact I.
  - apply (bool_decide_unpack _). vm_compute. exact I.
  - vm_compute. reflexivity.
  - vm_compute. reflexivity.
  - intros id Hid. assert (map_Forall (fun _ p => p <> 1%positive) (m_timerHandlerLookup (s_manager full_sys))) as HF
      by (apply (bool_decide_unpack _); vm_compute; exact I). by apply (HF _ _ Hid).
  - intros sg Hsg. by vm_compute in Hsg.
Defined.

Lemma unregister_shared_descriptor_witness :
  exists s', unregisterEvent GlobalEventManager true (readers 4) (Some 1%positive) = Ok (OK, s') /\
    serviceIOEvent (shared_enqueue (ring_push 4)) s' 5 EventType_READ = undefined UseAfterFree.
Proof.
  destruct (unregister_shared_descriptor (push := ring_push 4) (readers 4) 5 EventType_READ [] [2%positive] 1
    (Event_new (DataEvent 5 EventType_READ)) EventType_READ) as (s' & E & _ & F).
  - vm_compute. reflexivity.
  - reflexivity.
  - reflexivity.
  - apply (bool_decide_unpack _). vm_compute. exact I.
  - vm_compute. reflexivity.
  - discriminate.
  - apply (bool_decide_unpack _). vm_compute. exact I.
  - apply Forall_nil_2.
  - exists s'. split; [exact E|exact F].
Defined.

Lemma unregister_sole_handler_witness :
  exists s', unregisterEvent GlobalEventManager true (readers 4) (Some 3%positive) = Ok (OK, s') /\
    m_ioHandlerLookup (s_manager s') !! 6 = None.
Proof.
  destruct (unregister_sole_handler (push := ring_push 4) (readers 4) 6 EventType_READ 3
    (Event_new (DataEvent 6 EventType_READ)) EventType_READ) as (s' & E & _ & _ & Hl & _).
  - vm_compute. reflexivity.
  - reflexivity.
  - reflexivity.
  - apply (bool_decide_unpack _). vm_compute. exact I.
  - vm_compute. reflexivity.
  - vm_compute. reflexivity.
  - exists s'. split; [exact E|exact Hl].
Defined.

Lemma pending_removal_faults_witness :
  exists s', unregisterEvent GlobalEventManager true full_sys (Some 3%positive) = Ok (OK, s') /\
    try_dispatch (ring_pop 2) 2 true s' = undefined InvalidIterator.
Proof.
  apply (pending_removal_faults (push := ring_push 2) (pop := ring_pop 2) (capacity := 2 - 1)
    full_sys 6 EventType_READ 3 (pushDispatch (Event_new (DataEvent 6 EventType_READ))) 1 [] 1).
  - exact full_sys_rep.
  - apply (bool_decide_unpack _). vm_compute. exact I.
  - reflexivity.
  - vm_compute. reflexivity.
  - reflexivity.
  - apply (bool_decide_unpack _). vm_compute. exact I.
Defined.

Lemma inline_timer_called_witness :
  exists s', serviceTimerEvent inline_enqueue (readers 4) 9 = Ok s' /\ s_calls s' = [(4%positive, 0)].
Proof.
  destruct (inline_timer_called (readers 4) 9 4 (Event_new (TimerEvent 9 1000))) as (s' & E & C & _).
  - vm_compute. reflexivity.
  - vm_compute. reflexivity.
  - reflexivity.
  - cbn. lia.
  - exists s'. split; [exact E|exact C].
Defined.

Lemma queue_destroy_faults_witness : Queue_destroy (readers 4) = undefined InvalidIterator.
Proof. apply (queue_destroy_faults (readers 4) 1). apply (bool_decide_unpack _). vm_compute. exact I. Defined.
