(* ===== verification/InlineCallbacks.v ===== *)
(** * InlineCallbacks: callbacks that act while an inline queue services them

    src/fastpath/event/InlineEventManager.cpp ([foreach_event_matching] and
    [foreach_timer_matching]) with InlineQueue.h: [__enqueue] runs the callback at
    once, inside the loop over the handlers.  EventQueue.v takes what a callback does
    to its queue as a later step; here it acts where it is called. *)
From S2P Require Import Prelude Types RingBuffer Poll Events EventQueue EventDelivery.

Lemma deref_live o p e : o !! p = Some e -> deref o p = Ok e.
Proof. intros E. unfold deref. by rewrite E. Qed.

Section inline.
Context {K Q : Type} `{Epoll K}.
Abbreviation sys := (Sys K Q).

(** What the callback of an event does when it is called with an argument. *)
Context (client : positive -> Z -> sys -> outcome sys).

(** [dispatch] of an event, run by [__enqueue]: nothing of the event is read after
    its callback. *)
Definition dispatch_now (s : sys) (p : positive) (a : Z) : outcome sys :=
  e ← deref (s_objects s) p;
  let s := set_object s p (popDispatch e) in
  if m_pendingRemoval e then Ok s else client p a (callback s p a).
Definition notify_now (s : sys) (p : positive) (a : Z) : outcome sys :=
  e ← deref (s_objects s) p; dispatch_now (set_object s p (pushDispatch e)) p a.

(** [foreach_event_matching] of the inline manager: [std::for_each] over [vector],
    the handlers of [fd].  The vector is the same object, with the same elements,
    as long as the table has it for [fd]; when a callback has erased it or appended
    to it, the iterators of the loop are invalid. *)
Fixpoint inline_foreach (s : sys) (fd : Z) (vector handlers : list positive) (filter : Z) : outcome sys :=
  match handlers with
  | [] => Ok s
  | p :: handlers =>
      e ← deref (s_objects s) p;
      let types := Z.land (eventTypes e) filter in
      s ← (if negb (types =? EventType_NONE) && negb (awaitingDispatch e) then notify_now s p types else Ok s);
      if bool_decide (m_ioHandlerLookup (s_manager s) !! fd = Some vector) then inline_foreach s fd vector handlers filter
      else undefined InvalidIterator
  end.
Definition inline_serviceIOEvent (s : sys) (fd filter : Z) : outcome sys :=
  match m_ioHandlerLookup (s_manager s) !! fd with
  | Some handlers => inline_foreach s fd handlers handlers filter
  | None => Ok s
  end.

(** [foreach_timer_matching]: the iterator is not used after the call. *)
Definition inline_serviceTimerEvent (s : sys) (id : Z) : outcome sys :=
  match m_timerHandlerLookup (s_manager s) !! id with
  | Some p => notify_now s p EventType_NONE
  | None => Ok s
  end.

(** [foreach_signal_matching], and likewise. *)
Definition inline_serviceSignalEvent (s : sys) (signal : Z) : outcome sys :=
  match m_signalHandlerLookup (s_manager s) !! signal with
  | Some p => notify_now s p EventType_NONE
  | None => Ok s
  end.

(** ** Callbacks that leave the descriptor alone *)

(** What has to stay for the loop: the vector of the descriptor, the objects of its
    handlers and the calls made so far. *)
Record leaves_alone (fd : Z) (vector : list positive) (s s' : sys) : Prop := {
  la_vector : m_ioHandlerLookup (s_manager s') !! fd = m_ioHandlerLookup (s_manager s) !! fd;
  la_objects p : p ∈ vector -> s_objects s' !! p = s_objects s !! p;
  la_calls : s_calls s' = s_calls s
}.

(** The handlers a readiness report is for, with what they are called with. *)
Definition interested (o : objects) (filter : Z) (handlers : list positive) : list (positive * Z) :=
  handlers ≫= fun p =>
    match o !! p with
    | Some e =>
        let types := Z.land (eventTypes e) filter in
        if negb (types =? EventType_NONE) && negb (awaitingDispatch e) && negb (m_pendingRemoval e) then [(p, types)] else []
    | None => []
    end.

(** An object that is called and waits for nothing is as before. *)
Lemma pop_push e : awaitingDispatch e = false -> popDispatch (pushDispatch e) = e.
Proof.
  unfold awaitingDispatch. intros Ha. apply negb_false_iff, Z.eqb_eq in Ha. destruct e as [k r n]. cbn in *. subst n. reflexivity.
Qed.

Lemma notify_now_eq s p a e : s_objects s !! p = Some e -> awaitingDispatch e = false ->
  notify_now s p a =
  let s := set_object s p e in if m_pendingRemoval e then Ok s else client p a (callback s p a).
Proof.
  intros He Ha. unfold notify_now, dispatch_now, deref. rewrite He. run_bind. cbn [s_objects set_object]. rewrite lookup_insert_eq. run_bind.
  rewrite pop_push by done. cbn [pushDispatch m_pendingRemoval]. unfold set_object. cbn. by rewrite insert_insert_eq.
Qed.

(** As long as every callback, from a state with an invariant of theirs, returns and
    leaves the descriptor alone, the loop calls each interested handler exactly once,
    in the order of registration. *)
Theorem inline_calls_each_once (inv : sys -> Prop) fd filter s vector :
  inv s ->
  m_ioHandlerLookup (s_manager s) !! fd = Some vector ->
  Forall (fun p => is_Some (s_objects s !! p)) vector ->
  (forall p a s, p ∈ vector -> inv s ->
    exists s', client p a (callback s p a) = Ok s' /\ leaves_alone fd vector (callback s p a) s' /\ inv s') ->
  exists s', inline_serviceIOEvent s fd filter = Ok s' /\
    s_calls s' = s_calls s ++ interested (s_objects s) filter vector /\
    m_ioHandlerLookup (s_manager s') !! fd = Some vector.
Proof.
  intros Hi Hv Hlive Hc. unfold inline_serviceIOEvent. rewrite Hv.
  assert (forall handlers s0, inv s0 -> (forall p, p ∈ handlers -> p ∈ vector) -> m_ioHandlerLookup (s_manager s0) !! fd = Some vector ->
    (forall p, p ∈ vector -> s_objects s0 !! p = s_objects s !! p) ->
    exists s', inline_foreach s0 fd vector handlers filter = Ok s' /\ s_calls s' = s_calls s0 ++ interested (s_objects s) filter handlers /\
      m_ioHandlerLookup (s_manager s') !! fd = Some vector) as L.
  2: { destruct (L vector s) as (s' & E & Hcalls & Hs); [done..|]. by exists s'. }
  induction handlers as [|p handlers IH]; intros s0 Hi0 Hin Hv0 Ho; cbn [inline_foreach]; [exists s0; by rewrite app_nil_r|].
  assert (p ∈ vector) as Hp by (apply Hin; left). rewrite Forall_forall in Hlive. destruct (Hlive p Hp) as [e He].
  unfold deref. rewrite Ho, He by done. run_bind.
  assert (forall s1, inv s1 -> leaves_alone fd vector s0 s1 \/ leaves_alone fd vector (callback s0 p (Z.land (eventTypes e) filter)) s1 ->
    exists s', (if bool_decide (m_ioHandlerLookup (s_manager s1) !! fd = Some vector) then inline_foreach s1 fd vector handlers filter
      else undefined InvalidIterator) = Ok s' /\ s_calls s' = s_calls s1 ++ interested (s_objects s) filter handlers /\
      m_ioHandlerLookup (s_manager s') !! fd = Some vector) as rest.
  { intros s1 Hi1 Hs1. assert (m_ioHandlerLookup (s_manager s1) !! fd = Some vector /\ (forall q, q ∈ vector -> s_objects s1 !! q = s_objects s !! q)) as [Hv1 Ho1].
    { destruct Hs1 as [[V O _]|[V O _]]; cbn in V, O; rewrite V; (split; [done|]); intros q Hq; rewrite O by done; by apply Ho. }
    rewrite bool_decide_eq_true_2 by done. apply IH; [done| |done|done]. intros q Hq. apply Hin. by right. }
  unfold interested at 1. cbn [mbind list_bind]. fold (interested (s_objects s) filter handlers). rewrite He.
  destruct (Z.land (eventTypes e) filter =? EventType_NONE); cbn [negb andb]; [run_bind; destruct (rest s0 Hi0) as (s' & E & C & V); [by left|]; by exists s'|].
  destruct (awaitingDispatch e) eqn:Ha; cbn [negb andb]; [run_bind; destruct (rest s0 Hi0) as (s' & E & C & V); [by left|]; by exists s'|].
  rewrite (notify_now_eq s0 p _ e) by (by rewrite ?Ho). cbv zeta.
  assert (set_object s0 p e = s0) as Hid by (unfold set_object; rewrite insert_id by (by rewrite Ho); by destruct s0). rewrite Hid.
  destruct (m_pendingRemoval e); cbn [negb].
  - run_bind. destruct (rest s0 Hi0) as (s' & E & C & V); [by left|]. by exists s'.
  - destruct (Hc p (Z.land (eventTypes e) filter) s0 Hp Hi0) as (s1 & -> & Hl & Hi1). run_bind.
    destruct (rest s1 Hi1) as (s' & -> & C & V); [by right|]. exists s'. split; [done|]. split; [|done].
    rewrite C, (la_calls _ _ _ _ Hl). cbn [callback s_calls]. by rewrite <- app_assoc.
Qed.
End inline.

(** ** Acts of a callback *)

Section acts.
Context {K Q : Type} `{Epoll K}.
Abbreviation sys := (Sys K Q).

(** Calls of the queue that a callback makes. *)
Inductive act := Register (k : EventKind) | Unregister (p : positive).
Definition run_act (s : sys) (a : act) : outcome sys :=
  match a with
  | Register k => '(_, s) ← registerEvent InlineEventManager true s k; Ok s
  | Unregister p => '(_, s) ← unregisterEvent InlineEventManager true s (Some p); Ok s
  end.
Fixpoint run_acts (acts : list act) (s : sys) : outcome sys :=
  match acts with [] => Ok s | a :: acts => s ← run_act s a; run_acts acts s end.

(** Callbacks that do nothing: the loop of EventQueue.v. *)
Theorem silent_callbacks (s : sys) fd filter vector :
  m_ioHandlerLookup (s_manager s) !! fd = Some vector ->
  inline_serviceIOEvent (fun _ _ => run_acts []) s fd filter = serviceIOEvent inline_enqueue s fd filter.
Proof.
  intros Hv. unfold inline_serviceIOEvent, serviceIOEvent. rewrite Hv.
  assert (forall handlers s0, m_ioHandlerLookup (s_manager s0) !! fd = Some vector ->
    inline_foreach (fun _ _ => run_acts []) s0 fd vector handlers filter = service_io_handlers inline_enqueue s0 handlers filter) as L; [|by apply L].
  induction handlers as [|p handlers IH]; intros s0 Hv0; cbn [inline_foreach service_io_handlers]; [done|].
  destruct (deref (s_objects s0) p) as [e|f]; [|done]. run_bind.
  destruct (negb _ && negb _); [|run_bind; rewrite bool_decide_eq_true_2 by done; by apply IH].
  unfold notify_now, dispatch_now, notify, inline_enqueue, event_dispatch. cbn [el_event el_argument].
  destruct (deref (s_objects s0) p) as [e1|f]; [|done]. run_bind.
  destruct (deref (s_objects (set_object s0 p (pushDispatch e1))) p) as [e2|f]; [|done]. run_bind. cbn [run_acts].
  destruct (m_pendingRemoval e2); run_bind; (rewrite bool_decide_eq_true_2 by done); by apply IH.
Qed.

(** Acts on something else than the descriptor: new events on other descriptors,
    timers and signals, and unregistering events of other descriptors. *)
Definition acts_elsewhere (fd : Z) (vector : list positive) (s : sys) (a : act) : Prop :=
  match a with
  | Register (DataEvent fd' _) => 0 < fd' /\ fd' <> fd
  | Register _ => True
  | Unregister p => (p ∉ vector) /\ exists e, s_objects s !! p = Some e /\ awaitingDispatch e = false /\
      forall t, ev_kind e <> DataEvent fd t
  end.

Lemma register_elsewhere fd vector (s : sys) k : acts_elsewhere fd vector s (Register k) ->
  Forall (fun p => (p < s_next s)%positive) vector ->
  exists s', run_act s (Register k) = Ok s' /\ leaves_alone fd vector s s' /\ (s_next s <= s_next s')%positive.
Proof.
  intros He Hn. cbn [run_act]. unfold registerEvent. cbn [registerHandler InlineEventManager]. unfold inline_registerHandler, deref.
  cbn [s_objects s_manager]. rewrite lookup_insert_eq. run_bind. cbn [ev_kind Event_new].
  assert (forall p, p ∈ vector -> <[s_next s := Event_new k]> (s_objects s) !! p = s_objects s !! p) as Ho.
  { intros p Hp. rewrite Forall_forall in Hn. specialize (Hn p Hp). apply lookup_insert_ne. lia. }
  destruct k as [fd' types|id timeout|id signal].
  - destruct He as [Hp Hne]. rewrite (proj2 (Z.leb_gt _ _)) by lia. unfold register_io.
    destruct (add_io _ _ _) as [r l]. run_bind. eexists. split; [done|]. split; [split; cbn; [by rewrite lookup_insert_ne|exact Ho|done]|cbn; lia].
  - unfold register_timer. destruct (add_timer _ _) as [r l]. run_bind. eexists. split; [done|]. split; [split; cbn; [done|exact Ho|done]|cbn; lia].
  - unfold register_signal. destruct (add_signal _ _) as [r l]. run_bind. eexists. split; [done|]. split; [split; cbn; [done|exact Ho|done]|cbn; lia].
Qed.

(** What a callback may register whatever the state is. *)
Definition registers_elsewhere (fd : Z) (a : act) : Prop :=
  match a with Register (DataEvent fd' _) => 0 < fd' /\ fd' <> fd | Register _ => True | Unregister _ => False end.

Lemma registers_run fd vector acts : Forall (registers_elsewhere fd) acts -> forall s : sys,
  Forall (fun p => (p < s_next s)%positive) vector ->
  exists s', run_acts acts s = Ok s' /\ leaves_alone fd vector s s' /\ Forall (fun p => (p < s_next s')%positive) vector.
Proof.
  induction 1 as [|[k|p] acts Ha _ IH]; intros s Hn; cbn [run_acts]; [by exists s| |done].
  destruct (register_elsewhere fd vector s k Ha Hn) as (s1 & -> & [V O C] & Hle). run_bind.
  destruct (IH s1) as (s2 & E2 & [V2 O2 C2] & Hn2); [eapply Forall_impl; [exact Hn|]; cbn; lia|].
  exists s2. split; [exact E2|]. split; [|done]. split; [by rewrite V2|intros q Hq; by rewrite O2, O|by rewrite C2].
Qed.

(** A listening socket's callback registers the connections it accepts while it is
    serviced: that is safe, and every handler is still called once. *)
Corollary accepting_calls_each_once (client : positive -> Z -> list act) (s : sys) fd filter vector :
  m_ioHandlerLookup (s_manager s) !! fd = Some vector ->
  Forall (fun p => is_Some (s_objects s !! p)) vector -> Forall (fun p => (p < s_next s)%positive) vector ->
  (forall p a, Forall (registers_elsewhere fd) (client p a)) ->
  exists s', inline_serviceIOEvent (fun p a => run_acts (client p a)) s fd filter = Ok s' /\
    s_calls s' = s_calls s ++ interested (s_objects s) filter vector /\ m_ioHandlerLookup (s_manager s') !! fd = Some vector.
Proof.
  intros Hv Hl Hn Hc. apply (inline_calls_each_once _ (fun s => Forall (fun p => (p < s_next s)%positive) vector)); [done..|].
  intros p a s0 _ Hn0. destruct (registers_run fd vector (client p a) (Hc p a) (callback s0 p a) Hn0) as (s1 & E & L & Hn1). by exists s1.
Qed.

Lemma unregister_elsewhere fd vector (s : sys) p : acts_elsewhere fd vector s (Unregister p) ->
  exists s', run_act s (Unregister p) = Ok s' /\ leaves_alone fd vector s s'.
Proof.
  intros (Hp & e & He & Ha & Hk). cbn [run_act]. unfold unregisterEvent. cbn [unregisterHandler InlineEventManager].
  assert (exists r em, inline_unregisterHandler (s_objects s) (s_manager s) p = Ok (r, em) /\
    m_ioHandlerLookup em !! fd = m_ioHandlerLookup (s_manager s) !! fd) as (r & em & -> & Hem).
  { unfold inline_unregisterHandler, deref. rewrite He. run_bind. destruct (ev_kind e) as [fd' t|id t|id sg].
    - unfold unregister_io. destruct (m_ioHandlerLookup (s_manager s) !! fd') as [l|]; [|rewrite Ha; by do 2 eexists].
      assert (fd' <> fd) as Hne by (intros ->; by apply (Hk t)).
      case_bool_decide; [|rewrite Ha; by do 2 eexists]. destruct (length l =? 1)%nat; [|rewrite Ha; by do 2 eexists].
      destruct (remove_io _ _). rewrite Ha. do 2 eexists. split; [done|]. cbn. by rewrite lookup_delete_ne.
    - unfold unregister_timer. destruct (m_timerHandlerLookup _ !! _); [destruct (remove_timer _ _)|]; by do 2 eexists.
    - unfold unregister_signal. destruct (m_signalHandlerLookup _ !! _); [destruct (remove_signal _ _)|]; by do 2 eexists. }
  run_bind. cbn [set_manager m_registeredEvents s_objects]. case_bool_decide.
  - unfold deref. rewrite He. run_bind. rewrite Ha. run_bind. eexists. split; [done|]. split; cbn; [done| |done].
    intros q Hq. apply lookup_delete_ne. by intros <-.
  - run_bind. eexists. split; [done|]. by split.
Qed.

Lemma unregister_sole_inline (s : sys) fd t p e :
  s_objects s !! p = Some e -> ev_kind e = DataEvent fd t -> awaitingDispatch e = false ->
  m_ioHandlerLookup (s_manager s) !! fd = Some [p] ->
  exists s', run_act s (Unregister p) = Ok s' /\ m_ioHandlerLookup (s_manager s') !! fd = None.
Proof.
  intros He Hk Ha Hv. cbn [run_act]. unfold unregisterEvent. cbn [unregisterHandler InlineEventManager].
  unfold inline_unregisterHandler, deref. rewrite He. run_bind. rewrite Hk. unfold unregister_io. rewrite Hv.
  rewrite bool_decide_eq_true_2 by apply list_elem_of_here. cbn [length Nat.eqb]. destruct (remove_io _ _) as [r l].
  rewrite Ha. cbn [andb negb assert_]. run_bind. cbn [set_manager m_registeredEvents s_objects].
  case_bool_decide; [rewrite He; run_bind; rewrite Ha|]; run_bind; (eexists; split; [done|]); cbn; apply lookup_delete_eq.
Qed.

Lemma unregister_timer_inline (s : sys) id timeout p e :
  s_objects s !! p = Some e -> ev_kind e = TimerEvent id timeout -> awaitingDispatch e = false ->
  m_timerHandlerLookup (s_manager s) !! id = Some p -> p ∈ m_registeredEvents s ->
  exists s', run_act s (Unregister p) = Ok s' /\ m_timerHandlerLookup (s_manager s') !! id = None /\
    s_objects s' = delete p (s_objects s) /\ m_registeredEvents s' = m_registeredEvents s ∖ {[p]} /\ s_calls s' = s_calls s.
Proof.
  intros He Hk Ha Hv Hr. cbn [run_act]. unfold unregisterEvent. cbn [unregisterHandler InlineEventManager].
  unfold inline_unregisterHandler, deref. rewrite He. run_bind. rewrite Hk. unfold unregister_timer. rewrite Hv.
  destruct (remove_timer _ _) as [r l]. run_bind. cbn [set_manager m_registeredEvents s_objects].
  rewrite bool_decide_eq_true_2 by done. rewrite He. run_bind. rewrite Ha. run_bind. eexists. split; [done|]. cbn. by rewrite lookup_delete_eq.
Qed.

(** A callback that unregisters its own event, the only one of its descriptor, as a
    connection does when its peer has gone: the vector that the loop iterates is
    destroyed, and the event whose callback is running is deleted. *)
Theorem self_unregister_invalidates (s : sys) fd t filter p e :
  m_ioHandlerLookup (s_manager s) !! fd = Some [p] -> s_objects s !! p = Some e -> ev_kind e = DataEvent fd t ->
  awaitingDispatch e = false -> m_pendingRemoval e = false -> Z.land t filter <> EventType_NONE ->
  inline_serviceIOEvent (fun p _ => run_acts [Unregister p]) s fd filter = undefined InvalidIterator.
Proof.
  intros Hv He Hk Ha Hpr Hf. unfold inline_serviceIOEvent. rewrite Hv. cbn [inline_foreach]. rewrite (deref_live _ _ _ He). run_bind.
  assert (eventTypes e = t) as Et by (unfold eventTypes; by rewrite Hk). rewrite Et, (proj2 (Z.eqb_neq _ _)) by done. rewrite Ha. cbn [negb andb].
  rewrite (notify_now_eq _ _ _ _ e) by done. cbv zeta. rewrite Hpr. cbn [run_acts].
  destruct (unregister_sole_inline (callback (set_object s p e) p (Z.land t filter)) fd t p e) as (s' & -> & Hn);
    [apply lookup_insert_eq|done..|]. run_bind. by rewrite Hn.
Qed.

(** One that unregisters another event of the same descriptor deletes an object that
    the loop, over a vector that still has it, goes on to call. *)
Theorem other_unregister_dangles (s : sys) fd t t' filter p q e e' :
  m_ioHandlerLookup (s_manager s) !! fd = Some [p; q] -> p <> q ->
  s_objects s !! p = Some e -> ev_kind e = DataEvent fd t -> awaitingDispatch e = false -> m_pendingRemoval e = false ->
  s_objects s !! q = Some e' -> ev_kind e' = DataEvent fd t' -> awaitingDispatch e' = false -> q ∈ m_registeredEvents s ->
  Z.land t filter <> EventType_NONE ->
  inline_serviceIOEvent (fun _ _ => run_acts [Unregister q]) s fd filter = undefined UseAfterFree.
Proof.
  intros Hv Hne He Hk Ha Hpr Hq Hkq Haq Hrq Hf. unfold inline_serviceIOEvent. rewrite Hv. cbn [inline_foreach]. rewrite (deref_live _ _ _ He). run_bind.
  assert (eventTypes e = t) as Et by (unfold eventTypes; by rewrite Hk). rewrite Et, (proj2 (Z.eqb_neq _ _)) by done. rewrite Ha. cbn [negb andb].
  rewrite (notify_now_eq _ _ _ _ e) by done. cbv zeta. rewrite Hpr. cbn [run_acts].
  set (s0 := callback (set_object s p e) p (Z.land t filter)).
  assert (exists s', run_act s0 (Unregister q) = Ok s' /\ m_ioHandlerLookup (s_manager s') !! fd = Some [p; q] /\ s_objects s' !! q = None) as (s' & -> & Hv' & Hd).
  { assert (s_objects s0 !! q = Some e') as Hq0 by (cbn; by rewrite lookup_insert_ne).
    cbn [run_act]. unfold unregisterEvent. cbn [unregisterHandler InlineEventManager].
    unfold inline_unregisterHandler, deref. rewrite Hq0. run_bind. rewrite Hkq. unfold unregister_io.
    assert (m_ioHandlerLookup (s_manager s0) !! fd = Some [p; q]) as -> by done. rewrite bool_decide_eq_true_2 by set_solver.
    cbn [length Nat.eqb]. rewrite Haq. cbn [andb negb assert_]. run_bind. cbn [set_manager m_registeredEvents s_objects].
    rewrite bool_decide_eq_true_2 by done. rewrite Hq0. run_bind. rewrite Haq. run_bind. eexists. split; [done|]. split; [done|]. cbn. apply lookup_delete_eq. }
  run_bind. rewrite bool_decide_eq_true_2 by done. unfold deref. by rewrite Hd.
Qed.

(** One that registers another event on its descriptor appends to the vector that
    is iterated. *)
Theorem register_same_invalidates (s : sys) fd t t' filter p e vector :
  m_ioHandlerLookup (s_manager s) !! fd = Some (p :: vector) -> s_objects s !! p = Some e -> ev_kind e = DataEvent fd t -> 0 < fd ->
  awaitingDispatch e = false -> m_pendingRemoval e = false -> Z.land t filter <> EventType_NONE ->
  inline_serviceIOEvent (fun _ _ => run_acts [Register (DataEvent fd t')]) s fd filter = undefined InvalidIterator.
Proof.
  intros Hv He Hk Hfd Ha Hpr Hf. unfold inline_serviceIOEvent. rewrite Hv. cbn [inline_foreach]. rewrite (deref_live _ _ _ He). run_bind.
  assert (eventTypes e = t) as Et by (unfold eventTypes; by rewrite Hk). rewrite Et, (proj2 (Z.eqb_neq _ _)) by done. rewrite Ha. cbn [negb andb].
  rewrite (notify_now_eq _ _ _ _ e) by done. cbv zeta. rewrite Hpr. cbn [run_acts run_act]. unfold registerEvent.
  cbn [registerHandler InlineEventManager]. unfold inline_registerHandler, deref. cbn [callback set_object s_objects s_manager s_next].
  rewrite lookup_insert_eq. run_bind. cbn [ev_kind Event_new]. rewrite (proj2 (Z.leb_gt _ _)) by lia.
  unfold register_io. rewrite Hv. destruct (add_io _ _ _) as [r l]. run_bind. cbn [s_manager m_ioHandlerLookup set_manager set_loop set_io].
  rewrite lookup_insert_eq, bool_decide_eq_false_2; [done|]. intros [= E]. apply (f_equal length) in E. rewrite length_app in E. cbn in E. lia.
Qed.

(** A timer may unregister itself in its callback: nothing is used afterwards. *)
Theorem timer_unregisters_itself (s : sys) id timeout p e :
  m_timerHandlerLookup (s_manager s) !! id = Some p -> s_objects s !! p = Some e -> ev_kind e = TimerEvent id timeout ->
  awaitingDispatch e = false -> m_pendingRemoval e = false -> p ∈ m_registeredEvents s ->
  exists s', inline_serviceTimerEvent (fun p _ => run_acts [Unregister p]) s id = Ok s' /\
    m_timerHandlerLookup (s_manager s') !! id = None /\ s_objects s' !! p = None /\ (p ∉ m_registeredEvents s') /\
    s_calls s' = s_calls s ++ [(p, EventType_NONE)].
Proof.
  intros Hv He Hk Ha Hpr Hr. unfold inline_serviceTimerEvent. rewrite Hv, (notify_now_eq _ _ _ _ e) by done. cbv zeta. rewrite Hpr.
  cbn [run_acts].
  destruct (unregister_timer_inline (callback (set_object s p e) p EventType_NONE) id timeout p e) as (s' & -> & Hn & Ho & Hreg & Hc);
    [apply lookup_insert_eq|done..|]. run_bind. exists s'. split; [done|]. split; [done|]. rewrite Ho, Hreg, Hc.
  split; [apply lookup_delete_eq|]. split; [apply not_elem_of_difference; right; by apply elem_of_singleton|done].
Qed.
End acts.

(** ** Samples *)

(** On descriptor 5 of [readers]: the first event accepts connections 8 and 9. *)
Definition accepting (p : positive) (_ : Z) : list act :=
  if bool_decide (p = 1%positive) then [Register (DataEvent 8 EventType_READ); Register (DataEvent 9 EventType_READ)] else [].

Lemma accepting_calls_each_once_witness : exists s',
  inline_serviceIOEvent (fun p a => run_acts (accepting p a)) (readers 4) 5 EventType_READ = Ok s' /\
  s_calls s' = [(1%positive, 1); (2%positive, 1)].
Proof.
  destruct (accepting_calls_each_once accepting (readers 4) 5 EventType_READ [1%positive; 2%positive]) as (s' & E & C & _).
  - vm_compute. reflexivity.
  - apply (bool_decide_unpack _). vm_compute. exact I.
  - apply (bool_decide_unpack _). vm_compute. exact I.
  - intros p a. unfold accepting. case_bool_decide; repeat constructor; lia.
  - exists s'. split; [exact E|exact C].
Defined.

Lemma self_unregister_invalidates_witness :
  inline_serviceIOEvent (fun p _ => run_acts [Unregister p]) (readers 4) 6 EventType_READ = undefined InvalidIterator.
Proof.
  apply (self_unregister_invalidates (readers 4) 6 EventType_READ EventType_READ 3 (Event_new (DataEvent 6 EventType_READ)));
    try reflexivity; try (vm_compute; reflexivity). vm_compute. discriminate.
Defined.

Lemma other_unregister_dangles_witness :
  inline_serviceIOEvent (fun _ _ => run_acts [Unregister 2]) (readers 4) 5 EventType_READ = undefined UseAfterFree.
Proof.
  apply (other_unregister_dangles (readers 4) 5 EventType_READ EventType_READ EventType_READ 1 2
    (Event_new (DataEvent 5 EventType_READ)) (Event_new (DataEvent 5 EventType_READ)));
    try reflexivity; try (vm_compute; reflexivity); try (vm_compute; discriminate).
Defined.

Lemma timer_unregisters_itself_witness : exists s',
  inline_serviceTimerEvent (fun p _ => run_acts [Unregister p]) (readers 4) 9 = Ok s' /\ s_calls s' = [(4%positive, EventType_NONE)].
Proof.
  destruct (timer_unregisters_itself (readers 4) 9 1000 4 (Event_new (TimerEvent 9 1000))) as (s' & E & _ & _ & _ & C);
    try reflexivity; try (vm_compute; reflexivity).
  exists s'. split; [exact E|exact C].
Defined.
