(* ===== verification/TimedDispatch.v ===== *)
(** * TimedDispatch: dispatch with a timeout

    [dispatch(timeout)] of BlockingQueue.h, BusySpinQueue.h and InlineQueue.h, with
    [setTimeout] of TimerEvent.cpp.  While the client waits the event manager
    thread goes on: [env] is what it does to the system between the arming of the
    timer and the dispatch that ends the wait. *)
From S2P Require Import Prelude Types RingBuffer Poll Events EventQueue EventDelivery.

Section timed.
Context {K Q : Type} `{Epoll K} {capacity : nat} {push : Q -> QueueElement -> bool * Q}
  {pop : Q -> outcome (option QueueElement * Q)} `{!BoundedFifo Q QueueElement capacity push pop}.
Abbreviation sys := (Sys K Q).

(** [TimerEvent::setTimeout]; [settime] is what [timerfd_settime] answers, and the
    exception of [reset] leaves a noexcept function. *)
Definition setTimeout (settime : bool) (s : sys) (p : positive) (timeout : Z) : outcome sys :=
  e ← deref (s_objects s) p;
  match ev_kind e with
  | TimerEvent id _ =>
      let s := set_object s p (mkEvent (TimerEvent id timeout) (m_pendingRemoval e) (m_awaitingDispatch e)) in
      if settime then Ok s else Err Terminate
  | _ => undefined TypeConfusion
  end.

(** A timeout in milliseconds as the microseconds of an event. *)
Definition microseconds (timeout : Z) : Z := timeout * 1000.

(** ** BlockingQueue.h *)

(** The queue with its member [m_timeout]; [t_noops] are the events whose callback
    is the lambda of [dispatch(timeout)]. *)
Record Timed := mkTimed { t_sys : sys; t_timeout : option positive; t_noops : gset positive }.
Definition on_sys (t : Timed) (s : sys) : Timed := mkTimed s (t_timeout t) (t_noops t).

Section blocking.
Context (running : bool).

(** The lambda: it unregisters its own event. *)
Definition timeout_callback (t : Timed) : outcome Timed :=
  '(_, s) ← unregisterEvent GlobalEventManager running (t_sys t) (t_timeout t);
  Ok (mkTimed s None (t_noops t)).

(** [event_dispatch] and [dispatch_event] with the body of that callback. *)
Definition timed_event_dispatch (t : Timed) (x : QueueElement) : outcome Timed :=
  e ← deref (s_objects (t_sys t)) (el_event x);
  let s := set_object (t_sys t) (el_event x) (popDispatch e) in
  if m_pendingRemoval e then Ok (on_sys t s)
  else
    let t := on_sys t (callback s (el_event x) (el_argument x)) in
    if bool_decide (el_event x ∈ t_noops t) then timeout_callback t else Ok t.
Definition timed_dispatch_event (t : Timed) (x : QueueElement) : outcome Timed :=
  t ← timed_event_dispatch t x;
  e ← deref (s_objects (t_sys t)) (el_event x);
  if m_pendingRemoval e && negb (awaitingDispatch e) then
    _ ← assert_ (bool_decide (el_event x ∈ m_registeredEvents (t_sys t)));
    undefined InvalidIterator
  else Ok t.

Fixpoint timed_loop (n : nat) (t : Timed) (result : status) : outcome (status * Timed) :=
  match n with
  | O => Err OutOfFuel
  | S n =>
      '(o, q) ← pop (s_queue (t_sys t));
      let t := on_sys t (set_queue (t_sys t) q) in
      match o with
      | Some x => t ← timed_dispatch_event t x; timed_loop n t OK
      | None => Ok (result, t)
      end
  end.

(** [dispatch()]: [None] when it goes on waiting. *)
Definition timed_blocking_dispatch (t : Timed) : outcome (option (status * Timed)) :=
  '(o, q) ← pop (s_queue (t_sys t));
  let t := on_sys t (set_queue (t_sys t) q) in
  match o with
  | Some x => t ← timed_dispatch_event t x; Ok (Some (OK, t))
  | None => Ok None
  end.

(** The timer of the wait: the one that is left, or a new one on the descriptor that
    [timerfd_create] returns. *)
Definition arm_timeout (id : Z) (settime : bool) (timeout : Z) (t : Timed) : outcome Timed :=
  match t_timeout t with
  | Some p => s ← setTimeout settime (t_sys t) p (microseconds timeout); Ok (on_sys t s)
  | None =>
      if (id =? -1) || negb settime then Err Terminate
      else
        '(p, s) ← registerEvent GlobalEventManager running (t_sys t) (TimerEvent id (microseconds timeout));
        Ok (mkTimed s (Some p) ({[p]} ∪ t_noops t))
  end.

Definition blocking_dispatch_timeout (n : nat) (initialised : bool) (id : Z) (settime : bool) (timeout : Z)
    (env : sys -> outcome sys) (t : Timed) : outcome (option (status * Timed)) :=
  '(r, t) ← (if initialised then timed_loop n t NO_EVENTS else Ok (EVM_NOTRUNNING, t));
  if bool_decide (r = NO_EVENTS) then
    t ← arm_timeout id settime timeout t;
    s ← env (t_sys t);
    timed_blocking_dispatch (on_sys t s)
  else Ok (Some (r, t)).
End blocking.

(** ** BusySpinQueue.h *)

(** [m_timeout] is an event at [p] that the queue owns. *)
Definition spin_dispatch_timeout (n : nat) (initialised : bool) (settime : bool) (timeout : Z) (p : positive)
    (env : sys -> outcome sys) (s : sys) : outcome (option (status * sys)) :=
  '(r, s) ← try_dispatch pop n initialised s;
  if bool_decide (r = NO_EVENTS) then
    s ← setTimeout settime s p (microseconds timeout);
    '(_, em) ← registerHandler GlobalEventManager (s_objects s) (s_manager s) p;
    s ← env (set_manager s em);
    o ← spin_dispatch pop n initialised s;
    match o with
    | Some (status, s) =>
        '(_, em) ← unregisterHandler GlobalEventManager (s_objects s) (s_manager s) p;
        Ok (Some (status, set_manager s em))
    | None => Ok None
    end
  else Ok (Some (r, s)).

(** ** InlineQueue.h *)

(** [w] is what [epoll_wait] returns. *)
Definition inline_dispatch_timeout (sig_read : Z -> Z) (settime : bool) (timeout : Z) (p : positive) (w : WaitResult)
    (s : sys) : outcome (status * sys) :=
  if bool_decide (inline_try_dispatch s = NO_EVENTS) then
    s ← setTimeout settime s p (microseconds timeout);
    '(_, em) ← registerHandler InlineEventManager (s_objects s) (s_manager s) p;
    '(status, s) ← inline_dispatch sig_read (set_manager s em) w;
    '(_, em) ← unregisterHandler InlineEventManager (s_objects s) (s_manager s) p;
    Ok (status, set_manager s em)
  else Ok (NO_EVENTS, s).

(** ** The timer of a wait *)

Lemma register_timer_table (em : EventManager K) id p : m_timerHandlerLookup em !! id = None ->
  m_timerHandlerLookup (register_timer em id p).2 = <[id := p]> (m_timerHandlerLookup em) /\
  m_ioHandlerLookup (register_timer em id p).2 = m_ioHandlerLookup em /\
  m_signalHandlerLookup (register_timer em id p).2 = m_signalHandlerLookup em.
Proof.
  intros Hn. unfold register_timer, emplace_new. rewrite Hn. destruct (add_timer _ id) as [r l]. by cbn.
Qed.

Lemma unregister_timer_table (em : EventManager K) id p : m_timerHandlerLookup em !! id = Some p ->
  m_timerHandlerLookup (unregister_timer em id).2 = delete id (m_timerHandlerLookup em) /\
  m_ioHandlerLookup (unregister_timer em id).2 = m_ioHandlerLookup em /\
  m_signalHandlerLookup (unregister_timer em id).2 = m_signalHandlerLookup em.
Proof.
  intros Hn. unfold unregister_timer. rewrite Hn. destruct (remove_timer _ id) as [r l]. by cbn.
Qed.

(** A timer that fires queues one element for its event. *)
Lemma service_timer_queues (s : sys) id p e q :
  m_timerHandlerLookup (s_manager s) !! id = Some p -> s_objects s !! p = Some e ->
  fifo_rep (s_queue s) q -> (length q < capacity)%nat ->
  exists q', serviceTimerEvent (shared_enqueue push) s id =
      Ok (mkSys (<[p := pushDispatch e]> (s_objects s)) (s_next s) (m_registeredEvents s) q' (s_manager s) (s_calls s)) /\
    fifo_rep q' (q ++ [mkElement p EventType_NONE]).
Proof.
  intros Hp He R Hc. unfold serviceTimerEvent, notify, shared_enqueue, deref. rewrite Hp, He. run_bind.
  pose proof (fifo_push _ _ (mkElement p EventType_NONE) R) as Hq. rewrite decide_False in Hq by lia.
  destruct Hq as (q' & E & R'). cbn [s_queue set_object]. rewrite E. run_bind. by exists q'.
Qed.

(** A blocking queue that waits with a timeout in vain: the timer of the wait fires,
    its callback deletes its own event, and [dispatch_event] then reads it. *)
Theorem blocking_timeout_faults n id timeout t : id <> -1 -> (0 < capacity)%nat ->
  fifo_rep (s_queue (t_sys t)) [] -> t_timeout t = None ->
  m_timerHandlerLookup (s_manager (t_sys t)) !! id = None ->
  blocking_dispatch_timeout true (S n) true id true timeout
    (fun s => serviceTimerEvent (shared_enqueue push) s id) t = undefined UseAfterFree.
Proof.
  intros Hid Hc R Ht Hn. unfold blocking_dispatch_timeout. cbn [timed_loop].
  pose proof (fifo_pop _ _ R) as Hp. rewrite Hp. run_bind. rewrite bool_decide_eq_true_2 by done.
  unfold arm_timeout. cbn [t_timeout on_sys]. rewrite Ht, (proj2 (Z.eqb_neq _ _) Hid). cbn [orb negb].
  unfold registerEvent, GlobalEventManager, global_registerHandler, deref. cbn [registerHandler s_objects].
  rewrite lookup_insert_eq. run_bind. cbn [Event_new ev_kind].
  destruct (register_timer_table (s_manager (t_sys t)) id (s_next (t_sys t)) Hn) as (Et & _).
  cbn [on_sys t_sys set_queue s_next s_manager] in *.
  destruct (register_timer _ _ _) as [r em]. cbn [snd] in Et. run_bind. cbn [t_sys set_manager].
  edestruct (service_timer_queues) as (q' & -> & R'); cbn [s_manager s_objects s_queue].
  { cbn. by rewrite Et, lookup_insert_eq. } { apply lookup_insert_eq. } { exact R. } { cbn. lia. }
  run_bind. unfold timed_blocking_dispatch. cbn [on_sys t_sys s_queue].
  pose proof (fifo_pop _ _ R') as (q'' & -> & _). run_bind.
  unfold timed_dispatch_event, timed_event_dispatch, deref. cbn [set_queue t_sys on_sys s_objects el_event].
  rewrite lookup_insert_eq. run_bind. cbn [pushDispatch Event_new m_pendingRemoval].
  rewrite bool_decide_eq_true_2 by (cbn; set_solver).
  unfold timeout_callback, unregisterEvent, GlobalEventManager, global_unregisterHandler, deref.
  cbn [t_timeout on_sys t_sys callback set_object s_objects unregisterHandler].
  rewrite lookup_insert_eq. run_bind. cbn [popDispatch pushDispatch Event_new ev_kind].
  destruct (unregister_timer _ id) as [r' em']. run_bind.
  cbn [set_manager callback set_object set_queue m_registeredEvents s_objects].
  rewrite bool_decide_eq_true_2 by set_solver. rewrite lookup_insert_eq. run_bind.
  match goal with |- context [awaitingDispatch ?e] => change (awaitingDispatch e) with false end.
  run_bind. cbn [t_sys s_objects el_event]. by rewrite lookup_delete_eq.
Qed.

(** *** The tables of a manager *)

Definition same_tables (em em' : EventManager K) : Prop :=
  m_timerHandlerLookup em' = m_timerHandlerLookup em /\ m_ioHandlerLookup em' = m_ioHandlerLookup em /\
  m_signalHandlerLookup em' = m_signalHandlerLookup em.

(** A timer that is registered for a wait and unregistered after it. *)
Lemma wait_tables (em em' : EventManager K) id p : m_timerHandlerLookup em !! id = None ->
  same_tables (register_timer em id p).2 em' -> same_tables em (unregister_timer em' id).2.
Proof.
  intros Hn (E1 & E2 & E3). destruct (register_timer_table em id p Hn) as (F1 & F2 & F3).
  destruct (unregister_timer_table em' id p) as (G1 & G2 & G3); [by rewrite E1, F1, lookup_insert_eq|].
  unfold same_tables. rewrite G1, G2, G3, E1, E2, E3, F1, F2, F3. by rewrite delete_insert_id.
Qed.

(** The event of a wait before it. *)
Definition idle_timer (id timeout : Z) : Event := mkEvent (TimerEvent id timeout) false 0.

(** A spinning queue that waits with a timeout in vain calls the timer's callback,
    which does nothing, and has the manager's tables as they were. *)
Theorem spin_timeout_returns n id t0 timeout p (s : sys) : (0 < capacity)%nat ->
  fifo_rep (s_queue s) [] -> s_objects s !! p = Some (idle_timer id t0) ->
  m_timerHandlerLookup (s_manager s) !! id = None ->
  exists s', spin_dispatch_timeout (S (S n)) true true timeout p
      (fun s => serviceTimerEvent (shared_enqueue push) s id) s = Ok (Some (OK, s')) /\
    same_tables (s_manager s) (s_manager s') /\ fifo_rep (s_queue s') [] /\
    s_objects s' !! p = Some (idle_timer id (microseconds timeout)) /\
    s_calls s' = s_calls s ++ [(p, EventType_NONE)].
Proof.
  intros Hc R Hp Hn. unfold spin_dispatch_timeout, try_dispatch. cbn [dispatch_loop].
  pose proof (fifo_pop _ _ R) as E0. rewrite E0. run_bind. rewrite bool_decide_eq_true_2 by done.
  unfold setTimeout, deref. cbn [set_queue s_objects]. rewrite Hp. run_bind.
  cbn [idle_timer ev_kind m_pendingRemoval m_awaitingDispatch]. run_bind.
  unfold GlobalEventManager, global_registerHandler, global_unregisterHandler, deref. cbn [registerHandler unregisterHandler].
  cbn [set_object set_queue s_objects s_manager]. rewrite lookup_insert_eq. run_bind. cbn [ev_kind].
  pose proof (wait_tables (s_manager s)) as Hw. specialize (Hw (register_timer (s_manager s) id p).2 id p Hn).
  destruct (register_timer_table (s_manager s) id p Hn) as (Et & _).
  destruct (register_timer (s_manager s) id p) as [r em]. cbn [snd] in *. run_bind.
  edestruct (service_timer_queues) as (q' & -> & R').
  { cbn. by rewrite Et, lookup_insert_eq. } { cbn. apply lookup_insert_eq. } { cbn. exact R. } { cbn. lia. }
  run_bind. unfold spin_dispatch, try_dispatch. cbn [dispatch_loop s_queue].
  pose proof (fifo_pop _ _ R') as (q2 & E2 & R2). rewrite E2. run_bind.
  unfold dispatch_event, event_dispatch, deref. cbn [set_queue set_object set_manager s_objects el_event].
  rewrite lookup_insert_eq. run_bind. cbn [pushDispatch popDispatch m_pendingRemoval callback set_object s_objects].
  rewrite lookup_insert_eq. run_bind. cbn [pushDispatch popDispatch m_pendingRemoval andb].
  run_bind.
  pose proof (fifo_pop _ _ R2) as E3. cbn [callback set_object set_queue set_manager s_queue]. rewrite E3. run_bind.
  rewrite bool_decide_eq_false_2 by done. run_bind. cbn [callback set_object set_queue s_objects s_manager].
  rewrite lookup_insert_eq. run_bind. cbn [popDispatch pushDispatch ev_kind].
  specialize (Hw ltac:(done)). cbn [set_manager set_object set_queue callback s_manager].
  destruct (unregister_timer em id) as [r' em'] eqn:Eu. run_bind. eexists. split; [done|]. cbn.
  split; [exact Hw|]. split; [exact R2|]. split; [|done]. rewrite lookup_insert_eq. reflexivity.
Qed.

(** *** The inline queue *)

(** Every pointer in the tables is to an event that exists. *)
Definition is_live (o : objects) (p : positive) : Prop := is_Some (o !! p).
Record live_tables (o : objects) (em : EventManager K) : Prop := {
  lt_io : forall fd l, m_ioHandlerLookup em !! fd = Some l -> Forall (is_live o) l;
  lt_timer : forall id p, m_timerHandlerLookup em !! id = Some p -> is_live o p;
  lt_signal : forall n p, m_signalHandlerLookup em !! n = Some p -> is_live o p
}.

Lemma static_live o o' p : static o' = static o -> is_live o p -> is_live o' p.
Proof. intros E [e He]. destruct (static_lookup o o' p e E He) as (e' & He' & _). by exists e'. Qed.

Lemma live_frame (s s' : sys) : frame s s' -> live_tables (s_objects s) (s_manager s) -> live_tables (s_objects s') (s_manager s').
Proof.
  intros (Hs & -> & _) [H1 H2 H3]. split.
  - intros fd l Hl. eapply Forall_impl; [by apply (H1 fd)|]. intros p. by apply static_live.
  - intros id p Hp. by eapply static_live, H2.
  - intros n p Hp. by eapply static_live, H3.
Qed.

Lemma frame_refl (s : sys) : frame s s.
Proof. done. Qed.

Lemma notify_inline (s : sys) p a : is_live (s_objects s) p ->
  exists s', notify inline_enqueue s p a = Ok (true, s') /\ frame s s'.
Proof.
  intros [e He]. unfold notify, inline_enqueue, event_dispatch, deref. rewrite He. run_bind.
  cbn [set_object s_objects el_event]. rewrite lookup_insert_eq. run_bind.
  cbn [pushDispatch m_pendingRemoval].
  assert (static (<[p:=popDispatch (pushDispatch e)]> (<[p:=pushDispatch e]> (s_objects s))) = static (s_objects s)) as E.
  { rewrite insert_insert_eq. eapply static_insert; [exact He|reflexivity..]. }
  destruct (m_pendingRemoval e); run_bind; (eexists; split; [reflexivity|by split_and!]).
Qed.

Lemma service_inline l f : forall s : sys, Forall (is_live (s_objects s)) l ->
  exists s', service_io_handlers inline_enqueue s l f = Ok s' /\ frame s s'.
Proof.
  induction l as [|p l IH]; intros s Hl; [by exists s|]. apply Forall_cons in Hl as [Hp Hl].
  cbn [service_io_handlers]. pose proof Hp as [e He]. unfold deref. rewrite He. run_bind.
  destruct (_ && _).
  - destruct (notify_inline s p (Z.land (eventTypes e) f) Hp) as (s1 & -> & F1). run_bind.
    destruct (IH s1) as (s2 & -> & F2).
    { eapply Forall_impl; [exact Hl|]. intros q. apply static_live, F1. }
    exists s2. split; [done|]. by eapply frame_trans.
  - run_bind. by apply IH.
Qed.

Lemma run_events_inline sig_read l : forall s : sys, live_tables (s_objects s) (s_manager s) ->
  exists s', run_events (services inline_enqueue) sig_read s l = Ok s' /\ frame s s'.
Proof.
  induction l as [|[events word] l IH]; intros s Hl; [by exists s|]. cbn [run_events].
  assert (exists s1, match classify events word with
    | TimerElement id => timer_events (services inline_enqueue) s id
    | SignalElement id => signal_events (services inline_enqueue) s id (sig_read id)
    | IOElement id filter => io_events (services inline_enqueue) s id filter
    | NoElement => Ok s
    end = Ok s1 /\ frame s s1) as (s1 & -> & F1).
  { destruct (classify events word) as [id|id|id f|]; cbn; [| | |by exists s];
      unfold serviceTimerEvent, serviceSignalEvent, serviceIOEvent.
    - destruct (_ !! id) as [p|] eqn:E; [|by exists s]. apply (lt_timer _ _ Hl) in E.
      destruct (notify_inline s p EventType_NONE E) as (s1 & -> & F). by exists s1.
    - destruct (_ !! sig_read id) as [p|] eqn:E; [|by exists s]. apply (lt_signal _ _ Hl) in E.
      destruct (notify_inline s p EventType_NONE E) as (s1 & -> & F). by exists s1.
    - destruct (_ !! id) as [hs|] eqn:E; [|by exists s]. apply (lt_io _ _ Hl) in E. by apply service_inline. }
  run_bind. destruct (IH s1) as (s2 & -> & F2); [by eapply live_frame|].
  exists s2. split; [done|]. by eapply frame_trans.
Qed.

Lemma waitForEvent_inline sig_read (s : sys) w : live_tables (s_objects s) (s_manager s) ->
  exists r s', waitForEvent inline_enqueue sig_read s w = Ok (r, s') /\
    static (s_objects s') = static (s_objects s) /\ same_tables (s_manager s) (s_manager s').
Proof.
  intros Hl. unfold waitForEvent, run.
  destruct (_ =? 0); [by eexists _, _; split; [done|]|].
  destruct w as [[|x l]|i].
  - by eexists _, _; split; [done|].
  - destruct (run_events_inline sig_read (x :: l) s Hl) as (s1 & -> & F1). run_bind.
    eexists _, _. split; [done|]. destruct F1 as (Hs & Hm & _). split; [exact Hs|]. unfold same_tables. cbn. by rewrite Hm.
  - destruct (_ && _); by eexists _, _; split; [done|].
Qed.

(** [dispatch(timeout)] of an inline queue returns whatever the kernel reports, and
    afterwards the tables of the manager are what they were: the timer of the wait
    is gone whether it fired or not. *)
Theorem inline_timeout_restores sig_read id t0 pend aw timeout p w (s : sys) :
  live_tables (s_objects s) (s_manager s) -> s_objects s !! p = Some (mkEvent (TimerEvent id t0) pend aw) ->
  m_timerHandlerLookup (s_manager s) !! id = None ->
  exists s', inline_dispatch_timeout sig_read true timeout p w s = Ok (OK, s') /\
    same_tables (s_manager s) (s_manager s') /\
    static (s_objects s') = static (<[p := mkEvent (TimerEvent id (microseconds timeout)) pend aw]> (s_objects s)).
Proof.
  intros Hl Hp Hn. unfold inline_dispatch_timeout. rewrite bool_decide_eq_true_2 by done.
  unfold setTimeout, deref. rewrite Hp. run_bind. cbn [ev_kind m_pendingRemoval m_awaitingDispatch]. run_bind.
  unfold InlineEventManager, inline_registerHandler, inline_unregisterHandler, deref. cbn [registerHandler unregisterHandler].
  cbn [set_object s_objects s_manager]. rewrite lookup_insert_eq. run_bind. cbn [ev_kind].
  destruct (register_timer_table (s_manager s) id p Hn) as (Et & Ei & Es).
  pose proof (fun em' => wait_tables (s_manager s) em' id p Hn) as Hw.
  destruct (register_timer (s_manager s) id p) as [r em]. cbn [snd] in *. run_bind.
  set (e' := mkEvent (TimerEvent id (microseconds timeout)) pend aw).
  set (s1 := set_manager _ em).
  assert (live_tables (s_objects s1) (s_manager s1)) as Hl1.
  { assert (forall q, is_live (s_objects s) q -> is_live (<[p:=e']> (s_objects s)) q) as Hk.
    { intros q [e He]. unfold is_live. rewrite lookup_insert. case_decide; eauto. }
    split; cbn.
    - intros fd l. rewrite Ei. intros E. eapply Forall_impl; [by eapply (lt_io _ _ Hl)|exact Hk].
    - intros id' q. rewrite Et, lookup_insert. case_decide; intros E.
      + injection E as <-. unfold is_live. rewrite lookup_insert_eq. eauto.
      + by eapply Hk, (lt_timer _ _ Hl).
    - intros n q. rewrite Es. intros E. by eapply Hk, (lt_signal _ _ Hl). }
  unfold inline_dispatch. destruct (waitForEvent_inline sig_read s1 w Hl1) as (r' & s2 & -> & Hs2 & Ht2). run_bind.
  destruct (static_lookup (s_objects s1) (s_objects s2) p e' Hs2) as (e2 & He2 & Hk2 & _); [apply lookup_insert_eq|].
  rewrite He2. run_bind. rewrite Hk2. cbn [e' ev_kind].
  specialize (Hw (s_manager s2) Ht2). destruct (unregister_timer (s_manager s2) id) as [r2 em2]. run_bind.
  eexists. split; [done|]. split; [exact Hw|exact Hs2].
Qed.
End timed.

(** ** Samples *)

(** The events of [readers], and an event at address 7 that the queue owns. *)
Definition with_timeout : ring_sys := set_object (readers 4) 7 (idle_timer 11 0).

Lemma blocking_timeout_faults_witness :
  blocking_dispatch_timeout (pop := ring_pop 4) true 1 true 11 true 20
    (fun s => serviceTimerEvent (shared_enqueue (ring_push 4)) s 11) (mkTimed (readers 4) None ∅) = undefined UseAfterFree.
Proof.
  apply (blocking_timeout_faults (push := ring_push 4) (pop := ring_pop 4) (capacity := 4 - 1) 0 11 20 (mkTimed (readers 4) None ∅));
    [lia|lia|apply ring_new_rep; lia|reflexivity|vm_compute; reflexivity].
Defined.

Lemma spin_timeout_returns_witness :
  exists s', spin_dispatch_timeout (pop := ring_pop 4) 2 true true 20 7
      (fun s => serviceTimerEvent (shared_enqueue (ring_push 4)) s 11) with_timeout = Ok (Some (OK, s')) /\
    s_calls s' = [(7%positive, EventType_NONE)].
Proof.
  destruct (spin_timeout_returns (push := ring_push 4) (pop := ring_pop 4) (capacity := 4 - 1) 0 11 0 20 7 with_timeout)
    as (s' & E & _ & _ & _ & C); [lia|apply ring_new_rep; lia|vm_compute; reflexivity..|].
  exists s'. split; [exact E|exact C].
Defined.

#[export] Instance live_tables_dec (o : objects) (em : EventManager (gmap Z (Z * Z))) : Decision (live_tables o em).
Proof.
  refine (cast_if (decide (map_Forall (fun _ => Forall (fun p => is_Some (o !! p))) (m_ioHandlerLookup em) /\
    map_Forall (fun _ p => is_Some (o !! p)) (m_timerHandlerLookup em) /\
    map_Forall (fun _ p => is_Some (o !! p)) (m_signalHandlerLookup em)))).
  - destruct a as (H1 & H2 & H3). split; [exact H1|exact H2|exact H3].
  - intros [H1 H2 H3]. apply n. split; [exact H1|split; [exact H2|exact H3]].
Defined.

(** Descriptor 5 is readable and the timer of the wait has fired. *)
Lemma inline_timeout_restores_witness :
  exists s', inline_dispatch_timeout (fun _ => 0) true 20 7 (Ready [(EPOLLIN, 5); (EPOLLIN, timer_data 11)]) with_timeout = Ok (OK, s') /\
    m_timerHandlerLookup (s_manager s') = m_timerHandlerLookup (s_manager with_timeout).
Proof.
  destruct (inline_timeout_restores (fun _ => 0) 11 0 false 0 20 7 (Ready [(EPOLLIN, 5); (EPOLLIN, timer_data 11)]) with_timeout)
    as (s' & E & (Ht & _) & _).
  - apply (bool_decide_unpack _). vm_compute. exact I.
  - vm_compute. reflexivity.
  - vm_compute. reflexivity.
  - exists s'. split; [exact E|exact Ht].
Defined.
