(* ===== verification/Session.v ===== *)
(** * Session: src/fastpath/event/Session.h and Session.cpp

    [start] creates the event manager and the event loop thread and waits until
    the thread runs; [stop] asks the thread to end and joins it.  The two threads
    share [m_shutdown], the event manager, and during [start] a mutex and a
    condition variable on the stack of the caller.  One constructor of [step] is
    one access to something shared. *)
From S2P Require Import Prelude Types.

Inductive main_pc :=
  | M_Outside
  | M_Lock        (* start: std::unique_lock<std::mutex> lock(mutex) *)
  | M_Spawn       (* m_eventLoop = std::thread(...) *)
  | M_Wait        (* condition.wait(lock) *)
  | M_Blocked     (* inside the wait *)
  | M_Relock      (* woken, before the mutex is taken again *)
  | M_Started     (* m_started = true; the locals are destroyed on return *)
  | M_Store       (* stop: m_shutdown.store(true) *)
  | M_Notify      (* m_eventManager->notify() *)
  | M_Join.       (* m_eventLoop.join() *)

Inductive loop_pc :=
  | L_None        (* no thread *)
  | L_Lock        (* std::lock_guard<std::mutex> lock_guard(mutex) *)
  | L_NotifyAll   (* condition.notify_all() *)
  | L_Unlock      (* end of the block *)
  | L_Check       (* while (!m_shutdown.load()) *)
  | L_WaitEvent   (* m_eventManager->waitForEvent() *)
  | L_Store       (* m_shutdown.store(false) *)
  | L_Reset       (* m_eventManager.reset(nullptr) *)
  | L_Ended.

Inductive thread := Main | Loop.

Record session := mkSession {
  m_started : bool;
  m_shutdown : bool;
  m_eventManager : bool;         (* whether there is one *)
  mutex : option thread;         (* who holds the local mutex of [start] *)
  main : main_pc;
  loop : loop_pc
}.

Definition session_new : session := mkSession false false false None M_Outside L_None.

Definition set_main (s : session) (p : main_pc) : session :=
  mkSession (m_started s) (m_shutdown s) (m_eventManager s) (mutex s) p (loop s).
Definition set_loop (s : session) (p : loop_pc) : session :=
  mkSession (m_started s) (m_shutdown s) (m_eventManager s) (mutex s) (main s) p.
Definition set_mutex (s : session) (o : option thread) : session :=
  mkSession (m_started s) (m_shutdown s) (m_eventManager s) o (main s) (loop s).

(** The first test of [start] and of [stop], with the status when it returns. *)
Definition start_returns (s : session) : option status := if m_started s then Some OK else None.
Definition stop_returns (s : session) : option status := if m_started s then None else Some EVM_NOTRUNNING.

(** [notify_all] wakes the caller when it waits. *)
Definition woken (p : main_pc) : main_pc := match p with M_Blocked => M_Relock | p => p end.

Section steps.
Context (spurious : bool).   (* whether a wait may return without a notification *)

Inductive step : session -> session -> Prop :=
  | start_begin s : main s = M_Outside -> start_returns s = None ->
      step s (mkSession (m_started s) (m_shutdown s) true (mutex s) M_Lock (loop s))
  | start_lock s : main s = M_Lock -> step s (set_mutex (set_main s M_Spawn) (Some Main))
  | start_spawn s : main s = M_Spawn -> step s (set_loop (set_main s M_Wait) L_Lock)
  | start_wait s : main s = M_Wait -> step s (set_mutex (set_main s M_Blocked) None)
  | start_spurious s : main s = M_Blocked -> spurious = true -> step s (set_main s M_Relock)
  | start_relock s : main s = M_Relock -> mutex s = None -> step s (set_mutex (set_main s M_Started) (Some Main))
  | start_end s : main s = M_Started ->
      step s (mkSession true (m_shutdown s) (m_eventManager s) None M_Outside (loop s))
  | stop_begin s : main s = M_Outside -> stop_returns s = None -> step s (set_main s M_Store)
  | stop_store s : main s = M_Store ->
      step s (mkSession (m_started s) true (m_eventManager s) (mutex s) M_Notify (loop s))
  | stop_notify s : main s = M_Notify -> m_eventManager s = true -> step s (set_main s M_Join)
  | stop_join s : main s = M_Join -> loop s = L_Ended ->
      step s (mkSession false (m_shutdown s) (m_eventManager s) (mutex s) M_Outside L_None)
  | loop_lock s : loop s = L_Lock -> mutex s = None -> step s (set_mutex (set_loop s L_NotifyAll) (Some Loop))
  | loop_notify s : loop s = L_NotifyAll -> step s (set_loop (set_main s (woken (main s))) L_Unlock)
  | loop_unlock s : loop s = L_Unlock -> step s (set_mutex (set_loop s L_Check) None)
  | loop_check s : loop s = L_Check -> step s (set_loop s (if m_shutdown s then L_Store else L_WaitEvent))
  | loop_event s : loop s = L_WaitEvent -> step s (set_loop s L_Check)
  | loop_store s : loop s = L_Store ->
      step s (mkSession (m_started s) false (m_eventManager s) (mutex s) (main s) L_Reset)
  | loop_reset s : loop s = L_Reset ->
      step s (mkSession (m_started s) (m_shutdown s) false (mutex s) (main s) L_Ended).

Definition reachable (s : session) : Prop := rtc step session_new s.

(** The mutex and the condition variable exist while [start] runs. *)
Definition locals_alive (s : session) : bool :=
  match main s with M_Spawn | M_Wait | M_Blocked | M_Relock | M_Started => true | _ => false end.
Definition loop_uses_locals (s : session) : bool :=
  match loop s with L_Lock | L_NotifyAll | L_Unlock => true | _ => false end.
Definition loop_uses_manager (s : session) : bool :=
  match loop s with L_WaitEvent | L_Reset => true | _ => false end.

(** ** The handshake of [start] *)

(** Which pairs of positions are reachable without spurious wake-ups, and what
    holds there. *)
Definition session_inv (s : session) : Prop :=
  match main s, loop s with
  | M_Outside, L_None => m_started s = false /\ mutex s = None
  | M_Lock, L_None => m_started s = false /\ m_eventManager s = true /\ mutex s = None
  | M_Spawn, L_None => m_started s = false /\ m_eventManager s = true /\ mutex s = Some Main
  | M_Wait, L_Lock => m_started s = false /\ m_eventManager s = true /\ mutex s = Some Main
  | M_Blocked, L_Lock => m_started s = false /\ m_eventManager s = true /\ mutex s = None
  | M_Blocked, L_NotifyAll => m_started s = false /\ m_eventManager s = true /\ mutex s = Some Loop
  | M_Relock, L_Unlock => m_started s = false /\ m_eventManager s = true /\ mutex s = Some Loop
  | (M_Relock | M_Started), (L_Check | L_WaitEvent) =>
      m_started s = false /\ m_eventManager s = true /\ m_shutdown s = false /\
      mutex s = match main s with M_Started => Some Main | _ => None end
  | (M_Outside | M_Store), (L_Check | L_WaitEvent) =>
      m_started s = true /\ m_eventManager s = true /\ m_shutdown s = false /\ mutex s = None
  | (M_Notify | M_Join), (L_Check | L_WaitEvent | L_Store | L_Reset) =>
      m_started s = true /\ m_eventManager s = true /\ mutex s = None /\
      m_shutdown s = match loop s with L_Reset => false | _ => true end
  | (M_Notify | M_Join), L_Ended =>
      m_started s = true /\ m_eventManager s = false /\ mutex s = None /\ m_shutdown s = false
  | _, _ => False
  end /\
  match loop s with L_None | L_Lock | L_NotifyAll | L_Unlock => m_shutdown s = false | _ => True end.

Lemma session_inv_step s s' : spurious = false -> step s s' -> session_inv s -> session_inv s'.
Proof.
  intros Hsp [];
    match goal with s : session |- _ => destruct s as [st sh em mx mp lp] end; unfold start_returns, stop_returns, session_inv in *; cbn in *; subst;
    destruct st; try destruct lp; try destruct mp; try destruct sh; cbn; try tauto; intros [? ?]; try tauto;
    intuition congruence.
Qed.

Lemma session_reachable_inv s : spurious = false -> reachable s -> session_inv s.
Proof.
  intros Hsp R. enough (forall a b, rtc step a b -> session_inv a -> session_inv b) as A
    by (apply (A _ _ R); by repeat split).
  induction 1; eauto using session_inv_step.
Qed.

(** C40: the handshake of [start] works: unless a wait wakes up spuriously, the
    loop thread uses the mutex and the condition variable only while they exist,
    a caller that waits is going to be notified, and when [start] has returned
    the loop thread runs with its event manager. *)
Theorem session_handshake s :
  spurious = false -> reachable s ->
  (loop_uses_locals s = true -> locals_alive s = true) /\
  (loop_uses_manager s = true -> m_eventManager s = true) /\
  (main s = M_Blocked -> loop s = L_Lock \/ loop s = L_NotifyAll) /\
  (main s = M_Outside -> m_started s = true -> (loop s = L_Check \/ loop s = L_WaitEvent) /\ m_shutdown s = false).
Proof.
  intros Hsp R. pose proof (session_reachable_inv s Hsp R) as [I _]. destruct s as [st sh em mx mp lp].
  destruct mp, lp; cbn in *; try done; intuition congruence.
Qed.

(** A session can be stopped and started again: when [stop] has returned,
    the thread is gone, the event manager is destroyed and the shutdown flag is
    clear, as in a new session. *)
Theorem session_stopped s s' :
  spurious = false -> reachable s -> step s s' -> main s = M_Join -> main s' = M_Outside -> s' = session_new.
Proof.
  intros Hsp R Hs Hm Hm'. pose proof (session_reachable_inv s Hsp R) as [I _].
  destruct Hs; destruct s as [st sh em mx mp lp]; cbn in *; subst; try done; cbn in I.
  destruct I as (-> & -> & -> & ->). done.
Qed.
End steps.

(** A session that has been started, by the steps of both threads. *)
Definition running (lp : loop_pc) : session := mkSession true false true None M_Outside lp.
Lemma running_reachable : reachable false (running L_WaitEvent).
Proof.
  eapply rtc_l; [by apply start_begin|]. eapply rtc_l; [by apply start_lock|].
  eapply rtc_l; [by apply start_spawn|]. eapply rtc_l; [by apply start_wait|].
  eapply rtc_l; [by apply loop_lock|]. eapply rtc_l; [by apply loop_notify|].
  eapply rtc_l; [by apply loop_unlock|]. eapply rtc_l; [by apply start_relock|].
  eapply rtc_l; [by apply start_end|]. eapply rtc_l; [by apply loop_check|]. apply rtc_refl.
Qed.

Lemma session_handshake_witness :
  (loop (running L_WaitEvent) = L_Check \/ loop (running L_WaitEvent) = L_WaitEvent) /\
  m_shutdown (running L_WaitEvent) = false.
Proof. apply (session_handshake false _ eq_refl running_reachable); reflexivity. Defined.

(** [stop] when the loop has woken up for another event after the store. *)
Definition stopping (p : main_pc) : session := mkSession true false false None p L_Ended.
Lemma stopping_reachable : reachable false (stopping M_Notify).
Proof.
  unfold reachable. etrans; [exact running_reachable|].
  eapply rtc_l; [by apply stop_begin|]. eapply rtc_l; [by apply stop_store|].
  eapply rtc_l; [by apply loop_event|]. eapply rtc_l; [by apply loop_check|].
  eapply rtc_l; [by apply loop_store|]. eapply rtc_l; [by apply loop_reset|]. apply rtc_refl.
Qed.

(** [stop] and the loop race for the event manager: there is an interleaving in
    which [stop] calls [notify()] on the manager the loop has destroyed. *)
Theorem session_stop_race :
  exists s, reachable false s /\ main s = M_Notify /\ m_eventManager s = false.
Proof. exists (stopping M_Notify). split; [exact stopping_reachable|done]. Qed.

(** When the loop wakes up from the notification, [stop] ends. *)
Lemma joining_reachable : reachable false (stopping M_Join).
Proof.
  unfold reachable. etrans; [exact running_reachable|].
  eapply rtc_l; [by apply stop_begin|]. eapply rtc_l; [by apply stop_store|].
  eapply rtc_l; [by apply stop_notify|]. eapply rtc_l; [by apply loop_event|].
  eapply rtc_l; [by apply loop_check|]. eapply rtc_l; [by apply loop_store|].
  eapply rtc_l; [by apply loop_reset|]. apply rtc_refl.
Qed.

Lemma session_stopped_witness :
  step false (stopping M_Join) session_new /\ session_new = session_new.
Proof.
  assert (step false (stopping M_Join) session_new) as Hs by by apply (stop_join false (stopping M_Join)).
  split; [exact Hs|].
  apply (session_stopped false (stopping M_Join) session_new eq_refl joining_reachable Hs); reflexivity.
Defined.

(** With a spurious wake-up [start] returns before the loop thread has used the
    mutex, which is gone by then. *)
Theorem session_spurious_dangles :
  exists s, reachable true s /\ loop s = L_Lock /\ locals_alive s = false.
Proof.
  exists (mkSession true false true None M_Outside L_Lock). split; [|done].
  eapply rtc_l; [by apply start_begin|]. eapply rtc_l; [by apply start_lock|].
  eapply rtc_l; [by apply start_spawn|]. eapply rtc_l; [by apply start_wait|].
  eapply rtc_l; [by apply start_spurious|]. eapply rtc_l; [by apply start_relock|].
  eapply rtc_l; [by apply start_end|]. apply rtc_refl.
Qed.
