(* ===== verification/SessionWake.v ===== *)
(** * SessionWake: how stop wakes the event loop

    GlobalEventManager::notify and EventManager::waitForEvent (GlobalEventManager.cpp,
    EventManager.cpp) between the two threads of [Session]: the flag that says the
    loop waits, the eventfd of the manager, and the wait of the poll manager, one
    shared access per step.  The steps of [Session] are refined, not repeated. *)
From S2P Require Import Prelude Types Session.

(** ** State *)

(** Where the loop thread is in [waitForEvent]. *)
Inductive wait_pc :=
  | W_flag     (* m_in_event_wait.store(true) *)
  | W_run      (* m_eventLoop.run(...): epoll_wait without a timeout *)
  | W_unflag.  (* m_in_event_wait.store(false) *)
(** Where [stop] is in [notify]. *)
Inductive notify_pc :=
  | N_load     (* if (m_in_event_wait.load()) *)
  | N_write.   (* m_actionNotifier.notify() *)

(** The descriptor of the notifier is registered edge triggered: [edge] tells whether
    it was written since the wait last reported it.  [raced] is a ghost: the test of
    [m_in_event_wait] in the last [notify] fell between the loop's test of [m_shutdown]
    and its store of [m_in_event_wait]; the store of [m_shutdown] in [stop] did, too,
    since the loop had not seen it. *)
Record waking := mkWaking {
  base : session;
  m_in_event_wait : bool;
  edge : bool;
  waiting : wait_pc;
  notifying : notify_pc;
  raced : bool
}.

Definition waking_new : waking := mkWaking session_new false false W_flag N_load false.

(** A step of [Session] that is neither the notification nor the wait. *)
Definition elsewhere (s s' : session) : Prop :=
  (main s = M_Notify -> main s' = M_Notify) /\ (loop s = L_WaitEvent -> loop s' = L_WaitEvent).

Section steps.
(** Whether another registered descriptor may report, or a signal interrupt the
    wait. *)
Context (others : bool).

(** The loop has tested [m_shutdown] and has not set the flag. *)
Definition between_test_and_flag (s : session) (w : wait_pc) : bool :=
  match loop s, w with L_WaitEvent, W_flag => true | _, _ => false end.

Inductive wstep : waking -> waking -> Prop :=
  | w_session s s' f e w n r : step false s s' -> elsewhere s s' -> main s <> M_Outside \/ main s' <> M_Lock ->
      wstep (mkWaking s f e w n r) (mkWaking s' f e w n r)
  | w_start s s' f e w n r : step false s s' -> main s = M_Outside -> main s' = M_Lock ->   (* a new GlobalEventManager *)
      wstep (mkWaking s f e w n r) (mkWaking s' false false w n false)
  | w_load s f e w r : main s = M_Notify -> m_eventManager s = true ->
      wstep (mkWaking s f e w N_load r)
        (let r := between_test_and_flag s w in
         if f then mkWaking s f e w N_write r else mkWaking (set_main s M_Join) f e w N_load r)
  | w_write s f e w r : main s = M_Notify -> m_eventManager s = true ->
      wstep (mkWaking s f e w N_write r) (mkWaking (set_main s M_Join) f true w N_load r)
  | w_flag s f e n r : loop s = L_WaitEvent -> wstep (mkWaking s f e W_flag n r) (mkWaking s true e W_run n r)
  | w_run s f e e' n r : loop s = L_WaitEvent -> e = true \/ others = true -> e' = false \/ others = true /\ e' = e ->
      wstep (mkWaking s f e W_run n r) (mkWaking s f e' W_unflag n r)   (* more may be ready than one wait reports *)
  | w_unflag s f e n r : loop s = L_WaitEvent ->
      wstep (mkWaking s f e W_unflag n r) (mkWaking (set_loop s L_Check) false e W_flag n r).

Definition wreachable (w : waking) : Prop := rtc wstep waking_new w.

(** ** Refinement of Session *)

Lemma wstep_base w w' : wstep w w' -> base w' = base w \/ step false (base w) (base w').
Proof.
  intros []; cbn; auto.
  - destruct f; cbn; auto using stop_notify.
  - auto using stop_notify.
  - auto using loop_event.
Qed.

(** Forgetting the flag and the notifier turns a run into a run of [Session], so
    what is proved there holds here. *)
Theorem waking_refines w : wreachable w -> reachable false (base w).
Proof.
  intros H. enough (forall v, rtc wstep v w -> rtc (step false) (base v) (base w)) as A by apply (A _ H).
  clear. induction 1 as [|v v1 w Hs _ IH]; [done|].
  destruct (wstep_base v v1 Hs) as [E|E]; [by rewrite <- E|by eapply rtc_l].
Qed.

Lemma base_inv w : wreachable w -> session_inv (base w).
Proof. intros H. by apply (session_reachable_inv false), waking_refines. Qed.

(** ** The notification *)

(** The flag is set exactly while the loop is behind its first store; [stop] is
    behind the load of a true flag only when the loop cannot start another wait; and
    once it waits for the thread, a thread that is about to sleep or asleep with
    nothing written is one it raced with. *)
Definition wake_inv (w : waking) : Prop :=
  (loop (base w) <> L_WaitEvent -> waiting w = W_flag) /\
  m_in_event_wait w = (match waiting w with W_flag => false | _ => true end) /\
  (main (base w) <> M_Notify -> notifying w = N_load) /\
  (notifying w = N_write -> loop (base w) = L_WaitEvent -> waiting w <> W_flag) /\
  (notifying w = N_write -> raced w = false) /\
  (main (base w) = M_Join -> loop (base w) = L_WaitEvent ->
     raced w = true \/ waiting w = W_unflag \/ (waiting w = W_run /\ edge w = true)).

Lemma wake_inv_step w w' : wstep w w' -> session_inv (base w) -> wake_inv w -> wake_inv w'.
Proof.
  intros Hs [J _] I. unfold wake_inv in *. destruct Hs as [s s' f e w n r Hb [Hm Hl] Hn|s s' f e w n r Hb Hm Hm'| | | | |]; cbn in *.
  - destruct Hb; destruct s as [st sh em mx mp lp]; cbn in *; subst; try destruct lp; try done; try destruct mp; try done;
      destruct n; try destruct sh; cbn in *; intuition congruence.
  - destruct Hb as []; unfold start_returns in *; destruct s as [st sh em mx mp lp]; cbn in *; subst; try done. destruct lp; try done; destruct w, n; cbn in *; try destruct st; intuition congruence.
  - unfold between_test_and_flag. destruct f, w, (loop s) eqn:?; cbn in *; intuition congruence.
  - destruct w; cbn in *; intuition congruence.
  - intuition congruence.
  - intuition congruence.
  - destruct s as [st sh em mx mp lp]; cbn in *; subst. destruct mp; try done; intuition congruence.
Qed.

Lemma wake_inv_reachable w : wreachable w -> wake_inv w.
Proof.
  intros H. enough (forall v, rtc wstep v w -> wreachable v -> wake_inv v -> wake_inv w) as A
    by (apply (A _ H); [apply rtc_refl|by split_and!]).
  clear. induction 1 as [|v v1 w Hs _ IH]; [done|]. intros Hv Iv. apply IH; [by eapply rtc_r|].
  eapply wake_inv_step; [done| |done]. by apply base_inv.
Qed.

(** The wake-up is lost: [stop] waits for the thread after such a race, and the thread
    has not been woken by something else. *)
Definition lost (w : waking) : Prop :=
  main (base w) = M_Join /\ loop (base w) = L_WaitEvent /\ waiting w <> W_unflag /\ raced w = true.

(** A [stop] that saw the flag does not lose it, but writes the notifier. *)
Theorem stop_notifies w w' : wreachable w -> notifying w = N_write -> wstep w w' -> main (base w') = M_Join ->
  ~ lost w' /\ edge w' = true.
Proof.
  intros Hr Hn Hs Hj. destruct (wake_inv_reachable w Hr) as (_ & _ & Hm & _ & Hrc & _).
  assert (main (base w) = M_Notify) as E by (destruct (main (base w)) eqn:E; (reflexivity || (rewrite Hm in Hn by done; done))).
  destruct Hs as [s s' f e wt n r Hb [Hm' _] _| | | s f e wt r | | |]; cbn in *; try congruence.
  - specialize (Hm' E). congruence.
  - split; [|done]. intros (_ & _ & _ & Hx). cbn in Hx. by rewrite Hrc in Hx.
Qed.

(** How many steps [stop] has left at most, once it waits for the thread. *)
Definition steps_left (w : waking) : nat :=
  match loop (base w) with
  | L_Ended => 1 | L_Reset => 2 | L_Store => 3 | L_Check => 4
  | L_WaitEvent => match waiting w with W_unflag => 5 | W_run => 6 | W_flag => 7 end
  | _ => 0
  end.

(** C37: [stop] returns unless the one race is lost: unless its test of
    [m_in_event_wait] fell between the loop's test of [m_shutdown] and its store of
    [m_in_event_wait] and nothing else has woken the loop since, a [stop] that waits
    for the thread always has a step before it, and every step brings its end
    nearer, whatever other descriptors report. *)
Theorem stop_returns_unless_lost w : wreachable w -> main (base w) = M_Join -> ~ lost w ->
  (exists w', wstep w w') /\
  (forall w', wstep w w' -> base w' = session_new \/
     (main (base w') = M_Join /\ ~ lost w' /\ (steps_left w' < steps_left w)%nat)).
Proof.
  intros Hr Hj Hl. destruct (base_inv w Hr) as [J _]. destruct (wake_inv_reachable w Hr) as (_ & _ & _ & _ & _ & Hrace).
  destruct w as [[st sh em mx mp lp] f e wt n r]. cbn in Hj. subst mp.
  split.
  - destruct lp; cbn in J; try done; destruct J as (-> & -> & -> & J); subst.
    + eexists. by apply w_session; [apply loop_check|split|left].
    + specialize (Hrace eq_refl eq_refl). unfold lost in Hl. cbn in Hrace, Hl.
      destruct wt; [destruct Hrace as [->|[?|[? _]]]; [by destruct Hl|done|done]| |by eexists; apply w_unflag].
      eexists. apply w_run; [done| |by left]. left. destruct Hrace as [->|[?|[_ ?]]]; [by destruct Hl|done|done].
    + eexists. by apply w_session; [apply loop_store|split|left].
    + eexists. by apply w_session; [apply loop_reset|split|left].
    + eexists. by apply w_session; [apply stop_join|split|left].
  - intros w' Hs. unfold lost in *. inversion Hs; subst; cbn in *; try done; destruct lp; try done;
      try (match goal with H : step false _ _ |- _ => inversion H; subst; cbn in *; try done end);
      try (match goal with H : elsewhere _ _ |- _ => destruct H as [_ H]; by specialize (H eq_refl) end);
      try (destruct J as (-> & -> & -> & ->); auto);
      right; (split_and!; [done| |cbn; lia]); intros (_ & Hw & He & Hrr); cbn in *; try done.
    by destruct Hl.
Qed.
End steps.

(** ** Where the wake-up is lost *)

(** A started session with the loop at its test, about to wait. *)
Definition idle (lp : loop_pc) : waking := mkWaking (running lp) false false W_flag N_load false.

Ltac session_step r := eapply rtc_l; [by apply w_session; [apply r; done|split; cbn; congruence|cbn; (left; congruence) || (right; congruence)]|].

Lemma idle_reachable : wreachable false (idle L_WaitEvent).
Proof.
  eapply rtc_l; [by apply w_start; [by apply start_begin|..]|].
  session_step start_lock. session_step start_spawn. session_step start_wait. session_step loop_lock.
  session_step loop_notify. session_step loop_unlock. session_step start_relock. session_step start_end.
  session_step loop_check. apply rtc_refl.
Qed.

(** [stop] runs to its join between the test of [m_shutdown] and the store of the flag. *)
Definition missed (w : wait_pc) : waking :=
  mkWaking (mkSession true true true None M_Join L_WaitEvent) (match w with W_flag => false | _ => true end) false w N_load true.

Lemma missed_reachable : wreachable false (missed W_run).
Proof.
  unfold wreachable. etrans; [exact idle_reachable|].
  session_step stop_begin. session_step stop_store.
  eapply rtc_l; [by apply w_load|]. eapply rtc_l; [by apply w_flag|]. apply rtc_refl.
Qed.

(** The test of [m_shutdown] and the store of the flag are two steps: a [stop] in
    between notifies nobody and waits for a thread that sleeps in [epoll_wait] without
    a timeout.  Unless another descriptor becomes ready, no step is possible any more. *)
Theorem stop_hangs : exists w, wreachable false w /\ lost w /\ forall w', ~ wstep false w w'.
Proof.
  exists (missed W_run). split; [exact missed_reachable|]. split; [by repeat split|].
  intros w' Hs. inversion Hs; subst; cbn in *; try done; [|intuition congruence].
  match goal with H : elsewhere _ _, Hb : step _ _ _ |- _ => destruct H as [_ Hl]; inversion Hb; subst; cbn in *; try done end.
  by specialize (Hl eq_refl).
Qed.

(** ** Samples *)

(** A [stop] that finds the loop in its wait. *)
Definition seen (n : notify_pc) (m : main_pc) (e : bool) : waking :=
  mkWaking (mkSession true true true None m L_WaitEvent) true e W_run n false.

Lemma seen_reachable : wreachable false (seen N_write M_Notify false).
Proof.
  unfold wreachable. etrans; [exact idle_reachable|].
  eapply rtc_l; [by apply w_flag|]. session_step stop_begin. session_step stop_store.
  eapply rtc_l; [by apply w_load|]. apply rtc_refl.
Qed.

Lemma seen_write : wstep false (seen N_write M_Notify false) (seen N_load M_Join true).
Proof. by apply (w_write false (mkSession true true true None M_Notify L_WaitEvent)). Qed.

Lemma stop_notifies_witness : ~ lost (seen N_load M_Join true) /\ edge (seen N_load M_Join true) = true.
Proof. by apply (stop_notifies false (seen N_write M_Notify false)); [exact seen_reachable|..|exact seen_write|]. Defined.

Lemma stop_returns_unless_lost_witness : exists w', wstep false (seen N_load M_Join true) w'.
Proof.
  apply (stop_returns_unless_lost false (seen N_load M_Join true)); [|done|by intros (_ & _ & _ & ?)].
  unfold wreachable. eapply rtc_r; [exact seen_reachable|exact seen_write].
Defined.

Lemma waking_refines_witness : reachable false (base (missed W_run)).
Proof. apply (waking_refines false), missed_reachable. Defined.
