(* ===== verification/Affinity.v ===== *)
(** * Affinity: the processors of the event loop thread

    src/fastpath/utils/tfthread_utils.h and [_assign_to_cpu] of event/Session.cpp.
    The loop of [set_affinity] is closed with a parenthesis too many where
    HAVE_PTHREAD_SETAFFINITY_NP is defined; it is read without it. *)
From S2P Require Import Prelude.

(** [cpu_set_t]: a core of another number is not in it, and [CPU_SET] ignores it. *)
Definition CPU_SETSIZE : Z := 1024.
Definition CPU_SET (core : Z) (cpuset : gset Z) : gset Z :=
  if (0 <=? core) && (core <? CPU_SETSIZE) then {[core]} ∪ cpuset else cpuset.

Inductive affinity_error := NoSuchCore (core num_cores : Z) | SettingFailed | NotSupported.

Section affinity.
(** Whether pthread_setaffinity_np is there, [std::thread::hardware_concurrency()],
    and what pthread_setaffinity_np returns for a set. *)
Context (have_affinity : bool) (hardware_concurrency : Z) (setaffinity : gset Z -> Z).

Definition can_set_affinity : bool := have_affinity.
Definition get_num_cores : Z := to_signed 32 hardware_concurrency.

Fixpoint collect_cores (cores : list Z) (cpuset : gset Z) : gset Z * list affinity_error :=
  match cores with
  | [] => (cpuset, [])
  | core :: cores =>
      if core <? get_num_cores then collect_cores cores (CPU_SET core cpuset)
      else let '(cpuset, errors) := collect_cores cores cpuset in (cpuset, NoSuchCore core get_num_cores :: errors)
  end.

(** The set handed to the system, if any, and what is logged. *)
Definition set_affinity (cores : list Z) : option (gset Z) * list affinity_error :=
  if have_affinity then
    let '(cpuset, errors) := collect_cores cores ∅ in
    (Some cpuset, errors ++ if setaffinity cpuset =? -1 then [SettingFailed] else [])
  else (None, [NotSupported]).

(** [Session::_assign_to_cpu] *)
Definition assign_to_cpu (cores : list Z) : bool * list affinity_error :=
  if can_set_affinity then (true, (set_affinity cores).2) else (false, []).

Lemma collect_cores_spec cores : forall cpuset,
  (forall c, c ∈ (collect_cores cores cpuset).1 <-> c ∈ cpuset \/ (c ∈ cores /\ 0 <= c < Z.min get_num_cores CPU_SETSIZE)) /\
  (collect_cores cores cpuset).2 = (fun c => NoSuchCore c get_num_cores) <$> filter (fun c => get_num_cores <= c) cores.
Proof.
  induction cores as [|core cores IH]; intros cpuset; cbn [collect_cores].
  - split; [|done]. intros c. rewrite elem_of_nil. naive_solver.
  - rewrite filter_cons. destruct (Z.ltb_spec core get_num_cores) as [Hlt|Hge].
    + destruct (IH (CPU_SET core cpuset)) as [Hs He]. rewrite decide_False by lia. split; [|exact He].
      intros c. rewrite Hs, elem_of_cons. unfold CPU_SET.
      destruct (Z.leb_spec 0 core), (Z.ltb_spec core CPU_SETSIZE); cbn [andb]; rewrite ?elem_of_union, ?elem_of_singleton;
        (split; [intros [?|?]; [try destruct_or!; subst; auto|tauto]|intros [?|[[->|?] ?]]; auto]); try (right; split; [by left|lia]); try lia.
    + destruct (IH cpuset) as [Hs He]. rewrite decide_True by lia. destruct (collect_cores cores cpuset) as [set errors]. cbn [fst snd] in *.
      split; [|by rewrite He]. intros c. rewrite Hs, elem_of_cons. split; [intros [?|[? ?]]; auto|intros [?|[[->|?] ?]]; auto; lia].
Qed.

(** The thread is asked to run on the cores that were named and exist, the others are
    logged in order; that the system refused is never seen, as
    pthread_setaffinity_np returns an error number and not -1. *)
Theorem set_affinity_outcome cores : have_affinity = true -> (forall set, 0 <= setaffinity set) ->
  exists set, set_affinity cores = (Some set, (fun c => NoSuchCore c get_num_cores) <$> filter (fun c => get_num_cores <= c) cores) /\
    (forall c, c ∈ set <-> c ∈ cores /\ 0 <= c < Z.min get_num_cores CPU_SETSIZE) /\
    (assign_to_cpu cores).1 = true.
Proof.
  intros Ha Hr. unfold set_affinity, assign_to_cpu, can_set_affinity. rewrite Ha.
  destruct (collect_cores_spec cores ∅) as [Hs He]. destruct (collect_cores cores ∅) as [set errors]. cbn [fst snd] in *.
  exists set. rewrite (proj2 (Z.eqb_neq _ _)) by (specialize (Hr set); lia). rewrite app_nil_r, He.
  split; [done|]. split; [|done]. intros c. rewrite Hs, elem_of_empty. tauto.
Qed.
End affinity.

(** Cores 2, 3, 9 and -1 of four, on a system that refuses (EPERM). *)
Lemma set_affinity_outcome_witness : exists set, set_affinity true 4 (fun _ => 1) [2; 9; 3; -1] = (Some set, [NoSuchCore 9 4]) /\
  (forall c, c ∈ set <-> c ∈ [2; 9; 3; -1] /\ 0 <= c < 4).
Proof.
  destruct (set_affinity_outcome true 4 (fun _ => 1) [2; 9; 3; -1] eq_refl) as (set & E & Hs & _); [intros _; lia|].
  exists set. split; [exact E|exact Hs].
Defined.
