(* ===== verification/Sockets.v ===== *)
(** * Sockets: src/fastpath/transport/socket/

    The socket classes as owners of descriptors: resolving, connecting, listening,
    accepting, options and closing, for TCP and Unix sockets, and the vectored
    [send].  The kernel is a parameter: class [SocketKernel] states which
    descriptors are open after each system call.  The connection state handler is
    a parameter, which in the theorems about a TCP socket may use the object
    through its own operations ([uses_socket]), as the one of TCPTransport.cpp does
    ([transport_handler]). *)
From S2P Require Import Prelude Transport Poll.

(** ** The kernel *)

Inductive sockopt := TCP_NODELAY | IP_TOS | SO_NOSIGPIPE | SO_REUSEADDR.
Inductive UnlinkResult := Unlinked | NoEntry | UnlinkError.
#[export] Instance UnlinkResult_eq_dec : EqDecision UnlinkResult.
Proof. solve_decision. Defined.

(** O_NONBLOCK of fcntl.h, MSG_NOSIGNAL of sys/socket.h, [sizeof] of [sun_path]. *)
Definition O_NONBLOCK : Z := Z.shiftl 1 11.
Definition MSG_NOSIGNAL : Z := 16384.
Definition sun_path_size : Z := 108.

(** [opened] is the process's table of descriptors and [status_flags] what
    [F_GETFL] reads.  A new descriptor is one that was not open; [close] gives the
    descriptor back also when it reports an error, and fails with [EBADF] when the
    descriptor is not open (close(2)). *)
Class SocketKernel (K A : Type) := {
  opened : K -> gset Z;
  status_flags : K -> Z -> Z;
  sys_socket : K -> A -> option Z * K;
  sys_connect : K -> Z -> A -> bool * K;
  sys_bind : K -> Z -> A -> bool * K;
  sys_listen : K -> Z -> bool * K;
  sys_accept : K -> Z -> option Z * K;
  sys_close : K -> Z -> bool * K;
  sys_setfl : K -> Z -> Z -> K;
  sys_setsockopt : K -> Z -> sockopt -> bool * K;
  sys_unlink : K -> list Z -> UnlinkResult * K;
  socket_some k a fd k' : sys_socket k a = (Some fd, k') ->
    0 <= fd /\ (fd ∉ opened k) /\ opened k' = {[fd]} ∪ opened k;
  socket_none k a k' : sys_socket k a = (None, k') -> opened k' = opened k;
  accept_some k s fd k' : sys_accept k s = (Some fd, k') ->
    0 <= fd /\ (fd ∉ opened k) /\ opened k' = {[fd]} ∪ opened k;
  accept_none k s k' : sys_accept k s = (None, k') -> opened k' = opened k;
  connect_opened k fd a : opened (sys_connect k fd a).2 = opened k;
  bind_opened k fd a : opened (sys_bind k fd a).2 = opened k;
  listen_opened k fd : opened (sys_listen k fd).2 = opened k;
  setfl_opened k fd v : opened (sys_setfl k fd v) = opened k;
  setsockopt_opened k fd o : opened (sys_setsockopt k fd o).2 = opened k;
  unlink_opened k p : opened (sys_unlink k p).2 = opened k;
  close_opened k fd : opened (sys_close k fd).2 = opened k ∖ {[fd]};
  close_open k fd k' : sys_close k fd = (true, k') -> fd ∈ opened k;
  setfl_flags k fd v : fd ∈ opened k ->
    has_bits (status_flags (sys_setfl k fd v) fd) O_NONBLOCK = has_bits v O_NONBLOCK;
  listen_flags k fd : status_flags (sys_listen k fd).2 = status_flags k;
  setsockopt_flags k fd o : status_flags (sys_setsockopt k fd o).2 = status_flags k
}.

(** ** Socket *)

Definition SocketOptionsNone : Z := Z.shiftl 1 0.
Definition SocketOptionsNonBlocking : Z := Z.shiftl 1 1.
Definition SocketOptionsDisableNagle : Z := Z.shiftl 1 2.
Definition SocketOptionsDisableSigPipe : Z := Z.shiftl 1 3.
Definition SocketOptionsHighPriority : Z := Z.shiftl 1 4.

(** The members of [Socket] but the handler; no constructor initialises
    [m_options]. *)
Record SocketObject := mkSocketObject {
  so_socket : Z;
  so_connected : bool;
  so_options : option Z
}.

Definition Socket_new : SocketObject := mkSocketObject (-1) false None.
Definition Socket_of (socketFd : Z) (connected : bool) : SocketObject := mkSocketObject socketFd connected None.
(** The move constructor: the new object and the one moved from. *)
Definition Socket_move (other : SocketObject) : SocketObject * SocketObject :=
  (mkSocketObject (so_socket other) (so_connected other) None,
   mkSocketObject (so_socket other) false (so_options other)).
Definition setSocket (s : SocketObject) (socket : Z) (isConnected : bool) : SocketObject :=
  mkSocketObject socket isConnected (so_options s).
Definition set_connected (s : SocketObject) (b : bool) : SocketObject := setSocket s (so_socket s) b.
Definition set_options (s : SocketObject) (o : Z) : SocketObject :=
  mkSocketObject (so_socket s) (so_connected s) (Some o).

(** The flags of [::send] in [Socket::send] where [MSG_NOSIGNAL] is defined. *)
Definition send_flags (s : SocketObject) : outcome Z :=
  match so_options s with
  | Some options => Ok (if has_bits options SocketOptionsDisableSigPipe then MSG_NOSIGNAL else 0)
  | None => undefined IndeterminateRead
  end.

Section sockets.
Context {K A X : Type} `{SocketKernel K A}.
(** HAVE_IPTOS_LOWDELAY and HAVE_NOSIGPIPE of the generated config.h *)
Context (have_lowdelay have_nosigpipe : bool).
Context (getaddrinfo : option (list Z) -> list Z -> option (list A)) (unix_address : list Z -> A).

(** What the handler can reach: the kernel, the socket and the rest. *)
Record world := mkWorld { w_kernel : K; w_socket : SocketObject; w_rest : X }.
Definition on_kernel (w : world) (k : K) : world := mkWorld k (w_socket w) (w_rest w).
Definition on_socket (w : world) (s : SocketObject) : world := mkWorld (w_kernel w) s (w_rest w).

Definition Handler : Type := option (bool -> world -> world).
Definition call (m_handler : Handler) (connected : bool) (w : world) : world :=
  match m_handler with Some f => f connected w | None => w end.

Definition disconnect (m_handler : Handler) (w : world) : bool * world :=
  let s := w_socket w in
  if so_connected s then
    let '(ok, k) := sys_close (w_kernel w) (so_socket s) in
    let w := on_kernel w k in
    if ok then (true, call m_handler false (on_socket w (set_connected s false))) else (false, w)
  else (false, w).

(** [~Socket] *)
Definition Socket_destroy (s : SocketObject) (k : K) : K :=
  if so_connected s then (sys_close k (so_socket s)).2 else k.

(** ** TCPSocket *)

(** The constructors from a host and a service or port: the addresses. *)
Definition resolve (host service : list Z) : outcome (list A) :=
  match getaddrinfo (if bool_decide (host = []) then None else Some host) service with
  | Some m_hostInfo => Ok m_hostInfo
  | None => throw SocketError
  end.

(** [oldfl | O_NONBLOCK] or [oldfl & ~O_NONBLOCK], as both classes set it. *)
Definition set_blocking (options : Z) (k : K) (fd : Z) : K :=
  let oldfl := status_flags k fd in
  if has_bits options SocketOptionsNonBlocking then sys_setfl k fd (Z.lor oldfl O_NONBLOCK)
  else sys_setfl k fd (Z.land oldfl (Z.lnot O_NONBLOCK)).

Definition setOptions (options : Z) (w : world) : world :=
  let fd := so_socket (w_socket w) in
  let k := set_blocking options (w_kernel w) fd in
  let k := if has_bits options SocketOptionsDisableNagle then (sys_setsockopt k fd TCP_NODELAY).2 else k in
  let k := if has_bits options SocketOptionsHighPriority && have_lowdelay then (sys_setsockopt k fd IP_TOS).2 else k in
  let k := if have_nosigpipe && has_bits options SocketOptionsDisableSigPipe
           then (sys_setsockopt k fd SO_NOSIGPIPE).2 else k in
  mkWorld k (set_options (w_socket w) options) (w_rest w).

(** The loop over the addresses of [connect] of both classes: [use] is what is done
    with a new socket; a socket that cannot be used is closed, and stays the value
    of [m_socket]. *)
Fixpoint first_socket (use : K -> Z -> A -> bool * K) (p : list A) (k : K) (m_socket : Z) : bool * Z * K :=
  match p with
  | [] => (false, m_socket, k)
  | a :: p =>
      match sys_socket k a with
      | (None, k) => first_socket use p k (-1)
      | (Some fd, k) =>
          let '(usable, k) := use k fd a in
          if usable then (true, fd, k) else first_socket use p (sys_close k fd).2 fd
      end
  end.

(** [TCPSocketClient::connect] *)
Definition client_connect (m_handler : Handler) (m_hostInfo : list A) (options : Z) (w : world) : bool * world :=
  let s := w_socket w in
  let w :=
    if so_connected s then w
    else
      let s := set_options s options in
      let '(found, fd, k) := first_socket sys_connect m_hostInfo (w_kernel w) (so_socket s) in
      if found then call m_handler true (setOptions options (mkWorld k (setSocket s fd true) (w_rest w)))
      else mkWorld k (setSocket s fd false) (w_rest w) in
  (so_connected (w_socket w), w).

(** [TCPSocketServer::connect] *)
Definition reuse_and_bind (k : K) (fd : Z) (a : A) : bool * K := sys_bind (sys_setsockopt k fd SO_REUSEADDR).2 fd a.
(** The common end of [connect] of both server classes: the socket is bound. *)
Definition listen_on (setOptions : world -> world) (m_handler : Handler) (w : world) : bool * world :=
  let w := setOptions (on_socket w (set_connected (w_socket w) true)) in
  let '(ok, k) := sys_listen (w_kernel w) (so_socket (w_socket w)) in
  let w := on_kernel w k in
  if ok then (true, call m_handler true w) else (false, w).
Definition server_connect (m_handler : Handler) (m_hostInfo : list A) (options : Z) (w : world) : bool * world :=
  let s := w_socket w in
  if so_connected s then (false, w)
  else
    let '(found, fd, k) := first_socket reuse_and_bind m_hostInfo (w_kernel w) (so_socket s) in
    let w := mkWorld k (setSocket s fd false) (w_rest w) in
    if found then listen_on (setOptions options) m_handler w else (false, w).

(** [acceptPendingConnection] of both server classes *)
Definition acceptPendingConnection (w : world) : option SocketObject * world :=
  let '(r, k) := sys_accept (w_kernel w) (so_socket (w_socket w)) in
  ((fun newSocketFd => Socket_of newSocketFd true) <$> r, on_kernel w k).

(** ** Unix sockets *)

Definition UnixSocket_new (path : list Z) (k : K) : outcome (SocketObject * K) :=
  if Z.of_nat (length path) <? sun_path_size then
    let '(fd, k) := sys_socket k (unix_address path) in
    Ok (setSocket Socket_new (default (-1) fd) false, k)
  else throw SocketError.

Definition unix_setOptions (options : Z) (w : world) : world :=
  mkWorld (set_blocking options (w_kernel w) (so_socket (w_socket w))) (set_options (w_socket w) options) (w_rest w).

Definition unix_client_connect (m_handler : Handler) (path : list Z) (options : Z) (w : world) : bool * world :=
  let '(ok, k) := sys_connect (w_kernel w) (so_socket (w_socket w)) (unix_address path) in
  let w := on_kernel w k in
  let w := if ok then call m_handler true (unix_setOptions options (on_socket w (set_connected (w_socket w) true)))
           else w in
  (so_connected (w_socket w), w).

(** The base class's part of a constructor that throws is destroyed. *)
Definition UnixSocketServer_new (path : list Z) (k : K) : outcome (SocketObject * K) :=
  '(s, k) ← UnixSocket_new path k;
  let '(r, k) := sys_unlink k path in
  if bool_decide (r = UnlinkError) then throw SocketError else Ok (s, k).

Definition unix_server_connect (m_handler : Handler) (path : list Z) (options : Z) (w : world) : bool * world :=
  let s := w_socket w in
  if so_connected s then (false, w)
  else
    let '(ok, k) := sys_bind (w_kernel w) (so_socket s) (unix_address path) in
    if ok then listen_on (unix_setOptions options) m_handler (on_kernel w k)
    else (false, on_kernel w (sys_close k (so_socket s)).2).

(** [~UnixSocketServer], with [~Socket] after it *)
Definition UnixSocketServer_destroy (path : list Z) (s : SocketObject) (k : K) : K :=
  Socket_destroy s (sys_unlink k path).2.

(** ** Socket::send of an array of buffers *)

(** The loop that takes [bytes_to_consume] bytes off the array.  The elements are
    address and length; the result is the array and the index of [first_vec]. *)
Fixpoint consume (vec : list (Z * Z)) (bytes_to_consume : Z) : outcome (list (Z * Z) * nat) :=
  if 0 <? bytes_to_consume then
    match vec with
    | [] => undefined OutOfBounds
    | (iov_base, iov_len) :: vec =>
        if iov_len <=? bytes_to_consume then
          '(vec, first_vec) ← consume vec (bytes_to_consume - iov_len);
          Ok ((iov_base, iov_len) :: vec, S first_vec)
        else Ok ((iov_base + bytes_to_consume, iov_len - bytes_to_consume) :: vec, O)
    end
  else Ok (vec, O).

(** [result] is what [writev] returns. *)
Definition Socket_sendv (m_handler : Handler) (vec : list (Z * Z)) (result : Z) (w : world)
    : outcome (bool * list (Z * Z) * nat * world) :=
  if so_connected (w_socket w) && negb (result =? 0) then
    '(vec, first_vec) ← consume vec (u64 result);
    Ok (true, vec, first_vec, w)
  else Ok (false, vec, O, (disconnect m_handler w).2).
End sockets.
Arguments mkWorld {K X}.
Arguments w_kernel {K X}.
Arguments w_socket {K X}.
Arguments w_rest {K X}.

(** ** Descriptors *)

Section descriptors.
Context {K A X : Type} `{SocketKernel K A}.
Context (have_lowdelay have_nosigpipe : bool).

(** A use of a new socket that leaves the table of descriptors alone. *)
Definition opens_nothing (use : K -> Z -> A -> bool * K) : Prop :=
  forall k fd a, opened (use k fd a).2 = opened k.

Lemma connect_opens_nothing : opens_nothing sys_connect.
Proof. exact connect_opened. Qed.

Lemma reuse_and_bind_opens_nothing : opens_nothing reuse_and_bind.
Proof. intros k fd a. unfold reuse_and_bind. by rewrite bind_opened, setsockopt_opened. Qed.

Lemma first_socket_opened use p : opens_nothing use -> forall k m_socket found fd k',
  first_socket use p k m_socket = (found, fd, k') ->
  if found then 0 <= fd /\ (fd ∉ opened k) /\ opened k' = {[fd]} ∪ opened k else opened k' = opened k.
Proof.
  intros Hu. induction p as [|a p IH]; intros k ms found fd k' E; cbn in E; [by simplify_eq|].
  destruct (sys_socket k a) as [[fd1|] k1] eqn:Es.
  - apply socket_some in Es as (H0 & Hn & Ho). specialize (Hu k1 fd1 a).
    destruct (use k1 fd1 a) as [[] k2]; cbn in Hu; simplify_eq; [by rewrite Hu, Ho|].
    apply IH in E. pose proof (close_opened k2 fd1) as Hc.
    assert (opened (sys_close k2 fd1).2 = opened k) as Hk by (rewrite Hc, Hu, Ho; set_solver).
    by rewrite Hk in E.
  - apply socket_none in Es. apply IH in E. by rewrite Es in E.
Qed.

Lemma set_blocking_opened options k fd : opened (set_blocking options k fd) = opened k.
Proof. unfold set_blocking. case_match; apply setfl_opened. Qed.

Lemma setOptions_opened options (w : @world K X) :
  opened (w_kernel (setOptions have_lowdelay have_nosigpipe options w)) = opened (w_kernel w).
Proof.
  unfold setOptions. cbn [w_kernel].
  repeat (case_match; [rewrite setsockopt_opened|]); apply set_blocking_opened.
Qed.

(** The descriptor a socket object owns beside the ones that were open: one, until
    a [close] that reports an error, and none when it is not connected. *)
Definition owns (before : gset Z) (w : @world K X) : Prop :=
  if so_connected (w_socket w)
  then (so_socket (w_socket w) ∉ before) /\
       (opened (w_kernel w) = {[so_socket (w_socket w)]} ∪ before \/ opened (w_kernel w) = before)
  else opened (w_kernel w) = before.

(** A handler that leaves the object an owner. *)
Definition respects (m_handler : Handler) : Prop :=
  forall before (b : bool) (w : @world K X), owns before w -> owns before (call m_handler b w).

Lemma owns_same before (w w' : @world K X) :
  opened (w_kernel w') = opened (w_kernel w) -> so_socket (w_socket w') = so_socket (w_socket w) ->
  so_connected (w_socket w') = so_connected (w_socket w) -> owns before w -> owns before w'.
Proof. unfold owns. by intros -> -> ->. Qed.

Lemma respects_none : respects None.
Proof. by intros before b w. Qed.

Lemma owns_setOptions before options (w : @world K X) :
  owns before w -> owns before (setOptions have_lowdelay have_nosigpipe options w).
Proof. apply owns_same; [apply setOptions_opened| |]; reflexivity. Qed.

Lemma owns_disconnect m_handler before (w : @world K X) :
  respects m_handler -> owns before w -> owns before (disconnect m_handler w).2.
Proof.
  intros Hq Hw. unfold disconnect. destruct (so_connected (w_socket w)) eqn:Ec; [|exact Hw].
  unfold owns in Hw. rewrite Ec in Hw. destruct Hw as [Hn Ho].
  pose proof (close_opened (w_kernel w) (so_socket (w_socket w))) as Hc.
  destruct (sys_close _ _) as [[] k]; cbn in *.
  - apply Hq. unfold owns. cbn. rewrite Hc. destruct Ho as [-> | ->]; set_solver.
  - unfold owns. cbn. rewrite Ec. split; [done|]. right. rewrite Hc. destruct Ho as [-> | ->]; set_solver.
Qed.

Lemma owns_client_connect m_handler before p options (w : @world K X) : respects m_handler -> owns before w ->
  owns before (client_connect have_lowdelay have_nosigpipe m_handler p options w).2.
Proof.
  intros Hq Hw. unfold client_connect. cbn [snd].
  destruct (so_connected (w_socket w)) eqn:Ec; [exact Hw|]. unfold owns in Hw. rewrite Ec in Hw.
  destruct (first_socket _ _ _ _) as [[[] fd] k] eqn:E;
    apply first_socket_opened in E; try apply connect_opens_nothing; rewrite Hw in E.
  - apply Hq, owns_setOptions. destruct E as (_ & Hn & Ho). split; [done|]. by left.
  - done.
Qed.

Lemma owns_listen_on m_handler before options (w : @world K X) : respects m_handler ->
  owns before (on_socket w (set_connected (w_socket w) true)) ->
  owns before (listen_on (setOptions have_lowdelay have_nosigpipe options) m_handler w).2.
Proof.
  intros Hq Hw. unfold listen_on.
  apply (owns_setOptions _ options) in Hw. revert Hw. generalize (setOptions have_lowdelay have_nosigpipe options
    (on_socket w (set_connected (w_socket w) true))). intros w1 Hw.
  pose proof (listen_opened (w_kernel w1) (so_socket (w_socket w1))) as Hl.
  destruct (sys_listen _ _) as [[] k]; cbn in Hl |- *; [apply Hq|]; by apply (owns_same _ w1).
Qed.

Lemma owns_server_connect m_handler before p options (w : @world K X) : respects m_handler -> owns before w ->
  owns before (server_connect have_lowdelay have_nosigpipe m_handler p options w).2.
Proof.
  intros Hq Hw. unfold server_connect.
  destruct (so_connected (w_socket w)) eqn:Ec; [exact Hw|]. unfold owns in Hw. rewrite Ec in Hw.
  destruct (first_socket _ _ _ _) as [[[] fd] k] eqn:E;
    apply first_socket_opened in E; try apply reuse_and_bind_opens_nothing; rewrite Hw in E.
  - apply owns_listen_on; [done|]. destruct E as (_ & Hn & Ho). split; [done|]. by left.
  - done.
Qed.

(** ** The life of a TCP socket *)

Inductive socket_operation :=
  | OpConnect (m_hostInfo : list A) (options : Z)
  | OpListen (m_hostInfo : list A) (options : Z)
  | OpSetOptions (options : Z)
  | OpDisconnect.

Definition run_operation (m_handler : Handler) (w : @world K X) (o : socket_operation) : world :=
  match o with
  | OpConnect p options => (client_connect have_lowdelay have_nosigpipe m_handler p options w).2
  | OpListen p options => (server_connect have_lowdelay have_nosigpipe m_handler p options w).2
  | OpSetOptions options => setOptions have_lowdelay have_nosigpipe options w
  | OpDisconnect => (disconnect m_handler w).2
  end.

Lemma owns_operation m_handler before w o : respects m_handler -> owns before w -> owns before (run_operation m_handler w o).
Proof.
  intros Hq. destruct o; [by apply owns_client_connect|by apply owns_server_connect|apply owns_setOptions|by apply owns_disconnect].
Qed.

(** A connection state handler that reaches its object only through these same
    operations: at each call it may change what it likes outside, and make any of them,
    in which it is called again (or another handler is) in the same manner. *)
Inductive uses_socket : Handler -> Prop :=
  | uses_none : uses_socket None
  | uses_some f (inner : bool -> @world K X -> Handler) (rest : bool -> @world K X -> X) (ops : bool -> @world K X -> list socket_operation) :
      (forall b w, uses_socket (inner b w)) ->
      (forall b w, let w' := foldl (run_operation (inner b w)) (mkWorld (w_kernel w) (w_socket w) (rest b w)) (ops b w) in
         w_kernel (f b w) = w_kernel w' /\ w_socket (f b w) = w_socket w') ->
      uses_socket (Some f).

Lemma owns_operations m_handler before ops : respects m_handler -> forall w, owns before w -> owns before (foldl (run_operation m_handler) w ops).
Proof. intros Hq. induction ops as [|o ops IH]; intros w Hw; [done|]. by apply IH, owns_operation. Qed.

Lemma uses_respects m_handler : uses_socket m_handler -> respects m_handler.
Proof.
  induction 1 as [|f inner rest ops _ IH Hf]; [apply respects_none|]. intros before b w Hw. cbn [call].
  destruct (Hf b w) as [Ek Es]. eapply owns_same; [by rewrite Ek|by rewrite Es|by rewrite Es|].
  by apply owns_operations.
Qed.

(** The handler of TCPTransport.cpp: the notification handler, and another try when
    the connection is lost before the transport has been told to disconnect; when
    that one fails, [launch] starts an attempt in the background.  [connect] calls
    its handler only with [true]. *)
Definition notified (notify : bool -> X -> X) (connected : bool) (w : @world K X) : world :=
  mkWorld (w_kernel w) (w_socket w) (notify connected (w_rest w)).
Definition transport_handler (notify : bool -> X -> X) (shouldDisconnect : X -> bool) (launch : X -> X) (m_hostInfo : list A)
    (connected : bool) (w : @world K X) : world :=
  let w := notified notify connected w in
  if negb connected && negb (shouldDisconnect (w_rest w)) then
    let '(ok, w) := client_connect have_lowdelay have_nosigpipe (Some (notified notify)) m_hostInfo SocketOptionsNone w in
    if ok then w else mkWorld (w_kernel w) (w_socket w) (launch (w_rest w))
  else w.

Lemma notified_uses notify : uses_socket (Some (notified notify)).
Proof. apply (uses_some _ (fun _ _ => None) (fun b w => notify b (w_rest w)) (fun _ _ => [])); [intros _ _; apply uses_none|done]. Qed.

Lemma transport_handler_uses notify shouldDisconnect launch m_hostInfo :
  uses_socket (Some (transport_handler notify shouldDisconnect launch m_hostInfo)).
Proof.
  apply (uses_some _ (fun _ _ => Some (notified notify)) (fun b w => notify b (w_rest w))
    (fun b w => if negb b && negb (shouldDisconnect (notify b (w_rest w))) then [OpConnect m_hostInfo SocketOptionsNone] else [])).
  - intros _ _. apply notified_uses.
  - intros b w. unfold transport_handler. cbn [w_rest notified]. destruct (negb b && _); [|done]. cbn [foldl run_operation].
    unfold notified at 3 5. by destruct (client_connect _ _ _ _ _ _) as [[] w'].
Qed.

Lemma owns_destroy before (w : @world K X) : owns before w -> opened (Socket_destroy (w_socket w) (w_kernel w)) = before.
Proof.
  unfold owns, Socket_destroy. destruct (so_connected _); [|done]. intros [Hn Ho].
  rewrite close_opened. destruct Ho as [-> | ->]; set_solver.
Qed.

(** C19: whatever the kernel answers to the calls of a TCP socket object - any
    addresses tried, refused and closed, a failed [listen], a [close] that reports
    an error - and whatever its connection state handler does with the object through
    these same operations, as the one of TCPTransport.cpp does that connects again:
    the object owns at most one descriptor at a time, never one that was open before,
    and when it is destroyed exactly the descriptors that were open before its
    construction are open. *)
Theorem socket_owns_descriptor m_handler (k : K) (x : X) ops :
  uses_socket m_handler ->
  let w := foldl (run_operation m_handler) (mkWorld k Socket_new x) ops in
  owns (opened k) w /\ opened (Socket_destroy (w_socket w) (w_kernel w)) = opened k.
Proof.
  intros Hq w. assert (owns (opened k) w) as Hw; [|split; [done|by apply owns_destroy]].
  apply owns_operations; [by apply uses_respects|done].
Qed.

(** ** Options *)

Lemma has_bits_lor v b : has_bits (Z.lor v b) b = true.
Proof.
  unfold has_bits. apply Z.eqb_eq. apply Z.bits_inj'. intros n _.
  rewrite Z.land_spec, Z.lor_spec. by destruct (Z.testbit v n), (Z.testbit b n).
Qed.

Lemma has_bits_clear v b : b <> 0 -> has_bits (Z.land v (Z.lnot b)) b = false.
Proof.
  intros Hb. unfold has_bits. apply Z.eqb_neq.
  rewrite <- Z.land_assoc, (Z.land_comm (Z.lnot b)), Z.land_lnot_diag, Z.land_0_r. congruence.
Qed.

Lemma set_blocking_flags options k fd : fd ∈ opened k ->
  has_bits (status_flags (set_blocking options k fd) fd) O_NONBLOCK = has_bits options SocketOptionsNonBlocking.
Proof.
  intros Hf. unfold set_blocking. case_match eqn:E; rewrite setfl_flags by done.
  - apply has_bits_lor.
  - by apply has_bits_clear.
Qed.

(** A listening Unix socket has the options it was given last. *)
Lemma unix_listen_flags path unix_address options (w w' : @world K X) :
  so_connected (w_socket w) = false -> so_socket (w_socket w) ∈ opened (w_kernel w) ->
  unix_server_connect unix_address None path options w = (true, w') ->
  has_bits (status_flags (w_kernel w') (so_socket (w_socket w'))) O_NONBLOCK = has_bits options SocketOptionsNonBlocking.
Proof.
  unfold unix_server_connect. intros -> Hf.
  pose proof (bind_opened (w_kernel w) (so_socket (w_socket w)) (unix_address path)) as Hb.
  destruct (sys_bind _ _ _) as [[] k] eqn:Eb; [|done]. unfold listen_on. cbn in Hb |- *.
  pose proof (listen_flags (set_blocking options k (so_socket (w_socket w))) (so_socket (w_socket w))) as Hl.
  destruct (sys_listen _ _) as [[] k'] eqn:El; [|done]. intros [= <-]. cbn in Hl |- *.
  rewrite Hl. apply set_blocking_flags. by rewrite Hb.
Qed.
End descriptors.

(** ** The vectored send *)

Definition vector_length (vec : list (Z * Z)) : Z := foldr (fun e n => e.2 + n) 0 vec.
(** The addresses an array covers, in order. *)
Definition addresses (vec : list (Z * Z)) : list Z := vec ≫= fun e => seqZ e.1 e.2.
#[local] Arguments addresses : simpl never.
#[local] Arguments vector_length : simpl never.

Lemma vector_length_cons e vec : vector_length (e :: vec) = e.2 + vector_length vec.
Proof. reflexivity. Qed.
Lemma addresses_cons e vec : addresses (e :: vec) = seqZ e.1 e.2 ++ addresses vec.
Proof. reflexivity. Qed.

Lemma drop_seqZ m n k : 0 <= k <= n -> drop (Z.to_nat k) (seqZ m n) = seqZ (m + k) (n - k).
Proof.
  intros Hk. replace (seqZ m n) with (seqZ m (k + (n - k))) by (f_equal; lia). rewrite seqZ_app by lia.
  rewrite drop_app_length' by (rewrite length_seqZ; lia). reflexivity.
Qed.

(** The loop leaves exactly the addresses behind the bytes that were taken. *)
Lemma consume_spec vec : forall k, Forall (fun e => 0 <= e.2) vec -> 0 <= k <= vector_length vec ->
  exists vec' i, consume vec k = Ok (vec', i) /\ addresses (drop i vec') = drop (Z.to_nat k) (addresses vec).
Proof.
  induction vec as [|[b n] vec IH]; intros k Hv Hk.
  - unfold vector_length in Hk. cbn in Hk. exists [], O. replace k with 0 by lia. done.
  - apply Forall_cons in Hv as [Hn Hv]. rewrite vector_length_cons in Hk. cbn in Hn, Hk |- *.
    destruct (Z.ltb_spec 0 k).
    2: { exists ((b, n) :: vec), O. split; [done|]. by replace k with 0 by lia. }
    destruct (Z.leb_spec n k).
    + destruct (IH (k - n)) as (vec' & i & E & Ha); [done|lia|].
      exists ((b, n) :: vec'), (S i). rewrite E. split; [done|]. cbn [drop].
      rewrite Ha, addresses_cons, drop_app. cbn [fst snd]. rewrite length_seqZ, (drop_ge (seqZ b n)) by (rewrite length_seqZ; lia).
      rewrite app_nil_l. f_equal. lia.
    + exists ((b + k, n - k) :: vec), O. split; [done|]. cbn [drop].
      rewrite !addresses_cons, drop_app. cbn [fst snd]. rewrite length_seqZ, drop_seqZ by lia.
      f_equal. by replace (Z.to_nat k - Z.to_nat n)%nat with O by lia.
Qed.

Lemma vector_length_nonneg vec : Forall (fun e => 0 <= e.2) vec -> 0 <= vector_length vec.
Proof. induction 1; rewrite ?vector_length_cons; [done|lia]. Qed.

Lemma consume_beyond vec : forall k, Forall (fun e => 0 <= e.2) vec -> vector_length vec < k ->
  consume vec k = undefined OutOfBounds.
Proof.
  induction vec as [|[b n] vec IH]; intros k Hv Hk.
  { unfold vector_length in Hk. cbn in Hk |- *. by destruct (Z.ltb_spec 0 k); [|lia]. }
  rewrite vector_length_cons in Hk. cbn in Hk |- *.
  apply Forall_cons in Hv as [Hn Hv]. cbn in Hn. pose proof (vector_length_nonneg vec Hv).
  destruct (Z.ltb_spec 0 k); [|lia]. destruct (Z.leb_spec n k); [|lia].
  by rewrite IH by (done || lia).
Qed.

Section sending.
Context {K A X : Type} `{SocketKernel K A}.

(** The vectored [send] of a connected socket.  After [writev] has taken [k > 0]
    bytes it returns true with the array cut to exactly the bytes that were not
    taken (so a partial write is reported as a success, and the caller's array,
    which it got as [const], is changed); when [writev] reports an error, the
    [-1] becomes the largest [size_t] and the loop runs off the array. *)
Theorem sendv_takes m_handler vec (w : @world K X) :
  so_connected (w_socket w) = true -> Forall (fun e => 0 <= e.2) vec -> vector_length vec < 2 ^ 63 ->
  (forall k, 0 < k <= vector_length vec -> exists vec' i,
     Socket_sendv m_handler vec k w = Ok (true, vec', i, w) /\
     addresses (drop i vec') = drop (Z.to_nat k) (addresses vec)) /\
  Socket_sendv m_handler vec (-1) w = undefined OutOfBounds.
Proof.
  intros Hc Hv Hl. unfold Socket_sendv. rewrite Hc. split.
  - intros k Hk. destruct (Z.eqb_spec k 0); [lia|]. cbn [negb andb].
    rewrite wrap_small by lia. destruct (consume_spec vec k Hv) as (vec' & i & -> & Ha); [lia|].
    exists vec', i. by split.
  - cbn [andb negb Z.eqb]. rewrite consume_beyond; [done..|]. change (u64 (-1)) with (2 ^ 64 - 1). lia.
Qed.
End sending.

(** ** Unix sockets and failures *)

Section failures.
Context {K A X : Type} `{SocketKernel K A}.
Context (have_lowdelay have_nosigpipe : bool) (unix_address : list Z -> A).

(** A Unix socket opens its descriptor when it is constructed but closes it only
    when it is connected: a client that never got a connection leaks it. *)
Theorem unix_unconnected_leaks path (k : K) s k1 m_handler options (x : X) :
  UnixSocket_new unix_address path k = Ok (s, k1) -> so_socket s <> -1 ->
  (sys_connect k1 (so_socket s) (unix_address path)).1 = false ->
  let '(r, w) := unix_client_connect unix_address m_handler path options (mkWorld k1 s x) in
  r = false /\ opened (Socket_destroy (w_socket w) (w_kernel w)) = {[so_socket s]} ∪ opened k /\ (so_socket s ∉ opened k).
Proof.
  unfold UnixSocket_new. destruct (_ <? _); [|done].
  destruct (sys_socket k (unix_address path)) as [[fd|] k'] eqn:E; intros [= <- <-]; [|done]. intros _.
  apply socket_some in E as (_ & Hn & Ho). cbn. unfold unix_client_connect. cbn.
  pose proof (connect_opened k' fd (unix_address path)) as Hk. destruct (sys_connect _ _ _) as [[] k2]; [done|].
  intros _. cbn in Hk |- *. split; [done|]. unfold Socket_destroy. cbn. by rewrite Hk, Ho.
Qed.

(** A server whose [listen] fails reports a failure but stays connected: no later
    [connect] tries again, and all report a failure. *)
Theorem listen_failure_sticks m_handler m_hostInfo options (w : @world K X) fd k w1 :
  so_connected (w_socket w) = false ->
  first_socket reuse_and_bind m_hostInfo (w_kernel w) (so_socket (w_socket w)) = (true, fd, k) ->
  server_connect have_lowdelay have_nosigpipe m_handler m_hostInfo options w = (false, w1) ->
  so_connected (w_socket w1) = true /\
  forall p o, server_connect have_lowdelay have_nosigpipe m_handler p o w1 = (false, w1).
Proof.
  intros Hc E. unfold server_connect. rewrite Hc, E. unfold listen_on.
  destruct (sys_listen _ _) as [[] k2]; [done|]. intros [= <-]. by split.
Qed.

(** An accepted connection has no options, and [send] reads them. *)
Lemma accepted_send_flags (w w' : @world K X) s :
  acceptPendingConnection w = (Some s, w') -> send_flags s = undefined IndeterminateRead.
Proof. unfold acceptPendingConnection. destruct (sys_accept _ _) as [[fd|] k]; intros [= <- <-]; done. Qed.

(** The client connects with [SocketOptionsNone]: a write to a peer that is gone
    raises SIGPIPE. *)
Lemma client_send_flags p (w w' : @world K X) :
  so_connected (w_socket w) = false ->
  client_connect have_lowdelay have_nosigpipe None p SocketOptionsNone w = (true, w') -> send_flags (w_socket w') = Ok 0.
Proof.
  unfold client_connect. intros Hc. rewrite Hc.
  destruct (first_socket _ _ _ _) as [[[] fd] k]; cbn; intros [= <-]; done.
Qed.
End failures.

(** ** A kernel *)

(** A kernel that follows a script of answers; when it is used up every call
    succeeds.  A new descriptor is one above all that are open. *)
Record ScriptKernel := mkScript { sk_opened : gset Z; sk_flags : gmap Z Z; sk_answers : list bool }.

Definition answer (k : ScriptKernel) : bool * ScriptKernel :=
  match sk_answers k with
  | [] => (true, k)
  | b :: l => (b, mkScript (sk_opened k) (sk_flags k) l)
  end.
Definition script_open (k : ScriptKernel) : option Z * ScriptKernel :=
  let '(b, k) := answer k in
  if b then (Some (above (sk_opened k)),
             mkScript ({[above (sk_opened k)]} ∪ sk_opened k) (<[above (sk_opened k) := 2]> (sk_flags k)) (sk_answers k))
  else (None, k).

Lemma answer_same k : sk_opened (answer k).2 = sk_opened k /\ sk_flags (answer k).2 = sk_flags k.
Proof. unfold answer. by case_match. Qed.

Lemma script_open_some k fd k' : script_open k = (Some fd, k') ->
  0 <= fd /\ (fd ∉ sk_opened k) /\ sk_opened k' = {[fd]} ∪ sk_opened k.
Proof.
  unfold script_open. destruct (answer k) as [[] k1] eqn:E; intros [= <- <-]. cbn.
  pose proof (answer_same k) as [Ho _]. rewrite E in Ho. cbn in Ho. rewrite Ho.
  destruct (above_fresh (sk_opened k)). done.
Qed.

Lemma script_open_none k k' : script_open k = (None, k') -> sk_opened k' = sk_opened k.
Proof.
  unfold script_open. destruct (answer k) as [[] k1] eqn:E; intros [= <-].
  pose proof (answer_same k) as [Ho _]. by rewrite E in Ho.
Qed.

#[export, refine] Instance ScriptKernel_kernel : SocketKernel ScriptKernel unit := {|
  opened := sk_opened;
  status_flags k fd := default 0 (sk_flags k !! fd);
  sys_socket k _ := script_open k;
  sys_connect k _ _ := answer k;
  sys_bind k _ _ := answer k;
  sys_listen k _ := answer k;
  sys_accept k _ := script_open k;
  sys_close k fd :=
    let '(b, k) := answer k in
    (b && bool_decide (fd ∈ sk_opened k), mkScript (sk_opened k ∖ {[fd]}) (sk_flags k) (sk_answers k));
  sys_setfl k fd v := mkScript (sk_opened k) (<[fd := v]> (sk_flags k)) (sk_answers k);
  sys_setsockopt k _ _ := answer k;
  sys_unlink k _ := let '(b, k) := answer k in (if b then Unlinked else UnlinkError, k)
|}.
Proof.
  all: cbn; intros; try apply answer_same; try apply (f_equal (fun f => fun fd => default 0 (f !! fd)) (proj2 (answer_same k))); try done.
  - by apply script_open_some.
  - by apply script_open_none.
  - by apply script_open_some.
  - by apply script_open_none.
  - pose proof (answer_same k) as [Ho _]. by destruct (answer k).
  - pose proof (answer_same k) as [Ho _]. destruct (answer k); cbn in *. by rewrite Ho.
  - pose proof (answer_same k) as [Ho _]. destruct (answer k) as [b k1]; cbn in *. rewrite <- Ho.
    injection H as Hb _. apply andb_true_iff in Hb as [_ Hb]. by apply bool_decide_eq_true in Hb.
  - by rewrite lookup_insert_eq.
Defined.

(** ** Samples *)

(** Eight descriptors are open; every call succeeds when the script is used up. *)
Definition busy (answers : list bool) : ScriptKernel := mkScript (list_to_set (seqZ 0 8)) ∅ answers.

Definition trouble : list bool := [false; true; false; true; true; true; true; false].

(** A client with three addresses (no socket, refused, accepted) and the handler of
    the transport; the peer goes twice; the end. *)
Definition told (b : bool) (x : list bool) : list bool := b :: x.
Lemma socket_owns_descriptor_witness :
  let handler := Some (transport_handler (A:=unit) true false told (fun x : list bool => (2 <? length x)%nat) id [tt; tt]) in
  let w := foldl (run_operation (A:=unit) true false handler)
    (mkWorld (busy trouble) Socket_new [])
    [OpConnect [tt; tt; tt] SocketOptionsNonBlocking; OpDisconnect; OpDisconnect; OpConnect [tt] SocketOptionsNone] in
  owns (A:=unit) (opened (busy trouble)) w /\
  opened (Socket_destroy (A:=unit) (w_socket w) (w_kernel w)) = opened (busy trouble).
Proof.
  apply (socket_owns_descriptor true false _ (busy trouble) [] [_; _; _; _]). apply transport_handler_uses.
Defined.

Lemma sendv_takes_witness :
  exists vec' i, Socket_sendv (A:=unit) None [(100, 3); (200, 0); (300, 4)] 5
                   (mkWorld (busy []) (Socket_of 9 true) tt) = Ok (true, vec', i, mkWorld (busy []) (Socket_of 9 true) tt) /\
    addresses (drop i vec') = [302; 303].
Proof.
  destruct (sendv_takes (A:=unit) None [(100, 3); (200, 0); (300, 4)] (mkWorld (busy []) (Socket_of 9 true) tt) eq_refl) as [Hs _].
  - repeat constructor; done.
  - done.
  - destruct (Hs 5) as (vec' & i & E & Ha); [done|]. exists vec', i. split; [exact E|]. rewrite Ha. reflexivity.
Defined.

(** The first [connect] of a Unix client is refused. *)
Lemma unix_unconnected_leaks_witness :
  opened (Socket_destroy (A:=unit) (mkSocketObject 8 false None) (mkScript ({[8]} ∪ list_to_set (seqZ 0 8)) (<[8 := 2]> ∅) [])) =
    {[8]} ∪ opened (busy []).
Proof.
  pose proof (unix_unconnected_leaks (fun _ => tt) [] (busy [true; false]) (mkSocketObject 8 false None)
    (mkScript ({[8]} ∪ list_to_set (seqZ 0 8)) (<[8 := 2]> ∅) [false]) None SocketOptionsNone tt) as Hl.
  destruct Hl as (_ & Hl & _); [reflexivity|done|reflexivity|]. exact Hl.
Defined.

Lemma listen_failure_sticks_witness :
  so_connected (w_socket (server_connect (A:=unit) true false None [tt] 8
    (mkWorld (busy [true; true; true; false]) Socket_new tt)).2) = true.
Proof.
  apply (listen_failure_sticks true false None [tt] 8 (mkWorld (busy [true; true; true; false]) Socket_new tt) 8
    (mkScript ({[8]} ∪ list_to_set (seqZ 0 8)) (<[8 := 2]> ∅) [false])); [reflexivity|vm_compute; reflexivity|].
  vm_compute. reflexivity.
Defined.
