(* ===== verification/SocketLife.v ===== *)
(** * SocketLife: what a TCP socket object owns besides its descriptor

    src/fastpath/transport/socket/TCPSocket.h and TCPSocket.cpp: the four
    constructors and the destructor with the address list of [getaddrinfo], which
    the object owns, and [Socket::read] into a string of Socket.cpp.  The resolver
    of the C library is a parameter: class [Resolver]. *)
From S2P Require Import Prelude Printing Transport Poll Sockets.

(** ** The resolver *)

Inductive ai_family := AF_INET | AF_UNSPEC.

(** [lists] are the address lists handed out and not given back: a call that
    succeeds hands out a new one, one that fails none (getaddrinfo(3)). *)
Class Resolver (K A : Type) := {
  lists : K -> gset Z;
  contents : K -> Z -> list A;
  sys_getaddrinfo : K -> ai_family -> option (list Z) -> list Z -> option Z * K;
  sys_freeaddrinfo : K -> Z -> K;
  getaddrinfo_some k f h s p k' : sys_getaddrinfo k f h s = (Some p, k') ->
    (p ∉ lists k) /\ lists k' = {[p]} ∪ lists k;
  getaddrinfo_none k f h s k' : sys_getaddrinfo k f h s = (None, k') -> lists k' = lists k;
  freeaddrinfo_lists k p : lists (sys_freeaddrinfo k p) = lists k ∖ {[p]}
}.

(** ** TCPSocket *)

Section life.
Context {K A Hostent : Type} `{Resolver K A}.

(** [tcp_base] are the members of [Socket]; a null [m_hostInfo] is [None], and no
    constructor but that from a [hostent] sets [m_host]. *)
Record TCPSocket := mkTCPSocket {
  tcp_base : SocketObject;
  m_port : option Z;
  m_host : option Hostent;
  m_hostInfo : option Z
}.

(** The part the constructors from a host share.  When they throw, only the base
    class and the members are destroyed, and the base owns nothing yet. *)
Definition with_host (family : ai_family) (port : option Z) (host service : list Z) (k : K) : outcome TCPSocket * K :=
  let '(r, k) := sys_getaddrinfo k family (if bool_decide (host = []) then None else Some host) service in
  (match r with
   | Some p => Ok (mkTCPSocket Socket_new port None (Some p))
   | None => throw SocketError
   end, k).

(** What a client constructs a socket from. *)
Inductive construction :=
| HostService (host service : list Z)
| HostPort (host : list Z) (port : Z)
| FromHostent (host : Hostent) (port : Z)
| FromDescriptor (socketFd : Z) (connected : bool).

Definition TCPSocket_new (c : construction) (k : K) : outcome TCPSocket * K :=
  match c with
  | HostService host service => with_host AF_INET None host service k
  | HostPort host port => with_host AF_UNSPEC (Some port) host (digits 10 port) k
  | FromHostent host port => (Ok (mkTCPSocket Socket_new (Some port) (Some host) None), k)
  | FromDescriptor fd connected => (Ok (mkTCPSocket (Socket_of fd connected) None None None), k)
  end.

(** [~TCPSocket]; [~Socket] after it closes the descriptor. *)
Definition TCPSocket_destroy (s : TCPSocket) (k : K) : K :=
  match m_hostInfo s with Some p => sys_freeaddrinfo k p | None => k end.

(** What [connect] of the client and the server iterate over. *)
Definition host_addresses (k : K) (s : TCPSocket) : list A :=
  match m_hostInfo s with Some p => contents k p | None => [] end.

(** ** Who owns a list *)

Definition owned (s : TCPSocket) : gset Z := match m_hostInfo s with Some p => {[p]} | None => ∅ end.

Lemma TCPSocket_new_lists c k r k' : TCPSocket_new c k = (r, k') ->
  match r with
  | Ok s => owned s ## lists k /\ lists k' = owned s ∪ lists k
  | Err _ => lists k' = lists k
  end.
Proof.
  assert (forall f port host service, with_host f port host service k = (r, k') ->
    match r with Ok s => owned s ## lists k /\ lists k' = owned s ∪ lists k | Err _ => lists k' = lists k end) as Hw.
  { intros f port host service E. unfold with_host in E. destruct (sys_getaddrinfo _ _ _ _) as [[p|] k1] eqn:Eg; simplify_eq.
    - apply getaddrinfo_some in Eg as [Hn Hl]. unfold owned. cbn [m_hostInfo]. split; [set_solver|done].
    - by apply getaddrinfo_none in Eg. }
  destruct c; cbn [TCPSocket_new]; intros E; [by eapply Hw|by eapply Hw| |]; simplify_eq; unfold owned; cbn [m_hostInfo]; split; set_solver.
Qed.

(** The sockets of a process, by name: constructing under a name and destroying.
    A construction that throws leaves no socket. *)
Inductive life := Construct (name : nat) (c : construction) | Destroy (name : nat).
Definition live_step (o : life) (w : gmap nat TCPSocket * K) : gmap nat TCPSocket * K :=
  let '(m, k) := w in
  match o with
  | Construct name c =>
      if bool_decide (is_Some (m !! name)) then w
      else match TCPSocket_new c k with (Ok s, k) => (<[name := s]> m, k) | (Err _, k) => (m, k) end
  | Destroy name =>
      match m !! name with Some s => (delete name m, TCPSocket_destroy s k) | None => w end
  end.

(** [before] are the lists others own: those handed out are these and the ones the
    sockets own, each by one. *)
Definition lists_owned (before : gset Z) (w : gmap nat TCPSocket * K) : Prop :=
  (forall p, p ∈ lists w.2 <-> p ∈ before \/ exists i s, w.1 !! i = Some s /\ p ∈ owned s) /\
  (forall i s, w.1 !! i = Some s -> owned s ## before) /\
  (forall i j s t, w.1 !! i = Some s -> w.1 !! j = Some t -> i <> j -> owned s ## owned t).

Lemma lists_owned_new before m k name c r k' : lists_owned before (m, k) -> m !! name = None ->
  TCPSocket_new c k = (r, k') ->
  lists_owned before (match r with Ok s => (<[name := s]> m, k') | Err _ => (m, k') end).
Proof.
  intros (Hl & Hb & Hd) Hm E. apply TCPSocket_new_lists in E. destruct r as [s|e].
  2: { unfold lists_owned. cbn [fst snd] in *. rewrite E. done. }
  destruct E as [Hf Hk]. cbn [fst snd] in *. repeat split; cbn [fst snd].
  - rewrite Hk, elem_of_union, Hl. intros [Hp|[Hp|(i & t & Hi & Hp)]]; [right; exists name, s|by left|right; exists i, t].
    + by rewrite lookup_insert_eq.
    + rewrite lookup_insert_ne by congruence. done.
  - rewrite Hk, elem_of_union, Hl. intros [Hp|(i & t & Hi & Hp)]; [by right; left|].
    apply lookup_insert_Some in Hi as [[<- <-]|[Hn Hi]]; [by left|right; right; by exists i, t].
  - intros i t Hi. apply lookup_insert_Some in Hi as [[<- <-]|[Hn Hi]]; [|by apply (Hb i)].
    intros p Hp Hq. apply (Hf p Hp). apply Hl. by left.
  - assert (forall i t, m !! i = Some t -> owned s ## owned t) as Hs.
    { intros i t Hi p Hp Hq. apply (Hf p Hp), Hl. right. by exists i, t. }
    intros i j t u Hi Hj Hn. apply lookup_insert_Some in Hi as [[<- <-]|[Hni Hi]], Hj as [[-> <-]|[Hnj Hj]];
      [done|by eapply Hs|symmetry; by eapply Hs|by apply (Hd i j)].
Qed.

Lemma lists_owned_destroy before m k name s : lists_owned before (m, k) -> m !! name = Some s ->
  lists_owned before (delete name m, TCPSocket_destroy s k).
Proof.
  intros (Hl & Hb & Hd) Hm. cbn [fst snd] in *.
  assert (lists (TCPSocket_destroy s k) = lists k ∖ owned s) as Hk.
  { unfold TCPSocket_destroy, owned. destruct (m_hostInfo s); [apply freeaddrinfo_lists|set_solver]. }
  repeat split; cbn [fst snd].
  - rewrite Hk, elem_of_difference, Hl. intros [[Hp|(i & t & Hi & Hp)] Hn]; [by left|right; exists i, t].
    rewrite lookup_delete_ne; [done|]. intros <-. rewrite Hm in Hi. by simplify_eq.
  - rewrite Hk, elem_of_difference, Hl. intros [Hp|(i & t & Hi & Hp)].
    + split; [by left|]. intros Hq. by apply (Hb _ _ Hm p).
    + apply lookup_delete_Some in Hi as [Hn Hi]. split; [right; by exists i, t|]. intros Hq. by apply (Hd _ _ _ _ Hm Hi Hn p).
  - intros i t Hi. apply lookup_delete_Some in Hi as [_ Hi]. by apply (Hb i).
  - intros i j t u Hi Hj. apply lookup_delete_Some in Hi as [_ Hi], Hj as [_ Hj]. by apply Hd.
Qed.

(** Every address list is given back exactly once, by the socket it was resolved
    for: after any constructions and destructions the lists handed out are those of
    the sockets that live, one each. *)
Theorem host_lists_owned before ops : forall w, lists_owned before w -> lists_owned before (foldl (fun w o => live_step o w) w ops).
Proof.
  induction ops as [|o ops IH]; intros [m k] Hw; cbn [foldl]; [done|]. apply IH.
  destruct o as [name c|name]; cbn [live_step].
  - case_bool_decide as Hi; [done|]. apply eq_None_not_Some in Hi.
    destruct (TCPSocket_new c k) as [r k'] eqn:E. pose proof (lists_owned_new _ _ _ _ _ _ _ Hw Hi E) as Hn. by destruct r.
  - destruct (m !! name) as [s|] eqn:Hi; [by apply lists_owned_destroy|done].
Qed.

Corollary host_lists_given_back before ops k m k' : lists k = before ->
  foldl (fun w o => live_step o w) (∅, k) ops = (m, k') -> m = ∅ -> lists k' = before.
Proof.
  intros Hk E ->. assert (lists_owned before (∅, k)) as H0.
  { repeat split; cbn [fst snd]; intros *; try (rewrite lookup_empty; done); rewrite Hk; [by left|].
    intros [Hp|(i & s & Hi & _)]; [done|by rewrite lookup_empty in Hi]. }
  apply (host_lists_owned _ ops) in H0. rewrite E in H0. destruct H0 as (Hl & _). cbn [fst snd] in Hl.
  apply set_eq. intros p. rewrite Hl. split; [|by left]. intros [Hp|(i & s & Hi & _)]; [done|by rewrite lookup_empty in Hi].
Qed.

(** ** What the constructors resolve *)

(** What the resolver is asked, if it is: no name for the host when it is empty, and
    for a port the digits of its number. *)
Definition asked (c : construction) : option (ai_family * option (list Z) * list Z) :=
  let name (host : list Z) := if bool_decide (host = []) then None else Some host in
  match c with
  | HostService host service => Some (AF_INET, name host, service)
  | HostPort host port => Some (AF_UNSPEC, name host, digits 10 port)
  | FromHostent _ _ | FromDescriptor _ _ => None
  end.

(** A construction fails exactly when the resolver fails on what it is asked, and
    the socket then has what the resolver answered; no constructor opens a
    descriptor. *)
Theorem construction_resolves c k :
  match asked c with
  | Some (f, h, service) =>
      match (sys_getaddrinfo k f h service).1 with
      | Some p => exists s, (TCPSocket_new c k).1 = Ok s /\ host_addresses (TCPSocket_new c k).2 s = contents (sys_getaddrinfo k f h service).2 p /\
                  so_connected (tcp_base s) = false
      | None => (TCPSocket_new c k).1 = throw SocketError
      end
  | None => exists s, TCPSocket_new c k = (Ok s, k) /\ host_addresses k s = []
  end.
Proof.
  destruct c; cbn [asked TCPSocket_new]; unfold with_host; [| |by eexists..].
  all: destruct (sys_getaddrinfo _ _ _ _) as [[p|] k1]; cbn [fst snd]; [by eexists|done].
Qed.

(** Different ports are different services. *)
Lemma port_service_inj f g h port port' s s' : 0 <= port -> 0 <= port' ->
  asked (HostPort f port) = Some (g, h, s) -> asked (HostPort f port') = Some (g, h, s') -> s = s' -> port = port'.
Proof.
  intros Hp Hp' [= _ _ <-] [= _ _ <-] E. rewrite <- (digits_number 10 port), <- (digits_number 10 port'), E by lia. done.
Qed.
End life.
Arguments TCPSocket : clear implicits.
Arguments construction : clear implicits.

(** ** A socket without addresses *)

Section hostent.
Context {K A X : Type} `{SocketKernel K A}.
Context (have_lowdelay have_nosigpipe : bool).

(** Without addresses [connect] makes no system call and fails, of the client as of
    the server: so for every socket constructed from a [hostent], whose host nothing
    reads. *)
Theorem no_addresses_no_connection m_handler options (w : @world K X) : so_connected (w_socket w) = false ->
  (exists s, client_connect have_lowdelay have_nosigpipe m_handler [] options w = (false, on_socket w s)) /\
  (exists s, server_connect have_lowdelay have_nosigpipe m_handler [] options w = (false, on_socket w s)).
Proof.
  intros Hc. unfold client_connect, server_connect. rewrite Hc. cbn [first_socket].
  split; eexists; by cbn [w_socket so_connected setSocket].
Qed.
End hostent.

(** ** Socket::read into a string *)

(** [buffer[1024]] takes what [recv] returned, at most 1024 bytes; the flag is
    whether [disconnect] was called. *)
Definition Socket_readString (r : RecvResult) (data : list Z) : ReadResult * list Z * bool :=
  let '(result, chunk, disconnected) := Socket_read r in
  match result with
  | MoreData => (result, data ++ chunk, disconnected)
  | _ => (result, data, disconnected)
  end.

(** Reading again as long as there is more. *)
Fixpoint read_all (reads : list RecvResult) (data : list Z) : option ReadResult * list Z :=
  match reads with
  | [] => (None, data)
  | r :: reads =>
      let '(result, data, _) := Socket_readString r data in
      match result with MoreData => read_all reads data | _ => (Some result, data) end
  end.

(** The string has the stream, however it was cut, behind what it had: also a NUL
    byte does not end it, and the read that ends the loop adds nothing. *)
Theorem read_all_stream chunks last rest data : (forall c, last <> RecvBytes c) ->
  read_all (map RecvBytes chunks ++ last :: rest) data = (Some (Socket_read last).1.1, data ++ concat chunks).
Proof.
  intros Hl. revert data. induction chunks as [|c chunks IH]; intros data; cbn [map app read_all].
  - unfold Socket_readString. destruct last as [c| |[]]; cbn; [by destruct (Hl c)|by rewrite app_nil_r..].
  - unfold Socket_readString. cbn [Socket_read fst snd]. rewrite IH. cbn [concat]. by rewrite <- (assoc_L (++)).
Qed.

(** ** A resolver *)

(** It knows the loopback addresses; a name of a list is larger than all before. *)
Record Table := mkTable { t_lists : gset Z; t_known : list (list Z) }.
Definition table_getaddrinfo (k : Table) (f : ai_family) (h : option (list Z)) (s : list Z) : option Z * Table :=
  match h with
  | Some h => if bool_decide (h ∈ t_known k) then (Some (above (t_lists k)), mkTable ({[above (t_lists k)]} ∪ t_lists k) (t_known k)) else (None, k)
  | None => (Some (above (t_lists k)), mkTable ({[above (t_lists k)]} ∪ t_lists k) (t_known k))
  end.

#[export, refine] Instance table_resolver : Resolver Table Z := {|
  lists := t_lists; contents k p := [p]; sys_getaddrinfo := table_getaddrinfo;
  sys_freeaddrinfo k p := mkTable (t_lists k ∖ {[p]}) (t_known k)
|}.
Proof.
  - intros k f [h|] s p k' E; cbn in E; repeat case_bool_decide; simplify_eq; split; try done; apply (above_fresh (t_lists k)).
  - intros k f [h|] s k' E; cbn in E; repeat case_bool_decide; by simplify_eq.
  - done.
Defined.

(** ** Samples *)

Definition localhost : list Z := bytes_of_string "localhost".
Definition table : Table := mkTable ∅ [localhost].
Definition a_life : list (@life unit) :=
  [Construct 0 (HostService localhost (bytes_of_string "http")); Construct 1 (HostPort [] 8080);
   Construct 2 (HostService (bytes_of_string "nowhere") []); Construct 3 (FromHostent tt 80); Destroy 0;
   Construct 4 (FromDescriptor 5 true); Destroy 1; Destroy 2; Destroy 3; Destroy 4].

Lemma a_life_ends : fst (foldl (fun w o => live_step o w) (∅, table) a_life) = ∅.
Proof. reflexivity. Qed.

Lemma host_lists_given_back_witness : lists (snd (foldl (fun w o => live_step o w) (∅, table) a_life)) = ∅.
Proof.
  destruct (foldl _ _ _) as [m k'] eqn:E. apply (host_lists_given_back ∅ a_life table m k' eq_refl E).
  pose proof a_life_ends as Hm. by rewrite E in Hm.
Defined.

Lemma read_all_stream_witness :
  read_all [RecvBytes [65; 0]; RecvBytes [66]; RecvError true] [64] = (Some NoData, [64; 65; 0; 66]).
Proof. apply (read_all_stream [[65; 0]; [66]] (RecvError true) [] [64]). done. Defined.
