(* ===== verification/Reconnect.v ===== *)
(** * Reconnect: the connection of TCPTransport.cpp

    The constructor, [__connect], [__disconnect], the connection state handler and
    [TCPSocketClient::connect] inside them, as the interleaving of the accesses of
    the constructing thread, the threads that use the transport and the background
    attempts.  The threads share the members of the transport and of its socket
    without a lock, so every access to one of them is a step of its own.  A call of the
    connection state handler and of the notification handler in it is one step: what a
    notification handler does, [on_connected] and [on_disconnected] of Listener.v for
    the one in the repository, is not part of the attempt here. *)
From S2P Require Import Prelude.

(** ** BackoffStrategy.h *)

Definition min_retry_interval : Z := 1.
Definition max_retry_interval : Z := 5000.
(** [backoff] sleeps for [m_current] and leaves the next value. *)
Definition backoff (m_current : Z) : Z := Z.min (m_current * 2) max_retry_interval.

(** The [n]th sleep is [2 ^ n] milliseconds, from the thirteenth on five seconds. *)
Lemma backoff_nth n : Nat.iter n backoff min_retry_interval = Z.min (2 ^ Z.of_nat n) max_retry_interval.
Proof.
  induction n as [|n IH]; [reflexivity|].
  change (Nat.iter (S n) backoff min_retry_interval) with (backoff (Nat.iter n backoff min_retry_interval)).
  rewrite IH, Nat2Z.inj_succ, Z.pow_succ_r by lia.
  unfold backoff, max_retry_interval. lia.
Qed.

(** ** State *)

Record Link := mkLink {
  l_connected : bool;        (* m_peer->m_connected *)
  l_socket : Z;              (* m_peer->m_socket *)
  l_held : gset Z;           (* the descriptors opened for the peer and not closed *)
  l_should : bool;           (* m_shouldDisconnect *)
  l_handler : bool;          (* m_peer->m_handler is set *)
  l_future : option nat;     (* the thread of m_connectionAttemptInProgress *)
  l_notify : bool;           (* m_notificationHandler is set *)
  l_calls : list bool;       (* ghost: the calls of m_peer->m_handler *)
  l_notified : list bool     (* ghost: the calls of m_notificationHandler, CONNECTED or not *)
}.

Definition set_connected (s : Link) (b : bool) : Link :=
  mkLink b (l_socket s) (l_held s) (l_should s) (l_handler s) (l_future s) (l_notify s) (l_calls s) (l_notified s).
Definition set_socket (s : Link) (fd : Z) (held : gset Z) : Link :=
  mkLink (l_connected s) fd held (l_should s) (l_handler s) (l_future s) (l_notify s) (l_calls s) (l_notified s).
Definition set_should (s : Link) : Link :=
  mkLink (l_connected s) (l_socket s) (l_held s) true (l_handler s) (l_future s) (l_notify s) (l_calls s) (l_notified s).
Definition set_handler (s : Link) : Link :=
  mkLink (l_connected s) (l_socket s) (l_held s) (l_should s) true (l_future s) (l_notify s) (l_calls s) (l_notified s).
Definition set_future (s : Link) (i : nat) : Link :=
  mkLink (l_connected s) (l_socket s) (l_held s) (l_should s) (l_handler s) (Some i) (l_notify s) (l_calls s) (l_notified s).
Definition set_notify (s : Link) (b : bool) : Link :=
  mkLink (l_connected s) (l_socket s) (l_held s) (l_should s) (l_handler s) (l_future s) b (l_calls s) (l_notified s).
(** The handler that the constructor gives to its peer begins with the notification
    handler, if there is one; what that one does is its own (Listener.v). *)
Definition add_call (s : Link) (connected : bool) : Link :=
  mkLink (l_connected s) (l_socket s) (l_held s) (l_should s) (l_handler s) (l_future s) (l_notify s)
    (l_calls s ++ [connected]) (l_notified s ++ (if l_notify s then [connected] else [])).

(** Who called [TCPSocketClient::connect]: [__connect] with the current backoff, the
    constructor or the handler. *)
Inductive caller := InLoop (m_current : Z) | InConstructor | InHandler.

(** Where a thread is.  [p] counts the addresses left for [connect]. *)
Inductive pc :=
  | Idle                                      (* outside the transport *)
  | Finished                                  (* a background attempt that returned *)
  | TestPeerConnected (m_current : Z)         (* __connect: while (!isConnected() && ... *)
  | TestShouldDisconnect (m_current : Z)      (*   ... m_shouldDisconnect == false) *)
  | TestConnected (c : caller)                (* connect: if (!m_connected) *)
  | OpenSocket (p : nat) (c : caller)         (* m_socket = socket(...) *)
  | ConnectSocket (p : nat) (c : caller)      (* ::connect(m_socket, ...) *)
  | CloseSocket (p : nat) (c : caller)        (* ::close(m_socket) *)
  | MarkConnected (c : caller)                (* m_connected = true *)
  | CallConnected (c : caller)                (* m_handler(true): m_notificationHandler(CONNECTED) *)
  | ReturnConnected (c : caller)              (* return m_connected *)
  | Launch (c : caller)                       (* std::async(&TCPTransport::__connect) *)
  | WaitFuture (old : option nat) (c : caller) (* assignment to m_connectionAttemptInProgress *)
  | SetHandler                                (* setConnectionStateHandler *)
  | DisconnectTest                            (* disconnect: if (m_connected) *)
  | DisconnectClose                           (* ::close(m_socket) *)
  | MarkDisconnected                          (* m_connected = false *)
  | CallDisconnected                          (* m_handler(false): m_notificationHandler(DISCONNECTED) *)
  | TestReconnect                             (* handler: !m_shouldDisconnect *)
  | SetShould                                 (* __disconnect: m_shouldDisconnect = true *)
  | TestPeer                                  (* __disconnect: isConnected() *)
  | WaitAttempt.                              (* m_connectionAttemptInProgress.wait() *)
#[export] Instance caller_eq_dec : EqDecision caller.
Proof. solve_decision. Defined.
#[export] Instance pc_eq_dec : EqDecision pc.
Proof. solve_decision. Defined.

(** What the environment decides at a step: the answer of a system call, or what a
    thread does with the transport: find the socket closed or broken ([Read] and
    [send] then call [disconnect]), give it a notification handler or take it away,
    or shut it down. *)
Inductive answer := NoAnswer | NewSocket (fd : option Z) | Succeeds (b : bool) | PeerGone | SetNotification (b : bool) | ShutDown.

Section transport.
Context (hosts : nat).   (* how many addresses the host has *)

Definition finished (ps : list pc) (i : option nat) : bool :=
  match i with Some i => bool_decide (ps !! i = Some Finished) | None => true end.

Definition after_wait (c : caller) : pc := match c with InConstructor => SetHandler | _ => Idle end.

(** One access of a thread at [p]: the state after it, where the thread is then,
    and whether it has started an attempt. *)
Definition access (s : Link) (ps : list pc) (p : pc) (a : answer) : option (Link * pc * bool) :=
  match p, a with
  | Idle, PeerGone => if l_handler s then Some (s, DisconnectTest, false) else None
  | Idle, SetNotification b => if l_handler s then Some (set_notify s b, Idle, false) else None
  | Idle, ShutDown => if l_handler s then Some (s, SetShould, false) else None
  | TestPeerConnected m, NoAnswer => Some (s, if l_connected s then Finished else TestShouldDisconnect m, false)
  | TestShouldDisconnect m, NoAnswer => Some (s, if l_should s then Finished else TestConnected (InLoop m), false)
  | TestConnected c, NoAnswer => Some (s, if l_connected s then ReturnConnected c else OpenSocket hosts c, false)
  | OpenSocket 0 c, NoAnswer => Some (s, ReturnConnected c, false)
  | OpenSocket (S p) c, NewSocket None => Some (set_socket s (-1) (l_held s), OpenSocket p c, false)
  | OpenSocket (S p) c, NewSocket (Some fd) =>
      if bool_decide (0 <= fd /\ fd ∉ l_held s)
      then Some (set_socket s fd ({[fd]} ∪ l_held s), ConnectSocket p c, false) else None
  | ConnectSocket p c, Succeeds b => Some (s, if b then MarkConnected c else CloseSocket p c, false)
  | CloseSocket p c, NoAnswer => Some (set_socket s (l_socket s) (l_held s ∖ {[l_socket s]}), OpenSocket p c, false)
  | MarkConnected c, NoAnswer => Some (set_connected s true, CallConnected c, false)
  | CallConnected c, NoAnswer => Some (if l_handler s then add_call s true else s, ReturnConnected c, false)
  | ReturnConnected c, NoAnswer =>
      Some (s, match c, l_connected s with
               | InLoop m, true => TestPeerConnected m
               | InLoop m, false => TestPeerConnected (backoff m)
               | InConstructor, true => SetHandler
               | InHandler, true => Idle
               | c, false => Launch c
               end, false)
  | Launch c, NoAnswer => Some (set_future s (length ps), WaitFuture (l_future s) c, true)
  | WaitFuture old c, NoAnswer => if finished ps old then Some (s, after_wait c, false) else None
  | SetHandler, NoAnswer => Some (set_handler s, Idle, false)
  | DisconnectTest, NoAnswer => Some (s, if l_connected s then DisconnectClose else Idle, false)
  | DisconnectClose, Succeeds b =>
      Some (set_socket s (l_socket s) (l_held s ∖ {[l_socket s]}),
            if b && bool_decide (l_socket s ∈ l_held s) then MarkDisconnected else Idle, false)
  | MarkDisconnected, NoAnswer => Some (set_connected s false, CallDisconnected, false)
  | CallDisconnected, NoAnswer => Some (add_call s false, TestReconnect, false)
  | TestReconnect, NoAnswer => Some (s, if l_should s then Idle else TestConnected InHandler, false)
  | SetShould, NoAnswer => Some (set_should s, TestPeer, false)
  | TestPeer, NoAnswer => Some (s, if l_connected s then DisconnectTest else WaitAttempt, false)
  | WaitAttempt, NoAnswer => if finished ps (l_future s) then Some (s, Idle, false) else None
  | _, _ => None
  end.

(** The first step of an attempt. *)
Definition attempt : pc := TestPeerConnected min_retry_interval.

Definition act (w : Link * list pc) (m : nat * answer) : option (Link * list pc) :=
  let '(s, ps) := w in
  p ← ps !! m.1;
  '(s, p, launched) ← access s ps p m.2;
  Some (s, <[m.1 := p]> ps ++ (if launched : bool then [attempt] else [])).

Inductive step : Link * list pc -> Link * list pc -> Prop :=
  | step_thread w m w' : act w m = Some w' -> step w w'.

(** A thread constructs the transport, [n] others may use it afterwards. *)
Definition init (n : nat) : Link * list pc :=
  (mkLink false (-1) ∅ false false None false [] [], TestConnected InConstructor :: replicate n Idle).
Definition reachable (n : nat) (w : Link * list pc) : Prop := rtc step (init n) w.

(** A run by its accesses. *)
Definition run_accesses (w : Link * list pc) (ms : list (nat * answer)) : option (Link * list pc) :=
  foldl (fun w m => w ← w; act w m) (Some w) ms.

Lemma run_cons w m ms : run_accesses w (m :: ms) = w' ← act w m; run_accesses w' ms.
Proof.
  unfold run_accesses. cbn [foldl]. change (Some w ≫= (fun w => act w m)) with (act w m).
  destruct (act w m); [done|]. cbn. by induction ms.
Qed.

Lemma run_reachable n ms : forall w w', reachable n w -> run_accesses w ms = Some w' -> reachable n w'.
Proof.
  induction ms as [|m ms IH]; intros w w' Hw E; [by injection E as <-|].
  rewrite run_cons in E. destruct (act w m) as [w1|] eqn:Ea; [|done].
  apply (IH w1); [|done]. eapply rtc_r; [done|by econstructor].
Qed.
End transport.

(** ** The transport never gives up *)

(** A thread that is on its way to a connection or to another try. *)
Definition trying (p : pc) : Prop :=
  match p with
  | TestPeerConnected _ | TestShouldDisconnect _ | TestConnected _ | OpenSocket _ _ | ConnectSocket _ _
  | CloseSocket _ _ | MarkConnected _ | CallConnected _ | ReturnConnected _ | Launch _
  | CallDisconnected | TestReconnect => True
  | _ => False
  end.

Definition served (w : Link * list pc) : Prop :=
  l_connected w.1 = true \/ l_should w.1 = true \/ exists i p, w.2 !! i = Some p /\ trying p.

(** What one access does for the connection. *)
Lemma access_trying hosts s ps p a s' p' launched : access hosts s ps p a = Some (s', p', launched) ->
  l_connected s' = true \/ l_should s' = true \/ trying p' \/ launched = true \/
  (~ trying p /\ l_connected s = false /\ l_should s = false).
Proof.
  intros E. destruct p; destruct a; cbn in E; try discriminate E;
    repeat match type of E with context [match ?x with _ => _ end] => destruct x eqn:? end; simplify_eq; cbn;
    try (by left); try (by right; left); try (by right; right; left); try (by right; right; right; left);
    match goal with |- _ \/ _ \/ _ \/ _ \/ (_ /\ _ /\ l_should ?s = _) =>
      destruct (l_connected s) eqn:?, (l_should s) eqn:?; try destruct c; cbn; intuition congruence end.
Qed.

Lemma served_step hosts w w' : step hosts w w' -> served w -> served w'.
Proof.
  intros [w0 [i a] w1 E] Hs. destruct w0 as [s ps]. cbn in E.
  destruct (ps !! i) as [p|] eqn:Hi; cbn in E; [|done].
  destruct (access hosts s ps p a) as [[[s' p'] launched]|] eqn:Ea; cbn in E; [|done]. injection E as <-.
  pose proof (lookup_lt_Some _ _ _ Hi) as Hl. unfold served in *. cbn in *.
  assert (forall j q, <[i:=p']> ps !! j = Some q -> trying q ->
    exists j q, (<[i:=p']> ps ++ (if launched then [attempt] else [])) !! j = Some q /\ trying q) as Hk.
  { intros j q Hj Hq. exists j, q. split; [|done]. by apply lookup_app_l_Some. }
  apply access_trying in Ea as [?|[?|[Hp|[->|(Hp & Hc & Hd)]]]]; [by left|by right; left|right; right..].
  - apply (Hk i p'); [by apply list_lookup_insert_eq|done].
  - exists (length ps), attempt. split; [|done].
    rewrite lookup_app_r, length_insert, Nat.sub_diag by (rewrite length_insert; lia). done.
  - destruct Hs as [?|[?|(j & q & Hj & Hq)]]; [congruence..|].
    apply (Hk j q); [|done]. rewrite list_lookup_insert_ne; [done|]. intros ->. congruence.
Qed.

Lemma served_reachable hosts n w : reachable hosts n w -> served w.
Proof.
  intros H. apply (rtc_ind_r served (init n)) in H; [done| |].
  - right; right. by exists O, (TestConnected InConstructor).
  - intros w1 w2 _ Hs Hw. by eapply served_step.
Qed.

(** *** ... and can always connect *)

Section progress.
Context (hosts : nat).

(** A state from which a run without another thread's [__disconnect] connects the
    transport. *)
Definition can_connect (w : Link * list pc) : Prop :=
  exists ms w', Forall (fun m => m.2 <> ShutDown) ms /\ run_accesses hosts w ms = Some w' /\ l_connected w'.1 = true.

Lemma can_now w : l_connected w.1 = true -> can_connect w.
Proof. intros Hw. by exists [], w. Qed.

(** Thread [i] moves. *)
Lemma can_move s ps i p a s' p' launched : ps !! i = Some p -> access hosts s ps p a = Some (s', p', launched) -> a <> ShutDown ->
  can_connect (s', <[i:=p']> ps ++ (if launched : bool then [attempt] else [])) -> can_connect (s, ps).
Proof.
  intros Hi Ea Hne (ms & w' & Hms & E & Hw). exists ((i, a) :: ms), w'. split; [by constructor|]. split; [|done].
  rewrite run_cons. cbn. rewrite Hi. cbn. by rewrite Ea.
Qed.

Lemma can_at s ps i p a s' p' : ps !! i = Some p -> access hosts s ps p a = Some (s', p', false) -> a <> ShutDown ->
  (forall ps', ps' !! i = Some p' -> can_connect (s', ps')) -> can_connect (s, ps).
Proof.
  intros Hi Ea Hne Hk. eapply can_move; [done..|]. rewrite app_nil_r. apply Hk.
  apply list_lookup_insert_eq. by eapply lookup_lt_Some.
Qed.

Context (Hhosts : (0 < hosts)%nat).

Lemma can_mark s ps i c : ps !! i = Some (MarkConnected c) -> can_connect (s, ps).
Proof. intros Hi. apply (can_at s ps i _ NoAnswer _ _ Hi eq_refl ltac:(done)). intros ps' _. by apply can_now. Qed.

Lemma can_open s ps i p c : ps !! i = Some (OpenSocket (S p) c) -> can_connect (s, ps).
Proof.
  intros Hi. destruct (above_fresh (l_held s)) as [H0 Hf]. eapply (can_at s ps i _ (NewSocket (Some (above (l_held s))))); [done| |done|].
  - cbn. by rewrite bool_decide_eq_true_2.
  - intros ps1 H1. apply (can_at _ ps1 i _ (Succeeds true) _ _ H1 eq_refl ltac:(done)). intros ps2 H2. by apply (can_mark _ _ i c).
Qed.

Lemma can_test s ps i c : ps !! i = Some (TestConnected c) -> can_connect (s, ps).
Proof.
  intros Hi. destruct (l_connected s) eqn:Ec; [by apply can_now|].
  apply (can_at s ps i _ NoAnswer _ _ Hi eq_refl ltac:(done)). rewrite Ec. intros ps1 H1.
  destruct hosts as [|p] eqn:Eh; [lia|]. by apply (can_open _ _ i p c).
Qed.

Lemma can_loop s ps i m : l_should s = false -> ps !! i = Some (TestPeerConnected m) -> can_connect (s, ps).
Proof.
  intros Ed Hi. destruct (l_connected s) eqn:Ec; [by apply can_now|].
  apply (can_at s ps i _ NoAnswer _ _ Hi eq_refl ltac:(done)). rewrite Ec. intros ps1 H1.
  apply (can_at s ps1 i _ NoAnswer _ _ H1 eq_refl ltac:(done)). rewrite Ed. intros ps2 H2. by apply (can_test _ _ i (InLoop m)).
Qed.

Lemma can_launch s ps i c : l_should s = false -> ps !! i = Some (Launch c) -> can_connect (s, ps).
Proof.
  intros Ed Hi. apply (can_move s ps i _ NoAnswer _ _ _ Hi eq_refl ltac:(done)). apply (can_loop _ _ (length ps) min_retry_interval); [done|].
  rewrite lookup_app_r, length_insert, Nat.sub_diag by (rewrite length_insert; lia). done.
Qed.

Lemma can_return s ps i c : l_should s = false -> ps !! i = Some (ReturnConnected c) -> can_connect (s, ps).
Proof.
  intros Ed Hi. destruct (l_connected s) eqn:Ec; [by apply can_now|].
  apply (can_at s ps i _ NoAnswer _ _ Hi eq_refl ltac:(done)). rewrite Ec. intros ps1 H1.
  destruct c; [by eapply can_loop|by eapply can_launch..].
Qed.

Lemma can_addresses s ps i p c : l_should s = false -> ps !! i = Some (OpenSocket p c) -> can_connect (s, ps).
Proof.
  intros Ed. destruct p as [|p]; [|by apply can_open]. intros Hi.
  apply (can_at s ps i _ NoAnswer _ _ Hi eq_refl ltac:(done)). intros ps1 H1. by eapply can_return.
Qed.

Lemma can_reconnect s ps i : l_should s = false -> ps !! i = Some TestReconnect -> can_connect (s, ps).
Proof.
  intros Ed Hi. apply (can_at s ps i _ NoAnswer _ _ Hi eq_refl ltac:(done)). rewrite Ed. intros ps1 H1. by eapply can_test.
Qed.

Lemma trying_can s ps i p : l_should s = false -> ps !! i = Some p -> trying p -> can_connect (s, ps).
Proof.
  intros Ed Hi Hp. destruct p; try done; cbn in Hp.
  - by eapply can_loop.
  - apply (can_at s ps i _ NoAnswer _ _ Hi eq_refl ltac:(done)). rewrite Ed. intros ps1 H1. by eapply can_test.
  - by eapply can_test.
  - by eapply can_addresses.
  - apply (can_at s ps i _ (Succeeds true) _ _ Hi eq_refl ltac:(done)). intros ps1 H1. by eapply can_mark.
  - apply (can_at s ps i _ NoAnswer _ _ Hi eq_refl ltac:(done)). intros ps1 H1. by eapply can_addresses.
  - by eapply can_mark.
  - apply (can_at s ps i _ NoAnswer _ _ Hi eq_refl ltac:(done)). intros ps1 H1. eapply can_return; [by destruct (l_handler s)|done].
  - by eapply can_return.
  - by eapply can_launch.
  - apply (can_at s ps i _ NoAnswer _ _ Hi eq_refl ltac:(done)). intros ps1 H1. by eapply can_reconnect.
  - by eapply can_reconnect.
Qed.

End progress.

(** C18: a transport never gives up.  Whatever its threads and the network did, it
    is connected, has been told to disconnect, or some thread is on its way to
    another try.  And from every such state in which it has not been told to
    disconnect there is a run that connects it without being told to, if the host
    has an address. *)
Theorem transport_never_gives_up hosts n w : reachable hosts n w ->
  served w /\ ((0 < hosts)%nat -> l_should w.1 = false -> can_connect hosts w).
Proof.
  intros Hr%served_reachable. split; [done|]. destruct w as [s ps]. intros Hh Hd.
  destruct Hr as [?|[?|(i & p & Hi & Hp)]]; [by apply can_now|cbn in *; congruence|by eapply trying_can].
Qed.

(** ** An attempt ends after [__disconnect] *)

Section stopping.
Context (hosts : nat).

(** Inside [__connect]. *)
Definition looping (p : pc) : Prop :=
  match p with
  | TestPeerConnected _ | TestShouldDisconnect _ => True
  | TestConnected c | OpenSocket _ c | ConnectSocket _ c | CloseSocket _ c | MarkConnected c | CallConnected c
  | ReturnConnected c => exists m, c = InLoop m
  | _ => False
  end.

(** The accesses left to a thread in [__connect] once it has been told to stop. *)
Definition accesses_left (p : pc) : nat :=
  match p with
  | TestShouldDisconnect _ => 1
  | TestPeerConnected _ => 2
  | ReturnConnected _ => 3
  | CallConnected _ => 4
  | MarkConnected _ => 5
  | OpenSocket p _ => 4 + 3 * p
  | CloseSocket p _ => 5 + 3 * p
  | ConnectSocket p _ => 6 + 3 * p
  | TestConnected _ => 5 + 3 * hosts
  | _ => 0
  end.

Lemma access_stopping s ps p a s' p' launched :
  l_should s = true -> looping p -> access hosts s ps p a = Some (s', p', launched) ->
  launched = false /\ (p' = Finished \/ looping p') /\ (accesses_left p' < accesses_left p)%nat.
Proof.
  intros Hd Hp E. destruct p; try done; destruct a; cbn in E; try discriminate E;
    try destruct Hp as [m ->];
    repeat match type of E with context [match ?x with _ => _ end] => destruct x eqn:? end; simplify_eq;
    cbn; (split; [done|split; [|lia]]); eauto.
Qed.

Lemma access_should s ps p a s' p' launched :
  access hosts s ps p a = Some (s', p', launched) -> l_should s = true -> l_should s' = true.
Proof.
  intros E Hd. destruct p; destruct a; cbn in E; try discriminate E;
    repeat match type of E with context [match ?x with _ => _ end] => destruct x eqn:? end; by simplify_eq.
Qed.

Lemma looping_enabled s ps p : looping p -> exists a, is_Some (access hosts s ps p a).
Proof.
  destruct p as [| | | | |[|p] c| | | | | | | | | | | | | | | |]; try done; intros _;
    try (exists NoAnswer; by eexists).
  - exists (NewSocket None). by eexists.
  - exists (Succeeds true). by eexists.
Qed.

(** The accesses of thread [i] in a run. *)
Definition accesses_of (i : nat) (ms : list (nat * answer)) : nat := length (filter (fun m => m.1 = i) ms).

Lemma attempt_stops_spec i ms : forall s ps p w', l_should s = true -> ps !! i = Some p -> p = Finished \/ looping p ->
  run_accesses hosts (s, ps) ms = Some w' ->
  exists q, w'.2 !! i = Some q /\ (q = Finished \/ looping q) /\
    (accesses_of i ms + accesses_left q <= accesses_left p)%nat.
Proof.
  induction ms as [|[j a] ms IH]; intros s ps p w' Hd Hi Hp E.
  { injection E as <-. exists p. split_and!; [done..|]. cbn. lia. }
  rewrite run_cons in E. destruct (act hosts (s, ps) (j, a)) as [[s1 ps1]|] eqn:Ea; [|done]. cbn in Ea, E.
  destruct (ps !! j) as [pj|] eqn:Hj; cbn in Ea; [|done].
  destruct (access hosts s ps pj a) as [[[s' p'] launched]|] eqn:Eb; cbn in Ea; [|done]. injection Ea as <- <-.
  pose proof (access_should _ _ _ _ _ _ _ Eb Hd) as Hd'. pose proof (lookup_lt_Some _ _ _ Hi) as Hl.
  unfold accesses_of in *. rewrite filter_cons. cbn [fst]. destruct (decide (j = i)) as [->|Hne].
  - rewrite Hi in Hj. injection Hj as <-. destruct Hp as [->|Hp]; [by destruct a|].
    destruct (access_stopping _ _ _ _ _ _ _ Hd Hp Eb) as (-> & Hp' & Hlt).
    rewrite app_nil_r in E. destruct (IH s' (<[i:=p']> ps) p' w' Hd') as (q & Hq & Hq' & Hc); [|done..|].
    { by apply list_lookup_insert_eq. }
    exists q. split_and!; [done..|]. cbn. lia.
  - destruct (IH s' (<[j:=p']> ps ++ (if launched : bool then [attempt] else [])) p w' Hd')
      as (q & Hq & Hq' & Hc); [|done..|by exists q].
    apply lookup_app_l_Some. by rewrite list_lookup_insert_ne.
Qed.

(** C20: once the transport has been told to disconnect, a background attempt makes at
    most [5 + 3 * hosts] more accesses when it is about to connect (fewer
    elsewhere), whatever the other threads do and whatever the network answers; and
    until it has finished it is never blocked. *)
Theorem attempt_stops i ms s ps p w' : l_should s = true -> ps !! i = Some p -> looping p ->
  run_accesses hosts (s, ps) ms = Some w' ->
  (accesses_of i ms <= accesses_left p)%nat /\
  exists q, w'.2 !! i = Some q /\ (q = Finished \/ exists a, is_Some (access hosts w'.1 w'.2 q a)).
Proof.
  intros Hd Hi Hp E. destruct (attempt_stops_spec i ms s ps p w' Hd Hi (or_intror Hp) E) as (q & Hq & Hq' & Hc).
  split; [lia|]. exists q. split; [done|]. destruct Hq' as [->|Hq']; [by left|right]. by apply looping_enabled.
Qed.
End stopping.

(** ** Races *)

Definition quiet (ps : list pc) : bool := forallb (fun p => bool_decide (p = Idle) || bool_decide (p = Finished)) ps.

(** Thread [i] makes [n] accesses that ask nothing. *)
Definition goes (i n : nat) : list (nat * answer) := replicate n (i, NoAnswer).
(** A call of [connect] up to its return: refused, or accepted on descriptor [fd]
    (two more accesses return to the loop). *)
Definition refused (i : nat) (fd : Z) : list (nat * answer) :=
  goes i 1 ++ [(i, NewSocket (Some fd)); (i, Succeeds false)] ++ goes i 2.
Definition accepted (i : nat) (fd : Z) : list (nat * answer) :=
  goes i 1 ++ [(i, NewSocket (Some fd)); (i, Succeeds true)] ++ goes i 2.

(** The constructor's own try fails and it starts the attempt of thread 1; then it
    sets the handler. *)
Definition construct : list (nat * answer) := refused 0 3 ++ goes 0 2.
Definition constructed : list (nat * answer) := goes 0 2.

(** The attempt gets through before the handler is set. *)
Definition early_connection : list (nat * answer) :=
  construct ++ goes 1 2 ++ accepted 1 3 ++ goes 1 2 ++ constructed.

(** Shut down after the attempt has looked at the flag. *)
Definition late_connection : list (nat * answer) :=
  construct ++ constructed ++ goes 1 3 ++
  [(0%nat, ShutDown)] ++ goes 0 2 ++
  [(1%nat, NewSocket (Some 3)); (1%nat, Succeeds true)] ++ goes 1 4 ++ goes 0 1.

(** The peer goes before the attempt that connected has looked at [m_connected]
    again: the handler starts a second attempt beside the first. *)
Definition second_attempt : list (nat * answer) :=
  construct ++ constructed ++ goes 1 2 ++ accepted 1 3 ++ goes 1 1 ++
  [(0%nat, PeerGone)] ++ goes 0 1 ++ [(0%nat, Succeeds true)] ++ goes 0 3 ++ refused 0 3 ++ goes 0 2 ++
  goes 1 3 ++ goes 2 3 ++
  [(1%nat, NewSocket (Some 3)); (2%nat, NewSocket (Some 4)); (1%nat, Succeeds true); (2%nat, Succeeds false)] ++
  goes 1 4 ++ goes 2 4 ++ goes 0 1.

(** A run that ends in a state with the decidable property [f]. *)
Lemma run_witness hosts n ms (f : Link * list pc -> bool) :
  (if run_accesses hosts (init n) ms is Some w then f w else false) = true -> exists w, reachable hosts n w /\ f w = true.
Proof.
  destruct (run_accesses hosts (init n) ms) as [w|] eqn:E; [|done]. intros Hf. exists w. split; [|done].
  apply (run_reachable hosts n ms (init n)); [apply rtc_refl|done].
Qed.

(** Three runs of the unsynchronised accesses, each of which ends with no thread
    at work.  The background attempt is started before the handler is set: the
    transport is connected and nobody was told.  An attempt that has looked at
    the flag still connects: [__disconnect] returns and the transport is connected.
    Two attempts overlap: the transport counts as connected, its descriptor is
    closed, and another one is open that nobody will close. *)
Theorem connection_races :
  (exists w, reachable 1 0 w /\
     (l_connected w.1 && l_handler w.1 && quiet w.2 && bool_decide (l_calls w.1 = [])) = true) /\
  (exists w, reachable 1 0 w /\ (l_should w.1 && l_connected w.1 && quiet w.2) = true) /\
  (exists w, reachable 1 0 w /\
     (l_connected w.1 && quiet w.2 && bool_decide (l_socket w.1 ∉ l_held w.1) && bool_decide (l_held w.1 = {[3]})) = true).
Proof.
  split_and!.
  - by apply (run_witness 1 0 early_connection).
  - by apply (run_witness 1 0 late_connection).
  - by apply (run_witness 1 0 second_attempt).
Qed.

(** ** Samples *)

(** The transport after the race of the two attempts: it counts as connected. *)
Lemma transport_never_gives_up_witness : exists w, reachable 1 0 w /\ l_connected w.1 = false /\ served w /\ can_connect 1 w.
Proof.
  destruct (run_witness 1 0 (construct ++ constructed) (fun w => negb (l_connected w.1) && negb (l_should w.1))) as (w & Hr & Hw); [reflexivity|].
  apply andb_true_iff in Hw as [Hc%negb_true_iff Hd%negb_true_iff].
  destruct (transport_never_gives_up 1 0 w Hr) as [Hs Hk]. exists w. split_and!; [exact Hr|exact Hc|exact Hs|].
  apply Hk; [lia|exact Hd].
Defined.

(** An attempt with two addresses left is told to stop: both are refused, and it
    finishes. *)
Definition stopping : list (nat * answer) :=
  [(0%nat, NewSocket (Some 3)); (0%nat, Succeeds false)] ++ goes 0 1 ++ [(0%nat, NewSocket None)] ++ goes 0 4.
Definition told_to_stop : Link := mkLink false (-1) ∅ true true (Some 0%nat) false [] [].

Lemma attempt_stops_witness :
  (accesses_of 0 stopping <= 10)%nat /\
  run_accesses 2 (told_to_stop, [OpenSocket 2 (InLoop 1)]) stopping =
    Some (mkLink false (-1) ∅ true true (Some 0%nat) false [] [], [Finished]).
Proof.
  split; [|vm_compute; reflexivity].
  apply (attempt_stops 2 0 stopping told_to_stop [OpenSocket 2 (InLoop 1)] (OpenSocket 2 (InLoop 1))
    (mkLink false (-1) ∅ true true (Some 0%nat) false [] [], [Finished])); [reflexivity|reflexivity|by exists 1|].
  vm_compute. reflexivity.
Defined.
