(* ===== verification/ShmConnect.v ===== *)
(** * ShmConnect: the connection of SHMTransport.cpp

    The constructor, [__connect] with its callback [on_connect], [__disconnect] and
    the destruction of the members, as the interleaving of the accesses of the
    thread that owns the transport and of the background attempt. *)
From S2P Require Import Prelude.

(** ** State *)

(** [m_shouldDisconnect] is in no initialiser list and has no initialiser: [x_should]
    starts with whatever was in its memory. *)
Record ShmLink := mkShmLink {
  n_connected : bool;       (* m_notifier->m_connected *)
  q_manager : bool;         (* m_smmanager is not null *)
  q_recv : bool;            (* m_recvQueue is not null *)
  q_send : bool;            (* m_sendQueue is not null *)
  x_connected : bool;       (* m_connected *)
  x_should : bool;          (* m_shouldDisconnect *)
  x_url : bool              (* m_url has not been destroyed *)
}.

Definition set_notifier (s : ShmLink) (b : bool) : ShmLink :=
  mkShmLink b (q_manager s) (q_recv s) (q_send s) (x_connected s) (x_should s) (x_url s).
Definition set_manager (s : ShmLink) (b : bool) : ShmLink :=
  mkShmLink (n_connected s) b (q_recv s) (q_send s) (x_connected s) (x_should s) (x_url s).
Definition set_recv (s : ShmLink) (b : bool) : ShmLink :=
  mkShmLink (n_connected s) (q_manager s) b (q_send s) (x_connected s) (x_should s) (x_url s).
Definition set_send (s : ShmLink) (b : bool) : ShmLink :=
  mkShmLink (n_connected s) (q_manager s) (q_recv s) b (x_connected s) (x_should s) (x_url s).
Definition set_connected (s : ShmLink) (b : bool) : ShmLink :=
  mkShmLink (n_connected s) (q_manager s) (q_recv s) (q_send s) b (x_should s) (x_url s).
Definition set_should (s : ShmLink) : ShmLink :=
  mkShmLink (n_connected s) (q_manager s) (q_recv s) (q_send s) (x_connected s) true (x_url s).
Definition end_url (s : ShmLink) : ShmLink :=
  mkShmLink (n_connected s) (q_manager s) (q_recv s) (q_send s) (x_connected s) (x_should s) false.

(** [valid()] *)
Definition valid (s : ShmLink) : bool := n_connected s && x_connected s.

(** Where a thread is in [on_connect]. *)
Inductive oc := OC_url | OC_manager | OC_recv | OC_send | OC_connected.
Definition oc_step (s : ShmLink) (k : oc) : outcome (ShmLink * option oc) :=
  match k with
  | OC_url => if x_url s then Ok (s, Some OC_manager) else undefined UseAfterFree
  | OC_manager => Ok (set_manager s true, Some OC_recv)
  | OC_recv => if q_manager s then Ok (set_recv s true, Some OC_send) else undefined NullDeref
  | OC_send => if q_manager s then Ok (set_send s true, Some OC_connected) else undefined NullDeref
  | OC_connected => Ok (set_connected s true, None)
  end.

(** The owner: constructor, use, [__disconnect], and the members in the reverse order
    of their declaration: [m_url] goes before [m_connectionAttemptInProgress], whose
    destructor waits for the attempt. *)
Inductive owner_pc :=
  | C_connect                       (* m_notifier->connect() *)
  | C_on (k : oc)                   (* on_connect() *)
  | C_launch                        (* std::async(&SHMTransport::__connect) *)
  | Using
  | D_connected | D_should | D_recv | D_send | D_manager   (* __disconnect *)
  | M_url | M_future | Gone.
(** The background attempt. *)
Inductive attempt_pc :=
  | B_none
  | B_notifier                      (* while (!m_notifier->is_connected() && ... *)
  | B_should                        (*   ... m_shouldDisconnect == false) *)
  | B_connect                       (* m_notifier->connect() *)
  | B_backoff                       (* strategy.backoff() *)
  | B_check                         (* if (!m_shouldDisconnect) *)
  | B_on (k : oc)                   (* on_connect() *)
  | B_finished.

Record sys := mkSys { link : ShmLink; owner : owner_pc; background : attempt_pc }.

(** What the environment decides: the answer of connect, and what the owner does with
    the transport: send a message whose notification fails, or destroy it. *)
Inductive answer := NoAnswer | Succeeds (b : bool) | NotifyFails | Destroy.

Definition owner_step (w : sys) (a : answer) : option (outcome sys) :=
  let s := link w in
  let go s p := Some (Ok (mkSys s p (background w))) in
  match owner w, a with
  | C_connect, Succeeds b => if b then go (set_notifier s true) (C_on OC_url) else go s C_launch
  | C_on k, NoAnswer =>
      Some ('(s, k) ← oc_step s k; Ok (mkSys s (match k with Some k => C_on k | None => Using end) (background w)))
  | C_launch, NoAnswer => Some (Ok (mkSys s Using B_notifier))
  | Using, NotifyFails => if valid s then go (set_notifier s false) Using else None
  | Using, Destroy => go s D_connected
  | D_connected, NoAnswer => go (set_connected s false) D_should
  | D_should, NoAnswer => go (set_should s) D_recv
  | D_recv, NoAnswer => go (set_recv s false) D_send
  | D_send, NoAnswer => go (set_send s false) D_manager
  | D_manager, NoAnswer => go (set_manager s false) M_url
  | M_url, NoAnswer => go (end_url s) M_future
  | M_future, NoAnswer => match background w with B_none | B_finished => go s Gone | _ => None end
  | _, _ => None
  end.

Definition attempt_step (w : sys) (a : answer) : option (outcome sys) :=
  let s := link w in
  let go s p := Some (Ok (mkSys s (owner w) p)) in
  match background w, a with
  | B_notifier, NoAnswer => go s (if n_connected s then B_check else B_should)
  | B_should, NoAnswer => go s (if x_should s then B_check else B_connect)
  | B_connect, Succeeds b => if b then go (set_notifier s true) B_notifier else go s B_backoff
  | B_backoff, NoAnswer => go s B_notifier
  | B_check, NoAnswer => go s (if x_should s then B_finished else B_on OC_url)
  | B_on k, NoAnswer =>
      Some ('(s, k) ← oc_step s k; Ok (mkSys s (owner w) (match k with Some k => B_on k | None => B_finished end)))
  | _, _ => None
  end.

Inductive thread := Owner | Attempt.
Definition act (w : sys) (m : thread * answer) : option (outcome sys) :=
  match m.1 with Owner => owner_step w m.2 | Attempt => attempt_step w m.2 end.

Inductive step : sys -> sys -> Prop :=
  | step_act w m w' : act w m = Some (Ok w') -> step w w'.

Definition init (garbage : bool) : sys :=
  mkSys (mkShmLink false false false false false garbage true) C_connect B_none.
Definition reachable (garbage : bool) (w : sys) : Prop := rtc step (init garbage) w.

Fixpoint run_steps (w : sys) (ms : list (thread * answer)) : option (outcome sys) :=
  match ms with
  | [] => Some (Ok w)
  | m :: ms => match act w m with Some (Ok w) => run_steps w ms | r => r end
  end.

Lemma run_steps_reachable garbage ms : forall w w', reachable garbage w -> run_steps w ms = Some (Ok w') -> reachable garbage w'.
Proof.
  induction ms as [|m ms IH]; intros w w' Hw E; cbn in E; [by injection E as <-|].
  destruct (act w m) as [[w1|]|] eqn:Ea; [|done..]. apply (IH w1); [|done]. eapply rtc_r; [done|by econstructor].
Qed.

(** What every step keeps holds from there on. *)
Lemma steps_keep (P : sys -> Prop) w w' : (forall w1 w2, step w1 w2 -> P w1 -> P w2) -> rtc step w w' -> P w -> P w'.
Proof. intros Hs H Hw. induction H; eauto. Qed.

(** One case per program point of the two threads. *)
Ltac cases E :=
  repeat match type of E with context [match ?x with _ => _ end] => destruct x eqn:? end; simplify_eq.
Ltac each_access :=
  intros ? ? [[[] ? ?] [[] ?] ? E]; unfold act, owner_step, attempt_step, oc_step in E; cbn in E; cases E;
  cbn in *; inv_bind; cbn in *; naive_solver.

(** ** What holds until the transport is destroyed *)

(** How far [on_connect] has come. *)
Definition built_up (s : ShmLink) (k : oc) : Prop :=
  match k with
  | OC_url | OC_manager => True
  | OC_recv => q_manager s = true
  | OC_send => q_manager s = true /\ q_recv s = true
  | OC_connected => q_manager s = true /\ q_recv s = true /\ q_send s = true
  end.
Definition complete (s : ShmLink) : Prop := q_manager s = true /\ q_recv s = true /\ q_send s = true.

Definition before_end (p : owner_pc) : Prop :=
  match p with C_connect | C_on _ | C_launch | Using => True | _ => False end.

(** The owner and the attempt never run [on_connect] at the same time; a connected
    transport has its queues. *)
Definition connect_inv (w : sys) : Prop :=
  before_end (owner w) ->
  x_url (link w) = true /\ (x_connected (link w) = true -> complete (link w)) /\
  (owner w <> Using -> background w = B_none /\ x_connected (link w) = false) /\
  (forall k, owner w = C_on k -> built_up (link w) k) /\ (forall k, background w = B_on k -> built_up (link w) k) /\
  (match background w with B_none => owner w = Using -> x_connected (link w) = true | B_finished => True | _ => x_connected (link w) = false end).

Lemma connect_inv_step w w' : step w w' -> connect_inv w -> connect_inv w'.
Proof. unfold connect_inv, complete. revert w w'. each_access. Qed.

Lemma connect_inv_reachable garbage w : reachable garbage w -> connect_inv w.
Proof. intros H. eapply (steps_keep connect_inv); [apply connect_inv_step|done|]. intros _. cbn. naive_solver. Qed.

(** A transport that says it is valid can be used: its segment and both queues are
    there. *)
Theorem shm_valid_usable garbage w :
  reachable garbage w -> owner w = Using -> valid (link w) = true -> complete (link w).
Proof.
  intros Hr Ho Hv. destruct (connect_inv_reachable garbage w Hr) as (_ & Hc & _); [by rewrite Ho|].
  apply Hc. unfold valid in Hv. by apply andb_true_iff in Hv as [_ ?].
Qed.

(** ** How long it tries *)

Definition trying (p : attempt_pc) : Prop := match p with B_none | B_finished => False | _ => True end.

(** With [m_shouldDisconnect] false at the start. *)
Definition patient (w : sys) : Prop :=
  before_end (owner w) -> x_should (link w) = false /\ (background w = B_finished -> x_connected (link w) = true).

Lemma patient_step w w' : step w w' -> connect_inv w /\ patient w -> connect_inv w' /\ patient w'.
Proof.
  intros Hs [I P]. split; [by eapply connect_inv_step|]. revert Hs I P. unfold connect_inv, patient. revert w w'. each_access.
Qed.

Lemma patient_reachable w : reachable false w -> patient w.
Proof.
  intros H. eapply (steps_keep (fun w => connect_inv w /\ patient w)); [apply patient_step|done|].
  split; [by apply (connect_inv_reachable false), rtc_refl|]. intros _. by split.
Qed.

(** A transport in use has been connected or an attempt is on its way, if
    [m_shouldDisconnect] happens to be false at the start. *)
Theorem shm_keeps_trying w : reachable false w -> owner w = Using ->
  x_connected (link w) = true \/ trying (background w).
Proof.
  intros Hr Ho. destruct (patient_reachable w Hr) as [_ P]; [by rewrite Ho|].
  destruct (connect_inv_reachable false w Hr) as (_ & _ & _ & _ & _ & I); [by rewrite Ho|].
  destruct (background w); cbn; auto.
Qed.

(** If it happens to be true, the transport makes one try and no other. *)
Definition gives_up (w : sys) : Prop :=
  x_should (link w) = true /\ n_connected (link w) = false /\
  (owner w <> C_connect /\ (forall k, owner w <> C_on k) /\ background w <> B_connect /\ (forall k, background w <> B_on k)).

Theorem shm_uninitialised_gives_up w w' : rtc step w w' -> gives_up w -> valid (link w') = false /\ background w' <> B_connect.
Proof.
  intros H Hw. assert (gives_up w') as (_ & Hn & _ & _ & Hb & _); [|by unfold valid; rewrite Hn].
  revert H Hw. apply steps_keep. unfold gives_up. each_access.
Qed.

(** A transport that was connected and whose router went away stays invalid until it
    is destroyed: unlike the TCP transport it makes no other attempt. *)
Definition cut_off (w : sys) : Prop :=
  n_connected (link w) = false /\ ~ trying (background w) /\ owner w <> C_connect /\ (forall k, owner w <> C_on k) /\ owner w <> C_launch.

Theorem shm_never_reconnects garbage w w' :
  reachable garbage w -> owner w = Using -> x_connected (link w) = true -> n_connected (link w) = false ->
  rtc step w w' -> valid (link w') = false.
Proof.
  intros Hr Ho Hx Hn Hs. assert (cut_off w) as Hc.
  { destruct (connect_inv_reachable garbage w Hr) as (_ & _ & _ & _ & _ & I); [by rewrite Ho|].
    unfold cut_off. rewrite Ho. split_and!; try done. intros Ht. destruct (background w); cbn in Ht; congruence. }
  assert (cut_off w') as [Hn' _]; [|by unfold valid; rewrite Hn'].
  revert Hs Hc. apply steps_keep. unfold cut_off. each_access.
Qed.

(** ** The end *)

(** The transport is gone only when no attempt runs. *)
Theorem shm_gone_quiet garbage w : reachable garbage w -> owner w = Gone -> ~ trying (background w).
Proof.
  intros H. eapply (steps_keep (fun w => owner w = Gone -> ~ trying (background w))); [|done..]. each_access.
Qed.

(** Once told to disconnect, an attempt ends after a bounded number of its own
    accesses, if none of them fails. *)
Definition accesses_left (p : attempt_pc) : nat :=
  match p with
  | B_none | B_finished => 0
  | B_on OC_connected => 1 | B_on OC_send => 2 | B_on OC_recv => 3 | B_on OC_manager => 4 | B_on OC_url => 5
  | B_check => 6 | B_should => 7 | B_notifier => 8 | B_backoff => 9 | B_connect => 10
  end.
Theorem shm_attempt_stops w a w' : x_should (link w) = true -> attempt_step w a = Some (Ok w') ->
  (accesses_left (background w') < accesses_left (background w))%nat /\ x_should (link w') = true.
Proof.
  intros Hs E. destruct w as [[nc qm qr qs xc xs xu] o b]. cbn in Hs. subst xs.
  unfold attempt_step, oc_step in E. cbn in E. destruct b, a; try done; cases E; cbn in *; inv_bind; cbn in *; split; (done || lia).
Qed.

(** ** Where it fails

    The owner destroys the transport while the attempt is in [on_connect]: the path
    of the segment is read from a URL that is gone, the second queue is made in a
    segment that is not there, or the transport is connected after its shutdown. *)
Definition into_on_connect : list (thread * answer) :=
  [(Owner, Succeeds false); (Owner, NoAnswer); (Attempt, NoAnswer); (Attempt, NoAnswer); (Attempt, Succeeds true);
   (Attempt, NoAnswer); (Attempt, NoAnswer)].
Definition shut_down : list (thread * answer) :=
  (Owner, Destroy) :: replicate 5 (Owner, NoAnswer).

Theorem shm_shutdown_races :
  (exists w, reachable false w /\ act w (Attempt, NoAnswer) = Some (undefined UseAfterFree)) /\
  (exists w, reachable false w /\ act w (Attempt, NoAnswer) = Some (undefined NullDeref)) /\
  (exists w, reachable false w /\ owner w = M_url /\ x_connected (link w) = true).
Proof.
  assert (forall ms w, run_steps (init false) ms = Some (Ok w) -> reachable false w) as R
    by (intros ms w; apply run_steps_reachable; constructor).
  split_and!.
  - eexists. split; [apply (R (into_on_connect ++ shut_down ++ [(Owner, NoAnswer)])); reflexivity|reflexivity].
  - eexists. split; [apply (R (into_on_connect ++ [(Attempt, NoAnswer); (Attempt, NoAnswer)] ++ shut_down)); reflexivity|reflexivity].
  - eexists. split; [apply (R (into_on_connect ++ replicate 4 (Attempt, NoAnswer) ++ shut_down ++ [(Attempt, NoAnswer)])); reflexivity|done].
Qed.

(** ** Samples *)

Definition connected_later : list (thread * answer) := into_on_connect ++ replicate 5 (Attempt, NoAnswer).
Definition after_steps (garbage : bool) (ms : list (thread * answer)) : sys :=
  match run_steps (init garbage) ms with Some (Ok w) => w | _ => init garbage end.

Lemma shm_valid_usable_witness : complete (link (after_steps false connected_later)).
Proof.
  apply (shm_valid_usable false); [|reflexivity|reflexivity].
  apply (run_steps_reachable false connected_later (init false)); [constructor|reflexivity].
Defined.

Lemma shm_keeps_trying_witness :
  x_connected (link (after_steps false (take 4 connected_later))) = true \/ trying (background (after_steps false (take 4 connected_later))).
Proof.
  apply shm_keeps_trying; [|reflexivity].
  apply (run_steps_reachable false (take 4 connected_later) (init false)); [constructor|reflexivity].
Defined.

Lemma shm_uninitialised_gives_up_witness :
  valid (link (after_steps true [(Owner, Succeeds false); (Owner, NoAnswer); (Attempt, NoAnswer)])) = false.
Proof.
  apply (shm_uninitialised_gives_up (after_steps true [(Owner, Succeeds false); (Owner, NoAnswer)])).
  - eapply rtc_once, (step_act _ (Attempt, NoAnswer)). reflexivity.
  - split_and!; cbn; done.
Defined.

Lemma shm_never_reconnects_witness :
  valid (link (after_steps false (connected_later ++ [(Owner, NotifyFails)]))) = false.
Proof.
  apply (shm_never_reconnects false (after_steps false (connected_later ++ [(Owner, NotifyFails)]))); try reflexivity.
  apply (run_steps_reachable false (connected_later ++ [(Owner, NotifyFails)]) (init false)); [constructor|reflexivity].
Defined.

Lemma shm_gone_quiet_witness :
  ~ trying (background (after_steps false (connected_later ++ shut_down ++ [(Owner, NoAnswer); (Owner, NoAnswer)]))).
Proof.
  apply (shm_gone_quiet false); [|reflexivity].
  apply (run_steps_reachable false (connected_later ++ shut_down ++ [(Owner, NoAnswer); (Owner, NoAnswer)]) (init false)); [constructor|reflexivity].
Defined.

Lemma shm_attempt_stops_witness : exists w', attempt_step (mkSys (set_should (link (init false))) D_recv B_should) NoAnswer = Some (Ok w') /\
  (accesses_left (background w') < 7)%nat.
Proof. eexists. split; [reflexivity|]. apply (shm_attempt_stops (mkSys (set_should (link (init false))) D_recv B_should) NoAnswer); reflexivity. Defined.
