(* ===== verification/Endpoints.v ===== *)
(** * Endpoints: who listens and who connects

    src/fastpath/event/notifier.h with both its implementations,
    transport/sm/InterprocessNotifier*.cpp (the hand-over of the notifiers of a
    shared memory client), router/tcp_server_transport.cpp, the constructors of
    TCPTransport and SHMTransport and transport/realm_transport.cpp, which chooses
    between them. *)
From S2P Require Import Prelude Heap Url Transport Poll Sockets.

(** ** notifier.h *)

(** A counter of eventfd(2), non-blocking: a write adds to the value unless it would
    exceed [2^64 - 2], a read takes the whole value unless it is zero. *)
Class EventCounter (C : Type) := {
  value : C -> Z;
  sys_write : C -> Z -> bool * C;
  sys_read : C -> bool * C;
  write_ok c v : 0 <= v -> value c + v <= 2 ^ 64 - 2 -> (sys_write c v).1 = true /\ value (sys_write c v).2 = value c + v;
  write_full c v : 2 ^ 64 - 2 < value c + v -> (sys_write c v).1 = false /\ value (sys_write c v).2 = value c;
  read_some c : value c <> 0 -> (sys_read c).1 = true /\ value (sys_read c).2 = 0;
  read_none c : value c = 0 -> (sys_read c).1 = false /\ value (sys_read c).2 = 0
}.

Section eventfd.
Context {C : Type} `{EventCounter C}.

(** arch/linux/notifier.h *)
Definition notify (c : C) : bool * C := sys_write c 1.
Definition reset (c : C) : bool * C := sys_read c.

Lemma notify_value c : 0 <= value c < 2 ^ 64 - 2 -> (notify c).1 = true /\ value (notify c).2 = value c + 1.
Proof. intros Hc. apply write_ok; lia. Qed.

Lemma notify_many n : forall c, 0 <= value c -> value c + Z.of_nat n <= 2 ^ 64 - 2 ->
  value (Nat.iter n (fun c => (notify c).2) c) = value c + Z.of_nat n.
Proof.
  induction n as [|n IH]; intros c H0 Hn; [cbn; lia|].
  change (Nat.iter (S n) (fun c => (notify c).2) c) with (notify (Nat.iter n (fun c => (notify c).2) c)).2.
  destruct (notify_value (Nat.iter n (fun c => (notify c).2) c)) as [_ ->]; rewrite IH; lia.
Qed.

(** Any number of notifications between two resets is one wake-up: the first reset
    succeeds exactly if there was one, the next reports that there is none. *)
Lemma notify_coalesces n c : value c = 0 -> Z.of_nat n <= 2 ^ 64 - 2 ->
  let c1 := Nat.iter n (fun c => (notify c).2) c in
  (reset c1).1 = negb (Nat.eqb n 0) /\ (reset (reset c1).2).1 = false.
Proof.
  intros H0 Hn c1. assert (value c1 = Z.of_nat n) as Hv by (unfold c1; rewrite notify_many; lia).
  unfold reset. destruct n as [|n].
  - destruct (read_none c1) as [-> Hz]; [lia|]. split; [done|]. by apply read_none.
  - destruct (read_some c1) as [-> Hz]; [lia|]. split; [done|]. by apply read_none.
Qed.
End eventfd.

(** [notify_and_wait] of arch/mac/notifier.h: the lock is taken, and the loop goes on
    as long as it is not; [locked] is what the flag holds at the [n]th
    [test_and_set] of the loop, which sets it. *)
Fixpoint wait_loop (n : nat) (locked : nat -> bool) : option nat :=
  match n with
  | O => None
  | S n => if locked O then Some O else S <$> wait_loop n (fun i => locked (S i))
  end.

(** The wait is over at the first turn, before any [reset]; with a [reset] in
    between it takes one turn more. *)
Lemma notify_and_wait_returns n locked : locked O = true -> wait_loop (S n) locked = Some O.
Proof. cbn. by intros ->. Qed.

(** ** Passing descriptors *)

Definition MAX_FDS : Z := 960.

(** A message with its ancillary data: the process id in the payload, and the
    descriptors of its control message, if it has one. *)
Record Ancillary := mkAncillary { a_pid : option Z; a_control : option (list Z) }.
Inductive RecvMsg := RecvMsgError (would_block : bool) | RecvMsgData (m : Ancillary).

(** [CMSG_LEN(sizeof(int) * n)] and [sizeof(struct cmsghdr)] *)
Definition cmsghdr_size : Z := 16.
Definition CMSG_LEN (n : Z) : Z := cmsghdr_size + 4 * n.

(** [InterprocessNotifier::send_fds]: the message handed to [sendmsg]. *)
Definition send_fds (pid : Z) (fds : list Z) : outcome Ancillary :=
  _ ← assert_ (Z.of_nat (length fds) <? MAX_FDS);
  Ok (mkAncillary (Some pid) (Some fds)).

(** [UnixSocket::read_ancillary]: its result, and whether it disconnects. *)
Definition read_ancillary (r : RecvMsg) : ReadResult * bool :=
  match r with
  | RecvMsgData _ => (MoreData, false)
  | RecvMsgError true => (NoData, false)
  | RecvMsgError false => (Closed, true)
  end.

(** [InterprocessNotifier::receive_fd] with room for [num_fds] descriptors: whether
    it succeeded, what it stored to [fds], [num_fds] and [pid].  The kernel
    delivers at most what the control buffer it was given has room for. *)
Definition delivered_control (num_fds : Z) (fds : list Z) : list Z := take (Z.to_nat num_fds) fds.
Definition receive_fd (num_fds pid : Z) (r : RecvMsg) : outcome (bool * list Z * Z * Z) :=
  _ ← assert_ (num_fds <? MAX_FDS);
  match (read_ancillary r).1, r with
  | MoreData, RecvMsgData m =>
      let pid := default pid (a_pid m) in
      match delivered_control num_fds <$> a_control m with
      | Some fds =>
          let cmsg_len := CMSG_LEN (Z.of_nat (length fds)) in
          let num_fds := Z.min num_fds ((cmsg_len - cmsghdr_size) `div` 4) in
          Ok (true, take (Z.to_nat num_fds) fds, num_fds, pid)
      | None => Ok (false, [], num_fds, pid)
      end
  | _, _ => Ok (false, [], num_fds, pid)
  end.

(** A notifier over the two ends of a notification (the same descriptor on Linux). *)
Record notifier := mkNotifier { n_read : Z; n_signal : Z }.
(** [notifier(fd, direction)] with an eventfd. *)
Definition notifier_of (fd : Z) : notifier := mkNotifier fd fd.

(** [InterprocessNotifierServer::receivedClientConnection]: what it hands to the
    callback, the notifier to read, the one to write and the process id. *)
Definition receivedClientConnection (connection : option SocketObject) (r : RecvMsg)
    : outcome (option (notifier * notifier * SocketObject * Z)) :=
  match connection with
  | Some c =>
      '(ok, fd, max, sending_pid) ← receive_fd 256 (-1) r;
      if ok : bool then
        _ ← assert_ (max =? 2);
        match fd with
        | [fd0; fd1] => Ok (Some (notifier_of fd0, notifier_of fd1, c, sending_pid))
        | _ => undefined IndeterminateRead
        end
      else Ok None
  | None => Ok None
  end.

(** [InterprocessNotifierClient]: the notifiers and whether it counts as connected. *)
Record NotifierClient := mkNotifierClient { inbound : notifier; outbound : notifier; nc_connected : bool }.

(** [connect]: [socket] is what connecting the Unix socket answers; the answer of
    [sendmsg] is not used. *)
Definition NotifierClient_connect (c : NotifierClient) (socket : bool) (pid : Z)
    : outcome (bool * NotifierClient * option Ancillary) :=
  if negb (nc_connected c) && socket then
    m ← send_fds pid [n_read (outbound c); n_signal (inbound c)];
    Ok (true, mkNotifierClient (inbound c) (outbound c) true, Some m)
  else Ok (false, c, None).

(** [notify]: [written] is what notifying [outbound_notification] answers. *)
Definition NotifierClient_notify (c : NotifierClient) (written : bool) : bool * NotifierClient :=
  let c := if written then c else mkNotifierClient (inbound c) (outbound c) false in
  (nc_connected c, c).

(** Each sides' write end is the other side's read end. *)
Lemma handshake_spec c pid s m : (exists c', NotifierClient_connect c true pid = Ok (true, c', Some m)) ->
  receivedClientConnection (Some s) (RecvMsgData m)
  = Ok (Some (notifier_of (n_read (outbound c)), notifier_of (n_signal (inbound c)), s, pid)).
Proof.
  intros [c' E]. unfold NotifierClient_connect in E. destruct (negb (nc_connected c) && true); [|done].
  cbn in E. by injection E as _ <-.
Qed.

(** A peer that passes any other number of descriptors stops the router at its
    assertion. *)
Lemma handshake_other s m fds : a_control m = Some fds -> length fds <> 2%nat ->
  receivedClientConnection (Some s) (RecvMsgData m) = Err AssertFail.
Proof.
  intros Hm Hl. unfold receivedClientConnection, receive_fd. rewrite Hm. cbn [fmap option_fmap option_map assert_ Z.ltb].
  cbn -[delivered_control Z.of_nat Z.div Z.mul]. set (l := Z.of_nat (length (delivered_control 256 fds))).
  assert (Z.min 256 ((CMSG_LEN l - cmsghdr_size) `div` 4) <> 2) as Hn.
  { unfold CMSG_LEN, cmsghdr_size. replace (16 + 4 * l - 16) with (l * 4) by lia. rewrite Z.div_mul by lia.
    subst l. unfold delivered_control. rewrite length_take. lia. }
  by rewrite (proj2 (Z.eqb_neq _ _) Hn).
Qed.

(** The hand-over of a shared memory client.  The router gets exactly the
    client's ends: what the client signals it reads, what it signals the client
    reads, with the client's process id; and the router stops at its assertion when
    any other number of descriptors arrives. *)
Theorem handshake c pid s c' m :
  NotifierClient_connect c true pid = Ok (true, c', Some m) ->
  receivedClientConnection (Some s) (RecvMsgData m)
  = Ok (Some (notifier_of (n_read (outbound c')), notifier_of (n_signal (inbound c')), s, pid)) /\
  forall m' fds, a_control m' = Some fds -> length fds <> 2%nat ->
    receivedClientConnection (Some s) (RecvMsgData m') = Err AssertFail.
Proof.
  intros E. split; [|intros m' fds; apply handshake_other].
  rewrite (handshake_spec c pid s m) by eauto. unfold NotifierClient_connect in E.
  destruct (negb (nc_connected c) && true); [|done]. cbn in E. by injection E as <- _.
Qed.

(** ** Servers *)

Section servers.
Context {K A X : Type} `{SocketKernel K A}.
Context (have_lowdelay have_nosigpipe : bool).
Context (getaddrinfo : option (list Z) -> list Z -> option (list A)) (unix_address : list Z -> A).

(** [InterprocessNotifierServer(identifier, callback)]; a constructor that throws
    destroys the socket it has. *)
Definition NotifierServer_new (identifier : list Z) (k : K) (x : X) : outcome (@world K X) :=
  '(s, k) ← UnixSocketServer_new unix_address identifier k;
  let w := unix_setOptions SocketOptionsNonBlocking (mkWorld k s x) in
  let '(ok, w) := unix_server_connect unix_address None identifier SocketOptionsNone w in
  if ok then Ok w else throw FpException.

(** [tcp_server_transport(queue, callback, interface, service)] (noexcept): the
    socket, and the descriptor it registers for reading if it listens. *)
Definition tcp_server_options : Z :=
  Z.lor (Z.lor SocketOptionsDisableNagle SocketOptionsDisableSigPipe) SocketOptionsNonBlocking.
Definition tcp_server_transport_new (interface service : list Z) (k : K) (x : X) : outcome (@world K X * option Z) :=
  match resolve getaddrinfo interface service with
  | Ok m_hostInfo =>
      let '(ok, w) := server_connect have_lowdelay have_nosigpipe None m_hostInfo tcp_server_options (mkWorld k Socket_new x) in
      Ok (w, if ok then Some (so_socket (w_socket w)) else None)
  | Err (Throw _) => Err Terminate
  | Err f => Err f
  end.

(** [tcp_peer_connection(queue, socket)]: the descriptor it registers. *)
Definition tcp_peer_connection_new (socket : option SocketObject) : outcome Z :=
  match socket with Some s => Ok (so_socket s) | None => undefined NullDeref end.

(** The handler of a waiting connection up to the connection callback. *)
Definition connection_attempt (w : @world K X) : outcome (SocketObject * Z * @world K X) :=
  let '(s, w) := acceptPendingConnection w in
  fd ← tcp_peer_connection_new s;
  match s with Some s => Ok (s, fd, w) | None => undefined NullDeref end.

(** The listening descriptor of the notifier server: the constructor makes it
    non-blocking, and [connect] with [SocketOptionsNone] undoes it. *)
Theorem notifier_server_blocking identifier k x w :
  NotifierServer_new identifier k x = Ok w ->
  (forall s k', UnixSocketServer_new unix_address identifier k = Ok (s, k') -> so_socket s ∈ opened k') ->
  has_bits (status_flags (w_kernel w) (so_socket (w_socket w))) O_NONBLOCK = false.
Proof.
  unfold NotifierServer_new. intros E Ho. inv_bind. destruct x0 as [s k'].
  destruct (unix_server_connect _ _ _ _ _) as [[] w1] eqn:Ec; [|done]. injection E as <-.
  apply unix_listen_flags in Ec; [exact Ec| |].
  - unfold UnixSocketServer_new, UnixSocket_new in H0. destruct (_ <? _); [|done]. cbn in H0.
    destruct (sys_socket _ _) as [fd k1]. cbn in H0. destruct (sys_unlink _ _) as [r k2].
    destruct (bool_decide _); [done|]. by injection H0 as <- <-.
  - cbn. rewrite set_blocking_opened. by apply Ho.
Qed.

(** A waiting connection that is gone when the router accepts it makes it
    dereference the null pointer that [acceptPendingConnection] returns. *)
Lemma accept_nothing (w : @world K X) : (sys_accept (w_kernel w) (so_socket (w_socket w))).1 = None ->
  connection_attempt w = undefined NullDeref.
Proof. unfold connection_attempt, acceptPendingConnection. by destruct (sys_accept _ _) as [[fd|] k]. Qed.

Lemma accept_one (w : @world K X) fd k : sys_accept (w_kernel w) (so_socket (w_socket w)) = (Some fd, k) ->
  connection_attempt w = Ok (Socket_of fd true, fd, on_kernel w k).
Proof. unfold connection_attempt, acceptPendingConnection. by intros ->. Qed.

(** ** realm_transport.cpp *)

(** A function declared [throw(E)]: an exception of another type ends the program. *)
Definition throws_only {B} (e : exn_kind) (o : outcome B) : outcome B :=
  match o with
  | Err (Throw e') => if bool_decide (e' = e) then o else Err Terminate
  | o => o
  end.

(** [tf::get_temp_directory] with the environment [getenv]. *)
Definition env_locations : list (list Z) := bytes_of_string <$> ["TMPDIR"; "TMP"; "TEMP"; "TEMPDIR"]%string.
Definition get_temp_directory (getenv : list Z -> option (list Z)) : list Z :=
  default (bytes_of_string "/tmp/") (foldr (fun env rest => match getenv env with Some l => Some l | None => rest end) None env_locations).

(** The path of the router's Unix socket, the same at both ends. *)
Definition ipc_file (getenv : list Z -> option (list Z)) (port : list Z) : list Z :=
  get_temp_directory getenv ++ bytes_of_string "fprouter_" ++ port.

(** A transport after its constructor: the peer or the notification socket, and
    whether a background attempt was started. *)
Inductive RealmTransport :=
  | TcpRealm (w : @world K X) (attempt : bool)
  | ShmRealm (w : @world K X) (attempt : bool).

(** [TCPTransport(url, description)]: the handler is set afterwards. *)
Definition TCPTransport_new (u : url) (k : K) (x : X) : outcome RealmTransport :=
  m_hostInfo ← resolve getaddrinfo (m_host u) (m_port u);
  let '(ok, w) := client_connect have_lowdelay have_nosigpipe None m_hostInfo SocketOptionsNone (mkWorld k Socket_new x) in
  Ok (TcpRealm w (negb ok)).

(** [SHMTransport(url, description)] up to the connection; the constructor of the
    notifier client is noexcept. *)
Definition SHMTransport_new (getenv : list Z -> option (list Z)) (u : url) (k : K) (x : X) : outcome RealmTransport :=
  let path := ipc_file getenv (m_port u) in
  match UnixSocket_new unix_address path k with
  | Ok (s, k) =>
      let '(ok, w) := unix_client_connect unix_address None path SocketOptionsNone (mkWorld k s x) in
      Ok (ShmRealm w (negb ok))
  | Err (Throw _) => Err Terminate
  | Err f => Err f
  end.

Definition make_realm_connection (getenv : list Z -> option (list Z)) (connection_url : list Z) (k : K) (x : X)
    : outcome RealmTransport :=
  throws_only FpException (
    u ← url_new connection_url;
    if bool_decide (m_protocol u = bytes_of_string "tcp") then TCPTransport_new u k x
    else if bool_decide (m_protocol u = bytes_of_string "shm") then SHMTransport_new getenv u k x
    else throw FpException).

(** What a parsed URL gives. *)
Lemma make_realm_url getenv s u k x : url_new s = Ok u ->
  make_realm_connection getenv s k x = throws_only FpException (
    if bool_decide (m_protocol u = bytes_of_string "tcp") then TCPTransport_new u k x
    else if bool_decide (m_protocol u = bytes_of_string "shm") then SHMTransport_new getenv u k x
    else throw FpException).
Proof. unfold make_realm_connection. by intros ->. Qed.

Lemma TCPTransport_new_owns u k x m_hostInfo : resolve getaddrinfo (m_host u) (m_port u) = Ok m_hostInfo ->
  exists w, TCPTransport_new u k x = Ok (TcpRealm w (negb (so_connected (w_socket w)))) /\ owns (opened k) w.
Proof.
  intros Hr. unfold TCPTransport_new. rewrite Hr. cbn.
  assert (owns (opened k) (mkWorld k Socket_new x)) as Ho by done.
  apply (owns_client_connect have_lowdelay have_nosigpipe None _ m_hostInfo SocketOptionsNone) in Ho; [|apply respects_none].
  destruct (client_connect _ _ _ _ _ _) as [ok w] eqn:E. exists w. split; [|exact Ho].
  unfold client_connect in E. by injection E as <- <-.
Qed.

(** C34: [make_realm_connection] on every string.  It throws only the exception it
    declares, and only for a URL of another protocol; a string without [://], a host
    that does not resolve or a path that is too long for a Unix socket ends the
    program; a query with an empty parameter is undefined.  With [tcp] the transport
    has the socket of its peer and no other new descriptor, and starts a background
    attempt exactly if it is not connected. *)
Theorem make_realm_connection_outcome getenv s k x :
  let result := make_realm_connection getenv s k x in
  if bool_decide ((search prot_end s).2 = []) then result = Err Terminate
  else if empty_parameter s then result = undefined InvalidIterator
  else exists u, url_new s = Ok u /\
    (m_protocol u = bytes_of_string "tcp" ->
       match resolve getaddrinfo (m_host u) (m_port u) with
       | Ok _ => exists w, result = Ok (TcpRealm w (negb (so_connected (w_socket w)))) /\ owns (opened k) w
       | Err _ => result = Err Terminate
       end) /\
    (m_protocol u = bytes_of_string "shm" ->
       if Z.of_nat (length (ipc_file getenv (m_port u))) <? sun_path_size
       then exists w, result = Ok (ShmRealm w (negb (so_connected (w_socket w))))
       else result = Err Terminate) /\
    (m_protocol u <> bytes_of_string "tcp" -> m_protocol u <> bytes_of_string "shm" -> result = throw FpException).
Proof.
  cbv zeta. pose proof (url_new_cases s) as Hc. destruct (url_new s) as [u|f] eqn:Hu.
  2:{ destruct Hc as [[H1 ->]|(H1 & -> & ->)]; unfold make_realm_connection; rewrite Hu;
        [by rewrite bool_decide_eq_true_2|by rewrite bool_decide_eq_false_2]. }
  destruct Hc as [H1 ->]. rewrite bool_decide_eq_false_2 by done. exists u. split; [done|].
  rewrite (make_realm_url _ _ _ _ _ Hu). split_and!.
  - intros Hp. rewrite bool_decide_eq_true_2 by done. destruct (resolve _ _ _) as [l|f] eqn:Er.
    + destruct (TCPTransport_new_owns u k x l Er) as (w & -> & Ho). by exists w.
    + unfold TCPTransport_new. rewrite Er. unfold resolve in Er. by destruct (getaddrinfo _ _); simplify_eq.
  - intros Hp. rewrite bool_decide_eq_false_2, bool_decide_eq_true_2 by (done || by rewrite Hp).
    unfold SHMTransport_new, UnixSocket_new. destruct (_ <? _); [|done].
    destruct (sys_socket _ _) as [fd k1]. unfold unix_client_connect.
    destruct (sys_connect _ _ _) as [ok k2]. by eexists.
  - intros Ht Hs. by rewrite !bool_decide_eq_false_2.
Qed.
End servers.

(** ** Samples *)

#[export, refine] Instance Z_counter : EventCounter Z := {|
  value v := v;
  sys_write v n := if v + n <=? 2 ^ 64 - 2 then (true, v + n) else (false, v);
  sys_read v := if v =? 0 then (false, v) else (true, 0)
|}.
Proof.
  all: intros c; intros; cbn; try destruct (Z.leb_spec (c + v) (2 ^ 64 - 2)); try destruct (Z.eqb_spec c 0); cbn; lia || by split.
Defined.

Definition localhost (host : option (list Z)) (service : list Z) : option (list unit) :=
  if bool_decide (host = Some (bytes_of_string "localhost")) then Some [tt] else None.

(** The outcome has no hypothesis; a client whose first try is refused, another
    protocol, no protocol and an empty query. *)
Definition realm (url_s : string) (answers : list bool) : outcome RealmTransport :=
  make_realm_connection true false localhost (fun _ => tt) (fun _ => None) (bytes_of_string url_s) (busy answers) tt.
Example realm_refused : match realm "tcp://localhost:7000" [true; false] with Ok (TcpRealm _ attempt) => attempt | _ => false end = true.
Proof. vm_compute. reflexivity. Qed.
Example realm_protocol : realm "udp://localhost:7000" [] = throw FpException.
Proof. vm_compute. reflexivity. Qed.
Example realm_no_protocol : realm "localhost:7000" [] = Err Terminate.
Proof. vm_compute. reflexivity. Qed.
Example realm_empty_query : realm "tcp://localhost?" [] = undefined InvalidIterator.
Proof. vm_compute. reflexivity. Qed.

Lemma handshake_witness :
  receivedClientConnection (Some (Socket_of 9 true)) (RecvMsgData (mkAncillary (Some 4711) (Some [6; 5])))
  = Ok (Some (notifier_of 6, notifier_of 5, Socket_of 9 true, 4711)).
Proof.
  apply (handshake (mkNotifierClient (notifier_of 5) (notifier_of 6) false) 4711 (Socket_of 9 true)
    (mkNotifierClient (notifier_of 5) (notifier_of 6) true)). reflexivity.
Defined.

Lemma notifier_server_blocking_witness :
  exists w, NotifierServer_new (A:=unit) (fun _ => tt) [] (busy []) tt = Ok w /\
    has_bits (status_flags (w_kernel w) (so_socket (w_socket w))) O_NONBLOCK = false.
Proof.
  destruct (NotifierServer_new (A:=unit) (fun _ => tt) [] (busy []) tt) as [w|f] eqn:E; [|vm_compute in E; discriminate E].
  exists w. split; [reflexivity|].
  apply (notifier_server_blocking (fun _ => tt) [] (busy []) tt w E). intros s k' Es. vm_compute in Es. injection Es as <- <-.
  apply (bool_decide_unpack _). vm_compute. exact I.
Defined.
