(* ===== verification/Notifiers.v ===== *)
(** * Notifiers: both implementations of notifier.h

    src/fastpath/event/arch/linux/notifier.h over an eventfd and
    event/arch/mac/notifier.h over a pipe: what a client of either can rely on is
    the class [Notifier], and the descriptors they own. *)
From S2P Require Import Prelude Types Poll Sockets Endpoints.

(** ** What a notifier promises *)

(** [pending] is whether the poll manager reports its read handle; a [reset]
    answers whether there was a notification, and takes some of what was pending. *)
Class Notifier (N : Type) := {
  usable : N -> Prop;
  pending : N -> bool;
  signal : N -> bool * N;
  drain : N -> bool * N;
  signal_usable n : usable n -> usable (signal n).2;
  drain_usable n : usable n -> usable (drain n).2;
  signal_pending n : usable n -> pending (signal n).2 = true;
  drain_answer n : usable n -> (drain n).1 = pending n;
  drain_empty n : usable n -> pending n = false -> pending (drain n).2 = false
}.

Section clients.
Context {N : Type} `{Notifier N}.

Inductive notifier_op := Signal | Drain.
Definition notifier_step (n : N) (op : notifier_op) : N :=
  match op with Signal => (signal n).2 | Drain => (drain n).2 end.
Definition notifier_run (n : N) (ops : list notifier_op) : N := foldl notifier_step n ops.

Lemma notifier_run_usable ops : forall n, usable n -> usable (notifier_run n ops).
Proof. induction ops as [|[] ops IH]; intros n Hn; cbn; [done|apply IH; by apply signal_usable|apply IH; by apply drain_usable]. Qed.

(** No notification is lost: after a [notify] the read handle stays ready until a
    [reset], which answers [true]; and while nothing was notified none is made up. *)
Theorem notification_arrives n ops : usable n ->
  (drain (notifier_run n (ops ++ [Signal]))).1 = true /\
  (pending n = false -> Forall (eq Drain) ops -> (drain (notifier_run n ops)).1 = false).
Proof.
  intros Hn. split.
  - unfold notifier_run. rewrite foldl_app. cbn [foldl notifier_step]. fold (notifier_run n ops).
    pose proof (notifier_run_usable ops n Hn) as Hu. by rewrite drain_answer, signal_pending by auto using signal_usable.
  - intros Hp Hops. rewrite drain_answer by by apply notifier_run_usable.
    revert n Hn Hp. induction Hops as [|op ops <- _ IH]; intros n Hn Hp; [done|]. cbn. apply IH; [by apply drain_usable|by apply drain_empty].
Qed.
End clients.

(** ** The eventfd *)

Section eventfd_notifier.
Context {C : Type} `{EventCounter C}.

Lemma notify_saturates c : 0 <= value c <= 2 ^ 64 - 2 -> 0 < value (notify c).2 <= 2 ^ 64 - 2.
Proof.
  intros Hc. assert (value c = 2 ^ 64 - 2 \/ 0 <= value c < 2 ^ 64 - 2) as [E|E] by lia.
  - assert (2 ^ 64 - 2 < value c + 1) as Hf by lia. destruct (write_full c 1 Hf) as [_ Hv]. unfold notify. rewrite Hv. lia.
  - destruct (notify_value c E) as [_ ->]. lia.
Qed.

#[export, refine] Instance eventfd_notifier : Notifier C := {|
  usable c := 0 <= value c <= 2 ^ 64 - 2;
  pending c := negb (value c =? 0);
  signal := notify;
  drain := reset
|}.
Proof.
  - intros c Hc. pose proof (notify_saturates c Hc). lia.
  - intros c Hc. unfold reset. destruct (decide (value c = 0)) as [E|E]; [destruct (read_none c E) as [_ ->]|destruct (read_some c E) as [_ ->]]; lia.
  - intros c Hc. apply negb_true_iff, Z.eqb_neq. pose proof (notify_saturates c Hc). lia.
  - intros c Hc. unfold reset. destruct (Z.eqb_spec (value c) 0) as [E|E]; [by destruct (read_none c E) as [-> _]|by destruct (read_some c E) as [-> _]].
  - intros c Hc Hp. apply negb_false_iff, Z.eqb_eq in Hp. unfold reset. by destruct (read_none c Hp) as [_ ->].
Defined.
End eventfd_notifier.

(** ** The pipe *)

(** A pipe(2) with both ends non-blocking and open: a write of one byte succeeds
    unless the pipe is full, a read takes at most what is there and fails if that
    is nothing. *)
Class Pipe (P : Type) := {
  queued : P -> Z;
  capacity : P -> Z;
  pipe_write : P -> bool * P;
  pipe_read : P -> Z -> Z * P;
  capacity_pos p : 0 < capacity p;
  pipe_write_ok p : queued p < capacity p ->
    (pipe_write p).1 = true /\ queued (pipe_write p).2 = queued p + 1 /\ capacity (pipe_write p).2 = capacity p;
  pipe_write_full p : capacity p <= queued p -> (pipe_write p).1 = false /\ (pipe_write p).2 = p;
  pipe_read_some p n : 0 < queued p -> 0 < n ->
    (pipe_read p n).1 = Z.min n (queued p) /\ queued (pipe_read p n).2 = queued p - Z.min n (queued p) /\
    capacity (pipe_read p n).2 = capacity p;
  pipe_read_none p n : queued p <= 0 -> pipe_read p n = (-1, p)
}.

Section pipe_notifier.
Context {P : Type} `{Pipe P}.

(** [m_locked] and the pipe. *)
Record PipeNotifier := mkPipeNotifier { m_locked : bool; m_pipe : P }.

(** [notify()], [reset()] and one [m_locked.test_and_set()]. *)
Definition pipe_notify (n : PipeNotifier) : bool * PipeNotifier :=
  let '(ok, p) := pipe_write (m_pipe n) in (ok, mkPipeNotifier (m_locked n) p).
Definition reset_length : Z := 255.
Definition pipe_reset (n : PipeNotifier) : bool * PipeNotifier :=
  let '(length, p) := pipe_read (m_pipe n) reset_length in (0 <? length, mkPipeNotifier false p).
Definition pipe_test_and_set (n : PipeNotifier) : bool * PipeNotifier := (m_locked n, mkPipeNotifier true (m_pipe n)).

#[export, refine] Instance pipe_notifier : Notifier PipeNotifier := {|
  usable n := 0 <= queued (m_pipe n) <= capacity (m_pipe n);
  pending n := 0 <? queued (m_pipe n);
  signal := pipe_notify;
  drain := pipe_reset
|}.
Proof.
  all: intros n Hn; unfold pipe_notify, pipe_reset, reset_length.
  - destruct (Z.lt_ge_cases (queued (m_pipe n)) (capacity (m_pipe n))) as [Hc|Hc].
    + destruct (pipe_write_ok _ Hc) as (_ & Hq & Hk). destruct (pipe_write _) as [ok p]. cbn in *. lia.
    + destruct (pipe_write_full _ Hc) as (_ & Hq). destruct (pipe_write _) as [ok p]. cbn in *. by subst.
  - destruct (Z.lt_ge_cases 0 (queued (m_pipe n))) as [Hc|Hc].
    + destruct (pipe_read_some _ 255 Hc ltac:(lia)) as (_ & Hq & Hk). destruct (pipe_read _ _) as [k p]. cbn in *. lia.
    + rewrite pipe_read_none by done. done.
  - apply Z.ltb_lt. destruct (Z.lt_ge_cases (queued (m_pipe n)) (capacity (m_pipe n))) as [Hc|Hc].
    + destruct (pipe_write_ok _ Hc) as (_ & Hq & Hk). destruct (pipe_write _) as [ok p]. cbn in *. lia.
    + destruct (pipe_write_full _ Hc) as (_ & Hq). destruct (pipe_write _) as [ok p]. cbn in *. subst p. pose proof (capacity_pos (m_pipe n)). lia.
  - destruct (Z.ltb_spec 0 (queued (m_pipe n))) as [Hc|Hc].
    + destruct (pipe_read_some _ 255 Hc ltac:(lia)) as (Hr & _). destruct (pipe_read _ _) as [k p]. cbn in *. apply Z.ltb_lt. lia.
    + by rewrite pipe_read_none.
  - intros Hp. apply Z.ltb_ge in Hp. rewrite pipe_read_none by done. cbn. by apply Z.ltb_ge.
Defined.

(** A [reset] of the pipe takes at most 255 notifications, where the eventfd gives
    up all of them: after [k] resets the handle is ready exactly if more than
    [255 k] were pending. *)
Theorem pipe_resets k : forall n, 0 <= queued (m_pipe n) ->
  pending (Nat.iter k (fun n => (pipe_reset n).2) n) = (255 * Z.of_nat k <? queued (m_pipe n)).
Proof.
  induction k as [|k IH]; intros n Hq; [done|].
  rewrite Nat.iter_succ_r. cbv beta. unfold pipe_reset at 2, reset_length. destruct (Z.lt_ge_cases 0 (queued (m_pipe n))) as [Hc|Hc].
  - destruct (pipe_read_some (m_pipe n) 255 Hc ltac:(lia)) as (_ & Hr & _). destruct (pipe_read _ _) as [l p]. cbn [snd] in *.
    rewrite IH by (cbn; lia). cbn [m_pipe]. rewrite Hr. destruct (Z.ltb_spec (255 * Z.of_nat k) (queued (m_pipe n) - Z.min 255 (queued (m_pipe n)))),
      (Z.ltb_spec (255 * Z.of_nat (S k)) (queued (m_pipe n))); done || lia.
  - rewrite pipe_read_none by done. cbn [snd]. rewrite IH by done. cbn [m_pipe].
    destruct (Z.ltb_spec (255 * Z.of_nat k) (queued (m_pipe n))), (Z.ltb_spec (255 * Z.of_nat (S k)) (queued (m_pipe n))); done || lia.
Qed.

(** [notify_and_wait]: the lock is taken, the pipe is written, and the loop ends
    when it finds the lock taken; [between] is what the reader does before the test. *)
Definition notify_and_wait (between : PipeNotifier -> PipeNotifier) (n : PipeNotifier) : bool * PipeNotifier :=
  let n := (pipe_test_and_set n).2 in
  let n := (pipe_notify n).2 in
  pipe_test_and_set (between n).

(** It does not wait for the reader: unless the reader has already reset the notifier
    the first test ends the loop. *)
Theorem notify_and_wait_no_wait n : (notify_and_wait (fun n => n) n).1 = true /\ (notify_and_wait (fun n => (pipe_reset n).2) n).1 = false.
Proof.
  unfold notify_and_wait, pipe_test_and_set, pipe_notify, pipe_reset. cbn. split; [by destruct (pipe_write _)|].
  destruct (pipe_write _). cbn. by destruct (pipe_read _ _).
Qed.
End pipe_notifier.
Arguments PipeNotifier : clear implicits.
Arguments mkPipeNotifier {P} _ _.

(** ** The descriptors of the pipe *)

Inductive direction := dir_read | dir_write.
Record notifier_fds := mkFds { fd_read : Z; fd_write : Z }.

(** [notifier()]: what [pipe] made; that the flags could not be set is only logged. *)
Definition notifier_new (made : option (Z * Z)) : outcome notifier_fds :=
  match made with Some (r, w) => Ok (mkFds r w) | None => throw FpException end.
(** [notifier(fd, d)], [notifier(notifier &&)] with what it leaves behind,
    [close_handle] and [~notifier] with the descriptors they close. *)
Definition notifier_at (fd : Z) (d : direction) : notifier_fds :=
  match d with dir_read => mkFds fd (-1) | dir_write => mkFds (-1) fd end.
Definition notifier_move (other : notifier_fds) : notifier_fds * notifier_fds := (other, mkFds (-1) (-1)).
Definition close_handle (n : notifier_fds) (d : direction) : list Z * notifier_fds :=
  match d with
  | dir_read => ([fd_read n], mkFds (-1) (fd_write n))
  | dir_write => ([fd_write n], mkFds (fd_read n) (-1))
  end.
Definition notifier_destroy (n : notifier_fds) : list Z :=
  (if fd_read n =? -1 then [] else [fd_read n]) ++ (if fd_write n =? -1 then [] else [fd_write n]).

(** A notifier that is moved [k] times: the objects there are in the end. *)
Fixpoint moved (k : nat) (n : notifier_fds) : list notifier_fds :=
  match k with O => [n] | S k => (notifier_move n).2 :: moved k (notifier_move n).1 end.

(** However often a notifier is moved, the destructors of all its objects close each
    of its descriptors once, and one that was closed by [close_handle] not again. *)
Theorem descriptors_closed_once k r w n : notifier_new (Some (r, w)) = Ok n -> r <> -1 -> w <> -1 ->
  concat (notifier_destroy <$> moved k n) = [r; w] /\
  forall d, (close_handle n d).1 ++ concat (notifier_destroy <$> moved k (close_handle n d).2)
            = match d with dir_read => [r; w] | dir_write => [w; r] end.
Proof.
  intros [= <-] Hr Hw.
  assert (forall m, concat (notifier_destroy <$> moved k m) = notifier_destroy m) as A.
  { induction k as [|k IH]; intros m; cbn [moved fmap list_fmap concat]; [by rewrite app_nil_r|apply IH]. }
  rewrite A. unfold notifier_destroy at 1. cbn [fd_read fd_write]. apply Z.eqb_neq in Hr as Er, Hw as Ew.
  split; [by rewrite Er, Ew|]. intros []; rewrite A; unfold notifier_destroy; cbn; by rewrite ?Er, ?Ew.
Qed.

(** ** Samples *)

#[export, refine] Instance Z_pipe : Pipe Z := {|
  queued p := p;
  capacity _ := 65536;
  pipe_write p := if p <? 65536 then (true, p + 1) else (false, p);
  pipe_read p n := if 0 <? p then (Z.min n p, p - Z.min n p) else (-1, p)
|}.
Proof.
  all: intros p; intros; cbn; try destruct (Z.ltb_spec p 65536); try destruct (Z.ltb_spec 0 p); cbn; lia || done || by split_and!.
Defined.

(** Three hundred notifications: two resets over a pipe, one over an eventfd. *)
Definition often (N : Type) `{Notifier N} (n : N) : N := notifier_run n (replicate 300 Signal).

Lemma notification_arrives_witness :
  (drain (notifier_run (mkPipeNotifier false 0) (replicate 299 Signal ++ [Signal]))).1 = true /\
  (drain (notifier_run 0 (replicate 299 Signal ++ [Signal]))).1 = true.
Proof.
  split; (apply notification_arrives; vm_compute; split; discriminate).
Defined.

Lemma pipe_resets_witness : pending (Nat.iter 1 (fun n => (pipe_reset n).2) (often _ (mkPipeNotifier false 0))) = true.
Proof. rewrite pipe_resets; [reflexivity|vm_compute; discriminate]. Defined.

Lemma descriptors_closed_once_witness : concat (notifier_destroy <$> moved 2 (mkFds 5 6)) = [5; 6].
Proof. by apply (descriptors_closed_once 2 5 6 (mkFds 5 6)). Defined.
