(* ===== verification/Bootstrap.v ===== *)
(** * Bootstrap: the life of the router

    src/fastpath/router: bootstrap.h/.cpp, the constructors and destructors of
    peer_connection.cpp and tcp_peer_connection.cpp, and the connection callback
    of tcp_server_transport.cpp.  [run] dispatches what the inline queue finds
    ready until a signal has come: a connection that waits, the data of a
    connection or a signal.  The handlers of Router.v do the work; what is added
    here is which connections and registered events exist.  A connection that ends
    is erased in the running callback of its event, whose destructor erases the
    vector that the inline manager is iterating (InlineCallbacks.v): the model
    stops there, and says nothing about what the loop does with invalid iterators. *)
From S2P Require Import Prelude Heap ByteStorage MessageBuffer Types Field Message Codec RoundTrip Subject Url Transport Router Poll Sockets Endpoints.

(** ** State *)

(** [m_connections]; for the connections whose socket event is registered with
    [m_dispatchQueue] the receive buffer and its memory; the address the next
    [new tcp_peer_connection] gives; [m_shutdown]. *)
Record bootstrap := mkBootstrap {
  m_connections : list Peer;
  m_socketEvents : gmap positive (MessageBuffer * heap);
  b_next : positive;
  m_shutdown : bool
}.
Definition bootstrap_new : bootstrap := mkBootstrap [] ∅ 1 false.

(** The queue reports: a connection waits (with the result of
    [acceptPendingConnection], and what sending to it will come to), the descriptor
    of the connection at [a] is readable (with the results of [recv]), a signal. *)
Inductive input :=
  | Waiting (socket : option SocketObject) (sends : list SendOutcome)
  | Readable (a : positive) (reads : list RecvResult)
  | Signal.

Section router.
Context `{Platform}.

(** [new tcp_peer_connection(queue, socket)]: registering an event for a
    descriptor that is not positive throws inside a [noexcept] function. *)
Definition tcp_peer_new (b : bootstrap) (socket : option SocketObject) (sends : list SendOutcome)
    : outcome (Peer * (MessageBuffer * heap)) :=
  fd ← tcp_peer_connection_new socket;
  if fd <=? 0 then Err Terminate
  else Ok (mkPeer (b_next b) [] true [] sends, MessageBuffer_new empty_heap 4500).

(** [peer_connection_handler] of [bootstrap::run]: both handlers are set before
    the next event is dispatched, and the connection is added. *)
Definition peer_connection_handler (b : bootstrap) (peer : Peer) (buffer : MessageBuffer * heap) : bootstrap :=
  mkBootstrap (m_connections b ++ [peer]) (<[peer_address peer := buffer]> (m_socketEvents b))
    (Pos.succ (b_next b)) (m_shutdown b).

(** The registered event of the connection at [a], when its callback has returned.
    A connection that ends is erased in its callback, and its destructor unregisters
    the event that is being serviced; the flag says whether that event is still
    there. *)
Definition data_event (n fuel : nat) (b : bootstrap) (a : positive) (reads : list RecvResult) : outcome (bootstrap * bool) :=
  match m_socketEvents b !! a with
  | Some (buffer, h) =>
      '(connections, buffer, h, open, _) ← data_handler n fuel h (m_connections b) a buffer reads;
      Ok (mkBootstrap connections
            (if (open : bool) then <[a := (buffer, h)]> (m_socketEvents b) else delete a (m_socketEvents b))
            (b_next b) (m_shutdown b), open)
  | None => Ok (b, true)
  end.

Definition service (n fuel : nat) (b : bootstrap) (i : input) : outcome (bootstrap * bool) :=
  match i with
  | Waiting socket sends => '(peer, buffer) ← tcp_peer_new b socket sends; Ok (peer_connection_handler b peer buffer, true)
  | Readable a reads => data_event n fuel b a reads
  | Signal => Ok (mkBootstrap (m_connections b) (m_socketEvents b) (b_next b) true, true)
  end.

(** [m_dispatchQueue.dispatch()]: all that one wait has found.  When a callback has
    erased its own event, [foreach_event_matching] goes on with iterators into a
    vector that is gone: with [false] the state is the last one before that. *)
Fixpoint dispatch (n fuel : nat) (b : bootstrap) (ready : list input) : outcome (bootstrap * bool) :=
  match ready with
  | [] => Ok (b, true)
  | i :: ready =>
      '(b, there) ← service n fuel b i;
      if (there : bool) then dispatch n fuel b ready else Ok (b, false)
  end.

(** How the loop is found: it has ended; it waits, the results of the waits being
    used up; or a callback has erased its own event, and what comes next uses
    invalid iterators. *)
Inductive run_end := LoopEnded | StillWaiting | EventErased.
#[export] Instance run_end_eq_dec : EqDecision run_end.
Proof. solve_decision. Defined.

(** [while (!m_shutdown) m_dispatchQueue.dispatch();] over the results of the waits. *)
Fixpoint run (n fuel : nat) (b : bootstrap) (waits : list (list input)) : outcome (bootstrap * run_end) :=
  if m_shutdown b then Ok (b, LoopEnded)
  else match waits with
    | [] => Ok (b, StillWaiting)
    | ready :: waits =>
        '(b, there) ← dispatch n fuel b ready;
        if (there : bool) then run n fuel b waits else Ok (b, EventErased)
    end.

(** ** What one handler does to the connections *)

Definition succeeded (o : SendOutcome) : bool := match o with TakenWhole => true | Wrote _ ok => ok end.

(** [c'] is [c] after some sends to it: its socket is open if it was and all of them
    succeeded. *)
Definition sends_used (c c' : Peer) : Prop :=
  exists used, p_sends c = used ++ p_sends c' /\ p_connected c' = p_connected c && forallb succeeded used.

#[export] Instance sends_used_refl : Reflexive sends_used.
Proof. intros c. exists []. split; [done|]. by rewrite andb_true_r. Qed.
#[export] Instance sends_used_trans : Transitive sends_used.
Proof.
  intros c1 c2 c3 (u1 & S1 & C1) (u2 & S2 & C2). exists (u1 ++ u2).
  by rewrite S1, S2, C2, C1, forallb_app, app_assoc, andb_assoc.
Qed.

(** What reading from the connection at [a] can do to a connection: more may be
    sent to it, and only its own subscriptions may change. *)
Record peer_step (a : positive) (c c' : Peer) : Prop := {
  ps_address : peer_address c' = peer_address c;
  ps_sends : sends_used c c';
  ps_out : p_out c `prefix_of` p_out c';
  ps_subscriptions : peer_address c <> a -> m_subscriptions c' = m_subscriptions c
}.

#[export] Instance peer_step_refl a : Reflexive (peer_step a).
Proof. by intros c. Qed.
#[export] Instance peer_step_trans a : Transitive (peer_step a).
Proof.
  intros c1 c2 c3 [A1 C1 O1 S1] [A2 C2 O2 S2]. split; [congruence|by etrans|by etrans|].
  intros Hne. rewrite S2, S1 by congruence. done.
Qed.

Lemma peer_steps_refl a cs : Forall2 (peer_step a) cs cs.
Proof. by apply Forall_Forall2_diag, Forall_true. Qed.

Lemma forward_step a s encoded c : peer_step a c (forward s encoded c).
Proof.
  unfold forward, sendBuffer. destruct (interested c s); [|done].
  destruct (p_connected c) eqn:Ec; [|done].
  assert (forall out used ok, p_sends c = used ++ drop (length used) (p_sends c) -> ok = forallb succeeded used ->
    peer_step a c (mkPeer (peer_address c) (m_subscriptions c) ok (p_out c ++ [out]) (drop (length used) (p_sends c)))) as K.
  { intros out used ok Hs ->. split; [done| |by eexists|done]. exists used. by rewrite Ec. }
  destruct (p_sends c) as [|[|out ok] l] eqn:El.
  - by apply (K encoded []).
  - by apply (K encoded [TakenWhole]).
  - apply (K out [Wrote out ok]); [done|]. cbn. by rewrite andb_true_r.
Qed.

Lemma handle_admin_step a c s m c' : peer_address c = a -> handle_admin_message c s m = Ok c' -> peer_step a c c'.
Proof.
  intros Ha. assert (forall l, peer_step a c (set_subscriptions c l)) as Hset by (intros l; split; [done|exists []; by rewrite andb_true_r|done|done]).
  unfold handle_admin_message, add_subscription. intros E.
  destruct (subject_eq s RegisterObserver); inv_bind; [|done]. destruct x as [[text len]|]; [|by inv_bind].
  destruct (len =? 0); inv_bind; [done|apply Hset].
Qed.

Lemma update_peer_step a f cs : (forall c c', peer_address c = a -> f c = Ok c' -> peer_step a c c') ->
  forall cs', update_peer f a cs = Ok cs' -> Forall2 (peer_step a) cs cs'.
Proof.
  intros Hf. induction cs as [|c cs IH]; intros cs' E; [done|]. cbn in E. case_bool_decide as Ha; inv_bind.
  - constructor; [by apply Hf|apply peer_steps_refl].
  - constructor; [done|by apply IH].
Qed.

Lemma noexcept_Ok {A} (o : outcome A) x : noexcept o = Ok x -> o = Ok x.
Proof. destruct o as [|e]; [done|by destruct e]. Qed.

Lemma process_buffer_step fuel h cs a b st cs' b' :
  process_buffer fuel h cs a b = Ok (st, cs', b') -> Forall2 (peer_step a) cs cs'.
Proof.
  unfold process_buffer. intros E. inv_bind. destruct x as [[status details] b1].
  destruct status, details; inv_bind; try apply peer_steps_refl.
  destruct (_ && _); inv_bind; [|apply peer_steps_refl]. destruct x0 as [[seg b2] h2].
  destruct (subj_is_admin _); inv_bind.
  - destruct x0 as [[ok m] b3]. destruct ok; inv_bind; [|apply peer_steps_refl].
    eapply update_peer_step; [|done]. intros c c' Ha. by apply handle_admin_step.
  - match goal with E : message_handler _ _ _ = _ |- _ => rewrite message_handler_spec in E end.
    inv_bind. apply Forall2_fmap_r, Forall_Forall2_diag, Forall_true. intros c. apply forward_step.
Qed.

Lemma process_buffers_step fuel h a n : forall cs b st cs' b',
  process_buffers n fuel h cs a b = Ok (st, cs', b') -> Forall2 (peer_step a) cs cs'.
Proof.
  induction n as [|n IH]; intros cs b st cs' b' E; [done|]. cbn in E. inv_bind. destruct x as [[st1 cs1] b1].
  apply process_buffer_step in H0. destruct st1; inv_bind; [|done..]. apply IH in E. by etrans.
Qed.

(** All of [data_handler]: when it ends the connection, that one is erased. *)
Definition after_event (a : positive) (open : bool) (cs cs' : list Peer) : Prop :=
  exists cs1, Forall2 (peer_step a) cs cs1 /\ cs' = if open then cs1 else disconnection_handler cs1 a.

Lemma data_handler_step n fuel a reads : forall h cs mb cs' mb' h' open rest,
  data_handler n fuel h cs a mb reads = Ok (cs', mb', h', open, rest) -> after_event a open cs cs'.
Proof.
  induction reads as [|r reads IH]; intros h cs mb cs' mb' h' open rest E; cbn [data_handler] in E.
  - inv_bind. exists cs'. by split; [apply peer_steps_refl|].
  - destruct (Socket_read r) as [[result chunk] d]. inv_bind. destruct x as [mb1 h1].
    destruct result; inv_bind; [|by exists cs'; split; [apply peer_steps_refl|]|by exists cs; split; [apply peer_steps_refl|]].
    destruct x as [storage h2]. inv_bind. destruct x as [[status cs1] b1].
    match goal with E : process_buffers _ _ _ _ _ _ = _ |- _ => apply process_buffers_step in E as S1 end.
    destruct status; inv_bind.
    + apply IH in E as (cs2 & S2 & ->). exists cs2. split; [by etrans|done].
    + apply IH in E as (cs2 & S2 & ->). exists cs2. split; [by etrans|done].
    + by exists cs1.
Qed.

(** ** Invariant *)

Lemma peer_steps_addresses a cs cs' : Forall2 (peer_step a) cs cs' -> peer_address <$> cs' = peer_address <$> cs.
Proof. induction 1 as [|c c' cs cs' [Ha _ _ _] _ IH]; [done|]. rewrite !fmap_cons. congruence. Qed.

Lemma disconnection_addresses cs a : NoDup (peer_address <$> cs) ->
  NoDup (peer_address <$> disconnection_handler cs a) /\
  forall x, x ∈ peer_address <$> disconnection_handler cs a <-> x ∈ peer_address <$> cs /\ x <> a.
Proof.
  induction cs as [|c cs IH]; [split; [done|set_solver]|]. rewrite !fmap_cons, NoDup_cons. intros [Hc Hcs].
  destruct (IH Hcs) as [IH1 IH2]. cbn [disconnection_handler]. case_bool_decide as Ha.
  - split; [done|]. intros x. rewrite elem_of_cons. subst a. split; [|by intros [[->|] ?]].
    intros Hx. split; [by right|]. by intros ->.
  - rewrite fmap_cons, NoDup_cons, IH2. split; [by split; [intros [? _]|]|].
    intros x. rewrite !elem_of_cons, IH2. naive_solver.
Qed.

(** The addresses of the connections are distinct, the registered events are
    those of the connections, and the next address is new. *)
Record router_inv (b : bootstrap) : Prop := {
  ri_distinct : NoDup (peer_address <$> m_connections b);
  ri_events : forall a, is_Some (m_socketEvents b !! a) <-> a ∈ peer_address <$> m_connections b;
  ri_next : forall a, a ∈ peer_address <$> m_connections b -> (a < b_next b)%positive
}.

Lemma router_inv_new : router_inv bootstrap_new.
Proof.
  split; cbn; [constructor| |by intros a ?%elem_of_nil].
  intros a. rewrite (lookup_empty (M := gmap positive)). split; [by intros [? ?]|by intros ?%elem_of_nil].
Qed.

Lemma data_event_inv n fuel b a reads b' there : router_inv b -> data_event n fuel b a reads = Ok (b', there) -> router_inv b'.
Proof.
  intros [Hd He Hn]. unfold data_event. destruct (m_socketEvents b !! a) as [[mb h]|] eqn:Ea; [|by intros [= <- _]].
  intros E. inv_bind. destruct x as [[[[cs mb'] h'] open] rest]. inv_bind.
  apply data_handler_step in H0 as (cs1 & S & ->). apply peer_steps_addresses in S as Sa. rewrite <- Sa in *.
  destruct there.
  - split; cbn; [done| |done]. intros x. rewrite <- He. destruct (decide (x = a)) as [->|Hne].
    + rewrite lookup_insert_eq, Ea. split; by eexists.
    + by rewrite lookup_insert_ne by done.
  - destruct (disconnection_addresses cs1 a Hd) as [D1 D2]. split; cbn; [done| |].
    + intros x. rewrite D2, <- He, lookup_delete_is_Some. naive_solver.
    + intros x Hx. apply D2 in Hx as [Hx _]. by apply Hn.
Qed.

(** The connections accepted, of which [gone] are not there any more. *)
Definition accepted (b : bootstrap) (gone : nat) : Prop := (length (m_connections b) + gone + 1 = Pos.to_nat (b_next b))%nat.

Lemma disconnection_length cs a : a ∈ peer_address <$> cs -> length cs = S (length (disconnection_handler cs a)).
Proof.
  induction cs as [|c cs IH]; [by intros ?%elem_of_nil|]. rewrite fmap_cons, elem_of_cons. cbn [disconnection_handler].
  intros Ha. case_bool_decide as Hc; [done|]. destruct Ha as [->|Ha]; [done|]. cbn [length]. by rewrite <- IH.
Qed.

Lemma data_event_accepted n fuel b a reads b' there : router_inv b -> accepted b 0 ->
  data_event n fuel b a reads = Ok (b', there) -> accepted b' (if there then 0 else 1).
Proof.
  intros I Hacc. unfold data_event. destruct (m_socketEvents b !! a) as [[mb h]|] eqn:Ea; [|by intros [= <- <-]].
  intros E. inv_bind. destruct x as [[[[cs mb'] h'] open] rest]. inv_bind.
  apply data_handler_step in H0 as (cs1 & S & ->). pose proof (Forall2_length _ _ _ S) as Hl.
  unfold accepted in *. cbn [m_connections b_next]. destruct there; [lia|].
  apply peer_steps_addresses in S. pose proof (disconnection_length cs1 a) as Hdis. rewrite S in Hdis.
  assert (a ∈ peer_address <$> m_connections b) as Hin by (apply I; by eexists). specialize (Hdis Hin). lia.
Qed.

Lemma service_inv n fuel b i b' there : router_inv b -> accepted b 0 ->
  service n fuel b i = Ok (b', there) -> router_inv b' /\ accepted b' (if there then 0 else 1).
Proof.
  intros I Hacc. destruct i as [socket sends|a reads|]; cbn [service].
  - intros E. inv_bind. destruct x as [peer [mb h]]. inv_bind. unfold tcp_peer_new in H0.
    generalize dependent (MessageBuffer_new empty_heap 4500). intros buffer H0. inv_bind. destruct (_ <=? 0); inv_bind. destruct I as [Hd He Hn]. unfold peer_connection_handler.
    split; [|unfold accepted in *; cbn [m_connections b_next]; rewrite length_app; cbn [length]; lia].
    assert (b_next b ∉ peer_address <$> m_connections b) as Hf by (intros Hi; apply Hn in Hi; lia).
    split; cbn [m_connections m_socketEvents b_next peer_address]; rewrite fmap_app; cbn.
    + apply NoDup_app. split; [done|]. split; [|apply NoDup_singleton].
      intros y Hx. rewrite list_elem_of_singleton. by intros ->.
    + intros y. rewrite elem_of_app, list_elem_of_singleton, <- He. destruct (decide (y = b_next b)) as [->|Hne].
      * rewrite lookup_insert_eq. naive_solver.
      * rewrite lookup_insert_ne by done. naive_solver.
    + intros y. rewrite elem_of_app, list_elem_of_singleton. intros [Hx| ->]; [apply Hn in Hx|]; lia.
  - intros E. split; [by eapply data_event_inv|by eapply data_event_accepted].
  - intros [= <- <-]. split; [by destruct I|done].
Qed.

Lemma dispatch_inv n fuel ready : forall b b' there, router_inv b -> accepted b 0 ->
  dispatch n fuel b ready = Ok (b', there) -> router_inv b' /\ accepted b' (if there then 0 else 1).
Proof.
  induction ready as [|i ready IH]; intros b b' there I Hacc; cbn [dispatch]; [by intros [= <- <-]|].
  intros E. inv_bind. destruct x as [b1 t1]. destruct (service_inv n fuel b i b1 t1 I Hacc) as [I1 A1]; [done|].
  destruct t1; [by eapply IH|]. injection E as <- <-. done.
Qed.

Lemma run_eq n fuel b waits : run n fuel b waits =
  if m_shutdown b then Ok (b, LoopEnded)
  else match waits with
    | [] => Ok (b, StillWaiting)
    | ready :: waits => '(b, there) ← dispatch n fuel b ready; if (there : bool) then run n fuel b waits else Ok (b, EventErased)
    end.
Proof. by destruct waits. Qed.

Lemma run_ends n fuel waits : forall b b' e, run n fuel b waits = Ok (b', e) -> e <> EventErased ->
  m_shutdown b' = bool_decide (e = LoopEnded).
Proof.
  induction waits as [|ready waits IH]; intros b b' e; rewrite run_eq; destruct (m_shutdown b) eqn:Hs; try by intros [= <- <-].
  intros E He. inv_bind. destruct x as [b1 []]; [by eapply IH|]. by injection E as <- <-.
Qed.

(** C3: whatever the queue reports and whatever bytes the peers send, the router
    keeps its books, at the end of every wait and when it finds its flag set: the
    connections it holds are those it accepted, they are distinct, and a socket
    event is registered exactly for each of them, so no event refers to a connection
    that is gone.  The exception is the first connection that ends.  When the
    callback that ends it has returned, the books are still right, with that one
    connection and its event gone; but the event was the one being serviced, the
    loop of the inline manager goes on with the iterators of a vector that is gone,
    and nothing is promised any more. *)
Theorem router_run_inv n fuel waits b' e :
  run n fuel bootstrap_new waits = Ok (b', e) ->
  router_inv b' /\ (length (m_connections b') + (if decide (e = EventErased) then 1 else 0) + 1 = Pos.to_nat (b_next b'))%nat /\
  (e = LoopEnded -> m_shutdown b' = true) /\ (e = StillWaiting -> m_shutdown b' = false).
Proof.
  intros E.
  assert (router_inv b' /\ accepted b' (if decide (e = EventErased) then 1 else 0)) as [I Ha].
  { assert (accepted bootstrap_new 0) as A0 by done. revert E A0. generalize router_inv_new. generalize bootstrap_new.
    induction waits as [|ready waits IH]; intros b I E A0; rewrite run_eq in E; destruct (m_shutdown b); try by simplify_eq.
    inv_bind. destruct x as [b1 there]. apply dispatch_inv in H0 as [I1 A1]; [|done..].
    destruct there; [by eapply IH|]. by simplify_eq. }
  split; [done|]. split; [done|]. pose proof (run_ends _ _ _ _ _ _ E) as Hs.
  split; intros ->; rewrite Hs by done; done.
Qed.

(** ** Isolation *)

(** The connections an input reads from. *)
Definition reads_from (a : positive) (i : input) : Prop := match i with Readable a' _ => a' = a | _ => False end.

(** [c] as it may be found later, when nothing was read from it. *)
Record untouched (c c' : Peer) : Prop := {
  un_address : peer_address c' = peer_address c;
  un_sends : sends_used c c';
  un_subscriptions : m_subscriptions c' = m_subscriptions c;
  un_out : p_out c `prefix_of` p_out c'
}.

Lemma untouched_refl c : untouched c c.
Proof. by split. Qed.
Lemma untouched_trans c1 c2 c3 : untouched c1 c2 -> untouched c2 c3 -> untouched c1 c3.
Proof. intros [A1 C1 S1 O1] [A2 C2 S2 O2]. split; [congruence|by etrans|congruence|by etrans]. Qed.

Lemma disconnection_keeps cs a c : peer_address c <> a -> c ∈ cs -> c ∈ disconnection_handler cs a.
Proof.
  intros Hne. induction cs as [|c1 cs IH]; [done|]. rewrite elem_of_cons. cbn [disconnection_handler].
  intros Hc. case_bool_decide as Ha; [by destruct Hc as [->|]|]. rewrite elem_of_cons.
  destruct Hc as [->|Hc]; [by left|right; auto].
Qed.

Lemma service_untouched n fuel b i b' there c : ~ reads_from (peer_address c) i -> c ∈ m_connections b ->
  service n fuel b i = Ok (b', there) -> exists c', c' ∈ m_connections b' /\ untouched c c'.
Proof.
  intros Hr Hc. destruct i as [socket sends|a reads|]; cbn [service].
  - intros E. inv_bind. destruct x as [peer buf]. inv_bind. exists c. split; [|apply untouched_refl].
    apply elem_of_app. by left.
  - unfold data_event. destruct (m_socketEvents b !! a) as [[mb h]|]; [|by intros [= <- _]; exists c; split; [|apply untouched_refl]].
    intros E. inv_bind. destruct x as [[[[cs mb'] h'] open] rest]. inv_bind.
    apply data_handler_step in H0 as (cs1 & S & ->). apply list_elem_of_lookup in Hc as [k Hk].
    destruct (Forall2_lookup_l _ _ _ _ _ S Hk) as (c' & Hk' & [A1 C1 O1 S1]).
    assert (peer_address c <> a) as Hne by (intros <-; by apply Hr).
    exists c'. split; [|split; auto]. apply list_elem_of_lookup_2 in Hk'. cbn.
    destruct there; [done|]. apply disconnection_keeps; [by rewrite A1|done].
  - intros [= <- _]. exists c. split; [done|apply untouched_refl].
Qed.

Lemma dispatch_untouched n fuel ready : forall b b' there c,
  Forall (fun i => ~ reads_from (peer_address c) i) ready -> c ∈ m_connections b ->
  dispatch n fuel b ready = Ok (b', there) -> exists c', c' ∈ m_connections b' /\ untouched c c'.
Proof.
  induction ready as [|i ready IH]; intros b b' there c Hr Hc; cbn [dispatch].
  - intros [= <- _]. exists c. split; [done|apply untouched_refl].
  - intros E. inv_bind. destruct x as [b1 t1]. apply Forall_cons in Hr as [Hi Hr].
    destruct (service_untouched _ _ _ _ _ _ _ Hi Hc H0) as (c1 & Hc1 & U1).
    destruct t1; [|injection E as <- _; by exists c1].
    destruct (IH _ _ _ c1 ltac:(by rewrite (un_address _ _ U1)) Hc1 E) as (c2 & Hc2 & U2).
    exists c2. split; [done|]. by eapply untouched_trans.
Qed.

(** C4: a connection is at the mercy of its own peer and of the kernel only: whatever
    the other peers send, and up to the end of the callback in which the first of
    them goes, as long as nothing arrives from it a connection stays in the table
    with its subscriptions, what has been sent to it is only added to, and its
    socket, if it was open, is open exactly if every send to it has succeeded. *)
Theorem router_isolates n fuel waits : forall b b' e c,
  Forall (Forall (fun i => ~ reads_from (peer_address c) i)) waits -> c ∈ m_connections b ->
  run n fuel b waits = Ok (b', e) -> exists c' used, c' ∈ m_connections b' /\
    peer_address c' = peer_address c /\ m_subscriptions c' = m_subscriptions c /\ p_out c `prefix_of` p_out c' /\
    p_sends c = used ++ p_sends c' /\ p_connected c' = p_connected c && forallb succeeded used.
Proof.
  intros b b' e c Hr Hc E. assert (exists c', c' ∈ m_connections b' /\ untouched c c') as (c' & Hc' & [A (used & S & C) Sub O]);
    [|by exists c', used].
  revert b c Hr Hc E. induction waits as [|ready waits IH]; intros b c Hr Hc E; rewrite run_eq in E; destruct (m_shutdown b);
    try by (injection E as <- _; exists c; split; [done|apply untouched_refl]).
  inv_bind. destruct x as [b1 there]. apply Forall_cons in Hr as [Hi Hr].
  destruct (dispatch_untouched _ _ _ _ _ _ _ Hi Hc H0) as (c1 & Hc1 & U1).
  destruct there; [|injection E as <- _; by exists c1].
  destruct (IH b1 c1) as (c2 & Hc2 & U2); [by rewrite (un_address _ _ U1)|done|done|].
  exists c2. split; [done|]. by eapply untouched_trans.
Qed.

(** After a send that failed the connection is still there, with its socket closed
    and its event in the tables. *)
Theorem failed_send_leaves_connection b c bytes sends encoded subj pre post :
  m_connections b = pre ++ c :: post -> p_connected c = true -> p_sends c = Wrote bytes false :: sends ->
  interested c subj = true -> is_Some (m_socketEvents b !! peer_address c) ->
  exists cs c', message_handler (m_connections b) subj encoded = Ok cs /\ c' ∈ cs /\ peer_address c' = peer_address c /\
    p_connected c' = false /\ is_Some (m_socketEvents (mkBootstrap cs (m_socketEvents b) (b_next b) (m_shutdown b)) !! peer_address c').
Proof.
  intros Hcs Hc Hs Hi He. rewrite message_handler_spec, Hcs. do 2 eexists. split; [done|].
  split; [apply list_elem_of_fmap_2, elem_of_app; right; left|]. unfold forward, sendBuffer. by rewrite Hi, Hc, Hs.
Qed.

(** ** Shutdown *)

Lemma service_shutdown n fuel b i b' there : service n fuel b i = Ok (b', there) ->
  m_shutdown b' = m_shutdown b || match i with Signal => true | _ => false end.
Proof.
  destruct i as [socket sends|a reads|]; cbn [service].
  - intros E. inv_bind. destruct x as [peer buf]. inv_bind. by rewrite orb_false_r.
  - rewrite orb_false_r. unfold data_event. destruct (m_socketEvents b !! a) as [[mb h]|]; [|by intros [= <- _]].
    intros E. inv_bind. destruct x as [[[[? ?] ?] ?] ?]. by inv_bind.
  - intros [= <- _]. by rewrite orb_true_r.
Qed.

Lemma dispatch_shutdown n fuel l : forall b b' there, dispatch n fuel b l = Ok (b', there) ->
  m_shutdown b = true -> m_shutdown b' = true.
Proof.
  induction l as [|i l IH]; intros b b' there E Hs; cbn [dispatch] in E; [by simplify_eq|]. inv_bind. destruct x as [b1 t1].
  apply service_shutdown in H0. rewrite Hs in H0. destruct t1; [by eapply IH|]. by simplify_eq.
Qed.

(** After a signal the events of the same wait are still dispatched, those of
    later waits are not. *)
Theorem signal_ends_run n fuel b ready1 ready2 waits b1 :
  m_shutdown b = false -> dispatch n fuel b (ready1 ++ Signal :: ready2) = Ok (b1, true) ->
  run n fuel b ((ready1 ++ Signal :: ready2) :: waits) = Ok (b1, LoopEnded).
Proof.
  intros Hs E. rewrite run_eq, Hs, E. run_bind. rewrite run_eq.
  assert (m_shutdown b1 = true) as ->; [|done]. clear Hs. revert b E.
  induction ready1 as [|i l IH]; intros b E; cbn [app dispatch service] in E; inv_bind.
  - by apply dispatch_shutdown in E.
  - destruct x as [b2 []]; [by eapply IH|done].
Qed.
End router.
