(* ===== verification/RouterLife.v ===== *)
(** * RouterLife: what the router registers and gives back

    src/fastpath/router: the constructors and destructors of tcp_server_transport.cpp,
    shm_server_transport.cpp, tcp_peer_connection.cpp and shm_peer_connection.cpp as
    clients of the inline queue (Queue.cpp, InlineEventManager.cpp), from the
    beginning of [bootstrap::run] to the destruction of [bootstrap].  A connection
    that ends does so in a callback of the inline queue (InlineCallbacks.v). *)
From S2P Require Import Prelude Types Poll Events EventQueue EventDelivery InlineCallbacks.

(** ** The events a queue has *)

Section events.
Context {K : Type} `{Epoll K}.
Abbreviation sys := (Sys K unit).
Abbreviation register := (registerEvent InlineEventManager true).
Abbreviation unregister := (unregisterEvent InlineEventManager true).

(** The queue has exactly the events [evs], each alone on its descriptor or signal,
    none waiting to be called. *)
Record holds (s : sys) (evs : gmap positive EventKind) : Prop := {
  ho_objects : s_objects s = Event_new <$> evs;
  ho_registered : m_registeredEvents s = dom evs;
  ho_io fd l : m_ioHandlerLookup (s_manager s) !! fd = Some l <-> exists p t, evs !! p = Some (DataEvent fd t) /\ l = [p];
  ho_signals sg p : m_signalHandlerLookup (s_manager s) !! sg = Some p <-> exists id, evs !! p = Some (SignalEvent id sg);
  ho_next p : is_Some (evs !! p) -> (p < s_next s)%positive;
  ho_timers p id t : evs !! p <> Some (TimerEvent id t)
}.

(** A kind of event that may be registered: its descriptor is valid and not watched,
    its signal not handled. *)
Definition fresh_kind (s : sys) (k : EventKind) : Prop :=
  match k with
  | DataEvent fd _ => 0 < fd /\ m_ioHandlerLookup (s_manager s) !! fd = None
  | SignalEvent _ sg => m_signalHandlerLookup (s_manager s) !! sg = None
  | TimerEvent _ _ => False
  end.

Lemma lookup_insert_fresh (evs : gmap positive EventKind) n k p k' : evs !! n = None ->
  <[n := k]> evs !! p = Some k' <-> p = n /\ k = k' \/ evs !! p = Some k'.
Proof. intros Hn. rewrite lookup_insert. case_decide; naive_solver congruence. Qed.

Lemma register_holds s evs k : holds s evs -> fresh_kind s k ->
  exists s', register s k = Ok (s_next s, s') /\ holds s' (<[s_next s := k]> evs) /\ evs !! s_next s = None.
Proof.
  intros [Ho Hr Hio Hsg Hn Ht] Hk. assert (evs !! s_next s = None) as Hp.
  { apply eq_None_not_Some. intros Hs. apply Hn in Hs. lia. }
  unfold registerEvent, InlineEventManager, inline_registerHandler, deref. cbn [registerHandler s_objects s_manager]. rewrite lookup_insert_eq. run_bind.
  assert (forall em, m_timerHandlerLookup em = m_timerHandlerLookup (s_manager s) ->
    (forall fd l, m_ioHandlerLookup em !! fd = Some l <-> exists p t, <[s_next s := k]> evs !! p = Some (DataEvent fd t) /\ l = [p]) ->
    (forall sg p, m_signalHandlerLookup em !! sg = Some p <-> exists id, <[s_next s := k]> evs !! p = Some (SignalEvent id sg)) ->
    holds (mkSys (<[s_next s := Event_new k]> (s_objects s)) (Pos.succ (s_next s)) ({[s_next s]} ∪ m_registeredEvents s) (s_queue s) em (s_calls s))
      (<[s_next s := k]> evs)) as A.
  { intros em _ Hi Hs. split; cbn; [by rewrite fmap_insert, Ho|by rewrite dom_insert_L, Hr|exact Hi|exact Hs| |].
    - intros p. rewrite lookup_insert. case_decide; [lia|]. intros Hs'. apply Hn in Hs'. lia.
    - intros p id t. rewrite lookup_insert. case_decide; [|apply Ht]. intros [= ->]. done. }
  destruct k as [fd t|id t|id sg]; [|done|]; cbn [Event_new ev_kind].
  - destruct Hk as [Hfd Hf]. rewrite (proj2 (Z.leb_gt _ _)) by done. unfold register_io. cbn [s_manager set_manager]. rewrite Hf.
    destruct (add_io _ _ _) as [r l] eqn:El. run_bind. eexists. split; [done|]. split; [|done].
    unfold set_manager. cbn. apply A; [done| |]; cbn.
    + intros fd' l'. setoid_rewrite (fun p k' => lookup_insert_fresh evs (s_next s) (DataEvent fd t) p k' Hp).
      rewrite lookup_insert. case_decide as E; [subst fd'|rewrite Hio; naive_solver].
      assert (forall p t', evs !! p <> Some (DataEvent fd t')) as Hno
        by (intros p t' E; assert (m_ioHandlerLookup (s_manager s) !! fd = Some [p]) by (apply Hio; eauto); congruence).
      naive_solver.
    + intros sg p. setoid_rewrite (fun p k' => lookup_insert_fresh evs (s_next s) (DataEvent fd t) p k' Hp). rewrite Hsg. naive_solver.
  - cbn in Hk. unfold register_signal. cbn [s_manager set_manager]. unfold emplace_new. rewrite Hk.
    destruct (add_signal _ _) as [r l] eqn:El. run_bind. eexists. split; [done|]. split; [|done].
    unfold set_manager. cbn. apply A; [done| |]; cbn.
    + intros fd' l'. setoid_rewrite (fun p k' => lookup_insert_fresh evs (s_next s) (SignalEvent id sg) p k' Hp). rewrite Hio. naive_solver.
    + intros sg' p. setoid_rewrite (fun p k' => lookup_insert_fresh evs (s_next s) (SignalEvent id sg) p k' Hp).
      rewrite lookup_insert. case_decide as E; [subst sg'|rewrite Hsg; naive_solver].
      assert (forall p id', evs !! p <> Some (SignalEvent id' sg)) as Hno
        by (intros q id' E; assert (m_signalHandlerLookup (s_manager s) !! sg = Some q) by (apply Hsg; eauto); congruence).
      naive_solver.
Qed.

Lemma unregister_holds s evs p k : holds s evs -> evs !! p = Some k ->
  exists s', unregister s (Some p) = Ok (OK, s') /\ holds s' (delete p evs).
Proof.
  intros [Ho Hr Hio Hsg Hn Ht] Hp. assert (s_objects s !! p = Some (Event_new k)) as He by by rewrite Ho, lookup_fmap, Hp.
  assert (p ∈ m_registeredEvents s) as Hin by (rewrite Hr; by apply elem_of_dom_2 in Hp).
  unfold unregisterEvent, InlineEventManager, inline_unregisterHandler, deref. cbn [unregisterHandler]. rewrite He. run_bind.
  assert (forall em, m_timerHandlerLookup em = m_timerHandlerLookup (s_manager s) ->
    (forall fd l, m_ioHandlerLookup em !! fd = Some l <-> exists q t, delete p evs !! q = Some (DataEvent fd t) /\ l = [q]) ->
    (forall sg q, m_signalHandlerLookup em !! sg = Some q <-> exists id, delete p evs !! q = Some (SignalEvent id sg)) ->
    exists s', (let s := set_manager s em in if bool_decide (p ∈ m_registeredEvents s) then
          e ← deref (s_objects s) p;
          if awaitingDispatch e then Ok (OK, set_object s p (setPendingRemoval e true))
          else Ok (OK, mkSys (delete p (s_objects s)) (s_next s) (m_registeredEvents s ∖ {[p]}) (s_queue s) (s_manager s) (s_calls s))
        else Ok (OK, s)) = Ok (OK, s') /\ holds s' (delete p evs)) as A.
  { intros em _ Hi Hs. cbn. rewrite bool_decide_eq_true_2 by done. unfold deref. rewrite He. run_bind. eexists. split; [done|].
    split; cbn; [by rewrite fmap_delete, Ho|by rewrite dom_delete_L, Hr|exact Hi|exact Hs| |].
    - intros q [k' Hq]. apply lookup_delete_Some in Hq as [_ Hq]. apply Hn. eauto.
    - intros q id t Hq. apply lookup_delete_Some in Hq as [_ Hq]. by apply Ht in Hq. }
  destruct k as [fd t|id t|id sg]; cbn [Event_new ev_kind]; [| by apply Ht in Hp |].
  - unfold unregister_io. rewrite (proj2 (Hio fd [p])) by eauto. rewrite bool_decide_eq_true_2 by apply list_elem_of_here.
    cbn [length Nat.eqb]. destruct (remove_io _ _) as [r l]. run_bind. apply A; [done| |]; cbn.
    + intros fd' l'. setoid_rewrite (lookup_delete_Some evs p). rewrite lookup_delete_Some, Hio. split; [naive_solver|].
      intros (q & t' & [Hne Hq] & ->). split; [|eauto]. intros ->.
      assert ([p] = [q]) by (apply (inj Some); rewrite <- (proj2 (Hio fd' [q])) by eauto; symmetry; apply Hio; eauto). congruence.
    + intros sg q. setoid_rewrite (lookup_delete_Some evs p). rewrite Hsg. naive_solver.
  - unfold unregister_signal. rewrite (proj2 (Hsg sg p)) by eauto. destruct (remove_signal _ _) as [r l]. run_bind. apply A; [done| |]; cbn.
    + intros fd' l'. setoid_rewrite (lookup_delete_Some evs p). rewrite Hio. naive_solver.
    + intros sg' q. setoid_rewrite (lookup_delete_Some evs p). rewrite lookup_delete_Some, Hsg. split; [naive_solver|].
      intros (id' & Hne & Hq). split; [|eauto]. intros ->.
      assert (Some p = Some q) by (rewrite <- (proj2 (Hsg sg' q)) by eauto; symmetry; apply Hsg; eauto). congruence.
Qed.

(** Several events, one after the other. *)
Fixpoint register_events (s : sys) (ks : list EventKind) : outcome (list positive * sys) :=
  match ks with
  | [] => Ok ([], s)
  | k :: ks => '(p, s) ← register s k; '(ps, s) ← register_events s ks; Ok (p :: ps, s)
  end.
Fixpoint unregister_events (s : sys) (ps : list positive) : outcome sys :=
  match ps with
  | [] => Ok s
  | p :: ps => '(_, s) ← unregister s (Some p); unregister_events s ps
  end.

Lemma unregister_events_holds ps : forall s evs, holds s evs -> NoDup ps -> (forall p, p ∈ ps -> is_Some (evs !! p)) ->
  exists s' evs', unregister_events s ps = Ok s' /\ holds s' evs' /\ dom evs' = dom evs ∖ list_to_set ps /\ evs' ⊆ evs.
Proof.
  induction ps as [|p ps IH]; intros s evs Hh Hd Hin; cbn [unregister_events].
  - exists s, evs. split_and!; [done|done| |done]. cbn. by rewrite difference_empty_L.
  - apply NoDup_cons in Hd as [Hp Hd]. destruct (Hin p (list_elem_of_here _ _)) as [k Hk].
    destruct (unregister_holds s evs p k Hh Hk) as (s1 & -> & H1). run_bind.
    destruct (IH s1 (delete p evs) H1 Hd) as (s' & evs' & E & H' & Hdom & Hsub).
    + intros q Hq. rewrite lookup_delete_ne by (intros ->; done). apply Hin. by right.
    + exists s', evs'. split; [done|]. split; [done|]. rewrite Hdom, dom_delete_L.
      split; [cbn; set_solver|]. transitivity (delete p evs); [done|apply delete_subseteq].
Qed.

(** ** The router *)

(** What closing a descriptor does to the epoll instance: nothing here depends on it. *)
Context (close_fd : K -> Z -> K).

Record connection := mkConn { cn_over_shm : bool; cn_events : list positive }.

Record router := mkRouter {
  rt_sys : sys;                              (* m_dispatchQueue *)
  rt_listening : option Z;                   (* the descriptor of tcp_server_transport::m_server *)
  rt_tcp : list positive;                    (* m_connectionAttempt, if it is not null *)
  rt_shm : positive;                         (* m_globalConnectionHandler *)
  rt_segment : bool;                         (* shm_server_transport::m_manager *)
  rt_signals : list positive;                (* sigint_ev, sigterm_ev *)
  rt_connections : list connection           (* m_connections *)
}.

(** The beginning of [run]; [listening] is the descriptor of the TCP server, if
    it listens, [shm] that of the notification server, the others those of the signals. *)
Definition SIGINT : Z := 2.
Definition SIGTERM : Z := 15.
Definition tcp_server_open (s : sys) (listening : option Z) : outcome (list positive * sys) :=
  register_events s (match listening with Some fd => [DataEvent fd EventType_READ] | None => [] end).
Definition shm_server_open (s : sys) (shm : Z) : outcome (positive * sys) := register s (DataEvent shm EventType_READ).
Definition run_begin (s : sys) (listening : option Z) (shm int_id term_id : Z) : outcome router :=
  '(tcp, s) ← tcp_server_open s listening;
  '(handler, s) ← shm_server_open s shm;
  '(signals, s) ← register_events s [SignalEvent int_id SIGINT; SignalEvent term_id SIGTERM];
  Ok (mkRouter s listening tcp handler true signals []).

Definition set_connections (r : router) (s : sys) (cs : list connection) : router :=
  mkRouter s (rt_listening r) (rt_tcp r) (rt_shm r) (rt_segment r) (rt_signals r) cs.

(** A new connection: over TCP the event of its socket, over shared memory those of
    the socket and of the notifier. *)
Definition connect_tcp (r : router) (socket : Z) : outcome router :=
  '(ps, s) ← register_events (rt_sys r) [DataEvent socket EventType_READ];
  Ok (set_connections r s (rt_connections r ++ [mkConn false ps])).
Definition connect_shm (r : router) (socket notifier : Z) : outcome router :=
  '(ps, s) ← register_events (rt_sys r) [DataEvent socket EventType_READ; DataEvent notifier EventType_READ];
  Ok (set_connections r s (rt_connections r ++ [mkConn true ps])).

(** The destructor: its events, then its members, of which the two queues over shared
    memory go back to the segment through the manager. *)
Definition connection_destroy (segment : bool) (s : sys) (c : connection) : outcome sys :=
  s ← unregister_events s (cn_events c);
  if cn_over_shm c && negb segment then undefined UseAfterFree else Ok s.

(** [m_disconnectionHandler(this)], which a connection calls from the callback of one
    of its events: [m_connections.erase(it)] destroys it there, while the queue services
    that event. *)
Definition connection_gone (r : router) (i : nat) (p : positive) (types : Z) (s : sys) : outcome sys :=
  match rt_connections r !! i with
  | Some c => connection_destroy (rt_segment r) s c
  | None => Ok s
  end.

(** [m_server.disconnect()] *)
Definition server_disconnect (s : sys) (listening : option Z) : sys :=
  match listening with
  | Some fd =>
      let em := s_manager s in let l := m_eventLoop em in
      set_manager s (set_loop em (mkPoll (close_fd (ep_fd l) fd) (m_events l) (m_err_count l)))
  | None => s
  end.

(** The destructors of the two server transports; that of the one over shared memory
    ends with its manager. *)
Definition tcp_server_close (s : sys) (listening : option Z) (tcp : list positive) : outcome sys :=
  unregister_events (server_disconnect s listening) tcp.
Definition shm_server_close (s : sys) (handler : positive) : outcome (bool * sys) :=
  s ← unregister_events s [handler]; Ok (false, s).

(** The end of [run]: the signals, then the transports in the reverse order. *)
Definition run_end (r : router) : outcome router :=
  s ← unregister_events (rt_sys r) (rt_signals r);
  '(segment, s) ← shm_server_close s (rt_shm r);
  s ← tcp_server_close s (rt_listening r) (rt_tcp r);
  Ok (mkRouter s (rt_listening r) (rt_tcp r) (rt_shm r) segment (rt_signals r) (rt_connections r)).

(** [~bootstrap]: the connections, then the queue. *)
Fixpoint connections_destroy (segment : bool) (s : sys) (cs : list connection) : outcome sys :=
  match cs with
  | [] => Ok s
  | c :: cs => s ← connection_destroy segment s c; connections_destroy segment s cs
  end.
Definition router_end (r : router) : outcome sys :=
  r ← run_end r;
  s ← connections_destroy (rt_segment r) (rt_sys r) (rt_connections r);
  Queue_destroy s.

(** What happens between: connections over descriptors nobody watches come.  What
    happens when one goes is [connection_gone]. *)
Inductive life : router -> router -> Prop :=
  | life_tcp r socket r' : fresh_kind (rt_sys r) (DataEvent socket EventType_READ) ->
      connect_tcp r socket = Ok r' -> life r r'
  | life_shm r socket notifier r' : fresh_kind (rt_sys r) (DataEvent socket EventType_READ) ->
      fresh_kind (rt_sys r) (DataEvent notifier EventType_READ) -> socket <> notifier ->
      connect_shm r socket notifier = Ok r' -> life r r'.

(** Every event the router knows is registered, once, and there is no other; those of
    the connections watch a descriptor for reading. *)
Definition reading (evs : gmap positive EventKind) (p : positive) : Prop := exists fd, evs !! p = Some (DataEvent fd EventType_READ).
Definition router_events (r : router) : list positive :=
  rt_signals r ++ [rt_shm r] ++ rt_tcp r ++ concat (cn_events <$> rt_connections r).
Definition router_inv (r : router) : Prop :=
  rt_segment r = true /\ exists evs, holds (rt_sys r) evs /\ NoDup (router_events r) /\ dom evs = list_to_set (router_events r) /\
    Forall (reading evs) (concat (cn_events <$> rt_connections r)).

(** ** The invariant of the router *)

Definition clash (k k' : EventKind) : Prop :=
  match k, k' with
  | DataEvent fd _, DataEvent fd' _ => fd = fd'
  | SignalEvent _ sg, SignalEvent _ sg' => sg = sg'
  | _, _ => False
  end.
Fixpoint apart (ks : list EventKind) : Prop :=
  match ks with [] => True | k :: ks => Forall (fun k' => ~ clash k k') ks /\ apart ks end.

Lemma fresh_after s evs s' n k k' : holds s evs -> holds s' (<[n := k]> evs) -> fresh_kind s k' -> ~ clash k k' -> fresh_kind s' k'.
Proof.
  intros I I' Hf Hc. destruct k' as [fd t|id t|id sg]; cbn in *; [destruct Hf as [H0 Hf]; split; [done|]|done|].
  - apply eq_None_not_Some. intros [l Hl]. apply (ho_io _ _ I') in Hl as (p & t' & Hp & _).
    rewrite lookup_insert in Hp. case_decide; [injection Hp as ->; by apply Hc|].
    assert (m_ioHandlerLookup (s_manager s) !! fd = Some [p]) by (apply (ho_io _ _ I); eauto). congruence.
  - apply eq_None_not_Some. intros [p Hl]. apply (ho_signals _ _ I') in Hl as (id' & Hp).
    rewrite lookup_insert in Hp. case_decide; [injection Hp as ->; by apply Hc|].
    assert (m_signalHandlerLookup (s_manager s) !! sg = Some p) by (apply (ho_signals _ _ I); eauto). congruence.
Qed.

Lemma register_events_holds ks : forall s evs, holds s evs -> Forall (fresh_kind s) ks -> apart ks ->
  exists ps s' evs', register_events s ks = Ok (ps, s') /\ holds s' evs' /\
    dom evs' = list_to_set ps ∪ dom evs /\ NoDup ps /\ (forall p, p ∈ ps -> p ∉ dom evs) /\
    (forall k', fresh_kind s k' -> Forall (fun k => ~ clash k k') ks -> fresh_kind s' k') /\
    evs ⊆ evs' /\ Forall2 (fun p k => evs' !! p = Some k) ps ks.
Proof.
  induction ks as [|k ks IH]; intros s evs I Hf Ha; cbn [register_events].
  - exists [], s, evs. split_and!; [done|done| |constructor|by intros p Hp; apply not_elem_of_nil in Hp|done|done|constructor]. cbn. by rewrite union_empty_l_L.
  - apply Forall_cons in Hf as [Hk Hf]. destruct Ha as [Hk' Ha].
    destruct (register_holds s evs k I Hk) as (s1 & -> & I1 & Hn). run_bind.
    destruct (IH s1 _ I1) as (ps & s' & evs' & -> & I' & Hd & Hnd & Hnew & Hfr & Hsub & Hks); [|done|].
    { rewrite Forall_forall in *. intros k1 Hk1. apply (fresh_after s evs s1 (s_next s) k); [done|done|by apply Hf|by apply Hk']. }
    run_bind. exists (s_next s :: ps), s', evs'. split; [done|]. split; [done|].
    assert (s_next s ∉ dom evs) as Hn' by by apply not_elem_of_dom.
    rewrite dom_insert_L in Hd, Hnew. split; [rewrite Hd; cbn; set_solver|]. split; [constructor; [intros Hin; apply Hnew in Hin; set_solver|done]|].
    split; [intros p Hp; apply elem_of_cons in Hp as [->|Hp]; [done|apply Hnew in Hp; set_solver]|].
    split; [intros k1 Hk1 Hc; apply Forall_cons in Hc as [Hc Hcs]; apply Hfr; [|done]; by apply (fresh_after s evs s1 (s_next s) k)|].
    split; [transitivity (<[s_next s := k]> evs); [by apply insert_subseteq|done]|].
    constructor; [|done]. apply (lookup_weaken (<[s_next s := k]> evs)); [apply lookup_insert_eq|done].
Qed.

(** A connection that is added with its events. *)
Lemma add_connection_inv r fds shm r' (ks := (fun fd => DataEvent fd EventType_READ) <$> fds) :
  router_inv r -> Forall (fresh_kind (rt_sys r)) ks -> apart ks ->
  ('(ps, s) ← register_events (rt_sys r) ks; Ok (set_connections r s (rt_connections r ++ [mkConn shm ps]))) = Ok r' -> router_inv r'.
Proof.
  intros [Hs (evs & I & Hnd & Hd & Hread)] Hf Ha E.
  destruct (register_events_holds ks _ evs I Hf Ha) as (ps & s' & evs' & E' & I' & Hd' & Hnd' & Hnew & _ & Hsub & Hks).
  rewrite E' in E. run_bind in E. injection E as <-. split; [done|]. exists evs'. split; [done|].
  assert (router_events (set_connections r s' (rt_connections r ++ [mkConn shm ps])) = router_events r ++ ps) as ->.
  { unfold router_events. cbn. rewrite fmap_app, concat_app. cbn. rewrite app_nil_r, <- !app_assoc. cbn. by rewrite <- app_assoc. }
  rewrite Hd', Hd, list_to_set_app_L. split; [|split; [set_solver|]].
  - apply NoDup_app. split; [done|]. split; [|done].
    intros p Hp Hp'. apply Hnew in Hp'. rewrite Hd in Hp'. by apply Hp', elem_of_list_to_set.
  - cbn [rt_connections set_connections]. rewrite fmap_app, concat_app. cbn. rewrite app_nil_r. apply Forall_app. split.
    + eapply Forall_impl; [exact Hread|]. intros p [fd Hp]. exists fd. by apply (lookup_weaken evs).
    + apply Forall_forall. intros p Hp. apply list_elem_of_lookup in Hp as [j Hj].
      destruct (Forall2_lookup_l _ _ _ _ _ Hks Hj) as (k & Hk & Hpk). unfold ks in Hk. rewrite list_lookup_fmap in Hk.
      destruct (fds !! j) as [fd|]; [|done]. injection Hk as <-. by exists fd.
Qed.

(** A connection that is destroyed while the segment exists: nothing watches its
    descriptors any more. *)
Lemma connection_destroy_unwatches s evs c p fd t : holds s evs -> NoDup (cn_events c) ->
  (forall p, p ∈ cn_events c -> is_Some (evs !! p)) -> p ∈ cn_events c -> evs !! p = Some (DataEvent fd t) ->
  exists s', connection_destroy true s c = Ok s' /\ m_ioHandlerLookup (s_manager s') !! fd = None.
Proof.
  intros I Hnd Hin Hp Hk. destruct (unregister_events_holds _ s evs I Hnd Hin) as (s' & evs' & E & I' & Hd & Hsub).
  unfold connection_destroy. rewrite E. run_bind. rewrite andb_false_r. exists s'. split; [done|].
  apply eq_None_not_Some. intros [l Hl]. apply (ho_io _ _ I') in Hl as (q & t' & Hq & _).
  assert (q ∈ dom evs') as Hqd by by apply elem_of_dom_2 in Hq.
  assert (evs !! q = Some (DataEvent fd t')) as Hq' by by apply (lookup_weaken evs').
  assert (m_ioHandlerLookup (s_manager s) !! fd = Some [p]) as Lp by (apply (ho_io _ _ I); eauto).
  assert (m_ioHandlerLookup (s_manager s) !! fd = Some [q]) as Lq by (apply (ho_io _ _ I); eauto).
  rewrite Lp in Lq. injection Lq as <-. rewrite Hd, elem_of_difference, elem_of_list_to_set in Hqd. by destruct Hqd.
Qed.

(** A call of an event leaves the queue's events as they are. *)
Lemma called_holds s evs p e a : holds s evs -> s_objects s !! p = Some e -> holds (callback (set_object s p e) p a) evs.
Proof. intros [A B C D E F] He. split; try done. cbn. by rewrite insert_id. Qed.

(** A connection that goes does so in the callback of one of its events, and its
    destructor erases the vector of handlers which the queue iterates. *)
Lemma connection_gone_invalidates r i c p filter : router_inv r -> rt_connections r !! i = Some c -> p ∈ cn_events c ->
  Z.land EventType_READ filter <> EventType_NONE ->
  exists fd, s_objects (rt_sys r) !! p = Some (Event_new (DataEvent fd EventType_READ)) /\
    inline_serviceIOEvent (connection_gone r i) (rt_sys r) fd filter = undefined InvalidIterator.
Proof.
  intros [Hs (evs & I & Hnd & Hd & Hread)] Hc Hp Hf.
  assert (cn_events c ⊆ concat (cn_events <$> rt_connections r)) as Hsub.
  { intros q Hq. apply list_elem_of_In, in_concat. exists (cn_events c). split; [|by apply list_elem_of_In].
    apply list_elem_of_In, list_elem_of_fmap_2. by eapply list_elem_of_lookup_2. }
  destruct (proj1 (Forall_forall _ _) Hread p (Hsub p Hp)) as [fd Hk]. exists fd.
  assert (s_objects (rt_sys r) !! p = Some (Event_new (DataEvent fd EventType_READ))) as He by by rewrite (ho_objects _ _ I), lookup_fmap, Hk.
  split; [done|]. assert (m_ioHandlerLookup (s_manager (rt_sys r)) !! fd = Some [p]) as Hv by (apply (ho_io _ _ I); eauto).
  unfold inline_serviceIOEvent. rewrite Hv. cbn [inline_foreach]. rewrite (deref_live _ _ _ He). run_bind.
  cbn [Event_new eventTypes ev_kind]. rewrite (proj2 (Z.eqb_neq _ _)) by done. cbn [awaitingDispatch m_awaitingDispatch negb andb].
  change (awaitingDispatch (Event_new (DataEvent fd EventType_READ))) with false. cbn [negb andb].
  rewrite (notify_now_eq _ _ _ _ (Event_new (DataEvent fd EventType_READ))) by done. cbv zeta. cbn [Event_new m_pendingRemoval].
  unfold connection_gone. rewrite Hc, Hs.
  destruct (connection_destroy_unwatches _ evs c p fd EventType_READ
    (called_holds (rt_sys r) evs p (Event_new (DataEvent fd EventType_READ)) (Z.land EventType_READ filter) I He)) as (s' & -> & Hn); [| |done|done|].
  - unfold router_events in Hnd. apply NoDup_app in Hnd as (_ & _ & Hnd). apply NoDup_app in Hnd as (_ & _ & Hnd).
    apply NoDup_app in Hnd as (_ & _ & Hnd). rewrite <- (take_drop_middle _ _ _ Hc), fmap_app, fmap_cons, concat_app, concat_cons in Hnd.
    apply NoDup_app in Hnd as (_ & _ & Hnd). by apply NoDup_app in Hnd as (? & _).
  - intros q Hq. destruct (proj1 (Forall_forall _ _) Hread q (Hsub q Hq)) as [fd' ->]. by eexists.
  - run_bind. by rewrite Hn.
Qed.

Lemma life_inv r r' : life r r' -> router_inv r -> router_inv r'.
Proof.
  intros [r0 fd r1 Hf E|r0 fd nfd r1 Hf Hn Hne E] I.
  - apply (add_connection_inv r0 [fd] false); [done|by apply Forall_singleton|by split|exact E].
  - apply (add_connection_inv r0 [fd; nfd] true);
      [done| | |exact E]; [by apply Forall_cons; split; [|apply Forall_singleton]|]. split; [by apply Forall_singleton|by split].
Qed.

Lemma run_begin_inv s listening shm int_id term_id : holds s ∅ -> 0 < shm ->
  (forall fd, listening = Some fd -> 0 < fd /\ fd <> shm) ->
  exists r, run_begin s listening shm int_id term_id = Ok r /\ router_inv r /\ rt_connections r = [].
Proof.
  intros I Hshm Hl.
  assert (forall fd t, 0 < fd -> fresh_kind s (DataEvent fd t)) as Fd.
  { intros fd t H0. split; [done|]. apply eq_None_not_Some. intros [l Hx]. apply (ho_io _ _ I) in Hx as (p & t' & Hp & _). by rewrite lookup_empty in Hp. }
  assert (forall id sg, fresh_kind s (SignalEvent id sg)) as Fs.
  { intros id sg. apply eq_None_not_Some. intros [p Hx]. apply (ho_signals _ _ I) in Hx as (id' & Hp). by rewrite lookup_empty in Hp. }
  set (ks := match listening with Some fd => [DataEvent fd EventType_READ] | None => [] end).
  destruct (register_events_holds ks s ∅ I) as (tcp & s1 & evs1 & E1 & I1 & D1 & N1 & _ & F1 & _).
  { unfold ks. destruct listening as [fd|]; [|done]. by apply Forall_singleton, Fd, Hl. }
  { unfold ks. by destruct listening. }
  destruct (register_holds s1 evs1 (DataEvent shm EventType_READ) I1) as (s2 & E2 & I2 & H2).
  { apply F1; [by apply Fd|]. unfold ks. destruct listening as [fd|]; [|done]. apply Forall_singleton. cbn. by apply Hl. }
  assert (forall id sg, fresh_kind s2 (SignalEvent id sg)) as F2.
  { intros id sg. apply (fresh_after s1 evs1 s2 (s_next s1) (DataEvent shm EventType_READ)); [done|done| |by intros []].
    apply F1; [by apply Fs|]. unfold ks. destruct listening; [|done]. apply Forall_singleton. by intros []. }
  destruct (register_events_holds [SignalEvent int_id SIGINT; SignalEvent term_id SIGTERM] s2 _ I2) as (sigs & s3 & evs3 & E3 & I3 & D3 & N3 & W3 & _).
  { apply Forall_cons. split; [|apply Forall_singleton]; apply F2. }
  { split; [apply Forall_singleton; by intros E|by split]. }
  unfold run_begin, tcp_server_open, shm_server_open. fold ks. rewrite E1. run_bind. rewrite E2. run_bind. rewrite E3. run_bind. eexists. split; [done|]. split; [|done].
  split; [done|]. exists evs3. split; [done|]. unfold router_events. cbn [rt_signals rt_shm rt_tcp rt_connections fmap list_fmap concat].
  rewrite dom_insert_L, D1, dom_empty_L in D3, W3. apply not_elem_of_dom in H2. rewrite D1, dom_empty_L in H2.
  split; [|split; [rewrite D3, !list_to_set_app_L; cbn; set_solver|constructor]].
  apply NoDup_app. split; [done|]. split; [intros p Hp; apply W3 in Hp; rewrite app_nil_r; set_solver|].
  rewrite app_nil_r. constructor; [set_solver|done].
Qed.

(** Unregistering a part of what is registered. *)
Lemma unregister_part s evs ps rest : holds s evs -> NoDup (ps ++ rest) -> dom evs = list_to_set (ps ++ rest) ->
  exists s' evs', unregister_events s ps = Ok s' /\ holds s' evs' /\ NoDup rest /\ dom evs' = list_to_set rest.
Proof.
  intros I Hnd Hd. apply NoDup_app in Hnd as (H1 & H2 & H3).
  destruct (unregister_events_holds ps s evs I H1) as (s' & evs' & E & I' & Hd' & _).
  { intros p Hp. apply elem_of_dom. rewrite Hd, elem_of_list_to_set. apply elem_of_app. by left. }
  exists s', evs'. split_and!; [done|done|done|]. rewrite Hd', Hd, list_to_set_app_L. apply set_eq. intros p.
  rewrite elem_of_difference, elem_of_union, !elem_of_list_to_set. split; [intros [[?|?] ?]; done|]. intros Hp. split; [by right|].
  intros Hps. by apply (H2 p).
Qed.

(** The queue does not know whether a descriptor has been closed. *)
Lemma server_disconnect_holds s evs listening : holds s evs -> holds (server_disconnect s listening) evs.
Proof. intros [A B C D E F]. destruct listening; [|by split]. by split. Qed.

Lemma connections_destroy_spec cs : forall s evs, holds s evs -> NoDup (concat (cn_events <$> cs)) -> dom evs = list_to_set (concat (cn_events <$> cs)) ->
  (Forall (fun c => cn_over_shm c = false) cs -> exists s', connections_destroy false s cs = Ok s' /\ holds s' ∅) /\
  (Exists (fun c => cn_over_shm c = true) cs -> connections_destroy false s cs = undefined UseAfterFree).
Proof.
  induction cs as [|c cs IH]; intros s evs I Hnd Hd; cbn [connections_destroy fmap list_fmap concat] in *.
  - split; [|by intros ?%Exists_nil]. intros _. exists s. split; [done|]. apply dom_empty_inv_L in Hd. by subst.
  - destruct (unregister_part s evs _ _ I Hnd Hd) as (s1 & evs1 & E1 & I1 & N1 & D1). unfold connection_destroy. rewrite E1. run_bind.
    destruct (IH s1 evs1 I1 N1 D1) as [IHf IHe]. rewrite andb_true_r. destruct (cn_over_shm c) eqn:Ec.
    + split; [|done]. intros Hf. apply Forall_cons in Hf as [Hf _]. congruence.
    + run_bind. split; [intros Hf; apply Forall_cons in Hf as [_ Hf]; by apply IHf|].
      intros Hx. apply Exists_cons in Hx as [Hx|Hx]; [congruence|by apply IHe].
Qed.

(** The end of the router. *)
Lemma router_end_spec r : router_inv r ->
  (Forall (fun c => cn_over_shm c = false) (rt_connections r) -> exists s', router_end r = Ok s' /\
     m_registeredEvents s' = ∅ /\ m_ioHandlerLookup (s_manager s') = ∅ /\ m_signalHandlerLookup (s_manager s') = ∅) /\
  (Exists (fun c => cn_over_shm c = true) (rt_connections r) -> router_end r = undefined UseAfterFree).
Proof.
  intros J.
  destruct J as [_ (evs & J & Hnd & Hd & _)]. unfold router_events in *. unfold router_end, run_end, tcp_server_close, shm_server_close.
  destruct (unregister_part _ _ _ _ J Hnd Hd) as (s1 & evs1 & -> & J1 & N1 & D1). run_bind.
  destruct (unregister_part _ _ _ _ J1 N1 D1) as (s2 & evs2 & -> & J2 & N2 & D2). run_bind.
  destruct (unregister_part _ _ _ _ (server_disconnect_holds _ _ (rt_listening r) J2) N2 D2) as (s3 & evs3 & -> & J3 & N3 & D3). run_bind.
  cbn [rt_segment rt_sys rt_connections]. destruct (connections_destroy_spec _ _ _ J3 N3 D3) as [Hf He]. split.
  - intros Hc. destruct (Hf Hc) as (s' & -> & [Ho Hr Hio Hsg _ _]). run_bind. unfold Queue_destroy.
    rewrite Hr, dom_empty_L, bool_decide_eq_true_2 by done. exists s'. split; [done|]. split; [by rewrite Hr, dom_empty_L|].
    split; apply map_eq; intros i; rewrite lookup_empty; apply eq_None_not_Some; intros [x Hx].
    + apply Hio in Hx as (p & t & Hp & _). by rewrite lookup_empty in Hp.
    + apply Hsg in Hx as (id & Hp). by rewrite lookup_empty in Hp.
  - intros Hc. by rewrite (He Hc).
Qed.
(** C38: whatever connections have come, over sockets and notifiers that nothing else
    watches: if the router is stopped without connections over shared memory it gives
    back every event, the queue's destructor finds none and nothing is watched any
    more; with one, it ends in the manager of the segment that [run] has already
    destroyed.  A connection that goes before that does so in the callback of one of
    its events, and its destructor invalidates the iterators of the loop of the
    queue that called it: the behaviour is undefined. *)
Theorem router_end_outcome s listening shm int_id term_id r0 r :
  holds s ∅ -> 0 < shm -> (forall fd, listening = Some fd -> 0 < fd /\ fd <> shm) ->
  run_begin s listening shm int_id term_id = Ok r0 -> rtc life r0 r ->
  (Forall (fun c => cn_over_shm c = false) (rt_connections r) -> exists s', router_end r = Ok s' /\
     m_registeredEvents s' = ∅ /\ m_ioHandlerLookup (s_manager s') = ∅ /\ m_signalHandlerLookup (s_manager s') = ∅) /\
  (Exists (fun c => cn_over_shm c = true) (rt_connections r) -> router_end r = undefined UseAfterFree) /\
  (forall i c p filter, rt_connections r !! i = Some c -> p ∈ cn_events c -> Z.land EventType_READ filter <> EventType_NONE ->
     exists fd, s_objects (rt_sys r) !! p = Some (Event_new (DataEvent fd EventType_READ)) /\
       inline_serviceIOEvent (connection_gone r i) (rt_sys r) fd filter = undefined InvalidIterator).
Proof.
  intros I Hshm Hl E0 Hlife. destruct (run_begin_inv s listening shm int_id term_id I Hshm Hl) as (r0' & E0' & J0 & _).
  rewrite E0 in E0'. injection E0' as <-. assert (router_inv r) as J by (clear -Hlife J0; induction Hlife; eauto using life_inv).
  split; [|split; [|intros i c p filter; by apply connection_gone_invalidates]]; apply router_end_spec; done.
Qed.
End events.

(** ** Samples *)

Definition idle_queue : Sys (gmap Z (Z * Z)) unit := mkSys ∅ 1 ∅ tt (mkManager ∅ ∅ ∅ (mkPoll ∅ 0 0)) [].
Lemma idle_queue_holds : holds idle_queue ∅.
Proof.
  split; cbn; try done.
  - intros fd l. rewrite lookup_empty. split; [done|]. intros (p & t & Hp & _). by rewrite lookup_empty in Hp.
  - intros sg p. rewrite lookup_empty. split; [done|]. intros (id & Hp). by rewrite lookup_empty in Hp.
  - intros p [k Hp]. by rewrite lookup_empty in Hp.
Qed.

Abbreviation sample_router := (@router (gmap Z (Z * Z))).
Definition result_of (o : outcome sample_router) : sample_router :=
  match o with Ok r => r | Err _ => mkRouter idle_queue None [] 1 true [] [] end.
Lemma result_of_ok o : (match o with Ok _ => true | Err _ => false end) = true -> o = Ok (result_of o).
Proof. by destruct o. Qed.

(** Two clients over TCP, then one over shared memory. *)
Definition started : sample_router := result_of (run_begin idle_queue (Some 4) 5 6 7).
Definition first_client : sample_router := result_of (connect_tcp started 8).
Definition second_client : sample_router := result_of (connect_tcp first_client 9).
Definition shm_client : sample_router := result_of (connect_shm second_client 10 11).

Lemma started_ok : run_begin idle_queue (Some 4) 5 6 7 = Ok started.
Proof. apply result_of_ok. by vm_compute. Qed.
Lemma first_client_ok : connect_tcp started 8 = Ok first_client.
Proof. apply result_of_ok. by vm_compute. Qed.
Lemma second_client_ok : connect_tcp first_client 9 = Ok second_client.
Proof. apply result_of_ok. by vm_compute. Qed.
Lemma shm_client_ok : connect_shm second_client 10 11 = Ok shm_client.
Proof. apply result_of_ok. by vm_compute. Qed.

Definition unwatched (r : sample_router) (fd : Z) : bool :=
  (0 <? fd) && match m_ioHandlerLookup (s_manager (rt_sys r)) !! fd with Some _ => false | None => true end.
Lemma unwatched_fresh r fd t : unwatched r fd = true -> fresh_kind (rt_sys r) (DataEvent fd t).
Proof. unfold unwatched. intros [Hp%Z.ltb_lt Hl]%andb_true_iff. split; [done|]. by destruct (_ !! fd). Qed.

Lemma second_client_life : rtc life started second_client.
Proof.
  apply (rtc_l _ _ first_client); [apply (life_tcp _ 8); [apply unwatched_fresh; by vm_compute|exact first_client_ok]|].
  apply rtc_once, (life_tcp _ 9); [apply unwatched_fresh; by vm_compute|exact second_client_ok].
Qed.
Lemma shm_client_life : rtc life started shm_client.
Proof.
  apply (rtc_r _ second_client); [exact second_client_life|].
  apply (life_shm _ 10 11); [apply unwatched_fresh; by vm_compute|apply unwatched_fresh; by vm_compute|discriminate|exact shm_client_ok].
Qed.

Lemma router_end_outcome_witness :
  (exists s', router_end (fun k fd => delete fd k) second_client = Ok s' /\ m_registeredEvents s' = ∅) /\
  router_end (fun k fd => delete fd k) shm_client = undefined UseAfterFree /\
  inline_serviceIOEvent (connection_gone second_client 0) (rt_sys second_client) 8 EventType_READ = undefined InvalidIterator.
Proof.
  assert (forall fd, Some 4 = Some fd -> 0 < fd /\ fd <> 5) as Hl by by intros fd [= <-].
  assert (0 < 5) as Hp by lia.
  split; [|split].
  - pose proof (proj1 (router_end_outcome (fun k fd => delete fd k) _ _ _ _ _ _ _ idle_queue_holds Hp Hl started_ok second_client_life)) as Hf.
    assert (Forall (fun c => cn_over_shm c = false) (rt_connections second_client)) as Hc.
    { apply Forall_forall. intros c Hc. assert (forallb (fun c => negb (cn_over_shm c)) (rt_connections second_client) = true) as Hb by by vm_compute.
      rewrite forallb_forall in Hb. apply negb_true_iff, Hb. by apply list_elem_of_In. }
    specialize (Hf Hc). clear Hc. destruct Hf as (s' & E & Hr & _). exists s'. split; [exact E|exact Hr].
  - apply (proj1 (proj2 (router_end_outcome (fun k fd => delete fd k) _ _ _ _ _ _ _ idle_queue_holds Hp Hl started_ok shm_client_life))).
    apply Exists_exists. assert (existsb cn_over_shm (rt_connections shm_client) = true) as Hb by by vm_compute.
    apply existsb_exists in Hb as (c & Hc & Hs). exists c. split; [by apply list_elem_of_In|exact Hs].
  - destruct (rt_connections second_client !! 0%nat) as [c|] eqn:Ec; [|by vm_compute in Ec].
    assert (cn_events c = [5%positive]) as Ep by (vm_compute in Ec; by injection Ec as <-).
    destruct (proj2 (proj2 (router_end_outcome (fun k fd => delete fd k) _ _ _ _ _ _ _ idle_queue_holds Hp Hl started_ok second_client_life))
      0%nat c 5%positive EventType_READ Ec) as (fd & He & E); [rewrite Ep; apply list_elem_of_here|by vm_compute|].
    assert (fd = 8) as -> by (vm_compute in He; by injection He as <-). exact E.
Defined.
