(* ===== verification/Programs.v ===== *)
(** * Programs: the main functions

    src/fastpath/router/fprouter.cpp and tools/fpsend.cpp, fplisten.cpp: the
    common beginning with the command line and the level of the logger, the
    router's banner, flags and engine, and what the two tools send and print.
    The clock, the number of the thread, the operating system behind the sockets
    and the text of a command line error are arguments. *)
From Stdlib Require Import Ascii String.
From S2P Require Import Prelude Heap ByteStorage MessageBuffer Types Field Message Codec RoundTrip Built Options Printing Output Subject Transport Router Listener Sockets Endpoints Bootstrap Logger.
#[local] Open Scope string_scope.
#[local] Open Scope list_scope.
#[local] Open Scope Z_scope.

(** ** The common beginning *)

(** The level that [--loglevel] names. *)
Definition level_of (loglevel : string) : option level :=
  if String.eqb loglevel "DEBUG" then Some debug
  else if String.eqb loglevel "INFO" then Some info
  else if String.eqb loglevel "WARNING" then Some warning
  else if String.eqb loglevel "ERROR" then Some error
  else None.

(** [ss >> val] for a [bool]: a number, of which only zero is false; text that is
    not a number stores zero, and an empty text leaves [val] as it was. *)
Definition is_blank (c : Z) : bool := (c =? 32) || ((9 <=? c) && (c <=? 13)).
Definition is_digit (c : Z) : bool := (48 <=? c) && (c <=? 57).
Fixpoint leading (p : Z -> bool) (t : list Z) : list Z * list Z :=
  match t with
  | c :: t' => if p c then (c :: (leading p t').1, (leading p t').2) else ([], t)
  | [] => ([], [])
  end.
Definition extract_bool (text : string) : outcome bool :=
  match (leading is_blank (bytes_of_string text)).2 with
  | [] => undefined IndeterminateRead
  | c :: t =>
      let t := if (c =? 43) || (c =? 45) then t else c :: t in
      Ok (existsb (fun d => negb (d =? 48)) (leading is_digit t).1)
  end.

Section programs.
(** The clock at each log statement, the number of the thread, and what an
    [option_exception] says about a command line. *)
Context (now : nat -> clock) (tid : list Z) (what : list string -> list Z).

Definition say (n : nat) (lv : level) (text : list Z) (l : logger) : outcome logger :=
  LOG (now n) tid lv (fun s => Ok (put text s)) l.

(** The options, unless the program returns 1 at once. *)
Definition start_up (table : options) (argv : list string) (l : logger) : outcome (option options * logger) :=
  match parse table argv with
  | Err (Throw InvalidArgument) =>
      l ← say 0 error (what argv) l;
      Ok (None, on_stream l (printUsage table (m_output_stream l)))
  | Err f => Err f
  | Ok o =>
      match get_at o "loglevel" 0 with
      | Some loglevel =>
          match level_of loglevel with
          | Some lv => Ok (Some o, LOG_LEVEL lv l)
          | None => l ← say 0 error (bytes_of_string "Invalid log level") l; Ok (None, l)
          end
      | None => Ok (Some o, LOG_LEVEL warning l)
      end
  end.

(** ** fprouter.cpp *)

Definition banner_line (text : string) : list Z := bytes_of_string text ++ [10].
(** [sprintf(output, banner, PROJECT_VERSION, 2016)] into [char output[1024]]. *)
Definition banner (version : list Z) : list Z :=
  [10] ++ banner_line "+------------------------------------------------------------------------------+"
  ++ banner_line "|   Fast Path Routing Server                                                   |"
  ++ banner_line "|                                                                              |"
  ++ bytes_of_string "|   Version: " ++ version ++ replicate (66 - length version) 32 ++ banner_line "|"
  ++ banner_line "|                                                                              |"
  ++ bytes_of_string "|   (c) Tom Fewster <tom@wannabegeek.com> 2003-" ++ int_text 2016
  ++ banner_line "                            |"
  ++ banner_line "|   This software is covered by the GNU Public Licence, see http://www.gnu.org |"
  ++ banner_line "|   for more details                                                           |"
  ++ banner_line "+------------------------------------------------------------------------------+" ++ [10].
Definition output_size : nat := 1024.
Definition startup_banner (version : list Z) : outcome (list Z) :=
  if (length (banner version) <? output_size)%nat then Ok (banner version) else undefined OutOfBounds.

(** [tf::run_as_daemon] after [fork] has returned [pid]: the status with which the
    process exits, if it does. *)
Definition run_as_daemon (pid : Z) : option Z := if pid =? 0 then None else Some 0.

Section router.
Context `{Platform} {K A X : Type} `{SocketKernel K A}.
Context (have_lowdelay have_nosigpipe : bool).
Context (getaddrinfo : option (list Z) -> list Z -> option (list A)) (unix_address : list Z -> A).
(** The environment, and Boost's [open_or_create] of a segment by its name. *)
Context (getenv : list Z -> option (list Z)) (open_or_create : list Z -> outcome unit).

(** [shm_server_transport(queue, callback, interface, service)] (noexcept): the segment
    and the notification server. *)
Definition shm_server_transport_new (service : list Z) (k : K) (x : X) : outcome (@world K X) :=
  noexcept (
    _ ← open_or_create (bytes_of_string "fprouter_" ++ service);
    NotifierServer_new unix_address (ipc_file getenv service) k x).

(** [bootstrap(interface, service)] and its [run]: both server transports, whose
    constructors are noexcept, and the loop over what the queue reports. *)
Definition engine_run (n fuel : nat) (interface service : list Z) (k : K) (x : X) (waits : list (list input))
    : outcome (bootstrap * run_end) :=
  '(w, _) ← tcp_server_transport_new have_lowdelay have_nosigpipe getaddrinfo interface service k x;
  _ ← shm_server_transport_new service (w_kernel w) x;
  run n fuel bootstrap_new waits.

(** [main]: the exit status, or [None] while the engine is still waiting for events,
    and the logger; [pid] is what [fork] returns, [stde] the text of the exception that
    ended the engine.  An event erased in its own callback leaves the queue's loop with
    invalid iterators. *)
Definition fprouter_main (n fuel : nat) (version : list Z) (pid : Z) (stde : list Z) (k : K) (x : X)
    (waits : list (list input)) (argv : list string) (l : logger) : outcome (option Z * logger) :=
  '(o, l) ← start_up router_options argv l;
  match (o : option options) with
  | None => Ok (Some 1, l)
  | Some o =>
      let l := log_thread_id true l in
      nobanner ← get_or extract_bool o "nobanner" (Ok false) 0;
      l ← (if (nobanner : bool) then Ok l else output ← startup_banner version; log (now 1) tid info output l);
      daemon ← get_or extract_bool o "daemon" (Ok false) 0;
      match (if (daemon : bool) then run_as_daemon pid else None) with
      | Some code => Ok (Some code, l)
      | None =>
          let interface := bytes_of_string (getWithDefault o "interface" "0.0.0.0" 0) in
          let service := bytes_of_string (getWithDefault o "service" "7900" 0) in
          match engine_run n fuel interface service k x waits with
          | Ok (_, LoopEnded) => Ok (Some 0, l)
          | Ok (_, StillWaiting) => Ok (None, l)
          | Ok (_, EventErased) => undefined InvalidIterator
          | Err (Throw _) => l ← say 2 error (bytes_of_string "Internal error: " ++ stde) l; Ok (Some 1, l)
          | Err f => Err f
          end
      end
  end.

(** What a log statement of this file leaves. *)
Lemma say_spec n lv text l : clock_ok (now n) -> no_escape tid -> no_escape text -> o_width (m_output_stream l) = 0 ->
  exists s line, say n lv text l = Ok (on_stream l s) /\ o_width s = 0 /\ o_fill s = o_fill (m_output_stream l) /\
    o_text s = o_text (m_output_stream l) ++ line.
Proof.
  intros Hc Ht He Hw. unfold say, LOG.
  destruct (_ <=? _); [|exists (m_output_stream l), []; rewrite app_nil_r; by destruct l].
  run_bind. rewrite put_plain by done.
  destruct (log_spec (now n) tid lv text l Hc Hw Ht He) as (_ & l' & line & _ & E & El & W & F & T & _).
  exists (m_output_stream l'), line. by rewrite <- El.
Qed.

Lemma startup_banner_ok version : (length version <= 66)%nat -> startup_banner version = Ok (banner version).
Proof.
  intros Hl. unfold startup_banner.
  assert (length (banner version) = length (banner [])) as ->.
  { unfold banner. rewrite !length_app, !length_replicate. change (@length Z []) with 0%nat. lia. }
  by vm_compute (_ <? _)%nat.
Qed.

Lemma banner_no_escape version : no_escape version -> no_escape (banner version).
Proof.
  intros Hv. unfold banner, no_escape. rewrite !Forall_app.
  split_and!; try exact Hv; first [by apply Forall_replicate | apply (bool_decide_unpack _); vm_compute; exact I].
Qed.

(** The three ways the beginning can end. *)
Definition chosen_level (o : options) : option level := default (Some warning) (level_of <$> get_at o "loglevel" 0).

Lemma start_up_spec table argv l :
  (forall i, clock_ok (now i)) -> no_escape tid -> no_escape (what argv) -> o_width (m_output_stream l) = 0 ->
  match parse table argv with
  | Err _ => exists s line, start_up table argv l = Ok (None, on_stream l s) /\
      o_text s = o_text (m_output_stream l) ++ line ++ concat (usage_line (o_fill (m_output_stream l)) <$> m_options table)
  | Ok o =>
      match chosen_level o with
      | None => exists s, start_up table argv l = Ok (None, on_stream l s)
      | Some lv => start_up table argv l = Ok (Some o, LOG_LEVEL lv l)
      end
  end.
Proof.
  intros Hc Ht Hwh Hw. unfold start_up, chosen_level.
  pose proof (parse_validates table argv) as V. destruct (parse table argv) as [o|f].
  - destruct (get_at o "loglevel" 0) as [loglevel|]; cbn [fmap option_fmap option_map default from_option id]; [|done].
    destruct (level_of loglevel) as [lv|]; [done|].
    destruct (say_spec 0 error (bytes_of_string "Invalid log level") l) as (s & line & -> & _);
      [done|done|apply (bool_decide_unpack _); vm_compute; exact I|done|]. by exists s.
  - subst f. destruct (say_spec 0 error (what argv) l) as (s & line & -> & W & F & T); [done..|]. run_bind. cbn [on_stream m_output_stream].
    exists (printUsage table s), line. split; [done|]. by rewrite printUsage_lines, F, T, <- app_assoc.
Qed.

(** How the engine ends the process. *)
Definition engine_status (result : outcome (bootstrap * run_end)) : outcome (option Z) :=
  match result with
  | Ok (_, LoopEnded) => Ok (Some 0)
  | Ok (_, StillWaiting) => Ok None
  | Ok (_, EventErased) => undefined InvalidIterator
  | Err (Throw _) => Ok (Some 1)
  | Err f => Err f
  end.


(** The command line of the README: there is no [--config], so the router does not start. *)
Lemma readme_line_rejected : parse router_options ["--service"; "6363"] = throw InvalidArgument.
Proof. vm_compute. reflexivity. Qed.
End router.

(** ** fpsend.cpp and fplisten.cpp *)

(** Both tools register the same options. *)
Definition url_option : opt := mkOption "url" "URL to connect to" true true "url" "u".
Definition subject_option : opt := mkOption "subject" "Subject to user" true true "subject" "s".
Definition tool_options : options :=
  foldl register_option options_new
    [mkOption "help" "Displays help" false false "help" "h";
     mkOption "loglevel" "Logging level (DEBUG, INFO, WARNING, ERROR)" false true "loglevel" "l"; url_option; subject_option].

(** The operations of the interface Transport.h that the tool calls, on a
    transport of the state [T]. *)
Record TransportOps (T : Type) := mkTransportOps {
  t_valid : T -> bool;
  t_sendMessage : T -> Message -> outcome (status * T)
}.
Arguments t_valid {T} _ _.
Arguments t_sendMessage {T} _ _ _.

Section tools.
(** The address of the message listener and the growth of its vector. *)
Context `{Platform} (self : Z) (growth : nat -> nat).

Definition fpsend_message (subject : list Z) : outcome Message :=
  let msg := (setSubject Message_new subject).2 in
  '(_, msg) ← addDataField_string msg (bytes_of_string "name") (bytes_of_string "tom");
  Ok msg.

(** [main] of fpsend: the exit status, the logger and the transport.
    [connect] is [make_realm_connection]. *)
Definition fpsend_main {T} (ops : TransportOps T) (connect : list Z -> outcome T) (stde : list Z)
    (argv : list string) (l : logger) : outcome (Z * logger * option T) :=
  '(o, l) ← start_up tool_options argv l;
  match (o : option options) with
  | None => Ok (1, l, None)
  | Some o =>
      let url := bytes_of_string (getWithDefault o "url" "" 0) in
      let subject := bytes_of_string (default "" (get_at o "subject" 0)) in
      l ← match get_at o "subject" 0 with
          | Some _ => Ok l
          | None => say 1 error (bytes_of_string "You must specify a subject") l
          end;
      let body :=
        t ← connect (cstr url);
        if t_valid ops t then
          msg ← fpsend_message (cstr subject);
          '(st, t) ← t_sendMessage ops t msg;
          l ← (if bool_decide (st = OK) then say 2 info (bytes_of_string "Message send successfully") l
               else say 2 error (bytes_of_string "Failed to send message") l);
          Ok (0, l, Some t)
        else
          l ← say 2 error (bytes_of_string "Failed to send message - transport not connected") l;
          Ok (0, l, Some t) in
      match body with
      | Err (Throw _) => l ← say 3 error (bytes_of_string "Internal error: " ++ stde) l; Ok (1, l, None)
      | r => r
      end
  end.

(** The callback of fplisten's subscriber (noexcept). *)
Definition fplisten_callback (n : nat) (msg : Message) (l : logger) : outcome logger :=
  noexcept (LOG (now n) tid info (Message_output msg) l).

(** The subscriber, number 1 of a listener that has none yet, and [queue.addSubscriber]
    of the program's queue, number 1, whose result is not read; [valid] is whether the
    transport is connected. *)
Definition listener_of (valid : bool) (sb : Subscriber) : Listener :=
  mkListener {[1%positive := mkTransportState None valid []]} [] 0 0 ∅ ∅ {[1%positive := sb]} [].
Definition fplisten_subscribe (valid : bool) (subject : list Z) : outcome Listener :=
  sb ← Subscriber_new 1 subject;
  '(_, ln) ← addObserver self growth (listener_of valid sb) 1 1 1;
  Ok ln.

(** What comes into that queue: of every message that arrives on the transport what
    [handleMessage] enqueues, and the signals, which are [None]. *)
Fixpoint fplisten_queue (ln : Listener) (arrivals : list (option Message)) : outcome (list (option Message)) :=
  match arrivals with
  | [] => Ok []
  | None :: arrivals => rest ← fplisten_queue ln arrivals; Ok (None :: rest)
  | Some m :: arrivals =>
      ln' ← handleMessage ln 1 m;
      rest ← fplisten_queue ln' arrivals;
      Ok (((fun x => Some x.2) <$> drop (length (l_queued ln)) (l_queued ln')) ++ rest)
  end.

(** [while (!shutdown) queue.dispatch();] over what the queue hands out: messages
    of the subscriber, and [None] for a signal; whether the loop has ended. *)
Fixpoint fplisten_loop (n : nat) (events : list (option Message)) (l : logger) : outcome (bool * logger) :=
  match events with
  | [] => Ok (false, l)
  | Some msg :: events => l ← fplisten_callback n msg l; fplisten_loop (S n) events l
  | None :: _ => l ← noexcept (say n info (bytes_of_string "Shutdown signal caught...") l); Ok (true, l)
  end.

(** [main] of fplisten: the exit status if the loop has ended, and the logger;
    [arrivals] is what comes while it runs, the messages of the transport and the
    signals in their order. *)
Definition fplisten_main {T} (valid : T -> bool) (connect : list Z -> outcome T) (stde : list Z) (argv : list string)
    (arrivals : list (option Message)) (l : logger) : outcome (option Z * logger) :=
  '(o, l) ← start_up tool_options argv l;
  match (o : option options) with
  | None => Ok (Some 1, l)
  | Some o =>
      let url := bytes_of_string (getWithDefault o "url" "" 0) in
      let subject := bytes_of_string (default "" (get_at o "subject" 0)) in
      l ← match get_at o "subject" 0 with
          | Some _ => Ok l
          | None => say 1 error (bytes_of_string "You must specify a subject") l
          end;
      match (t ← connect (cstr url); fplisten_subscribe (valid t) (cstr subject)) with
      | Err (Throw _) => l ← say 2 error (bytes_of_string "Internal error: " ++ stde) l; Ok (Some 1, l)
      | Err f => Err f
      | Ok ln =>
          events ← fplisten_queue ln arrivals;
          '(ended, l) ← fplisten_loop 2 events l; Ok ((if (ended : bool) then Some 0 else None), l)
      end
  end.

(** A TCP transport (its sendMessage is noexcept): the memory, the socket and the send buffer; [kernel] is what
    the calls of [::send] return for a message. *)
Definition tcp_client : Type := heap * Socket * MessageBuffer.
Definition tcp_ops (kernel : Message -> list Z) : TransportOps tcp_client := {|
  t_valid t := sk_connected t.1.2;
  t_sendMessage t msg := let '(h, s, mb) := t in
    '(st, s, mb, h) ← noexcept (sendMessage (kernel msg) h s mb msg); Ok (st, (h, s, mb))
|}.

(** The message of fpsend. *)
Definition tom_field : Field :=
  SmallDataField (mkFieldHeader (bytes_of_string "name") (storage_type_value string_) 4) (bytes_of_string "tom" ++ [0]).

Lemma fpsend_message_spec s : text_ok s ->
  exists m, fpsend_message s = Ok m /\ built m /\ m_subject m = s /\ m_payload m = [tom_field] /\ m_hasAddressing m = true.
Proof.
  intros [Hs Hl]. unfold fpsend_message. set (m0 := (setSubject Message_new s).2).
  assert (built m0) as B0 by (apply built_subject; [apply built_new|done]).
  assert (m0 = set_subject Message_new s) as E0 by (unfold m0, setSubject; by rewrite (proj2 (Z.ltb_lt _ _) Hl)).
  assert (addDataField_string m0 (bytes_of_string "name") (bytes_of_string "tom") =
    Ok (true, set_fields m0 [tom_field] (<[bytes_of_string "name" := 0%nat]> ∅))) as A by (rewrite E0; reflexivity).
  rewrite A. run_bind. eexists. split; [done|]. split; [|by rewrite E0].
  apply (built_add m0 (AddString (bytes_of_string "name") (bytes_of_string "tom")) true); [done| | |exact A].
  - split; [split; [apply (bool_decide_unpack _); vm_compute; exact I|cbn; lia]|].
    split; [apply (bool_decide_unpack _); vm_compute; exact I|cbn; lia].
  - unfold count_room. rewrite E0. cbn. lia.
Qed.

Lemma fpsend_message_length m s : m_subject m = s -> m_payload m = [tom_field] -> (length (wire_message m) <= length s + 50)%nat.
Proof. intros Hs Hp. rewrite length_wire_message, length_wire_counted, length_wire_body, Hs, Hp. assert (length (concat (wire_field <$> [tom_field])) = 14)%nat as -> by reflexivity. lia. Qed.

Lemma tom_text m s : s <> [] -> is_cstr s -> m_subject m = s -> m_payload m = [tom_field] -> m_hasAddressing m = true ->
  show_message m = s ++ bytes_of_string "={name:string=tom}".
Proof.
  intros Hne Hc Hs Hp Ha. unfold show_message, show_subject. rewrite Hs, Hp, Ha, cstr_id by done.
  rewrite bool_decide_eq_false_2 by done. rewrite <- app_assoc. reflexivity.
Qed.

(** The line that fplisten prints for a message of fpsend. *)
Definition tom_line (l : logger) (s prefix line : list Z) : Prop :=
  strip false line = shown_line l tid info prefix (s ++ bytes_of_string "={name:string=tom}").

Lemma fplisten_callback_spec n m s l : clock_ok (now n) -> no_escape tid -> no_escape s ->
  s <> [] -> text_ok s -> fpsend_message s = Ok m ->
  o_width (m_output_stream l) = 0 -> level_value info <= level_value (logLevel l) ->
  exists prefix l' line, log_prefix (now n) = Ok prefix /\ fplisten_callback n (received_message m) l = Ok l' /\
    o_text (m_output_stream l') = o_text (m_output_stream l) ++ line /\ tom_line l s prefix line.
Proof.
  intros Hc Ht He Hne Hs Em Hw Hl. destruct (fpsend_message_spec s Hs) as (m1 & E1 & B & Hsub & Hp & Ha).
  rewrite Em in E1. injection E1 as <-. destruct (built_shows m cout B ltac:(done)) as [_ R].
  destruct R as (mess & E & T & _); [rewrite Hp; by repeat constructor|].
  rewrite (tom_text m s Hne (proj1 Hs) Hsub Hp Ha) in T. cbn [cout o_text app] in T.
  assert (no_escape (o_text mess)) as Hm by (rewrite T; apply Forall_app; split; [done|apply (bool_decide_unpack _); vm_compute; exact I]).
  destruct (log_spec (now n) tid info (o_text mess) l Hc Hw Ht Hm) as (prefix & l' & line & Hp' & E' & _ & _ & _ & T' & S').
  exists prefix, l', line. split; [done|]. split; [|split; [done|unfold tom_line; by rewrite S', T]].
  unfold fplisten_callback, LOG. rewrite (proj2 (Z.leb_le _ _)) by done. rewrite E. run_bind. by rewrite E'.
Qed.

(** What fpsend leaves on a connected TCP transport whose kernel takes the
    message whole. *)
Definition whole (msg : Message) : list Z := [Z.of_nat (length (wire_message msg))].

Lemma fpsend_main_sends (little_endian : big_endian = false) connect stde argv l o lv subject h sk mb cap :
  (forall i, clock_ok (now i)) -> no_escape tid -> no_escape (what argv) -> o_width (m_output_stream l) = 0 ->
  parse tool_options argv = Ok o -> chosen_level o = Some lv -> get_at o "subject" 0 = Some subject ->
  text_ok (bytes_of_string subject) ->
  connect (cstr (bytes_of_string (getWithDefault o "url" "" 0))) = Ok (h, sk, mb) ->
  sk_connected sk = true -> send_ready h mb cap -> Z.of_nat cap <= max_stored ->
  (length (bytes_of_string subject) + 50 <= cap)%nat ->
  exists m l' h' mb', fpsend_message (bytes_of_string subject) = Ok m /\
    fpsend_main (tcp_ops whole) connect stde argv l = Ok (0, l', Some (h', mkSocket true (sk_out sk ++ wire_message m), mb')).
Proof.
  intros Hc Ht Hwh Hw Ep Elv Es Hs Ec Hcon Hr Hcap Hfit.
  pose proof (start_up_spec tool_options argv l Hc Ht Hwh Hw) as S. rewrite Ep, Elv in S.
  destruct (fpsend_message_spec (bytes_of_string subject) Hs) as (m & Em & B & Hsub & Hp & _).
  pose proof (fpsend_message_length m _ Hsub Hp) as Hlen.
  destruct (sendMessage_spec little_endian h sk mb cap m Hr Hcon ltac:(lia) Hcap) as (mb' & h' & Esend & _).
  unfold fpsend_main. rewrite S. run_bind. rewrite Es. run_bind. rewrite Ec. run_bind. cbn [tcp_ops t_valid t_sendMessage fst snd].
  rewrite Hcon. cbn [default from_option id].
  rewrite (cstr_id (bytes_of_string subject)) by apply Hs. rewrite Em. run_bind. unfold whole. rewrite !Esend. cbn [noexcept]. run_bind.
  rewrite !bool_decide_eq_true_2 by done.
  destruct (say_spec 2 info (bytes_of_string "Message send successfully") (LOG_LEVEL lv l)) as (s & line & -> & _);
    [done|done|apply (bool_decide_unpack _); vm_compute; exact I|done|]. run_bind. exists m. by eexists _, h', mb'.
Qed.

(** A listener made for a subject, and what it queues for a message. *)
Definition listens (ln : Listener) (p : list Z) : Prop :=
  l_observers ln !! 1%positive = Some [mkMessageEvent 1 1 0] /\
  exists sub, subscription_new p = Ok sub /\ l_subscribers ln !! 1%positive = Some (mkSubscriber 1 p sub).

Lemma fplisten_subscribe_spec valid p : text_ok p -> exists ln, fplisten_subscribe valid p = Ok ln /\ listens ln p.
Proof.
  intros Hp. destruct (matches_hashed p [] (proj1 Hp)) as (sub & Es & _).
  assert (Z.to_nat max_subject_length >= length p)%nat as Hlen by (destruct Hp as [_ Hl]; lia).
  unfold fplisten_subscribe, Subscriber_new. rewrite Es. run_bind. rewrite take_ge by lia.
  unfold addObserver, registerTransport, deref_subscriber, deref_transport. cbn [listener_of l_subscribers l_transports].
  rewrite lookup_singleton_eq. run_bind. cbn [sub_transport]. rewrite lookup_singleton_eq. run_bind. cbn [tr_manager].
  run_bind. cbn [set_observers add_connection set_transport l_transports tr_valid]. rewrite lookup_insert_eq. run_bind. cbn [tr_valid]. destruct valid.
  - unfold Subscriber_subject. cbn [sub_subject]. rewrite (proj2 (Z.ltb_lt _ _) (proj2 Hp)). run_bind.
    unfold subscribe. destruct (observer_message_spec self _ _ register_admin Hp) as (m & -> & _). run_bind.
    unfold send, deref_transport. cbn [set_observers add_connection set_transport l_transports]. rewrite lookup_insert_eq. run_bind. eexists. split; [done|].
    split; [by cbn; rewrite lookup_insert_eq|]. exists sub. split; [done|]. by cbn; rewrite lookup_singleton_eq.
  - run_bind. eexists. split; [done|]. split; [by cbn; rewrite lookup_insert_eq|]. exists sub.
    split; [done|]. by cbn; rewrite lookup_singleton_eq.
Qed.

Lemma fplisten_queue_one ln p m : listens ln p ->
  exists sub r, subscription_new p = Ok sub /\ matches sub (subject_new (m_subject m)) = Ok r /\
    fplisten_queue ln [Some m] = Ok (if (r : bool) then [Some m] else []).
Proof.
  intros (Ho & sub & Es & Hs). destruct (matches_total sub (subject_new (m_subject m))) as [r Er].
  exists sub, r. split_and!; [done..|]. cbn [fplisten_queue]. unfold handleMessage. rewrite Ho.
  destruct (notify_observers_spec (subject_new (m_subject m)) m [mkMessageEvent 1 1 0] ln) as (l' & obs' & -> & E & _).
  { apply Forall_singleton. cbn. by rewrite Hs. }
  run_bind. cbn [l_queued set_observers]. rewrite E, drop_app_length, app_nil_r. cbn [List.filter].
  unfold observes. cbn [me_subscriber]. rewrite Hs. cbn [sub_subscription]. rewrite Er. by destruct r.
Qed.

(** fplisten while one message arrives. *)
Lemma fplisten_main_one {T} (valid : T -> bool) connect stde argv o lv subject t0 m l :
  let p := bytes_of_string subject in
  (forall i, clock_ok (now i)) -> no_escape tid -> no_escape (what argv) -> o_width (m_output_stream l) = 0 ->
  parse tool_options argv = Ok o -> chosen_level o = Some lv -> get_at o "subject" 0 = Some subject -> text_ok p ->
  connect (cstr (bytes_of_string (getWithDefault o "url" "" 0))) = Ok t0 ->
  exists sub r, subscription_new p = Ok sub /\ matches sub (subject_new (m_subject m)) = Ok r /\
    fplisten_main valid connect stde argv [Some m] l =
      if (r : bool) then (l ← fplisten_callback 2 m (LOG_LEVEL lv l); Ok (None, l)) else Ok (None, LOG_LEVEL lv l).
Proof.
  cbv zeta. intros Hc Ht Hwh Hw Ep Elv Es Hp Ec.
  pose proof (start_up_spec tool_options argv l Hc Ht Hwh Hw) as S. rewrite Ep, Elv in S.
  destruct (fplisten_subscribe_spec (valid t0) _ Hp) as (ln & Eln & Hln).
  destruct (fplisten_queue_one ln _ m Hln) as (sub & r & E1 & E2 & E3). exists sub, r. split_and!; [done..|].
  unfold fplisten_main. rewrite S. run_bind. rewrite Es. run_bind. rewrite Ec. run_bind. cbn [default from_option id].
  rewrite (cstr_id (bytes_of_string subject)) by apply Hp. rewrite Eln, E3. run_bind. destruct r; cbn [fplisten_loop]; run_bind; [|done].
  by destruct (fplisten_callback 2 m (LOG_LEVEL lv l)).
Qed.

(** C36: the two tools together, each with a command line that gives a URL and a
    subject.  fpsend over a connected TCP transport returns 0 and has written one
    message.  fplisten, whose transport reads these bytes in whatever pieces,
    prints it as one line that shows the subject and [{name:string=tom}] if the
    subject of its own command line covers it and its level is raised to INFO; at
    the default level it prints nothing, nor with a subject that does not cover
    it, provided the hashes tell the two subjects apart. *)
Theorem fpsend_to_fplisten (little_endian : big_endian = false) connect stde argv l o lv subject h sk mb cap :
  let s := bytes_of_string subject in
  (forall i, clock_ok (now i)) -> no_escape tid -> (forall argv, no_escape (what argv)) -> o_width (m_output_stream l) = 0 ->
  parse tool_options argv = Ok o -> chosen_level o = Some lv -> get_at o "subject" 0 = Some subject ->
  s <> [] -> text_ok s -> no_escape s ->
  connect (cstr (bytes_of_string (getWithDefault o "url" "" 0))) = Ok (h, sk, mb) ->
  sk_connected sk = true -> sk_out sk = [] -> send_ready h mb cap -> Z.of_nat cap <= max_stored ->
  (length s + 50 <= cap)%nat ->
  exists l' h' s' mb', fpsend_main (tcp_ops whole) connect stde argv l = Ok (0, l', Some (h', s', mb')) /\
  forall T (valid : T -> bool) connect' stde' argv' ll o' lv' subject' t0 n fuel hr t chunks more,
    let p := bytes_of_string subject' in
    o_width (m_output_stream ll) = 0 -> parse tool_options argv' = Ok o' -> chosen_level o' = Some lv' ->
    get_at o' "subject" 0 = Some subject' -> text_ok p ->
    connect' (cstr (bytes_of_string (getWithDefault o' "url" "" 0))) = Ok t0 ->
    (1 < n)%nat -> (1 <= fuel)%nat -> mb_rep hr (m_readBuffer t) [] -> m_connected t = true -> delivered t = [] ->
    concat chunks = sk_out s' -> Forall mtu_read chunks ->
    m_storedLength (m_storage (m_readBuffer t)) + Z.of_nat cap + MTU_SIZE <= max_stored ->
    exists t' h'' prefix, receiver n fuel hr t ((RecvBytes <$> chunks) ++ RecvError true :: more) = Ok (t', h'', more) /\
      log_prefix (now 2) = Ok prefix /\
      let main := fplisten_main valid connect' stde' argv' (Some <$> delivered t') ll in
      (covers p s -> level_value info <= level_value lv' ->
       exists ll' line, main = Ok (None, ll') /\
         o_text (m_output_stream ll') = o_text (m_output_stream ll) ++ line /\ tom_line (LOG_LEVEL lv' ll) s prefix line) /\
      (level_value lv' < level_value info \/ (collision_free p s /\ ~ covers p s) -> main = Ok (None, LOG_LEVEL lv' ll)).
Proof.
  cbv zeta. intros Hc Ht Hwh Hw Ep Elv Es Hne Hs He Ec Hcon Hout Hr Hcap Hfit.
  destruct (fpsend_main_sends little_endian connect stde argv l o lv subject h sk mb cap Hc Ht (Hwh _) Hw Ep Elv Es Hs Ec Hcon Hr Hcap Hfit)
    as (m & l' & h' & mb' & Em & E). rewrite Hout in E. eexists l', h', _, mb'. split; [exact E|]. cbn [sk_out app].
  intros T valid connect' stde' argv' ll o' lv' subject' t0 n fuel hr t chunks more Hwl Ep' Elv' Es' Hp' Ec' Hn Hfu Rep Hct Hd Hch Hmtu Hmax.
  destruct (fpsend_message_spec _ Hs) as (m1 & E1 & B & Hsub & Hp & _). rewrite Em in E1. injection E1 as <-.
  pose proof (fpsend_message_length m _ Hsub Hp) as Hlen.
  assert (stream [m] = wire_message m) as Hst by (unfold stream; cbn; by rewrite app_nil_r).
  destruct (receiver_delivers_spec n fuel hr t [m] chunks more) as (t' & h'' & Er & Dl & _); try done.
  - apply Forall_singleton. split; [by apply built_inv|]. rewrite Hp. split; [done|]. unfold max_stored in Hcap. lia.
  - apply Forall_singleton. rewrite Hp. cbn. lia.
  - by rewrite Hst.
  - rewrite Hst. lia.
  - rewrite Hd in Dl. cbn [app fmap list_fmap] in Dl. destruct (log_prefix_fits (now 2) (Hc 2%nat)) as (prefix & Epf & _).
    exists t', h'', prefix. split; [exact Er|]. split; [exact Epf|]. rewrite Dl. cbn [fmap list_fmap].
    destruct (fplisten_main_one valid connect' stde' argv' o' lv' subject' t0 (received_message m) ll Hc Ht (Hwh _) Hwl Ep' Elv' Es' Hp' Ec')
      as (sub & r & Esub & Em' & ->).
    assert (m_subject (received_message m) = bytes_of_string subject) as Hsr
      by (destruct (received_message_parts m (proj2 (built_inv m B))) as (_ & -> & _); done).
    rewrite Hsr in Em'. split.
    + intros Hcov Hl. destruct (covers_matches_spec _ _ (proj1 Hp') Hcov) as (sub' & Esub' & Ey).
      rewrite Esub in Esub'. injection Esub' as <-. rewrite Em' in Ey. injection Ey as ->.
      destruct (fplisten_callback_spec 2 m _ (LOG_LEVEL lv' ll) (Hc 2%nat) Ht He Hne Hs Em Hwl Hl) as (prefix' & ll' & line & Ep2 & -> & T' & L).
      rewrite Epf in Ep2. injection Ep2 as <-. run_bind. by exists ll', line.
    + intros [Hl|[Hcf Hnc]].
      * unfold fplisten_callback, LOG. cbn [LOG_LEVEL logLevel]. rewrite (proj2 (Z.leb_gt _ _)) by done. by destruct r.
      * destruct (matches_covers_spec _ _ (proj1 Hp') (proj1 Hs) Hcf) as (sub' & r' & Esub' & Er' & Hiff).
        rewrite Esub in Esub'. injection Esub' as <-. rewrite Em' in Er'. injection Er' as <-.
        destruct r; [|done]. exfalso. by apply Hnc, Hiff.
Qed.
End tools.
End programs.
