(* ===== verification/Performance.v ===== *)
(** * Performance: the two programs that measure the way of a message

    src/fastpath/tools/performance_source.cpp sends numbered messages at a given
    rate, tools/performance_sink.cpp answers each with the time it received it,
    and the source computes the times in between.  Log statements are left
    out; the results are those of Statistics.v and PerfPrograms.v. *)
From Stdlib Require Import Ascii String.
From S2P Require Import Prelude Heap ByteStorage MessageBuffer Types Field Message Codec RoundTrip Built Options Transport Events Timers Listener Programs.
#[local] Open Scope list_scope.
#[local] Open Scope Z_scope.

(** ** Command lines *)

Definition sink_options : options :=
  foldl register_option options_new
    [mkOption "help" "Displays help" false false "help" "h";
     mkOption "loglevel" "Logging level (DEBUG, INFO, WARNING, ERROR)" false true "loglevel" "l"; url_option].
Definition source_options : options :=
  foldl register_option sink_options
    [mkOption "rate" "Sending message rate" false true "rate" "r";
     mkOption "count" "Number of messages to send" false true "count" "c"].

(** [ss >> val] for an [unsigned long]: too many digits give the largest value, a
    minus sign negates, text that is not a number stores zero, and an empty text
    leaves [val] as it was. *)
Fixpoint decimal_value (acc : Z) (t : list Z) : Z :=
  match t with [] => acc | d :: t => decimal_value (10 * acc + (d - 48)) t end.
Definition extract_size (text : string) : outcome Z :=
  match (leading is_blank (bytes_of_string text)).2 with
  | [] => undefined IndeterminateRead
  | c :: t =>
      let t := if (c =? 43) || (c =? 45) then t else c :: t in
      let v := decimal_value 0 (leading is_digit t).1 in
      Ok (if 2 ^ 64 <=? v then 2 ^ 64 - 1 else if c =? 45 then u64 (- v) else v)
  end.

(** [duration_cast<microseconds>(microseconds(1000000) / rate)] *)
Definition period (rate : Z) : outcome Z :=
  if rate =? 0 then undefined DivideByZero else Ok (1000000 / rate).

(** ** The sink *)

Section performance.
Context `{Platform}.

Definition SOURCE : list Z := bytes_of_string "TEST.PERF.SOURCE".
Definition SINK : list Z := bytes_of_string "TEST.PERF.SINK".
Definition id_key : list Z := bytes_of_string "id".
Definition timestamp_key : list Z := bytes_of_string "timestamp".

(** The callback of the subscriber up to [sendMessage]: what it sends, if the
    message has an id, and [sendMsg] afterwards; [recv_ts] is the clock in nanoseconds. *)
Definition sink_callback (recv_ts : Z) (msg sendMsg : Message) : outcome (option Message * Message) :=
  id ← getScalarField msg (Some id_key) T_uint32;
  match id with
  | Some id =>
      let sendMsg := (setSubject (Message_clear sendMsg) SINK).2 in
      '(_, sendMsg) ← addScalarField sendMsg id_key T_uint32 id;
      '(_, sendMsg) ← addScalarField sendMsg timestamp_key T_uint64 (u64 (Z.quot recv_ts 1000));
      Ok (Some sendMsg, sendMsg)
  | None => Ok (None, sendMsg)
  end.

(** ** The source *)

Record source := mkSource {
  next_id : Z;
  sendMsg : Message;
  m_times : list (Z * Z);       (* nanoseconds of the clock: sent, received by the sink *)
  shutdown : bool
}.
Definition set_times (s : source) (t : list (Z * Z)) : source := mkSource (next_id s) (sendMsg s) t (shutdown s).

(** The state before the loop: [sendMsg] has its first field already. *)
Definition source_new (count : Z) : outcome source :=
  let m := (setSubject Message_new SOURCE).2 in
  '(_, m) ← addScalarField m id_key T_uint32 0;
  Ok (mkSource 0 m (replicate (Z.to_nat count) (0, 0)) false).

(** The callback of the timer up to [sendMessage]: what it sends. *)
Definition source_tick (count now : Z) (s : source) : outcome (option Message * source) :=
  if next_id s <? count then
    let m := (setSubject (Message_clear (sendMsg s)) SOURCE).2 in
    '(_, m) ← addScalarField m id_key T_uint32 (next_id s);
    match m_times s !! Z.to_nat (next_id s) with
    | Some (_, second) =>
        Ok (Some m, mkSource (u32 (next_id s + 1)) m (<[Z.to_nat (next_id s) := (now, second)]> (m_times s)) (shutdown s))
    | None => undefined OutOfBounds
    end
  else Ok (None, s).

(** The callback of the subscriber; [time_point<high_resolution_clock>] counts
    nanoseconds in a signed 64 bit integer. *)
Definition source_receive (count : Z) (recvMsg : Message) (s : source) : outcome source :=
  id ← getScalarField recvMsg (Some id_key) T_uint32;
  s ← match id with
      | Some recv_id =>
          ts ← getScalarField recvMsg (Some timestamp_key) T_uint64;
          match ts with
          | Some ts =>
              match m_times s !! Z.to_nat recv_id with
              | Some (first, _) => Ok (set_times s (<[Z.to_nat recv_id := (first, to_signed 64 (1000 * to_signed 64 ts))]> (m_times s)))
              | None => undefined OutOfBounds
              end
          | None => Ok s
          end
      | None => Ok s
      end;
  Ok (if u64 (count - 1) <=? default 0 id then mkSource (next_id s) (sendMsg s) (m_times s) true else s).

(** [duration_cast<microseconds>(result.second - result.first)] *)
Definition latency (result : Z * Z) : Z := Z.quot (result.2 - result.1) 1000.
Definition latencies (s : source) : list Z := latency <$> m_times s.

(** ** The messages *)

(** [m] carries the number [n], as [getScalarField] reads it. *)
Definition numbered (m : Message) (n : Z) : Prop := getScalarField m (Some id_key) T_uint32 = Ok (Some n).
Definition stamped (m : Message) (t : Z) : Prop := getScalarField m (Some timestamp_key) T_uint64 = Ok (Some t).

Lemma getScalarField_received m k t : keyed m -> getScalarField (received_message m) k t = getScalarField m k t.
Proof.
  intros K. destruct k as [k|]; [|done]. destruct (received_message_parts m K) as (_ & _ & Ep & Ek & _).
  unfold getScalarField, payload_at. rewrite Ek, Ep. destruct (m_keys m !! k) as [i|]; [|done].
  rewrite list_lookup_fmap. destruct (m_payload m !! i) as [f|]; [|done]. cbn [fmap option_fmap option_map mbind outcome_bind].
  by destruct f as [| | | |hd [????? ]].
Qed.

(** The fields of both programs, with the values their types hold. *)
Lemma key_valid k : k ∈ [id_key; timestamp_key] -> id_valid k.
Proof. intros Hk. apply list_elem_of_In in Hk as [<-|[<-|[]]]; (split; [apply (bool_decide_unpack _); vm_compute; exact I|cbn; lia]). Qed.

Lemma subject_clear m s : built m -> is_cstr s ->
  built (setSubject (Message_clear m) s).2 /\ m_keys (setSubject (Message_clear m) s).2 = ∅ /\ m_payload (setSubject (Message_clear m) s).2 = [].
Proof. intros B Hs. split; [by apply built_subject; [by apply built_clear|]|]. unfold setSubject. by destruct (_ <? _). Qed.

(** A scalar added to a message with room. *)
Lemma add_scalar_built m k t v : built m -> k ∈ [id_key; timestamp_key] -> m_keys m !! k = None -> ctype_range t v -> count_room m ->
  exists m', addScalarField m k t v = Ok (true, m') /\ built m' /\ m_subject m' = m_subject m /\
    length (m_payload m') = S (length (m_payload m)) /\ (forall k', k' <> k -> m_keys m' !! k' = m_keys m !! k') /\
    getScalarField m' (Some k) t = Ok (Some v) /\
    forall k' t', k' <> k -> getScalarField m' (Some k') t' = getScalarField m (Some k') t'.
Proof.
  intros B Hk Hn Hr Hc. pose proof (key_valid k Hk) as Hid. destruct (built_inv _ B) as [_ K].
  destruct (add_scalar_spec m k t v K Hn (proj2 Hid) Hr) as (m' & E & _ & Hg & Ho). exists m'.
  split; [done|]. split; [by eapply (built_add m (AddScalar k t v) true)|]. split_and!; [| | |done|done].
  all: unfold addScalarField in E; inv_bind; match goal with Hx : ScalarField_new _ _ _ = Ok ?f |- _ =>
    destruct (ScalarField_new_wf _ _ _ _ Hid Hx) as [_ Hi] end; unfold insert_field in E; rewrite Hi, Hn in E; injection E as <-.
  - done.
  - cbn. rewrite length_app. cbn. lia.
  - intros k' Hne. cbn. by rewrite lookup_insert_ne.
Qed.

Lemma id_range n : 0 <= n < 2 ^ 32 -> ctype_range T_uint32 n.
Proof. done. Qed.

(** What the timer sends. *)
Lemma source_tick_sends count now s p : 0 <= next_id s < count -> count <= 2 ^ 32 -> built (sendMsg s) ->
  m_times s !! Z.to_nat (next_id s) = Some p ->
  exists m, source_tick count now s =
      Ok (Some m, mkSource (u32 (next_id s + 1)) m (<[Z.to_nat (next_id s) := (now, p.2)]> (m_times s)) (shutdown s)) /\
    built m /\ m_subject m = SOURCE /\ numbered m (next_id s).
Proof.
  intros Hn Hc B Ht. unfold source_tick. rewrite (proj2 (Z.ltb_lt _ _)) by lia.
  destruct (subject_clear (sendMsg s) SOURCE B ltac:(apply (bool_decide_unpack _); vm_compute; exact I)) as (B1 & Hk & Hp).
  destruct (add_scalar_built _ id_key T_uint32 (next_id s) B1) as (m & -> & Bm & Hs & _ & _ & Hg & _);
    [by left|by rewrite Hk|apply id_range; lia|unfold count_room; by rewrite Hp|].
  run_bind. rewrite Ht. destruct p as [first second]. by exists m.
Qed.

(** What the sink answers to a numbered message. *)
Lemma sink_callback_answers recv_ts msg out n : numbered msg n -> 0 <= n < 2 ^ 32 -> 0 <= recv_ts < 2 ^ 63 -> built out ->
  exists r, sink_callback recv_ts msg out = Ok (Some r, r) /\ built r /\ m_subject r = SINK /\ numbered r n /\ stamped r (recv_ts / 1000).
Proof.
  intros Hm Hn Hts B. unfold sink_callback. rewrite Hm. run_bind.
  destruct (subject_clear out SINK B ltac:(apply (bool_decide_unpack _); vm_compute; exact I)) as (B0 & Hk & Hp).
  destruct (add_scalar_built _ id_key T_uint32 n B0) as (m1 & -> & B1 & Hs1 & Hl1 & Hk1 & Hg1 & _);
    [by left|by rewrite Hk|by apply id_range|unfold count_room; by rewrite Hp|]. run_bind.
  assert (u64 (Z.quot recv_ts 1000) = recv_ts / 1000) as ->.
  { rewrite Z.quot_div_nonneg by lia. apply wrap_small. pose proof (Z.div_mod recv_ts 1000 ltac:(lia)).
    pose proof (Z.mod_pos_bound recv_ts 1000 ltac:(lia)). lia. }
  destruct (add_scalar_built m1 timestamp_key T_uint64 (recv_ts / 1000) B1) as (m2 & -> & B2 & Hs2 & _ & _ & Hg2 & Ho2);
    [by right; left|by rewrite Hk1, Hk| |unfold count_room; rewrite Hl1, Hp; cbn; lia|].
  { pose proof (Z.div_mod recv_ts 1000 ltac:(lia)). pose proof (Z.mod_pos_bound recv_ts 1000 ltac:(lia)). cbn. lia. }
  run_bind. exists m2. split_and!; [done|done|by rewrite Hs2, Hs1| |exact Hg2]. unfold numbered. by rewrite Ho2.
Qed.

(** What the source makes of an answer. *)
Lemma source_receive_records count r s n t first second : numbered r n -> stamped r t -> 0 <= t -> 1000 * t < 2 ^ 63 ->
  m_times s !! Z.to_nat n = Some (first, second) -> 1 <= count <= 2 ^ 32 ->
  source_receive count r s = Ok (mkSource (next_id s) (sendMsg s) (<[Z.to_nat n := (first, 1000 * t)]> (m_times s))
    (shutdown s || (count - 1 <=? n))).
Proof.
  intros Hn Ht H0 Hr Hm Hc. unfold source_receive. rewrite Hn. run_bind. rewrite Ht. run_bind. rewrite Hm. run_bind.
  rewrite (to_signed_small 64 t), (to_signed_small 64 (1000 * t)) by lia. cbn [default from_option id].
  rewrite (wrap_small 64) by lia. destruct (count - 1 <=? n); cbn; by rewrite ?orb_true_r, ?orb_false_r.
Qed.

(** ** Both programs *)

(** The messages on their way arrive in order, as their receivers decode them;
    [sent_at] and [answered_at] collect what the clocks said. *)
Record perf := mkPerf {
  p_source : source;
  p_sink : Message;            (* sendMsg of the sink *)
  requests : list Message;
  replies : list Message;
  sent_at : list Z;
  answered_at : list Z
}.
Definition perf_new (count : Z) : outcome perf :=
  s ← source_new count; Ok (mkPerf s Message_new [] [] [] []).

(** The timer of the source expires, the sink dispatches, the source dispatches. *)
Inductive action := Tick (now : Z) | Answer (recv_ts : Z) | Result.
Definition clock_in_range (a : action) : Prop := match a with Answer t => 0 <= t < 2 ^ 63 | _ => True end.

(** [while (!shutdown) queue.dispatch();] in the source, [while (true)] in the sink. *)
Definition perf_step (count : Z) (p : perf) (a : action) : outcome perf :=
  match a with
  | Tick now =>
      if shutdown (p_source p) then Ok p else
      '(m, s) ← source_tick count now (p_source p);
      Ok (match m with
          | Some m => mkPerf s (p_sink p) (requests p ++ [received_message m]) (replies p) (sent_at p ++ [now]) (answered_at p)
          | None => p
          end)
  | Answer recv_ts =>
      match requests p with
      | m :: requests =>
          '(r, out) ← sink_callback recv_ts m (p_sink p);
          Ok (match r with
              | Some r => mkPerf (p_source p) out requests (replies p ++ [received_message r]) (sent_at p) (answered_at p ++ [recv_ts])
              | None => mkPerf (p_source p) out requests (replies p) (sent_at p) (answered_at p)
              end)
      | [] => Ok p
      end
  | Result =>
      if shutdown (p_source p) then Ok p else
      match replies p with
      | r :: replies =>
          s ← source_receive count r (p_source p);
          Ok (mkPerf s (p_sink p) (requests p) replies (sent_at p) (answered_at p))
      | [] => Ok p
      end
  end.
Definition perf_steps (count : Z) (actions : list action) (p : perf) : outcome perf :=
  foldl (fun p a => p ← p; perf_step count p a) (Ok p) actions.

(** How many answers the source has dispatched. *)
Definition processed (p : perf) : nat := length (answered_at p) - length (replies p).

Definition answer_of (answered : list Z) (r : Message) (i : nat) : Prop :=
  numbered r (Z.of_nat i) /\ exists t, answered !! i = Some t /\ 0 <= t < 2 ^ 63 /\ stamped r (t / 1000).
Definition time_of (p : perf) (i : nat) : Z * Z :=
  (default 0 (sent_at p !! i), if (i <? processed p)%nat then 1000 * (default 0 (answered_at p !! i) / 1000) else 0).

Record perf_inv (count : Z) (p : perf) : Prop := {
  pi_id : next_id (p_source p) = Z.of_nat (length (sent_at p));
  pi_count : Z.of_nat (length (sent_at p)) <= count;
  pi_built : built (sendMsg (p_source p)) /\ built (p_sink p);
  pi_order : (processed p + length (replies p) + length (requests p) = length (sent_at p))%nat /\
             (processed p + length (replies p) = length (answered_at p))%nat;
  pi_requests : Forall2 (fun m i => numbered m (Z.of_nat i)) (requests p) (seq (length (answered_at p)) (length (requests p)));
  pi_replies : Forall2 (answer_of (answered_at p)) (replies p) (seq (processed p) (length (replies p)));
  pi_times : m_times (p_source p) = time_of p <$> seq 0 (Z.to_nat count);
  pi_shutdown : shutdown (p_source p) = (Z.to_nat count <=? processed p)%nat
}.

Lemma received_numbered m n : built m -> numbered m n -> numbered (received_message m) n.
Proof. intros B. unfold numbered. rewrite getScalarField_received; [done|]. by apply built_inv. Qed.
Lemma received_stamped m n : built m -> stamped m n -> stamped (received_message m) n.
Proof. intros B. unfold stamped. rewrite getScalarField_received; [done|]. by apply built_inv. Qed.

Lemma perf_new_inv count : 1 <= count -> exists p, perf_new count = Ok p /\ perf_inv count p.
Proof.
  intros Hc. unfold perf_new, source_new.
  assert (built (setSubject Message_new SOURCE).2) as B
    by (apply built_subject; [apply built_new|apply (bool_decide_unpack _); vm_compute; exact I]).
  destruct (add_scalar_built _ id_key T_uint32 0 B) as (m & -> & Bm & _); [by left|done|by apply id_range|by vm_compute|].
  run_bind. eexists. split; [done|]. split; cbn; try done.
  - lia.
  - split; [done|apply built_new].
  - apply list_eq. intros i. rewrite list_lookup_fmap. destruct (decide (i < Z.to_nat count)%nat).
    + rewrite lookup_replicate_2, lookup_seq_lt by done. done.
    + rewrite lookup_seq_ge by lia. apply lookup_ge_None_2. rewrite length_replicate. lia.
  - symmetry. apply Nat.leb_gt. lia.
Qed.

(** ** The invariant under every action *)

Lemma answer_of_snoc answered t r i : answer_of answered r i -> answer_of (answered ++ [t]) r i.
Proof. intros [Hn (t' & Ht & Hr)]. split; [done|]. exists t'. split; [by apply lookup_app_l_Some|done]. Qed.

Lemma time_of_waiting p i : (processed p <= i)%nat -> time_of p i = (default 0 (sent_at p !! i), 0).
Proof. intros Hi. unfold time_of. by rewrite (proj2 (Nat.ltb_ge _ _)). Qed.

Lemma time_of_processed p i : (i < processed p)%nat ->
  time_of p i = (default 0 (sent_at p !! i), 1000 * (default 0 (answered_at p !! i) / 1000)).
Proof. intros Hi. unfold time_of. by rewrite (proj2 (Nat.ltb_lt _ _)). Qed.

Lemma time_of_tick s out rq rp sent now answered s' rq' i :
  i <> length sent -> time_of (mkPerf s' out rq' rp (sent ++ [now]) answered) i = time_of (mkPerf s out rq rp sent answered) i.
Proof.
  intros Hi. unfold time_of, processed. cbn. f_equal. destruct (decide (i < length sent)%nat); [by rewrite lookup_app_l|].
  rewrite !lookup_ge_None_2; [done| |]; rewrite ?length_app; cbn; lia.
Qed.

Section inv.
Context (count : Z) (count_range : 1 <= count < 2 ^ 32).

Lemma tick_inv now p : perf_inv count p -> exists p', perf_step count p (Tick now) = Ok p' /\ perf_inv count p'.
Proof.
  destruct p as [[nid sm mt sd] out rq rp sent answered]. intros [Hid Hc [B1 B2] [O1 O2] Hrq Hrp Ht Hs]. unfold processed in *. cbn in *. subst nid.
  destruct sd eqn:Esd; [eexists; split; [done|]; split; cbn; try done; by rewrite Esd|].
  destruct (decide (Z.of_nat (length sent) < count)) as [Hlt|Hge].
  - assert (mt !! Z.to_nat (Z.of_nat (length sent)) = Some (0, 0)) as Hl.
    { rewrite Nat2Z.id, Ht, list_lookup_fmap, lookup_seq_lt by lia. cbn [fmap option_fmap option_map Nat.add].
      rewrite time_of_waiting by (unfold processed; cbn; lia). cbn [sent_at]. by rewrite lookup_ge_None_2 by lia. }
    destruct (source_tick_sends count now (mkSource (Z.of_nat (length sent)) sm mt false) (0, 0)) as (m & E & Bm & _ & Hm);
      [cbn; lia|lia|done|exact Hl|]. rewrite E. run_bind. cbn. eexists. split; [done|]. split; cbn; rewrite ?length_app; cbn.
    + rewrite wrap_small; lia.
    + lia.
    + done.
    + lia.
    + rewrite Nat.add_1_r, seq_S. apply Forall2_app; [done|]. repeat constructor.
      replace (length answered + length rq)%nat with (length sent) by lia. by apply received_numbered.
    + done.
    + rewrite Nat2Z.id, Ht. apply list_eq. intros i. rewrite list_lookup_fmap.
      destruct (decide (i < Z.to_nat count)%nat) as [Hi|Hi]; [|rewrite lookup_seq_ge by lia; apply lookup_ge_None_2; rewrite length_insert, length_fmap, length_seq; lia].
      rewrite lookup_seq_lt by done. cbn. destruct (decide (i = length sent)) as [->|Hne].
      * rewrite list_lookup_insert_eq by (rewrite length_fmap, length_seq; lia).
        rewrite time_of_waiting by (unfold processed; cbn; lia). cbn [sent_at]. by rewrite lookup_app_r, Nat.sub_diag by lia.
      * rewrite list_lookup_insert_ne by done. rewrite list_lookup_fmap, lookup_seq_lt by done. cbn. f_equal. symmetry. by apply time_of_tick.
    + done.
  - eexists. split; [unfold source_tick; cbn; rewrite (proj2 (Z.ltb_ge _ _)) by lia; done|]. by split.
Qed.

Lemma answer_inv t p : 0 <= t < 2 ^ 63 -> perf_inv count p ->
  exists p', perf_step count p (Answer t) = Ok p' /\ perf_inv count p'.
Proof.
  intros Hr I. destruct p as [s out [|m rq] rp sent answered]; [by exists (mkPerf s out [] rp sent answered)|].
  destruct I as [Hid Hc [B1 B2] [O1 O2] Hrq Hrp Ht Hs]. unfold processed in *. cbn [p_source p_sink requests replies sent_at answered_at length] in *.
  cbn [seq] in Hrq. apply Forall2_cons in Hrq as [Hm Hrq].
  destruct (sink_callback_answers t m out _ Hm ltac:(lia) Hr B2) as (r & E & Br & _ & Hn & Hst).
  cbn [perf_step requests p_sink]. rewrite E. run_bind. eexists. split; [done|].
  assert (length (answered ++ [t]) - length (rp ++ [received_message r]) = length answered - length rp)%nat as Hp
    by (rewrite !length_app; cbn [length]; lia).
  split; unfold processed; cbn [p_source p_sink requests replies sent_at answered_at]; rewrite ?Hp; rewrite ?length_app; cbn [length]; try done.
  - lia.
  - by rewrite Nat.add_1_r.
  - rewrite Nat.add_1_r, seq_S. apply Forall2_app.
    + eapply Forall2_impl; [exact Hrp|]. intros. by apply answer_of_snoc.
    + repeat constructor; replace (length answered - length rp + length rp)%nat with (length answered) by lia; [by apply received_numbered|].
      exists t. split; [by rewrite lookup_app_r, Nat.sub_diag by lia|]. split; [done|]. by apply received_stamped.
  - rewrite Ht. apply list_fmap_ext. intros _ i _. unfold time_of, processed. cbn [sent_at answered_at replies]. rewrite Hp. f_equal.
    destruct (Nat.ltb_spec i (length answered - length rp)); [|done]. by rewrite lookup_app_l by lia.
Qed.

Lemma result_inv p : perf_inv count p -> exists p', perf_step count p Result = Ok p' /\ perf_inv count p'.
Proof.
  intros I. cbn [perf_step]. destruct (shutdown (p_source p)) eqn:Esd; [by exists p|].
  destruct p as [s out rq [|r rp] sent answered]; [by exists (mkPerf s out rq [] sent answered)|].
  destruct I as [Hid Hc [B1 B2] [O1 O2] Hrq Hrp Ht Hs]. cbn [p_source p_sink requests replies sent_at answered_at length] in *.
  set (k := processed (mkPerf s out rq (r :: rp) sent answered)) in *.
  cbn [seq] in Hrp. apply Forall2_cons in Hrp as [[Hn (t & Ht' & Hr & Hst)] Hrp].
  assert (forall s', processed (mkPerf s' out rq rp sent answered) = S k) as Hk by (intros s'; unfold k, processed in *; cbn [replies answered_at length] in *; lia).
  assert (forall i, (i < Z.to_nat count)%nat -> m_times s !! i = Some (time_of (mkPerf s out rq (r :: rp) sent answered) i)) as Hl
    by (intros i Hi; by rewrite Ht, list_lookup_fmap, lookup_seq_lt by done).
  assert (k < Z.to_nat count)%nat as Hkc by lia.
  pose proof (Z.div_pos t 1000 ltac:(lia) ltac:(lia)). pose proof (Z.mul_div_le t 1000 ltac:(lia)).
  rewrite (source_receive_records count r s (Z.of_nat k) (t / 1000) (default 0 (sent !! k)) 0 Hn Hst) by
    (lia || by rewrite Nat2Z.id, Hl, time_of_waiting by lia).
  run_bind. eexists. split; [done|]. split; rewrite ?Hk; cbn [p_source p_sink requests replies sent_at answered_at next_id sendMsg m_times shutdown];
    try done.
  - lia.
  - rewrite Nat2Z.id. apply list_eq. intros i. rewrite list_lookup_fmap.
    destruct (decide (i < Z.to_nat count)%nat) as [Hi|Hi]; [|rewrite lookup_seq_ge by lia; apply lookup_ge_None_2; rewrite length_insert, Ht, length_fmap, length_seq; lia].
    rewrite lookup_seq_lt by done. cbn [fmap option_fmap option_map Nat.add]. destruct (decide (i = k)) as [->|Hne].
    + rewrite list_lookup_insert_eq by (rewrite Ht, length_fmap, length_seq; lia).
      rewrite time_of_processed by (rewrite Hk; lia). cbn [sent_at answered_at]. by rewrite Ht'.
    + rewrite list_lookup_insert_ne, Hl by done. f_equal. unfold time_of. rewrite Hk. fold k. cbn [sent_at answered_at].
      destruct (Nat.ltb_spec i k), (Nat.ltb_spec i (S k)); done || lia.
  - rewrite Esd. cbn [orb]. destruct (Z.leb_spec (count - 1) (Z.of_nat k)), (Nat.leb_spec (Z.to_nat count) (S k)); done || lia.
Qed.

(** No action fails: what is sent and answered is always what the callbacks expect. *)
Lemma perf_step_inv a p : clock_in_range a -> perf_inv count p -> exists p', perf_step count p a = Ok p' /\ perf_inv count p'.
Proof. destruct a; intros Hr; [apply tick_inv|by apply answer_inv|apply result_inv]. Qed.

Lemma perf_steps_inv actions : forall p, Forall clock_in_range actions -> perf_inv count p ->
  exists p', perf_steps count actions p = Ok p' /\ perf_inv count p'.
Proof.
  unfold perf_steps. induction actions as [|a actions IH]; intros p Hr I; [by exists p|].
  apply Forall_cons in Hr as [Ha Hr]. destruct (perf_step_inv a p Ha I) as (p1 & E & I1).
  destruct (IH p1 Hr I1) as (p2 & E2 & I2). exists p2. split; [|done]. cbn [foldl mbind outcome_bind]. by rewrite E.
Qed.

(** ** What is measured *)

(** The time between two readings of the clock in nanoseconds, the second cut to
    microseconds on its way. *)
Definition measured (sent received : Z) : Z := Z.quot (1000 * (received / 1000) - sent) 1000.

Lemma measured_close sent received : sent <= received ->
  0 <= measured sent received /\ received - sent - 2000 < 1000 * measured sent received <= received - sent.
Proof.
  intros Hle. unfold measured. set (d := 1000 * (received / 1000) - sent).
  pose proof (Z.div_mod received 1000 ltac:(lia)) as E. pose proof (Z.mod_pos_bound received 1000 ltac:(lia)).
  assert (received - sent - 1000 < d <= received - sent) as Hd by lia.
  destruct (Z_le_dec 0 d) as [Hp|Hp].
  - rewrite Z.quot_div_nonneg by lia. pose proof (Z.div_mod d 1000 ltac:(lia)). pose proof (Z.mod_pos_bound d 1000 ltac:(lia)). lia.
  - assert (Z.quot d 1000 = 0) as -> by (apply Z.quot_small_iff; lia). lia.
Qed.

(** However the actions of both programs interleave, whatever their clocks say:
    none of them fails, each of the [count] entries holds the time its message
    was sent and, once its answer is dispatched, the time it was received, and the
    source leaves its loop exactly with the last answer; then the latencies are
    the measured times of the messages in order. *)
Theorem perf_measures actions : Forall clock_in_range actions ->
  exists p0 p, perf_new count = Ok p0 /\ perf_steps count actions p0 = Ok p /\
    m_times (p_source p) = time_of p <$> seq 0 (Z.to_nat count) /\
    (shutdown (p_source p) = true <-> processed p = Z.to_nat count) /\
    (shutdown (p_source p) = true -> latencies (p_source p) = zip_with measured (sent_at p) (answered_at p)).
Proof.
  intros Hr. destruct (perf_new_inv count ltac:(lia)) as (p0 & E0 & I0). destruct (perf_steps_inv actions p0 Hr I0) as (p & E & I).
  exists p0, p. split; [done|]. split; [done|]. destruct I as [Hid Hc _ [O1 O2] _ _ Ht Hs]. split; [done|].
  assert (shutdown (p_source p) = true <-> processed p = Z.to_nat count) as Hiff by (rewrite Hs, Nat.leb_le; lia).
  split; [done|]. intros Hsd. apply Hiff in Hsd. unfold latencies. rewrite Ht, <- list_fmap_compose.
  assert (length (sent_at p) = Z.to_nat count /\ length (answered_at p) = Z.to_nat count) as [Ls La] by lia.
  apply list_eq. intros i. rewrite list_lookup_fmap, lookup_zip_with.
  destruct (decide (i < Z.to_nat count)%nat) as [Hi|Hi].
  - rewrite lookup_seq_lt by done. cbn [fmap option_fmap option_map Nat.add].
    destruct (lookup_lt_is_Some_2 (sent_at p) i ltac:(lia)) as [t1 E1]. destruct (lookup_lt_is_Some_2 (answered_at p) i ltac:(lia)) as [t2 E2].
    rewrite E1, E2. cbn [compose mbind option_bind]. rewrite time_of_processed by lia. by rewrite E1, E2.
  - rewrite lookup_seq_ge by lia. by rewrite (lookup_ge_None_2 (sent_at p)) by lia.
Qed.

(** What is left to do: each message is sent, answered and dispatched. *)
Definition work (p : perf) : nat :=
  (3 * (Z.to_nat count - length (sent_at p)) + 2 * length (requests p) + length (replies p))%nat.

Lemma perf_progress p : perf_inv count p -> shutdown (p_source p) = false ->
  exists a p', clock_in_range a /\ perf_step count p a = Ok p' /\ perf_inv count p' /\ (work p' < work p)%nat.
Proof.
  intros I Hsd. pose proof I as [Hid Hc [B1 B2] [O1 O2] Hrq Hrp Ht Hs].
  destruct (replies p) as [|r rp] eqn:Er; [destruct (requests p) as [|m rq] eqn:Eq|].
  - destruct (tick_inv 0 p I) as (p' & E & I'). exists (Tick 0), p'. split; [done|]. split; [done|]. split; [done|].
    rewrite Hs in Hsd. apply Nat.leb_gt in Hsd. cbn [length] in O1. cbn [perf_step] in E.
    assert (shutdown (p_source p) = false) as Hsd' by (rewrite Hs; apply Nat.leb_gt; lia). rewrite Hsd' in E.
    assert (m_times (p_source p) !! Z.to_nat (next_id (p_source p)) = Some (time_of p (length (sent_at p)))) as Hl
      by (rewrite Hid, Nat2Z.id, Ht, list_lookup_fmap, lookup_seq_lt by lia; done).
    destruct (source_tick_sends count 0 (p_source p) _ ltac:(lia) ltac:(lia) B1 Hl) as (m & Et & _).
    rewrite Et in E. run_bind in E. injection E as <-. unfold work. cbn [sent_at requests replies]. rewrite Eq, Er, length_app. cbn. lia.
  - destruct (answer_inv 0 p ltac:(lia) I) as (p' & E & I'). exists (Answer 0), p'. split; [cbn; lia|]. split; [done|]. split; [done|].
    cbn [perf_step] in E. rewrite Eq in E. apply Forall2_cons in Hrq as [Hm _]. cbn [length] in O1, O2.
    destruct (sink_callback_answers 0 m (p_sink p) _ Hm ltac:(lia) ltac:(lia) B2) as (r & Ea & _).
    rewrite Ea in E. run_bind in E. injection E as <-. unfold work. cbn [sent_at requests replies]. rewrite Eq, Er. cbn. lia.
  - destruct (result_inv p I) as (p' & E & I'). exists Result, p'. split; [done|]. split; [done|]. split; [done|].
    cbn [perf_step] in E. rewrite Hsd, Er in E. destruct (source_receive _ _ _); [|done]. run_bind in E. injection E as <-.
    unfold work. cbn [sent_at requests replies]. rewrite Er. cbn. lia.
Qed.

(** At every moment the rest of the measurement can run to its end. *)
Theorem perf_finishes actions p0 p : Forall clock_in_range actions -> perf_new count = Ok p0 -> perf_steps count actions p0 = Ok p ->
  exists more p', (length more <= work p)%nat /\ perf_steps count more p = Ok p' /\ shutdown (p_source p') = true.
Proof.
  intros Hr E0 E. destruct (perf_new_inv count ltac:(lia)) as (p0' & E0' & I0). rewrite E0 in E0'. injection E0' as <-.
  destruct (perf_steps_inv actions p0 Hr I0) as (p1 & E1 & I). rewrite E in E1. injection E1 as <-. clear -I count_range.
  remember (work p) as w eqn:Hw. assert (work p <= w)%nat as Hle by lia. clear Hw. revert p I Hle.
  induction w as [|w IH]; intros p I Hle; (destruct (shutdown (p_source p)) eqn:Hsd; [by exists [], p; split; [cbn; lia|]|]).
  - destruct (perf_progress p I Hsd) as (a & p1 & _ & _ & _ & Hw). lia.
  - destruct (perf_progress p I Hsd) as (a & p1 & _ & E1 & I1 & Hw). destruct (IH p1 I1 ltac:(lia)) as (more & p' & Hl & E & Hs).
    exists (a :: more), p'. split; [cbn; lia|]. split; [|done]. unfold perf_steps in *. cbn [foldl mbind outcome_bind]. by rewrite E1.
Qed.
End inv.

(** ** Where it fails *)

(** With a count of zero nothing is ever sent, and the loop does not end. *)
Theorem zero_count_hangs actions p0 : perf_new 0 = Ok p0 ->
  perf_steps 0 actions p0 = Ok p0 /\ shutdown (p_source p0) = false.
Proof.
  intros E0. assert (exists m, p0 = mkPerf (mkSource 0 m [] false) Message_new [] [] [] []) as [m ->].
  { unfold perf_new, source_new in E0. inv_bind. destruct (addScalarField _ _ _ _) as [[b m]|]; [|done]. inv_bind. by eexists. }
  split; [|done]. unfold perf_steps. induction actions as [|[]]; done.
Qed.

(** An answer that another source asked for, with a number this one has no entry
    for, is written behind the vector. *)
Theorem stray_answer count r s n t : numbered r n -> stamped r t -> (length (m_times s) <= Z.to_nat n)%nat ->
  source_receive count r s = undefined OutOfBounds.
Proof. intros Hn Ht Hl. unfold source_receive. rewrite Hn. run_bind. rewrite Ht. run_bind. by rewrite lookup_ge_None_2. Qed.

(** Above a million messages in a second the period is zero, and the timer that is
    to send them never expires. *)
Theorem high_rate_silent {K} `{TimerKernel K} rate k e k' : 1000000 < rate -> TimerEvent_new (1000000 / rate) k = (Ok e, k') ->
  period rate = Ok 0 /\ exists fd, ev_kind e = TimerEvent fd 0 /\ forall elapsed, 0 <= elapsed -> expirations (tk_armed k' fd) elapsed = 0.
Proof.
  intros Hr E. assert (1000000 / rate = 0) as Hz by (apply Z.div_small; lia). rewrite Hz in E. split.
  - unfold period. rewrite (proj2 (Z.eqb_neq _ _)) by lia. by rewrite Hz.
  - destruct (timer_fires 0 k e k' E) as (_ & fd & Hk & _ & _ & Hx). exists fd. split; [done|]. intros. by apply Hx.
Qed.
End performance.

(** ** Samples *)

Section samples.
#[local] Instance little_endian_performance : Platform := false.

(** Two messages; the first answer comes after the second message. *)
Definition two_messages : list action :=
  [Tick 5000100; Tick 6000200; Answer 5010900; Result; Answer 6007000; Result; Result; Tick 7000000].

Lemma perf_measures_witness : exists p, (perf_new 2 ≫= perf_steps 2 two_messages) = Ok p /\
  latencies (p_source p) = [9; 6].
Proof.
  destruct (perf_measures 2 ltac:(lia) two_messages) as (p0 & p & E0 & E & _ & _ & L);
    [by repeat (constructor; [cbn; lia|])|].
  assert (sent_at p = [5000100; 6000200] /\ answered_at p = [5010900; 6007000] /\ shutdown (p_source p) = true) as (Es & Ea & Esd).
  { vm_compute in E0. injection E0 as <-. vm_compute in E. injection E as <-. done. }
  exists p. rewrite E0. split; [exact E|]. by rewrite (L Esd), Es, Ea.
Defined.
End samples.
