(* ===== verification/Statistics.v ===== *)
(** * Statistics: the results the performance source prints

    src/fastpath/tools/performance_source.cpp after the loop: average, minimum,
    maximum and percentiles of the latencies, each by a task of [std::async].
    Doubles are IEEE 754 binary64, executed by SpecFloat. *)
From Stdlib Require Import SpecFloat Sorted.
From stdpp Require Import sorting.
From S2P Require Import Prelude.

(** ** Doubles *)

Definition double : Type := spec_float.
Definition double_of (z : Z) : double := binary_normalize 53 1024 z 0 false.
Definition double_div : double -> double -> double := SFdiv 53 1024.
Definition double_mul : double -> double -> double := SFmul 53 1024.

(** [std::floor] of a double that is not negative, as an integer. *)
Definition floor_of (d : double) : Z := match d with S754_finite false m e => Z.shiftl (Zpos m) e | _ => 0 end.

(** ** std::nth_element *)

(** With [std::greater]: the vector is reordered so that none before the position is
    less than its element and none behind it is greater. *)
Class NthElement := {
  nth_element : nat -> list Z -> list Z;
  nth_element_perm i l : nth_element i l ≡ₚ l;
  nth_element_split i l x : nth_element i l !! i = Some x ->
    Forall (Z.le x) (take i (nth_element i l)) /\ Forall (fun y => y <= x) (drop (S i) (nth_element i l))
}.

Section statistics.
Context `{NthElement}.

(** ** The tasks *)

(** [size_t index = floor((double(100 - p) / 100.0) * latencies.size())] *)
Definition find_index (p n : Z) : Z := floor_of (double_mul (double_div (double_of (100 - p)) (double_of 100)) (double_of n)).

Definition find_p (p : Z) (latencies : list Z) : outcome (Z * list Z) :=
  let index := Z.to_nat (find_index p (Z.of_nat (length latencies))) in
  let latencies := nth_element index latencies in
  match latencies !! index with Some v => Ok (v, latencies) | None => undefined OutOfBounds end.

(** [uint64_t total]; a count is added after the conversion to it. *)
Definition total (latencies : list Z) : Z := foldl (fun t v => u64 (t + v)) 0 latencies.
Definition average (latencies : list Z) : double :=
  double_div (double_of (total latencies)) (double_of (Z.of_nat (length latencies))).

Definition min_element (latencies : list Z) : outcome Z :=
  match latencies with [] => undefined OutOfBounds | v :: l => Ok (foldl (fun m v => if v <? m then v else m) v l) end.
Definition max_element (latencies : list Z) : outcome Z :=
  match latencies with [] => undefined OutOfBounds | v :: l => Ok (foldl (fun m v => if m <? v then v else m) v l) end.

Inductive task := Avg | Min | Max | Percentile (p : Z).
Inductive result := Average (d : double) | Microseconds (us : Z).

(** A task that is not disturbed by another one: what it returns and what it leaves
    in the vector. *)
Definition run_task (t : task) (latencies : list Z) : outcome (result * list Z) :=
  match t with
  | Avg => Ok (Average (average latencies), latencies)
  | Min => v ← min_element latencies; Ok (Microseconds v, latencies)
  | Max => v ← max_element latencies; Ok (Microseconds v, latencies)
  | Percentile p => '(v, latencies) ← find_p p latencies; Ok (Microseconds v, latencies)
  end.
Fixpoint run_tasks (tasks : list task) (latencies : list Z) : outcome (list result * list Z) :=
  match tasks with
  | [] => Ok ([], latencies)
  | t :: tasks =>
      '(r, latencies) ← run_task t latencies;
      '(rs, latencies) ← run_tasks tasks latencies;
      Ok (r :: rs, latencies)
  end.

(** The six tasks that [main] starts. *)
Definition source_tasks : list task := [Avg; Min; Max; Percentile 95; Percentile 90; Percentile 50].

(** ** What they mean *)

Definition above_count (v : Z) (l : list Z) : Z := Z.of_nat (length (filter (fun x => v < x) l)).
Definition from_count (v : Z) (l : list Z) : Z := Z.of_nat (length (filter (fun x => v <= x) l)).

(** At most [100 - p] percent of the latencies are above [v], and counting those
    equal to it more are. *)
Definition is_percentile (p v : Z) (l : list Z) : Prop :=
  100 * above_count v l <= (100 - p) * Z.of_nat (length l) < 100 * from_count v l.

Definition answers (l : list Z) (t : task) (r : result) : Prop :=
  match t, r with
  | Avg, Average d => d = double_div (double_of (u64 (foldr Z.add 0 l))) (double_of (Z.of_nat (length l)))
  | Min, Microseconds v => v ∈ l /\ Forall (Z.le v) l
  | Max, Microseconds v => v ∈ l /\ Forall (fun x => x <= v) l
  | Percentile p, Microseconds v => v ∈ l /\ is_percentile p v l
  | _, _ => False
  end.

Lemma count_monotone (P Q : Z -> Prop) `{!forall x, Decision (P x), !forall x, Decision (Q x)} (l : list Z) :
  (forall x, P x -> Q x) -> (length (filter P l) <= length (filter Q l))%nat.
Proof.
  intros Hi. induction l as [|x l IH]; [done|]. rewrite !filter_cons.
  destruct (decide (P x)) as [Hp|]; [rewrite decide_True by auto; cbn; lia|]. destruct (decide (Q x)); cbn; lia.
Qed.

Lemma percentile_unique p v w l : is_percentile p v l -> is_percentile p w l -> v = w.
Proof.
  assert (forall a b, a < b -> is_percentile p a l -> is_percentile p b l -> False) as Hl.
  { intros a b Hab [Ha _] [_ Hb]. unfold above_count, from_count in *.
    assert (length (filter (fun x => (b <= x)%Z) l) <= length (filter (fun x => (a < x)%Z) l))%nat as Hc by (apply count_monotone; lia).
    lia. }
  intros Hv Hw. destruct (Z.lt_trichotomy v w) as [Hlt|[->|Hlt]]; [by destruct (Hl v w)|done|by destruct (Hl w v)].
Qed.

(** The answer to a task is determined by the latencies. *)
Lemma answers_functional l t r r' : answers l t r -> answers l t r' -> r = r'.
Proof.
  destruct t, r, r'; cbn; try done.
  - by intros -> ->.
  - intros [He Hf] [He' Hf']. rewrite Forall_forall in Hf, Hf'. pose proof (Hf _ He'). pose proof (Hf' _ He). f_equal. lia.
  - intros [He Hf] [He' Hf']. rewrite Forall_forall in Hf, Hf'. pose proof (Hf _ He'). pose proof (Hf' _ He). f_equal. lia.
  - intros [_ Hp] [_ Hp']. f_equal. by eapply percentile_unique.
Qed.

#[export] Instance sum_perm : Proper ((≡ₚ) ==> (=)) (foldr Z.add 0).
Proof. intros l l' E. induction E; cbn; lia. Qed.

Lemma answers_perm l l' t r : l ≡ₚ l' -> answers l t r -> answers l' t r.
Proof.
  intros E. destruct t, r; cbn; try done; unfold is_percentile, above_count, from_count; by rewrite ?E.
Qed.

(** ** Each task *)

Lemma total_sum l : total l = u64 (foldr Z.add 0 l).
Proof.
  unfold total. assert (forall a, u64 a = a -> foldl (fun t v => u64 (t + v)) a l = u64 (a + foldr Z.add 0 l)) as L; [|by apply L].
  induction l as [|x l IH]; intros a Ha; cbn [foldl foldr]; [by rewrite Z.add_0_r|]. rewrite IH.
  - unfold wrap. rewrite Zplus_mod_idemp_l. f_equal. lia.
  - unfold wrap. by rewrite Zmod_mod.
Qed.

Lemma min_element_ok l : l <> [] -> exists v, min_element l = Ok v /\ v ∈ l /\ Forall (Z.le v) l.
Proof.
  destruct l as [|x l]; [done|intros _]. cbn [min_element]. revert x. induction l as [|y l IH]; intros x; cbn [foldl].
  - exists x. repeat split; [by left|]. by repeat constructor.
  - destruct (IH (if y <? x then y else x)) as (v & E & Hv & Hf). injection E as E. inversion Hf as [|? ? Hv0 Hf']; subst.
    eexists. split; [done|]. destruct (Z.ltb_spec y x); (split; [set_solver|repeat constructor; (done || lia)]).
Qed.

Lemma max_element_ok l : l <> [] -> exists v, max_element l = Ok v /\ v ∈ l /\ Forall (fun x => x <= v) l.
Proof.
  destruct l as [|x l]; [done|intros _]. cbn [max_element]. revert x. induction l as [|y l IH]; intros x; cbn [foldl].
  - exists x. repeat split; [by left|]. by repeat constructor.
  - destruct (IH (if x <? y then y else x)) as (v & E & Hv & Hf). injection E as E. inversion Hf as [|? ? Hv0 Hf']; subst.
    eexists. split; [done|]. destruct (Z.ltb_spec x y); (split; [set_solver|repeat constructor; (done || lia)]).
Qed.

(** The index is that of exact arithmetic, for up to [max_results] latencies: 5/100
    and 10/100 are no doubles, but the rounding does not reach the next integer. *)
Definition max_results : nat := 1024.
Definition index_exact (n : nat) : bool :=
  forallb (fun p => find_index p (Z.of_nat n) =? (100 - p) * Z.of_nat n / 100) [95; 90; 50].
Lemma all_indices_exact : forallb index_exact (seq 1 max_results) = true.
Proof. vm_compute. reflexivity. Qed.

Lemma find_index_exact p n : p ∈ [95; 90; 50] -> (1 <= n <= max_results)%nat ->
  find_index p (Z.of_nat n) = (100 - p) * Z.of_nat n / 100.
Proof.
  intros Hp Hn. pose proof all_indices_exact as Ha. rewrite forallb_forall in Ha.
  assert (index_exact n = true) as Hi by (apply Ha, in_seq; lia). unfold index_exact in Hi. rewrite forallb_forall in Hi.
  apply Z.eqb_eq, Hi. by apply list_elem_of_In.
Qed.
(** The element at position [i] has at most [i] above it, and counting itself and
    those equal to it more than [i]. *)
Lemma split_counts l i x : l !! i = Some x -> Forall (Z.le x) (take i l) -> Forall (fun y => y <= x) (drop (S i) l) ->
  above_count x l <= Z.of_nat i < from_count x l.
Proof.
  intros Hx Hb Ha. unfold above_count, from_count. rewrite <- (take_drop_middle l i x Hx).
  pose proof (lookup_lt_Some _ _ _ Hx) as Hlt. assert (length (take i l) = i) as Hi by (rewrite length_take; lia).
  rewrite !filter_app, !filter_cons, !length_app. rewrite decide_False by lia. rewrite decide_True by lia. cbn [length].
  assert (filter (fun y => x < y) (drop (S i) l) = []) as ->.
  { clear -Ha. induction Ha as [|y l' Hy _ IH]; [done|]. rewrite filter_cons, decide_False by lia. done. }
  assert (filter (fun y => x <= y) (take i l) = take i l) as ->.
  { clear -Hb. induction Hb as [|y l' Hy _ IH]; [done|]. rewrite filter_cons, decide_True by lia. by rewrite IH. }
  pose proof (length_filter (fun y => x < y) (take i l)). cbn [length]. lia.
Qed.

Lemma find_p_ok p l : p ∈ [95; 90; 50] -> (1 <= length l <= max_results)%nat ->
  exists v l', find_p p l = Ok (v, l') /\ l' ≡ₚ l /\ v ∈ l /\ is_percentile p v l.
Proof.
  intros Hp Hl. unfold find_p. rewrite find_index_exact by done.
  set (q := (100 - p) * Z.of_nat (length l) / 100).
  assert (0 <= 100 - p <= 50) as Hr by (apply list_elem_of_In in Hp; cbn in Hp; lia).
  assert (100 * q <= (100 - p) * Z.of_nat (length l) < 100 * (q + 1)) as Hq.
  { pose proof (Z.div_mod ((100 - p) * Z.of_nat (length l)) 100 ltac:(lia)).
    pose proof (Z.mod_pos_bound ((100 - p) * Z.of_nat (length l)) 100 ltac:(lia)). unfold q. lia. }
  assert (0 <= q < Z.of_nat (length l)) as Hq' by nia.
  pose proof (nth_element_perm (Z.to_nat q) l) as Hperm.
  destruct (nth_element (Z.to_nat q) l !! Z.to_nat q) as [v|] eqn:Hv.
  2: { apply lookup_ge_None in Hv. rewrite Hperm in Hv. lia. }
  exists v, (nth_element (Z.to_nat q) l). destruct (nth_element_split _ _ _ Hv) as [Hb Ha].
  pose proof (split_counts _ _ _ Hv Hb Ha) as Hc. repeat split; [done| | |].
  - rewrite <- Hperm. by eapply list_elem_of_lookup_2.
  - unfold above_count, from_count in *. rewrite <- Hperm at 1. lia.
  - unfold above_count, from_count in *. rewrite <- Hperm at 2. lia.
Qed.

(** ** All of them *)

Definition known_task (t : task) : Prop := match t with Percentile p => p ∈ [95; 90; 50] | _ => True end.

Lemma run_task_answers t l : known_task t -> (1 <= length l <= max_results)%nat ->
  exists r l', run_task t l = Ok (r, l') /\ l' ≡ₚ l /\ answers l t r.
Proof.
  intros Ht Hl. assert (l <> []) as Hn by (intros ->; cbn in Hl; lia). destruct t as [| | |p]; cbn [run_task].
  - do 2 eexists. split; [done|]. split; [done|]. cbn [answers]. unfold average. by rewrite total_sum.
  - destruct (min_element_ok l Hn) as (v & E & Hv). rewrite E. by do 2 eexists.
  - destruct (max_element_ok l Hn) as (v & E & Hv). rewrite E. by do 2 eexists.
  - destruct (find_p_ok p l Ht Hl) as (v & l' & E & Hperm & Hv). rewrite E. by do 2 eexists.
Qed.

(** When they do not disturb one another the tasks answer, each what it means, in
    whatever order they run and however the earlier ones reordered the latencies. *)
Theorem statistics_answer tasks : Forall known_task tasks -> forall l, (1 <= length l <= max_results)%nat ->
  exists rs l', run_tasks tasks l = Ok (rs, l') /\ l' ≡ₚ l /\ Forall2 (answers l) tasks rs.
Proof.
  induction 1 as [|t tasks Ht _ IH]; intros l Hl; cbn [run_tasks]; [by exists [], l|].
  destruct (run_task_answers t l Ht Hl) as (r & l1 & -> & Hp & Ha). run_bind.
  destruct (IH l1) as (rs & l2 & -> & Hp2 & Ha2); [by rewrite Hp|]. run_bind.
  exists (r :: rs), l2. split; [done|]. split; [by rewrite Hp2|]. constructor; [done|].
  eapply Forall2_impl; [done|]. intros t' r' Hr. by eapply answers_perm.
Qed.

(** So the result of a task is the same whichever tasks ran before it. *)
Corollary statistics_order t before before' l : Forall known_task (t :: before ++ before') -> (1 <= length l <= max_results)%nat ->
  exists rs rs' r l1 l2, run_tasks (before ++ [t]) l = Ok (rs ++ [r], l1) /\ run_tasks (before' ++ [t]) l = Ok (rs' ++ [r], l2).
Proof.
  intros Hk Hl. inversion Hk as [|? ? Ht Hb]; subst. apply Forall_app in Hb as [Hb Hb'].
  assert (forall b, Forall known_task b -> exists rs r l', run_tasks (b ++ [t]) l = Ok (rs ++ [r], l') /\ answers l t r) as L.
  { intros b Hkb. destruct (statistics_answer (b ++ [t])) with (l := l) as (rs & l' & E & _ & Ha); [by apply Forall_app; split; [|constructor]|done|].
    apply Forall2_app_inv_l in Ha as (rs1 & rs2 & _ & Hr & ->). inversion Hr as [|? r ? rs3 Hr1 Hr2]; subst. inversion Hr2; subst.
    by exists rs1, r, l'. }
  destruct (L before Hb) as (rs & r & l1 & E1 & A1), (L before' Hb') as (rs' & r' & l2 & E2 & A2).
  assert (r' = r) as -> by (by eapply answers_functional). by exists rs, rs', r, l1, l2.
Qed.
End statistics.

(** Without latencies the minimum and the percentiles read what is not there. *)
Lemma no_latencies `{NthElement} : min_element [] = undefined OutOfBounds /\ find_p 50 [] = undefined OutOfBounds.
Proof.
  split; [done|]. unfold find_p. assert (nth_element (Z.to_nat (find_index 50 (Z.of_nat (length (@nil Z))))) [] = []) as ->; [|done].
  apply Permutation_nil. symmetry. apply nth_element_perm.
Qed.

(** ** Samples *)

(** Sorting from the largest is one way to do it. *)
#[local] Instance ge_total : Total Z.ge.
Proof. intros x y. lia. Qed.
#[local] Instance ge_trans : Transitive Z.ge.
Proof. intros x y z. lia. Qed.
#[local] Instance ge_dec x y : Decision (Z.ge x y).
Proof. unfold Z.ge. solve_decision. Defined.

Lemma sorted_split (l : list Z) i x : StronglySorted Z.ge l -> l !! i = Some x ->
  Forall (Z.le x) (take i l) /\ Forall (fun y => y <= x) (drop (S i) l).
Proof.
  intros Hs. revert i. induction Hs as [|y l Hs IH Hy]; intros [|i] Hx; cbn in *; simplify_eq.
  - split; [constructor|]. rewrite drop_0. eapply Forall_impl; [done|]. cbn. lia.
  - destruct (IH i Hx) as [Hb Ha]. split; [|done]. constructor; [|done].
    rewrite Forall_forall in Hy. apply Z.ge_le, Hy. by eapply list_elem_of_lookup_2.
Qed.

#[refine] Instance by_sorting : NthElement := {| nth_element _ l := merge_sort Z.ge l |}.
Proof.
  - intros _ l. apply merge_sort_Permutation.
  - intros i l x. apply sorted_split. apply (StronglySorted_merge_sort Z.ge).
Defined.

Lemma statistics_answer_witness : exists rs l', run_tasks source_tasks [7; 3; 9; 3] = Ok (rs, l') /\
  l' ≡ₚ [7; 3; 9; 3] /\ Forall2 (answers [7; 3; 9; 3]) source_tasks rs.
Proof. apply statistics_answer; [repeat constructor; set_solver|unfold max_results; cbn; lia]. Defined.

Example five_and_a_half : run_tasks source_tasks [7; 3; 9; 3] =
  Ok ([Average (double_div (double_of 11) (double_of 2)); Microseconds 3; Microseconds 9; Microseconds 9; Microseconds 9; Microseconds 3],
      [9; 7; 3; 3]).
Proof. vm_compute. reflexivity. Qed.
