(* ===== verification/PerfPrograms.v ===== *)
(** * PerfPrograms: the main functions of the programs that measure

    src/fastpath/tools/performance_source.cpp and performance_sink.cpp from the
    command line to the results: the common beginning of Programs.v, the callbacks
    of Performance.v, the tasks of Statistics.v.  What the queue hands out, the text
    of a double and the transport are arguments; log statements of the level debug
    and the calls of the session, which Session.v has, are left out. *)
From Stdlib Require Import Ascii String.
From S2P Require Import Prelude Heap ByteStorage MessageBuffer Types Field Message Codec RoundTrip Built Options Printing Output Transport Router Listener Logger Programs Affinity Performance Statistics.
#[local] Open Scope string_scope.
#[local] Open Scope list_scope.
#[local] Open Scope Z_scope.

(** ** The processors of the loop *)

(** What [Session::assign_to_cpu] is called with, if it is. *)
Definition source_cores (hardware_concurrency : Z) : option (list Z) :=
  if 4 <=? hardware_concurrency then Some [2; 3] else if 2 <=? hardware_concurrency then Some [0; 1] else None.
Definition sink_cores (hardware_concurrency : Z) : option (list Z) :=
  if 2 <=? hardware_concurrency then Some [0; 1] else None.

(** They ask for cores the machine has; together, from four on, for four different
    ones. *)
Lemma perf_cores hardware_concurrency source sink : 0 <= hardware_concurrency < 2 ^ 31 ->
  source_cores hardware_concurrency = Some source -> sink_cores hardware_concurrency = Some sink ->
  (forall c, c ∈ source ++ sink -> 0 <= c < get_num_cores hardware_concurrency) /\
  (4 <= hardware_concurrency -> NoDup (source ++ sink)).
Proof.
  intros Hr. unfold source_cores, sink_cores, get_num_cores, to_signed.
  rewrite wrap_small by lia. rewrite (proj2 (Z.ltb_lt _ _)) by lia.
  destruct (Z.leb_spec 4 hardware_concurrency); destruct (Z.leb_spec 2 hardware_concurrency); intros [= <-] [= <-]; try lia.
  - split; [|intros _; apply (bool_decide_unpack _); vm_compute; exact I].
    intros c Hc. apply list_elem_of_In in Hc. cbn in Hc. lia.
  - split; [|lia]. intros c Hc. apply list_elem_of_In in Hc. cbn in Hc. lia.
Qed.

Section perf.
Context (now : nat -> clock) (tid : list Z) (what : list string -> list Z).
Context `{Platform, NthElement}.
(** [operator<<(ostream &, double)] *)
Context (show_double : double -> list Z).

(** ** The source *)

(** What the queue dispatches: the timer expires, with the clock and whether the
    message was sent, or a message is received. *)
Inductive occasion := Fires (now : Z) (sent : bool) | Receives (m : Message).
(** The ways out of [while (!shutdown) queue.dispatch();]: [exit(1)], the flag, or
    not yet. *)
Inductive loop_end := Exited | Ended (s : source) | Waiting (s : source).

Fixpoint source_loop (count : Z) (events : list occasion) (s : source) : outcome loop_end :=
  if shutdown s then Ok (Ended s) else
  match events with
  | [] => Ok (Waiting s)
  | Fires now sent :: events =>
      '(m, s) ← noexcept (source_tick count now s);
      match m with
      | Some _ => if (sent : bool) then source_loop count events s else Ok Exited
      | None => source_loop count events s
      end
  | Receives m :: events => s ← noexcept (source_receive count m s); source_loop count events s
  end.

Definition labels : list string :=
  ["Avg round trip: "; "Min round trip: "; "Max round trip: "; "P99 round trip: "; "P90 round trip: "; "P50 round trip: "]%string.
Definition result_text (r : result) : list Z := match r with Average d => show_double d | Microseconds us => int_text us end.
Fixpoint report (n : nat) (lines : list (string * result)) (l : logger) : outcome logger :=
  match lines with
  | [] => Ok l
  | (label, r) :: lines =>
      l ← say now tid n info (bytes_of_string label ++ result_text r ++ bytes_of_string " us") l; report (S n) lines l
  end.

(** [std::vector<ResultsType>::max_size()], of two time points each *)
Definition times_max : Z := (2 ^ 63 - 1) / 16.

(** [main]: the exit status if there is one, the results and the logger. *)
Definition source_main {T} (valid : T -> bool) (connect : list Z -> outcome T) (stde : list Z) (argv : list string)
    (events : list occasion) (l : logger) : outcome (option Z * list result * logger) :=
  '(o, l) ← start_up now tid what source_options argv l;
  match (o : option options) with
  | None => Ok (Some 1, [], l)
  | Some o =>
      count ← get_or extract_size o "count" (Ok 1000) 0;
      rate ← get_or extract_size o "rate" (Ok 100) 0;
      let body :=
        _ ← (if times_max <? count then throw LengthError else Ok tt);
        t ← connect (cstr (bytes_of_string (getWithDefault o "url" "" 0)));
        if valid t then
          s ← source_new count;
          duration ← period rate;
          l ← say now tid 1 info (bytes_of_string "Sending a message every " ++ int_text duration ++ bytes_of_string " us") l;
          e ← source_loop count events s;
          match e with
          | Exited => l ← say now tid 2 error (bytes_of_string "Failed to send message") l; Ok (Some 1, [], l)
          | Waiting _ => Ok (None, [], l)
          | Ended s =>
              '(rs, _) ← run_tasks source_tasks (latencies s);
              l ← report 2 (zip labels rs) l; Ok (Some 0, rs, l)
          end
        else l ← say now tid 1 error (bytes_of_string "Failed to create transport") l; Ok (Some 1, [], l) in
      match body with
      | Err (Throw _) => l ← say now tid 8 error (bytes_of_string "Internal error: " ++ stde) l; Ok (Some 1, [], l)
      | r => r
      end
  end.

(** ** The sink *)

(** [while (true) queue.dispatch();]: each message with the clock and whether the
    answer was sent; [true] if [exit(1)] was called. *)
Fixpoint sink_loop (n : nat) (events : list (Z * Message * bool)) (sendMsg : Message) (l : logger) : outcome (bool * Message * logger) :=
  match events with
  | [] => Ok (false, sendMsg, l)
  | (recv_ts, msg, sent) :: events =>
      '(r, sendMsg) ← noexcept (sink_callback recv_ts msg sendMsg);
      match (r : option Message) with
      | Some _ =>
          if (sent : bool) then sink_loop (S n) events sendMsg l
          else l ← say now tid n error (bytes_of_string "Failed to send message") l; Ok (true, sendMsg, l)
      | None =>
          l ← say now tid n error (bytes_of_string "Message did not contain 'id' tag") l; sink_loop (S n) events sendMsg l
      end
  end.

Definition sink_main {T} (valid : T -> bool) (connect : list Z -> outcome T) (stde : list Z) (argv : list string)
    (events : list (Z * Message * bool)) (l : logger) : outcome (option Z * logger) :=
  '(o, l) ← start_up now tid what sink_options argv l;
  match (o : option options) with
  | None => Ok (Some 1, l)
  | Some o =>
      let body :=
        t ← connect (cstr (bytes_of_string (getWithDefault o "url" "" 0)));
        if valid t then
          '(exited, _, l) ← sink_loop 1 events Message_new l;
          Ok ((if (exited : bool) then Some 1 else None), l)
        else l ← say now tid 1 error (bytes_of_string "Failed to create transport") l; Ok (Some 1, l) in
      match body with
      | Err (Throw _) => l ← say now tid 1 error (bytes_of_string "Internal error: " ++ stde) l; Ok (Some 1, l)
      | r => r
      end
  end.

(** ** The loop is the source of Performance.v *)

Lemma perf_step_source count p a p' : perf_step count p a = Ok p' ->
  exists ev, forall rest, source_loop count (ev ++ rest) (p_source p) = source_loop count rest (p_source p').
Proof.
  assert (forall q, p_source q = p_source p -> exists ev, forall rest,
    source_loop count (ev ++ rest) (p_source p) = source_loop count rest (p_source q)) as same by (intros q ->; by exists []).
  destruct a as [t|t|]; cbn [perf_step]; intros E.
  - destruct (shutdown (p_source p)) eqn:Hs; [by simplify_eq; apply same|].
    destruct (source_tick count t (p_source p)) as [[m s]|f] eqn:Et; [|done]. run_bind in E.
    exists [Fires t true]. intros rest. cbn [app source_loop]. rewrite Hs, Et. cbn [noexcept]. run_bind. injection E as <-.
    destruct m; [done|]. unfold source_tick in Et. destruct (_ <? _); [|by simplify_eq].
    destruct (addScalarField _ _ _ _) as [[? ?]|]; [|done]. run_bind in Et. repeat case_match; simplify_eq.
  - destruct (requests p) as [|m rq]; [by simplify_eq; apply same|].
    destruct (sink_callback t m (p_sink p)) as [[r out]|f]; [|done]. run_bind in E. apply same. destruct r; by simplify_eq.
  - destruct (shutdown (p_source p)) eqn:Hs; [by simplify_eq; apply same|].
    destruct (replies p) as [|r rp]; [by simplify_eq; apply same|].
    destruct (source_receive count r (p_source p)) as [s|f] eqn:Er; [|done]. run_bind in E. injection E as <-.
    exists [Receives r]. intros rest. cbn [app source_loop]. rewrite Hs, Er. done.
Qed.

Lemma perf_steps_source count actions : forall p p', perf_steps count actions p = Ok p' ->
  exists ev, forall rest, source_loop count (ev ++ rest) (p_source p) = source_loop count rest (p_source p').
Proof.
  unfold perf_steps. induction actions as [|a actions IH]; intros p p' E; cbn [foldl] in E; [simplify_eq; by exists []|].
  run_bind in E. destruct (perf_step count p a) as [p1|f] eqn:E1.
  - destruct (perf_step_source count p a p1 E1) as [ev1 H1], (IH p1 p' E) as [ev2 H2].
    exists (ev1 ++ ev2). intros rest. by rewrite <- app_assoc, H1, H2.
  - exfalso. clear -E. induction actions as [|b actions IHa]; [done|]. by apply IHa.
Qed.
(** ** The source from its command line to its results *)

Lemma int_text_no_escape v : no_escape (int_text v).
Proof.
  assert (forall w, 0 <= w -> no_escape (digits 10 w)) as N.
  { intros w Hw. destruct (digits_graphic 10 w) as [G _]; [lia|done|]. eapply Forall_impl; [exact G|]. unfold graphic. cbn. lia. }
  unfold int_text. destruct (Z.ltb_spec v 0); [apply Forall_cons; split; [done|]|]; apply N; lia.
Qed.

Section outcome.
Hypothesis clocks : forall i, clock_ok (now i).
Hypothesis thread : no_escape tid.
Hypothesis doubles : forall d, no_escape (show_double d).

Lemma report_prints lines : forall n l, Forall (fun e => no_escape (bytes_of_string e.1)) lines -> o_width (m_output_stream l) = 0 ->
  exists s, report n lines l = Ok (on_stream l s) /\ o_width s = 0.
Proof.
  induction lines as [|[label r] lines IH]; intros n l Hf Hw; cbn [report]; [exists (m_output_stream l); by destruct l|].
  apply Forall_cons in Hf as [Hlab Hf]. cbn [fst] in Hlab.
  destruct (say_spec now tid n info (bytes_of_string label ++ result_text r ++ bytes_of_string " us") l)
    as (s & line & -> & W & _); [done|done| |done|].
  - repeat (apply Forall_app; split); [done|destruct r; [apply doubles|apply int_text_no_escape]|].
    apply (bool_decide_unpack _); vm_compute; exact I.
  - run_bind. destruct (IH (S n) (on_stream l s) Hf W) as (s' & -> & W'). by exists s'.
Qed.

Lemma labels_no_escape rs : Forall (fun e : string * result => no_escape (bytes_of_string e.1)) (zip labels rs).
Proof.
  assert (Forall (fun label => no_escape (bytes_of_string label)) labels) as Hl by (apply (bool_decide_unpack _); vm_compute; exact I).
  rewrite Forall_lookup in Hl. rewrite Forall_lookup. intros i [label r] Hi. apply (Hl i).
  rewrite lookup_zip_with in Hi. destruct (labels !! i), (rs !! i); cbn in Hi; by simplify_eq.
Qed.

(** The two programs as a system of Performance.v, with a command line that names
    the numbers of messages and of messages in a second, up to [max_results]
    messages, and a transport that is valid: when the measurement has ended there is
    a run of [main] that returns 0, and what it prints are average, minimum, maximum
    and percentiles of the measured times. *)
Theorem source_main_measures {T} (valid : T -> bool) connect stde argv o lv t count rate actions p0 p l :
  no_escape (what argv) -> o_width (m_output_stream l) = 0 ->
  parse source_options argv = Ok o -> chosen_level o = Some lv ->
  get_or extract_size o "count" (Ok 1000) 0 = Ok count -> get_or extract_size o "rate" (Ok 100) 0 = Ok rate ->
  1 <= count <= Z.of_nat max_results -> rate <> 0 ->
  connect (cstr (bytes_of_string (getWithDefault o "url" "" 0))) = Ok t -> valid t = true ->
  Forall clock_in_range actions -> perf_new count = Ok p0 -> perf_steps count actions p0 = Ok p -> shutdown (p_source p) = true ->
  exists events rs l', source_main valid connect stde argv events l = Ok (Some 0, rs, l') /\
    Forall2 (answers (zip_with measured (sent_at p) (answered_at p))) source_tasks rs.
Proof.
  intros Hwh Hw Ep Elv Ec Er Hcount Hrate Et Hv Ha E0 E Hsd.
  pose proof (start_up_spec now tid what source_options argv l clocks thread Hwh Hw) as S. rewrite Ep, Elv in S.
  assert (Z.of_nat max_results = 1024) as Hmax by reflexivity. assert (times_max = 576460752303423487) as Htm by reflexivity.
  destruct (perf_measures count ltac:(lia) actions Ha) as (q0 & q & E0' & E' & Ht & _ & Hl).
  rewrite E0 in E0'. injection E0' as <-. rewrite E in E'. injection E' as <-. specialize (Hl Hsd).
  destruct (perf_steps_source count actions p0 p E) as [events Hev]. specialize (Hev []). rewrite app_nil_r in Hev.
  assert (source_loop count [] (p_source p) = Ok (Ended (p_source p))) as Hend by (cbn [source_loop]; by rewrite Hsd).
  assert (source_new count = Ok (p_source p0)) as Enew.
  { unfold perf_new in E0. destruct (source_new count); [|done]. run_bind in E0. by injection E0 as <-. }
  assert (length (latencies (p_source p)) = Z.to_nat count) as Hlen by (unfold latencies; rewrite length_fmap, Ht, length_fmap, length_seq; done).
  destruct (statistics_answer source_tasks) with (l := latencies (p_source p)) as (rs & l2 & Ers & _ & Hans);
    [repeat constructor; set_solver|lia|].
  destruct (say_spec now tid 1 info (bytes_of_string "Sending a message every " ++ int_text (1000000 / rate) ++ bytes_of_string " us") (LOG_LEVEL lv l))
    as (s1 & line & E1 & W1 & _); [done|done| |done|].
  { repeat (apply Forall_app; split); [|apply int_text_no_escape|]; apply (bool_decide_unpack _); vm_compute; exact I. }
  destruct (report_prints (zip labels rs) 2 (on_stream (LOG_LEVEL lv l) s1) (labels_no_escape rs) W1) as (s2 & E2 & _).
  exists events, rs. eexists. split; [|by rewrite <- Hl].
  unfold source_main. rewrite S. run_bind. rewrite Ec. run_bind. rewrite Er. run_bind.
  rewrite (proj2 (Z.ltb_ge _ _)) by lia. run_bind. rewrite Et. run_bind. rewrite Hv, Enew. run_bind.
  unfold period. rewrite (proj2 (Z.eqb_neq _ _)) by done. run_bind. rewrite E1. run_bind. rewrite Hev, Hend. run_bind.
  rewrite Ers. run_bind. rewrite E2. by run_bind.
Qed.

(** The sink only ends when something failed. *)
Lemma sink_main_runs {T} (valid : T -> bool) connect stde argv events l st l' :
  sink_main valid connect stde argv events l = Ok (st, l') -> st = None \/ st = Some 1.
Proof.
  unfold sink_main. destruct (start_up _ _ _ _ _ _) as [[[o|] l1]|]; [|intros E; run_bind in E; injection E as <- _; by right|done].
  run_bind. destruct (connect _) as [t|[]]; cbn [mbind outcome_bind]; try done.
  2: { destruct (say _ _ _ _ _ _); [|done]. cbn [mbind outcome_bind]. intros [= <- _]. by right. }
  destruct (valid t).
  - destruct (sink_loop _ _ _ _) as [[[[] ?] ?]|[]]; cbn [mbind outcome_bind]; try done; intros E; try (injection E as <- _; by auto).
    destruct (say _ _ _ _ _ _); [|done]. cbn [mbind outcome_bind] in E. injection E as <- _. by right.
  - destruct (say _ _ _ _ _ _) as [|[]]; cbn [mbind outcome_bind]; try done; intros E; try (injection E as <- _; by auto).
    destruct (say _ _ _ _ _ _); [|done]. cbn [mbind outcome_bind] in E. injection E as <- _. by right.
Qed.
End outcome.
End perf.
