(* ===== verification/EndToEnd.v ===== *)
(** * EndToEnd: the router over whole messages, and a message on its whole way

    The first part gives the router an abstract specification, [route], which
    takes whole messages, and shows that the event handlers of
    src/fastpath/router (over recv results, message buffers and raw bytes)
    refine it, however the streams of any number of peers are cut into reads
    and interleaved.  The second part composes it with the sending transport,
    the receiving transport and the listener of src/fastpath: what a publisher
    sends is queued for exactly the observers that subscribed to it. *)
From S2P Require Import Prelude Heap ByteStorage MessageBuffer Types Field Message Codec RoundTrip Built Subject Transport Router Listener Bootstrap.

(** ** The abstract router *)

(** One whole message [m] from the connection at [a]: a reserved subject changes
    the subscriptions of that connection, any other is sent on. *)
Definition route (a : positive) (m : Message) (cs : list Peer) : outcome (list Peer) :=
  let s := subject_new (m_subject m) in
  if subj_is_admin s then update_peer (fun c => handle_admin_message c s (received_message m)) a cs
  else Ok (forward s (wire_message m) <$> cs).

Fixpoint route_all (l : list (positive * Message)) (cs : list Peer) : outcome (list Peer) :=
  match l with
  | [] => Ok cs
  | (a, m) :: l => cs ← route a m cs; route_all l cs
  end.

Lemma outcome_bind_assoc {A B C} (o : outcome A) (f : A -> outcome B) (g : B -> outcome C) :
  ((o ≫= f) ≫= g) = (o ≫= fun x => f x ≫= g).
Proof. by destruct o. Qed.

Lemma outcome_bind_ext {A B} (o : outcome A) (f g : A -> outcome B) :
  (forall x, f x = g x) -> (o ≫= f) = (o ≫= g).
Proof. intros E. destruct o; cbn; [apply E|done]. Qed.

Lemma outcome_bind_ret {A} (o : outcome A) : (o ≫= fun x => Ok x) = o.
Proof. by destruct o. Qed.

Lemma route_all_app l1 l2 cs : route_all (l1 ++ l2) cs = (cs ← route_all l1 cs; route_all l2 cs).
Proof.
  revert cs. induction l1 as [|[a m] l1 IH]; intros cs; [done|]. cbn [app route_all].
  rewrite outcome_bind_assoc. apply outcome_bind_ext, IH.
Qed.

(** ** One connection *)

(** Fuel for a message: its subject is read as a C string, its fields decoded. *)
Definition fits_fuel (fuel : nat) (m : Message) : Prop :=
  (length (m_subject m) < fuel)%nat /\ (list_sum (fields_in <$> m_payload m) <= fuel)%nat.

Section connection.
Context `{Platform}.

Lemma process_buffer_route fuel h cs a b m rest :
  sendable m -> fits_fuel fuel m -> unread h b (wire_message m ++ rest) ->
  exists b', unread h b' rest /\ same_extent b b' /\
    process_buffer fuel h cs a b = (cs ← route a m cs; Ok (CompleteMessage, cs, b')).
Proof.
  intros (W & Hne & _) [Hf1 Hf2] U. unfold route. destruct (subj_is_admin (subject_new (m_subject m))) eqn:Ha.
  - by apply process_buffer_admin.
  - destruct (process_buffer_forward fuel h cs a b m rest W U Hf1 Ha) as (b' & E & U' & X). eauto.
Qed.

Lemma process_buffers_route ms1 : forall n fuel h cs a b part ms2,
  Forall sendable ms1 -> Forall sendable ms2 -> partial part ms2 -> Forall (fits_fuel fuel) ms1 ->
  (length ms1 < n)%nat -> unread h b (stream ms1 ++ part) ->
  exists b', unread h b' part /\ same_extent b b' /\
    process_buffers n fuel h cs a b = (cs ← route_all (pair a <$> ms1) cs; Ok (IncompleteMessage, cs, b')).
Proof.
  induction ms1 as [|m ms1 IH]; intros n fuel h cs a b part ms2 Hs1 Hs2 Hp Hf Hn U;
    (destruct n as [|n]; [cbn in Hn; lia|]); cbn [process_buffers].
  - destruct (process_buffer_partial fuel h cs a b part ms2 Hs2 Hp U) as (b' & -> & U' & X).
    exists b'. split; [done|]. by split.
  - apply Forall_cons in Hs1 as [Hm Hs1]. apply Forall_cons in Hf as [Hfm Hf].
    unfold stream in U. rewrite fmap_cons in U. cbn [concat] in U. rewrite <- app_assoc in U.
    destruct (process_buffer_route fuel h cs a b m _ Hm Hfm U) as (b1 & U1 & [X1 X2] & ->).
    rewrite fmap_cons. cbn [route_all].
    assert (forall cs1, exists b', unread h b' part /\ same_extent b b' /\
      process_buffers n fuel h cs1 a b1 = (cs ← route_all (pair a <$> ms1) cs1; Ok (IncompleteMessage, cs, b'))) as R.
    { intros cs1. destruct (IH n fuel h cs1 a b1 part ms2 Hs1 Hs2 Hp Hf ltac:(cbn in Hn; lia) U1)
        as (b2 & U2 & [X3 X4] & E). exists b2. split; [done|]. split; [split; congruence|done]. }
    destruct (route a m cs) as [cs1|e]; run_bind; [apply R|].
    destruct (R cs) as (b2 & U2 & X & _). by exists b2.
Qed.

(** The buffer of a connection: it holds [part], and at most [used] bytes of its
    storage have been used. *)
Record buffered (h : heap) (mb : MessageBuffer) (part : list Z) (used : Z) : Prop := {
  bu_rep : mb_rep h mb (Some <$> part);
  bu_used : m_storedLength (m_storage mb) <= used
}.

(** One read of the handler's loop. *)
Lemma data_handler_chunk n fuel h a mb part used chunk ms rest reads cs :
  Forall sendable ms -> Forall (fits_fuel fuel) ms -> (length ms < n)%nat ->
  buffered h mb part used -> stream ms = (part ++ chunk) ++ rest -> mtu_read chunk ->
  used + MTU_SIZE <= max_stored -> Z.of_nat (length (stream ms)) <= max_stored ->
  exists ms1 ms2 part2 mb' h', ms = ms1 ++ ms2 /\ stream ms2 = part2 ++ rest /\ partial part2 ms2 /\
    buffered h' mb' part2 (used + Z.of_nat (length chunk)) /\
    data_handler n fuel h cs a mb (RecvBytes chunk :: reads) =
      (cs ← route_all (pair a <$> ms1) cs; data_handler n fuel h' cs a mb' reads).
Proof.
  intros Hms Hf Hn [Rep Hused] Hstr [Hpos Hchunk] Hmax Hlen.
  destruct (mb_receive_spec _ _ _ MTU_SIZE chunk Rep Hchunk ltac:(lia)) as (mb1 & h1 & E1 & Rep1 & Hst1).
  rewrite <- fmap_app in Rep1.
  destruct (prefix_split ms (part ++ chunk) rest Hstr) as (ms1 & ms2 & part2 & -> & Hsplit & Hpart).
  pose proof (stream_bytes _ Hms) as Hby. rewrite Hstr in Hby. apply Forall_app in Hby as [Hby _].
  apply (f_equal length) in Hstr as Hll. rewrite length_app in Hll.
  assert (part ++ chunk <> []) as Hne by (destruct part, chunk; done || (cbn in Hpos; lia)).
  destruct (byteStorage_spec h1 mb1 (part ++ chunk) Rep1 Hne Hby ltac:(lia)) as (b & E2 & U & Hsl & _).
  apply Forall_app in Hms as [Hms1 Hms2]. apply Forall_app in Hf as [Hf1 Hf2].
  rewrite length_app in Hn. rewrite Hsplit in U.
  destruct (process_buffers_route ms1 n fuel h1 cs a b part2 ms2 Hms1 Hms2 Hpart Hf1 ltac:(lia) U)
    as (b' & U' & [Hx1 Hx2] & E3).
  assert (bytesRead b' = Ok (Z.of_nat (length (stream ms1)))) as E4.
  { rewrite (unread_bytesRead _ _ _ U'), Hx2, Hsl, Hsplit, length_app. f_equal. lia. }
  destruct (erase_front_spec h1 mb1 (Some <$> part ++ chunk) (Z.of_nat (length (stream ms1))) Rep1)
    as (mb2 & E5 & Rep2 & Hst2).
  { rewrite length_fmap, Hsplit, length_app. lia. }
  rewrite Nat2Z.id, Hsplit, fmap_app, drop_app_len in Rep2 by by rewrite length_fmap.
  exists ms1, ms2, part2, mb2, h1. split; [done|]. split.
  { rewrite stream_app, Hsplit in Hstr. rewrite <- app_assoc in Hstr. by apply app_inv_head in Hstr. }
  split; [done|]. split; [split; [exact Rep2|lia]|].
  cbn [data_handler Socket_read]. rewrite E1. run_bind. rewrite E2. run_bind. rewrite E3, outcome_bind_assoc.
  apply outcome_bind_ext. intros cs1. run_bind. rewrite E4. run_bind. rewrite E5. done.
Qed.

(** A read event: the reads up to the one that finds nothing. *)
Definition event_reads (chunks : list (list Z)) : list RecvResult := (RecvBytes <$> chunks) ++ [RecvError true].

Lemma data_handler_event chunks : forall n fuel h cs a mb part used ms rest,
  Forall sendable ms -> Forall (fits_fuel fuel) ms -> (length ms < n)%nat ->
  buffered h mb part used -> partial part ms -> stream ms = part ++ concat chunks ++ rest -> Forall mtu_read chunks ->
  used + Z.of_nat (length (concat chunks)) + MTU_SIZE <= max_stored -> Z.of_nat (length (stream ms)) <= max_stored ->
  exists ms1 ms2 part2 mb' h', ms = ms1 ++ ms2 /\ stream ms2 = part2 ++ rest /\ partial part2 ms2 /\
    buffered h' mb' part2 (used + Z.of_nat (length (concat chunks))) /\
    data_handler n fuel h cs a mb (event_reads chunks) =
      (cs ← route_all (pair a <$> ms1) cs; Ok (cs, mb', h', true, [])).
Proof.
  induction chunks as [|c chunks IH]; intros n fuel h cs a mb part used ms rest Hms Hf Hn Ho Hp Hstr Hc Hmax Hlen.
  - destruct Ho as [Rep Hused]. cbn [concat length app] in *.
    destruct (mb_receive_spec _ _ _ MTU_SIZE [] Rep ltac:(cbn; unfold MTU_SIZE; lia) ltac:(lia))
      as (mb1 & h1 & E1 & Rep1 & Hu). cbn [fmap list_fmap length] in Rep1, Hu. rewrite app_nil_r in Rep1.
    exists [], ms, part, mb1, h1. do 3 (split; [done|]). split; [split; [exact Rep1|lia]|].
    cbn. by rewrite E1.
  - inversion_clear Hc as [|? ? Hc1 Hc2]. cbn [concat] in Hstr, Hmax. rewrite length_app in Hmax.
    rewrite <- app_assoc, app_assoc in Hstr.
    destruct (data_handler_chunk n fuel h a mb part used c ms (concat chunks ++ rest) (event_reads chunks) cs
      Hms Hf Hn Ho Hstr Hc1 ltac:(lia) Hlen)
      as (ms1 & ms2 & part2 & mb1 & h1 & -> & Hstr2 & Hp2 & Ho2 & E).
    apply Forall_app in Hms as [_ Hms2]. apply Forall_app in Hf as [_ Hf2].
    rewrite length_app in Hn. rewrite stream_app, length_app in Hlen.
    assert (forall cs1, exists ms3 ms4 part3 mb' h', ms2 = ms3 ++ ms4 /\ stream ms4 = part3 ++ rest /\
      partial part3 ms4 /\ buffered h' mb' part3 (used + Z.of_nat (length c) + Z.of_nat (length (concat chunks))) /\
      data_handler n fuel h1 cs1 a mb1 (event_reads chunks) =
        (cs ← route_all (pair a <$> ms3) cs1; Ok (cs, mb', h', true, []))) as R.
    { intros cs1. apply (IH n fuel h1 cs1 a mb1 part2 _ ms2 rest); try done; lia. }
    unfold event_reads in E |- *. rewrite fmap_cons. cbn [app]. rewrite E.
    destruct (route_all (pair a <$> ms1) cs) as [cs1|e] eqn:Er.
    + destruct (R cs1) as (ms3 & ms4 & part3 & mb' & h' & -> & H1 & H2 & H3 & H4).
      exists (ms1 ++ ms3), ms4, part3, mb', h'. rewrite <- app_assoc. do 3 (split; [done|]).
      split; [by rewrite concat_cons, length_app, Nat2Z.inj_add, Z.add_assoc|].
      rewrite fmap_app, route_all_app, Er. run_bind. exact H4.
    + destruct (R cs) as (ms3 & ms4 & part3 & mb' & h' & -> & H1 & H2 & H3 & _).
      exists (ms1 ++ ms3), ms4, part3, mb', h'. rewrite <- app_assoc. do 3 (split; [done|]).
      split; [by rewrite concat_cons, length_app, Nat2Z.inj_add, Z.add_assoc|].
      by rewrite fmap_app, route_all_app, Er.
Qed.
End connection.

(** ** Any number of connections *)

(** The messages of [order] that come from [a], and the bytes the events read
    from [a]. *)
Definition from (a : positive) (order : list (positive * Message)) : list Message :=
  snd <$> filter (fun x => x.1 = a) order.
Definition received_from (a : positive) (events : list (positive * list (list Z))) : list Z :=
  concat ((fun e => concat e.2) <$> filter (fun e => e.1 = a) events).

(** The event of the connection [a] whose reads give [chunks]. *)
Definition readable (e : positive * list (list Z)) : input := Readable e.1 (event_reads e.2).
Definition readables (events : list (positive * list (list Z))) : list input := readable <$> events.

Lemma from_app a o1 o2 : from a (o1 ++ o2) = from a o1 ++ from a o2.
Proof. unfold from. by rewrite filter_app, fmap_app. Qed.

Lemma from_pair a b ms : from a (pair b <$> ms) = if decide (b = a) then ms else [].
Proof.
  unfold from. induction ms as [|m ms IH]; [by destruct (decide _)|]. rewrite fmap_cons, filter_cons. cbn [fst].
  destruct (decide (b = a)); [|done]. rewrite fmap_cons, IH. done.
Qed.

Lemma received_cons a e events :
  received_from a (e :: events) = (if decide (e.1 = a) then concat e.2 else []) ++ received_from a events.
Proof. unfold received_from. rewrite filter_cons. by destruct (decide _). Qed.

Section router.
Context `{Platform} (n fuel : nat).

(** The connection has [ms] still to be routed, of which its buffer holds the
    beginning, the events bring [bytes] and [rest] comes later. *)
Record feed (buffer : MessageBuffer * heap) (ms : list Message) (bytes rest : list Z) : Prop := {
  fe_sendable : Forall sendable ms;
  fe_fuel : Forall (fits_fuel fuel) ms;
  fe_count : (length ms < n)%nat;
  fe_part : exists part used, buffered buffer.2 buffer.1 part used /\ partial part ms /\
    stream ms = part ++ bytes ++ rest /\
    used + Z.of_nat (length (bytes ++ rest)) + MTU_SIZE <= max_stored /\ Z.of_nat (length (stream ms)) <= max_stored
}.

(** Every connection is fed. *)
Definition fed (b : bootstrap) (ms : positive -> list Message) (bytes rest : positive -> list Z) : Prop :=
  forall a buffer, m_socketEvents b !! a = Some buffer -> feed buffer (ms a) (bytes a) (rest a).

(** The same events are registered, and the router goes on as before. *)
Definition same_events (b b' : bootstrap) : Prop :=
  dom (m_socketEvents b') = dom (m_socketEvents b) /\ m_shutdown b' = m_shutdown b.

(** [b'] is [b] with other connections. *)
Definition with_connections (b : bootstrap) (cs : list Peer) : bootstrap :=
  mkBootstrap cs (m_socketEvents b) (b_next b) (m_shutdown b).

Lemma same_events_trans b1 b2 b3 : same_events b1 b2 -> same_events b2 b3 -> same_events b1 b3.
Proof. unfold same_events. intuition congruence. Qed.

Lemma data_event_route b e ms (bytes rest : positive -> list Z) :
  Forall mtu_read e.2 ->
  fed b ms (fun a => (if decide (e.1 = a) then concat e.2 else []) ++ bytes a) rest ->
  exists ms1 ms' b1, ms e.1 = ms1 ++ ms' e.1 /\ (forall a, a <> e.1 -> ms' a = ms a) /\
    fed b1 ms' bytes rest /\ same_events b b1 /\
    service n fuel b (readable e) =
      (cs ← route_all (pair e.1 <$> ms1) (m_connections b); Ok (with_connections b1 cs, true)).
Proof.
  destruct e as [a chunks]. cbn [fst snd]. intros Hmtu Hfed. unfold readable, service, data_event. cbn [fst snd].
  destruct (m_socketEvents b !! a) as [[mb h]|] eqn:Ea.
  - destruct (Hfed _ _ Ea) as [Hs Hf Hn (part & used & Ho & Hp & Hstr & Hmax & Hlen)].
    rewrite decide_True, <- app_assoc in Hstr by done. rewrite decide_True, !length_app in Hmax by done.
    destruct (data_handler_event chunks n fuel h (m_connections b) a mb part used (ms a) (bytes a ++ rest a)
      Hs Hf Hn Ho Hp Hstr Hmtu ltac:(lia) Hlen)
      as (ms1 & ms2 & part2 & mb' & h' & Ems & Hstr2 & Hp2 & Ho2 & E).
    exists ms1, (fun x => if decide (x = a) then ms2 else ms x),
      (mkBootstrap [] (<[a := (mb', h')]> (m_socketEvents b)) (b_next b) (m_shutdown b)).
    split; [by rewrite decide_True|]. split; [by intros x Hx; rewrite decide_False|].
    split; [|split; [split; [apply dom_insert_lookup_L; by eexists|done]|by rewrite E, outcome_bind_assoc]].
    intros x buffer. cbn [m_socketEvents]. destruct (decide (x = a)) as [->|Hx].
    + rewrite lookup_insert_eq. intros [= <-]. rewrite Ems in Hs, Hf, Hn, Hlen.
      apply Forall_app in Hs as [_ Hs2]. apply Forall_app in Hf as [_ Hf2]. rewrite length_app in Hn.
      rewrite stream_app, length_app in Hlen. split; [done|done|lia|]. exists part2. eexists.
      do 3 (split; [done|]). rewrite length_app. split; lia.
    + rewrite lookup_insert_ne by done. intros Hb. specialize (Hfed _ _ Hb). cbn beta in Hfed. by rewrite decide_False in Hfed by done.
  - exists [], ms, b. do 2 (split; [done|]). split; [|split; [done|by destruct b]].
    intros x buffer Hb. specialize (Hfed _ _ Hb). cbn beta in Hfed. rewrite decide_False in Hfed; [done|]. congruence.
Qed.

Lemma dispatch_route events : forall b ms rest,
  Forall (fun e => Forall mtu_read e.2) events -> fed b ms (fun a => received_from a events) rest ->
  exists order ms' b1, (forall a, ms a = from a order ++ ms' a) /\ fed b1 ms' (fun _ => []) rest /\
    same_events b b1 /\
    dispatch n fuel b (readable <$> events) =
      (cs ← route_all order (m_connections b); Ok (with_connections b1 cs, true)).
Proof.
  induction events as [|e events IH]; intros b ms rest Hmtu Hfed.
  - exists [], ms, b. do 3 (split; [done|]). by destruct b.
  - apply Forall_cons in Hmtu as [He Hmtu].
    assert (fed b ms (fun a => (if decide (e.1 = a) then concat e.2 else []) ++ received_from a events) rest) as Hfed'.
    { intros a buffer Hb. rewrite <- received_cons. by apply Hfed. }
    destruct (data_event_route b e ms _ rest He Hfed') as (ms1 & ms2 & b1 & E1 & E2 & F1 & D1 & S1).
    assert (forall cs, exists order ms' b2, (forall a, ms2 a = from a order ++ ms' a) /\ fed b2 ms' (fun _ => []) rest /\
      same_events b1 b2 /\
      dispatch n fuel (with_connections b1 cs) (readable <$> events) =
        (cs ← route_all order cs; Ok (with_connections b2 cs, true))) as R.
    { intros cs. by apply (IH (with_connections b1 cs)). }
    assert (forall order ms', (forall a, ms2 a = from a order ++ ms' a) ->
      forall a, ms a = from a ((pair e.1 <$> ms1) ++ order) ++ ms' a) as Ho.
    { intros order ms' Ho a. rewrite from_app, from_pair, <- app_assoc, <- Ho. destruct (decide (e.1 = a)) as [<-|Hne]; [done|].
      by rewrite E2. }
    rewrite fmap_cons. cbn [dispatch]. rewrite S1, outcome_bind_assoc.
    destruct (route_all (pair e.1 <$> ms1) (m_connections b)) as [cs1|err] eqn:Er; run_bind.
    + destruct (R cs1) as (order & ms' & b2 & H1 & H2 & H3 & H4). exists ((pair e.1 <$> ms1) ++ order), ms', b2.
      split; [by apply Ho|]. split; [done|]. split; [by eapply same_events_trans|].
      rewrite route_all_app, Er. run_bind. exact H4.
    + destruct (R []) as (order & ms' & b2 & H1 & H2 & H3 & _). exists ((pair e.1 <$> ms1) ++ order), ms', b2.
      split; [by apply Ho|]. split; [done|]. split; [by eapply same_events_trans|]. by rewrite route_all_app, Er.
Qed.

Lemma run_readable (waits : list (list (positive * list (list Z)))) : forall b, m_shutdown b = false ->
  run n fuel b (readables <$> waits) =
    ('(b, there) ← dispatch n fuel b (readables (concat waits));
     Ok (b, if (there : bool) then StillWaiting else EventErased)).
Proof.
  assert (forall l1 l2 b, dispatch n fuel b (l1 ++ l2) =
    ('(b, there) ← dispatch n fuel b l1; if (there : bool) then dispatch n fuel b l2 else Ok (b, false))) as Happ.
  { induction l1 as [|i l1 IH]; intros l2 b; [done|]. cbn [app dispatch]. rewrite outcome_bind_assoc.
    apply outcome_bind_ext. intros [b1 []]; [apply IH|done]. }
  assert (forall l b b' there, dispatch n fuel b (readables l) = Ok (b', there) -> m_shutdown b' = m_shutdown b) as K.
  { induction l as [|e l IH]; intros b b' there; unfold readables; cbn [fmap list_fmap dispatch]; [by intros [= <- _]|]. intros E. inv_bind.
    destruct x as [b1 t1]. apply service_shutdown in H0. rewrite orb_false_r in H0. destruct t1; [by rewrite (IH _ _ _ E)|by simplify_eq]. }
  induction waits as [|w waits IH]; intros b Hb; rewrite run_eq, Hb; [done|].
  rewrite fmap_cons, concat_cons. rewrite (fmap_app _ _ _ : readables (_ ++ _) = readables _ ++ readables _), Happ.
  destruct (dispatch n fuel b (readables w)) as [[b1 []]|e] eqn:E; [|done..]. run_bind. apply IH. by rewrite (K _ _ _ _ E).
Qed.

Lemma router_refines_spec b waits ms rest :
  m_shutdown b = false -> Forall (Forall (fun e => Forall mtu_read e.2)) waits ->
  fed b ms (fun a => received_from a (concat waits)) rest ->
  exists order ms' b1, (forall a, ms a = from a order ++ ms' a) /\ fed b1 ms' (fun _ => []) rest /\
    (forall a, is_Some (m_socketEvents b !! a) -> rest a = [] -> ms' a = []) /\
    same_events b b1 /\
    run n fuel b (readables <$> waits) =
      (cs ← route_all order (m_connections b); Ok (with_connections b1 cs, StillWaiting)).
Proof.
  intros Hb Hmtu Hfed. rewrite run_readable by done.
  assert (Forall (fun e => Forall mtu_read e.2) (concat waits)) as Hm.
  { clear -Hmtu. induction Hmtu; cbn; [done|]. by apply Forall_app. }
  destruct (dispatch_route (concat waits) b ms rest Hm Hfed) as (order & ms' & b1 & H1 & H2 & H3 & H4).
  exists order, ms', b1. split; [done|]. split; [done|].
  change (readable <$> concat waits) with (readables (concat waits)) in H4.
  split; [|split; [done|by rewrite H4, outcome_bind_assoc]]. intros a Ha Hr.
  assert (is_Some (m_socketEvents b1 !! a)) as [buf Hbuf] by (apply elem_of_dom; rewrite (proj1 H3); by apply elem_of_dom).
  destruct (H2 _ _ Hbuf) as [_ _ _ (part & used & _ & Hp & Hs & _)]. rewrite Hr, app_nil_r in Hs.
  by apply (partial_all part).
Qed.

(** C2: the router refines the router over whole messages.  While any number of
    connections deliver their streams, cut into reads and interleaved in any
    way and up to any point, the handlers do exactly what [route_all] does with
    some sequence of whole messages in which the messages of every connection
    come in their order; what is left of each stream is in the buffer of its
    connection, and a stream that has come to its end is routed to its end. *)
Theorem router_refines b waits ms rest :
  m_shutdown b = false -> Forall (Forall (fun e => Forall mtu_read e.2)) waits ->
  fed b ms (fun a => received_from a (concat waits)) rest ->
  exists order ms' b1, (forall a, ms a = from a order ++ ms' a) /\ fed b1 ms' (fun _ => []) rest /\
    (forall a, is_Some (m_socketEvents b !! a) -> rest a = [] -> ms' a = []) /\
    run n fuel b (readables <$> waits) =
      (cs ← route_all order (m_connections b); Ok (with_connections b1 cs, StillWaiting)).
Proof.
  intros Hb Hmtu Hfed. destruct (router_refines_spec b waits ms rest Hb Hmtu Hfed) as (order & ms' & b1 & H1 & H2 & H3 & _ & H5).
  by exists order, ms', b1.
Qed.
End router.
