(* ===== verification/PubSub.v ===== *)
(** * PubSub: a message on its whole way

    From the calls of sendMessage in the publishers, over the router of
    src/fastpath/router, to the queues of the observers of
    src/fastpath/event/MessageListener.cpp in a subscriber: the theorems about
    the transport, the router and the listener composed.  The subscriptions take
    the same way in the other direction. *)
From S2P Require Import Prelude Heap ByteStorage MessageBuffer Types Field Message Codec RoundTrip Built Subject Transport Router Listener Bootstrap EndToEnd.

(** ** What a transport puts on its connection *)

(** [bytes] is what [send_all] writes for [ms] from an empty send buffer, over a
    connection whose kernel takes every message whole. *)
Definition sent_over `{Platform} (ms : list Message) (bytes : list Z) : Prop :=
  exists h s mb cap s' mb' h', send_ready h mb cap /\ sk_connected s = true /\ sk_out s = [] /\
    Z.of_nat cap <= max_stored /\ Forall (fun m => length (wire_message m) <= cap)%nat ms /\
    send_all h s mb ms = Ok (s', mb', h') /\ sk_out s' = bytes.

Lemma sent_over_stream `{Platform} (little_endian : big_endian = false) ms bytes :
  sent_over ms bytes -> bytes = stream ms.
Proof.
  intros (h & s & mb & cap & s' & mb' & h' & Hr & Hc & Ho & Hcap & Hfit & E & <-).
  destruct (send_all_spec little_endian ms h s mb cap Hr Hc Hcap Hfit) as (mb2 & h2 & E2 & _).
  rewrite E in E2. injection E2 as -> _ _. cbn. by rewrite Ho.
Qed.

(** ** The messages of a listener *)

Lemma length_string_field id v e : id_valid id -> createDataField_string id v = Ok e ->
  identifier e = id /\ (length (wire_field e) <= length id + length v + 7)%nat.
Proof.
  intros Hid. unfold createDataField_string, SmallDataField_string, LargeDataField_string.
  destruct (Field_new_valid id string_ (Z.of_nat (length v) + 1) Hid) as [-> _]. run_bind. cbn [m_data_length].
  destruct (Z.leb_spec (Z.of_nat (length v) + 1) SmallDataField_max_size); intros [= <-]; (split; [done|]);
    cbn [wire_field]; rewrite ?length_app, length_wire_header, ?length_take, ?length_app; cbn; lia.
Qed.

Lemma observer_message_length `{Platform} self admin s m : text_ok admin -> text_ok s -> observer_message self admin s = Ok m ->
  (length (wire_message m) <= length admin + length s + 100)%nat.
Proof.
  intros [Ha Hal] [Hs Hsl] E. unfold observer_message, setSubject in E. 
  rewrite (proj2 (Z.ltb_lt _ _) Hal) in E. cbn [snd] in E.
  unfold addDataField_string, addScalarField in E. inv_bind.
  match goal with He : createDataField_string _ _ = _ |- _ => apply length_string_field in He as [Hi1 Hl1] end;
    [|split; [apply (bool_decide_unpack _); vm_compute; exact I|cbn; lia]].
  unfold insert_field at 1 in E. rewrite Hi1, (lookup_empty (M := gmap _) _ : m_keys (set_subject _ _) !! _ = None) in E.
  unfold ScalarField_new, Field_new in E. cbn [length bytes_of_string fmap list_fmap String.list_ascii_of_string Nat.ltb Nat.leb] in E. run_bind in E.
  unfold insert_field in E. cbn [identifier m_keys set_fields] in E. rewrite lookup_insert_ne in E by done.
  rewrite (lookup_empty (M := gmap _) _ : m_keys (set_subject _ _) !! _ = None) in E. injection E as <-.
  rewrite length_wire_message, length_wire_counted, length_wire_body. cbn [m_subject set_subject set_fields m_payload app fmap list_fmap concat Message_new]. rewrite !length_app.
  cbn [wire_field length]. rewrite length_app, length_wire_header, length_take. cbn in Hl1 |- *. lia.
Qed.

Section registration.
Context `{Platform} (self : Z).

(** The observer [o] is for a subscriber made with the text [s]. *)
Definition observer_text (l : Listener) (o : MessageEvent) (s : list Z) : Prop :=
  exists t sb, text_ok s /\ Subscriber_new t s = Ok sb /\ l_subscribers l !! me_subscriber o = Some sb.

(** [m] is the message that registers [o], and fits a connection. *)
Lemma registration_spec l o s m : observer_text l o s -> registration self l o m ->
  sendable m /\ m_subject m = bytes_of_string "_FP.REGISTER.OBSERVER" /\
  list_sum (fields_in <$> m_payload m) = 2%nat /\
  exists sub, subscription_new s = Ok sub /\
    (forall subj, observes l subj o = match matches sub subj with Ok r => r | Err _ => false end) /\
    getDataField (received_message m) (Some (bytes_of_string "subject")) = Ok (Some (s ++ [0], Z.of_nat (length s) + 1)).
Proof.
  intros (t & sb & [Hc Hl] & Esb & Hsb) (sb' & Hsb' & Em). rewrite Hsb in Hsb'. injection Hsb' as <-.
  unfold Subscriber_new in Esb. destruct (subscription_new s) as [sub|] eqn:Esub; [|done]. cbn in Esb. injection Esb as <-.
  cbn [sub_subject] in Em. rewrite take_ge in Em by lia.
  destruct (observer_message_spec self _ s register_admin (conj Hc Hl)) as (m' & Em' & B & Hs & Hne & Hn & Hg).
  rewrite Em in Em'. injection Em' as <-. destruct (built_inv _ B) as [W K].
  split; [split; [done|split; [done|]]|].
  - pose proof (observer_message_length _ _ _ _ register_admin (conj Hc Hl) Em) as Hlen. unfold max_subject_length in Hl.
    change (length (bytes_of_string "_FP.REGISTER.OBSERVER")) with 21%nat in Hlen. lia.
  - do 2 (split; [done|]). exists sub. split; [done|]. split; [|by apply getDataField_received].
    intros subj. unfold observes. by rewrite Hsb.
Qed.


(** A subscription as a truth value. *)
Definition covered (subs : list subscription) (subj : subject) : bool :=
  existsb (fun sub => match matches sub subj with Ok r => r | Err _ => false end) subs.

(** The registrations of a listener, routed from its connection. *)
Lemma route_registrations l obs : forall texts regs pre c post,
  Forall2 (observer_text l) obs texts -> Forall2 (registration self l) obs regs ->
  Forall (fun x => peer_address x <> peer_address c) pre ->
  exists subs, route_all (pair (peer_address c) <$> regs) (pre ++ c :: post) =
      Ok (pre ++ set_subscriptions c (m_subscriptions c ++ subs) :: post) /\
    forall subj, covered subs subj = existsb (observes l subj) obs.
Proof.
  induction obs as [|o obs IH]; intros texts regs pre c post Ht Hr Hpre.
  - apply Forall2_nil_inv_l in Hr as ->. exists []. rewrite app_nil_r. by destruct c.
  - apply Forall2_cons_inv_l in Ht as (s & texts' & Hs & Ht & ->). apply Forall2_cons_inv_l in Hr as (m & regs' & Hm & Hr & ->).
    destruct (registration_spec l o s m Hs Hm) as (_ & Esub & _ & sub & Es & Hobs & Hg).
    destruct Hs as (t & sb & [Hc _] & _).
    rewrite fmap_cons. cbn [route_all]. unfold route at 1. rewrite Esub.
    change (subject_new (bytes_of_string "_FP.REGISTER.OBSERVER")) with RegisterObserver.
    change (subj_is_admin RegisterObserver) with true. cbv iota.
    rewrite update_peer_at by done. destruct (handle_register c _ s Hc Hg) as (sub' & Es' & ->).
    rewrite Es in Es'. injection Es' as <-. run_bind.
    destruct (IH texts' regs' pre (set_subscriptions c (m_subscriptions c ++ [sub])) post Ht Hr Hpre) as (subs & E & Hcov).
    exists (sub :: subs). split.
    + cbn [peer_address set_subscriptions m_subscriptions] in E. rewrite E. unfold set_subscriptions. cbn. by rewrite <- app_assoc.
    + intros subj. unfold covered in *. cbn [existsb]. by rewrite Hobs, Hcov.
Qed.
End registration.

(** Ordinary messages are only sent on. *)
Lemma route_ordinary order : forall cs, Forall (fun x => ordinary x.2) order ->
  route_all order cs = Ok (forward_all (snd <$> order) <$> cs).
Proof.
  induction order as [|[a m] order IH]; intros cs Ho; cbn [route_all fmap list_fmap].
  - change (forward_all []) with (fun c : Peer => c). by rewrite list_fmap_id.
  - apply Forall_cons in Ho as [[_ Ha] Ho]. unfold route. cbn [snd] in Ha. rewrite Ha. run_bind. rewrite IH by done.
    by rewrite <- list_fmap_compose.
Qed.

(** ** Two phases of a stream *)

Lemma stream_nil ms : stream ms = [] -> ms = [].
Proof.
  destruct ms as [|m ms]; [done|]. unfold stream. rewrite fmap_cons. cbn [concat]. intros E.
  apply (f_equal length) in E. rewrite length_app, length_wire_message in E. cbn in E. lia.
Qed.

(** When a connection has delivered the whole of its first messages and nothing
    else, exactly these have been routed. *)
Lemma phase_split ms1 ms2 l1 l2 part :
  ms1 ++ ms2 = l1 ++ l2 -> stream l2 = part ++ stream ms2 -> partial part l2 -> l1 = ms1 /\ l2 = ms2.
Proof.
  intros E Hs Hp. apply app_eq_app in E as (x & [[-> ->]|[-> ->]]).
  - rewrite stream_app in Hs. apply app_inv_tail in Hs. destruct x as [|m x]; [by rewrite app_nil_r|].
    destruct Hp as (k & Hk & ->). exfalso. unfold stream in Hs. rewrite fmap_cons in Hs. cbn [concat] in Hs.
    apply (f_equal length) in Hs. rewrite length_app, length_take in Hs. lia.
  - rewrite stream_app, app_assoc in Hs. change (stream l2) with ([] ++ stream l2) in Hs at 1.
    apply app_inv_tail in Hs. symmetry in Hs. apply app_nil in Hs as [-> Hx]. apply stream_nil in Hx as ->.
    by rewrite app_nil_r.
Qed.

(** A sequence that comes from one connection. *)
Lemma from_only c ms order : from c order = ms -> (forall a, a <> c -> from a order = []) -> order = pair c <$> ms.
Proof.
  intros <- Hn. induction order as [|[a m] order IH]; [done|].
  assert (a = c) as ->.
  { destruct (decide (a = c)); [done|]. specialize (Hn a ltac:(done)). unfold from in Hn.
    by rewrite filter_cons_True in Hn by done. }
  unfold from. rewrite filter_cons_True by done. rewrite !fmap_cons. f_equal. apply IH. intros a Ha.
  specialize (Hn a Ha). unfold from in *. by rewrite filter_cons_False in Hn by (cbn; congruence).
Qed.

Lemma from_elem a m order : (a, m) ∈ order -> m ∈ from a order.
Proof. intros Hi. unfold from. apply list_elem_of_fmap. exists (a, m). split; [done|]. by apply list_elem_of_filter. Qed.

(** ** The whole way *)

Section whole_way.
Context `{Platform} (n fuel : nat).

(** The buffers of all connections are empty and have room for [ms]. *)
Definition room_for (b : bootstrap) (ms : positive -> list Message) : Prop :=
  forall a buffer, m_socketEvents b !! a = Some buffer ->
    mb_rep buffer.2 buffer.1 [] /\ Forall sendable (ms a) /\ Forall (fits_fuel fuel) (ms a) /\ (length (ms a) < n)%nat /\
    m_storedLength (m_storage buffer.1) + Z.of_nat (length (stream (ms a))) + MTU_SIZE <= max_stored.

Lemma stored_nonneg h mb : mb_rep h mb [] -> 0 <= m_storedLength (m_storage mb).
Proof. intros [(blk & pre & sp & R & _ & _)]. rewrite (mr_stored _ _ _ _ _ R). lia. Qed.

Lemma room_for_fed b ms bytes1 bytes2 :
  room_for b ms -> (forall a, stream (ms a) = bytes1 a ++ bytes2 a) -> fed n fuel b ms bytes1 bytes2.
Proof.
  intros Hr Hs a buffer Hb. destruct (Hr _ _ Hb) as (Rep & H1 & H2 & H3 & H4). pose proof (stored_nonneg _ _ Rep).
  unfold MTU_SIZE in *. split; [done..|]. exists [], (m_storedLength (m_storage buffer.1)).
  split; [by split|]. split; [apply partial_nil|]. rewrite <- Hs. unfold MTU_SIZE. split; [done|lia].
Qed.

Lemma fed_next b ms bytes : fed n fuel b ms (fun _ => []) bytes -> fed n fuel b ms bytes (fun _ => []).
Proof.
  intros Hf a buffer Hb. destruct (Hf _ _ Hb) as [H1 H2 H3 (part & used & Ho & Hp & Hs & Hm & Hl)].
  split; [done..|]. exists part, used. rewrite app_nil_r. done.
Qed.

(** After its first phase the router has routed the messages [ms1] of every
    connection, and has [ms2] before it. *)
Lemma first_phase b waits1 waits2 ms1 ms2 :
  m_shutdown b = false -> Forall (Forall (fun e => Forall mtu_read e.2)) waits1 ->
  room_for b (fun a => ms1 a ++ ms2 a) ->
  (forall a, received_from a (concat waits1) = stream (ms1 a)) ->
  (forall a, received_from a (concat waits2) = stream (ms2 a)) ->
  exists order b1, (forall a, is_Some (m_socketEvents b !! a) -> from a order = ms1 a) /\
    (forall a, m_socketEvents b !! a = None -> ms1 a ++ ms2 a = [] -> from a order = []) /\
    fed n fuel b1 ms2 (fun a => received_from a (concat waits2)) (fun _ => []) /\ same_events b b1 /\
    run n fuel b (readables <$> waits1) =
      (cs ← route_all order (m_connections b); Ok (with_connections b1 cs, StillWaiting)).
Proof.
  intros Hb Hmtu Hroom H1 H2.
  assert (fed n fuel b (fun a => ms1 a ++ ms2 a) (fun a => received_from a (concat waits1)) (fun a => received_from a (concat waits2))) as Hfed.
  { apply room_for_fed; [done|]. intros a. by rewrite stream_app, H1, H2. }
  destruct (router_refines_spec n fuel b waits1 _ _ Hb Hmtu Hfed) as (order & ms' & b1 & Ho & Hfed1 & _ & Hsame & Hrun).
  assert (forall a, is_Some (m_socketEvents b !! a) -> from a order = ms1 a /\ ms' a = ms2 a) as Hsplit.
  { intros a Ha. assert (is_Some (m_socketEvents b1 !! a)) as [buf Hbuf]
      by (apply elem_of_dom; rewrite (proj1 Hsame); by apply elem_of_dom).
    destruct (Hfed1 _ _ Hbuf) as [_ _ _ (part & used & _ & Hp & Hs & _)]. rewrite H2 in Hs. cbn [app] in Hs.
    by eapply phase_split; [apply Ho|..]. }
  exists order, b1. split; [intros a Ha; by apply Hsplit|]. split.
  { intros a _ E. specialize (Ho a). rewrite E in Ho. symmetry in Ho. by apply app_nil in Ho as [-> _]. }
  split; [|done]. apply fed_next. intros a buffer Hbuf.
  assert (ms' a = ms2 a) as <-; [|by apply Hfed1].
  apply Hsplit, elem_of_dom. rewrite <- (proj1 Hsame). apply elem_of_dom. by eexists.
Qed.

(** The router has the subscriptions of a listener: registering from the
    connection [c] leaves the others as they are. *)
Definition registered (l : Listener) (obs : list MessageEvent) (c c' : Peer) : Prop :=
  exists subs, c' = set_subscriptions c subs /\ forall subj, interested c' subj = existsb (observes l subj) obs.

(** The first phase, when only the listener sends: its registrations. *)
Lemma registration_phase self l obs texts regs b pre c post pubs waits1 waits2 :
  Forall2 (observer_text l) obs texts -> Forall2 (registration self l) obs regs ->
  m_shutdown b = false -> router_inv b -> m_connections b = pre ++ c :: post -> m_subscriptions c = [] ->
  Forall (Forall (fun e => Forall mtu_read e.2)) waits1 ->
  room_for b (fun a => (if decide (a = peer_address c) then regs else []) ++ pubs a) ->
  (forall a, m_socketEvents b !! a = None -> pubs a = []) ->
  (forall a, received_from a (concat waits1) = stream (if decide (a = peer_address c) then regs else [])) ->
  (forall a, received_from a (concat waits2) = stream (pubs a)) ->
  exists b1 c', run n fuel b (readables <$> waits1) = Ok (b1, StillWaiting) /\ m_connections b1 = pre ++ c' :: post /\
    registered l obs c c' /\ same_events b b1 /\
    fed n fuel b1 pubs (fun a => received_from a (concat waits2)) (fun _ => []).
Proof.
  intros Ht Hr Hb [Hd He _] Hcs Hc0 Hmtu Hroom Hpubs H1 H2.
  destruct (first_phase b waits1 waits2 _ pubs Hb Hmtu Hroom H1 H2) as (order & b1 & Ho1 & Ho2 & Hfed & Hsame & Hrun).
  assert (peer_address c ∈ peer_address <$> m_connections b) as Hin
    by (rewrite Hcs, fmap_app, fmap_cons; set_solver).
  assert (order = pair (peer_address c) <$> regs) as ->.
  { apply from_only.
    - rewrite Ho1 by by apply He. by rewrite decide_True.
    - intros a Ha. destruct (m_socketEvents b !! a) as [buf|] eqn:Eb.
      + rewrite Ho1 by by eexists. by rewrite decide_False.
      + apply Ho2; [done|]. by rewrite decide_False, Hpubs. }
  assert (Forall (fun x => peer_address x <> peer_address c) pre) as Hpre.
  { rewrite Hcs, fmap_app, fmap_cons in Hd. apply NoDup_app in Hd as (_ & Hd & _). apply Forall_forall. intros x Hx Ex.
    apply (Hd (peer_address x)); [by apply list_elem_of_fmap_2|]. rewrite Ex. by left. }
  destruct (route_registrations self l obs texts regs pre c post Ht Hr Hpre) as (subs & E & Hcov).
  rewrite Hcs, E in Hrun. run_bind in Hrun. do 2 eexists. split; [exact Hrun|]. split; [done|].
  split; [|split; [done|exact Hfed]]. exists subs. rewrite Hc0. split; [done|]. intros subj. apply Hcov.
Qed.

Lemma publication_phase b c pre post pubs waits :
  m_shutdown b = false -> m_connections b = pre ++ c :: post -> p_connected c = true -> p_out c = [] -> takes_whole c ->
  (forall a, Forall ordinary (pubs a)) -> (forall a, m_socketEvents b !! a = None -> pubs a = []) ->
  Forall (Forall (fun e => Forall mtu_read e.2)) waits ->
  fed n fuel b pubs (fun a => received_from a (concat waits)) (fun _ => []) ->
  exists b2 order, run n fuel b (readables <$> waits) = Ok (b2, StillWaiting) /\ (forall a, from a order = pubs a) /\
    mkPeer (peer_address c) (m_subscriptions c) true (wire_message <$> wanted c (snd <$> order))
      (drop (length (wanted c (snd <$> order))) (p_sends c)) ∈ m_connections b2.
Proof.
  intros Hb Hcs Hcon Hout Hwhole Hord Hpubs Hmtu Hfed.
  destruct (router_refines_spec n fuel b waits _ _ Hb Hmtu Hfed) as (order & ms' & b1 & Ho & _ & Hend & _ & Hrun).
  assert (forall a, from a order = pubs a) as Hall.
  { intros a. rewrite Ho. destruct (m_socketEvents b !! a) as [buf|] eqn:Eb.
    - rewrite (Hend a) by (done || by eexists). by rewrite app_nil_r.
    - specialize (Ho a). rewrite Hpubs in Ho by done. symmetry in Ho. by apply app_nil in Ho as [-> ->]. }
  assert (Forall (fun x => ordinary x.2) order) as Hor.
  { apply Forall_forall. intros [a m] Hi. apply from_elem in Hi. rewrite Hall in Hi.
    by eapply Forall_forall in Hi; [|apply Hord]. }
  rewrite route_ordinary in Hrun by done. run_bind in Hrun. do 2 eexists. split; [exact Hrun|]. split; [done|].
  cbn [m_connections with_connections]. rewrite Hcs, fmap_app, fmap_cons. apply elem_of_app. right.
  apply elem_of_cons. left. by rewrite forward_all_out, Hout by done.
Qed.
End whole_way.

(** ** The subscriber's end *)

(** Filtering at the router loses nothing. *)
Lemma queued_by_wanted l obs c c' ms : registered l obs c c' ->
  (received_message <$> wanted c' ms) ≫= queued_by l obs = ms ≫= (fun m => queued_by l obs (received_message m)).
Proof.
  intros (subs & -> & Hi). induction ms as [|m ms IH]; [done|].
  transitivity (queued_by l obs (received_message m) ++ (ms ≫= fun m => queued_by l obs (received_message m))); [|done].
  rewrite <- IH. unfold wanted at 1. cbn [List.filter]. destruct (interested _ (subject_new (m_subject m))) eqn:Ei.
  - rewrite fmap_cons. done.
  - assert (queued_by l obs (received_message m) = []) as ->; [|done]. rewrite Hi in Ei. unfold queued_by.
    assert (m_subject (received_message m) = m_subject m) as -> by (unfold received_message; by rewrite decoded_subject).
    clear -Ei. induction obs as [|o obs IHo]; [done|]. cbn [existsb List.filter] in *. apply orb_false_iff in Ei as [-> Ei]. by apply IHo.
Qed.

Section subscriber.
Context `{Platform}.

(** A transport that is ready to receive [ms] in reads of [chunks]. *)
Record ready_for (n fuel : nat) (h : heap) (t : TCPTransport) (ms : list Message) (chunks : list (list Z)) : Prop := {
  rf_fuel : fuel_for ms fuel;
  rf_count : (length ms < n)%nat;
  rf_buffer : mb_rep h (m_readBuffer t) [];
  rf_connected : m_connected t = true;
  rf_delivered : delivered t = [];
  rf_reads : Forall mtu_read chunks;
  rf_room : m_storedLength (m_storage (m_readBuffer t)) + Z.of_nat (length (concat chunks)) + MTU_SIZE <= max_stored
}.

Lemma subscriber_receives n fuel h t ms chunks more l tp obs c c' :
  ready_for n fuel h t ms chunks -> Forall sendable ms -> concat chunks = stream (wanted c' ms) ->
  registered l obs c c' -> l_observers l !! tp = Some obs ->
  Forall (fun o => is_Some (l_subscribers l !! me_subscriber o)) obs ->
  exists t' h' l', receiver n fuel h t ((RecvBytes <$> chunks) ++ RecvError true :: more) = Ok (t', h', more) /\
    handle_all l tp (delivered t') = Ok l' /\
    l_queued l' = l_queued l ++ (ms ≫= fun m => queued_by l obs (received_message m)).
Proof.
  intros [Hf Hn Hrep Hcon Hd Hc Hroom] Hs Hstr Hreg Ho Hsub.
  assert (forall P, Forall P ms -> Forall P (wanted c' ms)) as Hw.
  { intros P HP. rewrite Forall_forall in HP. apply Forall_forall. intros m Hm. apply HP.
    apply list_elem_of_In, filter_In in Hm as [Hm _]. by apply list_elem_of_In. }
  assert (length (wanted c' ms) <= length ms)%nat as Hlen by apply List.filter_length_le.
  destruct (receiver_delivers_spec n fuel h t (wanted c' ms) chunks more (Hw _ Hs) (Hw _ Hf) ltac:(lia)
    Hrep Hcon Hstr Hc ltac:(by rewrite <- Hstr)) as (t' & h' & E & D & _ & _).
  rewrite Hd in D. cbn [app] in D. destruct (handle_all_spec (delivered t') l tp obs Ho Hsub) as (l' & E2 & Q).
  exists t', h', l'. split; [done|]. split; [done|]. rewrite Q, D. f_equal. by eapply queued_by_wanted.
Qed.

(** C1: publish and subscribe, from end to end.  The observers of a listener are
    registered over its connection [c] to the router; then any peers send
    ordinary messages, through [sendMessage], over the network in any reads and
    any interleaving.  What the router has then sent on connection [c], whose
    sends the kernel takes whole, read by
    the subscriber in any reads and handed to the listener, puts into the queues
    of the observers exactly the messages that match their subscriptions, as
    they were built: nothing is lost, duplicated or misdirected, and the
    messages of each publisher stay in order. *)
Theorem publish_subscribe (little_endian : big_endian = false)
    n fuel self l tp obs texts regs b pre c post pubs waits1 waits2 :
  l_observers l !! tp = Some obs -> Forall2 (observer_text l) obs texts -> Forall2 (registration self l) obs regs ->
  m_shutdown b = false -> router_inv b -> m_connections b = pre ++ c :: post ->
  m_subscriptions c = [] -> p_connected c = true -> p_out c = [] -> takes_whole c ->
  room_for n fuel b (fun a => (if decide (a = peer_address c) then regs else []) ++ pubs a) ->
  (forall a, Forall ordinary (pubs a)) -> (forall a, m_socketEvents b !! a = None -> pubs a = []) ->
  Forall (Forall (fun e => Forall mtu_read e.2)) waits1 -> Forall (Forall (fun e => Forall mtu_read e.2)) waits2 ->
  (forall a, sent_over (if decide (a = peer_address c) then regs else []) (received_from a (concat waits1))) ->
  (forall a, sent_over (pubs a) (received_from a (concat waits2))) ->
  exists b1 b2 c2 order,
    run n fuel b (readables <$> waits1) = Ok (b1, StillWaiting) /\ run n fuel b1 (readables <$> waits2) = Ok (b2, StillWaiting) /\
    c2 ∈ m_connections b2 /\ peer_address c2 = peer_address c /\ (forall a, from a order = pubs a) /\
    forall n' fuel' h t chunks more,
      ready_for n' fuel' h t (snd <$> order) chunks -> concat chunks = concat (p_out c2) ->
      exists t' h' l', receiver n' fuel' h t ((RecvBytes <$> chunks) ++ RecvError true :: more) = Ok (t', h', more) /\
        handle_all l tp (delivered t') = Ok l' /\
        l_queued l' = l_queued l ++ ((snd <$> order) ≫= fun m => queued_by l obs (received_message m)).
Proof.
  intros Ho Ht Hr Hb Hinv Hcs Hc0 Hcon Hout Hwhole Hroom Hord Hpubs Hm1 Hm2 Hs1 Hs2.
  assert (forall a, received_from a (concat waits1) = stream (if decide (a = peer_address c) then regs else []))
    as H1 by (intros a; by apply sent_over_stream).
  assert (forall a, received_from a (concat waits2) = stream (pubs a)) as H2 by (intros a; by apply sent_over_stream).
  destruct (registration_phase n fuel self l obs texts regs b pre c post pubs waits1 waits2 Ht Hr Hb Hinv Hcs Hc0 Hm1
    Hroom Hpubs H1 H2) as (b1 & c1 & E1 & Hcs1 & Hreg & [Hdom Hsd] & Hfed).
  assert (c1 = set_subscriptions c (m_subscriptions c1)) as Hc1 by (destruct Hreg as (subs & -> & _); done).
  destruct (publication_phase n fuel b1 c1 pre post pubs waits2) as (b2 & order & E2 & Hall & Hin);
    [by rewrite Hsd|done|by rewrite Hc1|by rewrite Hc1|unfold takes_whole; by rewrite Hc1|done| |done..|].
  { intros a Ha. apply Hpubs. apply not_elem_of_dom. rewrite <- Hdom. by apply not_elem_of_dom. }
  exists b1, b2. eexists _, order. split; [done|]. split; [done|]. split; [exact Hin|].
  split; [by rewrite Hc1|]. split; [done|]. cbn [p_out]. intros n' fuel' h t chunks more Hready Hch.
  eapply (subscriber_receives n' fuel' h t (snd <$> order) chunks more l tp obs c c1); try done.
  - apply Forall_fmap, Forall_forall. intros [a m] Hi. apply from_elem in Hi. rewrite Hall in Hi.
    eapply Forall_forall in Hi; [|apply Hord]. apply Hi.
  - clear -Ht. induction Ht as [|o s obs texts (t & sb & _ & _ & Hl)]; constructor; [by eexists|done].
Qed.
End subscriber.
