(* ===== verification/Samples.v ===== *)
(** * Samples: the theorems on messages and connections at concrete inputs

    A message of a person with a nested message, built through the
    MutableMessage calls, its storages and its connections.  Each lemma applies
    one theorem of the development, so its hypotheses can hold. *)
From S2P Require Import Prelude Heap ByteStorage MessageBuffer Types Field Message Codec EncodeFrame RoundTrip Built DecodeTotal Subject Printing Output Transport Router Listener.

Section samples.
#[local] Instance little_endian_platform : Platform := false.

Definition text (s : string) : list Z := bytes_of_string s.

(** The message left by a call. *)
Definition after (o : outcome (bool * Message)) : Message :=
  match o with Ok (_, m) => m | Err _ => Message_new end.

(** ** A message with a nested message *)

Definition address_fields : list AddCall :=
  [AddString (text "street") (text "Main Street"); AddScalar (text "number") T_uint16 12].
Definition person_fields : list AddCall :=
  [AddString (text "name") (text "Tom"); AddScalar (text "age") T_int16 (-21);
   AddDuration (text "since") 1500000].
Definition add_all (m : Message) (l : list AddCall) : Message :=
  foldl (fun m c => after (run_add m c)) m l.

Definition address : Message := add_all Message_new address_fields.
Definition person_flat : Message :=
  add_all (setSubject Message_new (text "PEOPLE.NEW")).2 person_fields.
Definition person : Message := after (addMessageField person_flat (text "address") address).

(** A text is a C string when each character is between 1 and 255. *)
Definition cstrb (s : list Z) : bool := forallb (fun c => (1 <=? c) && (c <? 256)) s.
Lemma cstrb_spec s : cstrb s = true -> is_cstr s.
Proof.
  unfold cstrb, is_cstr. intros Hs. apply Forall_forall. intros c Hc.
  rewrite forallb_forall in Hs. specialize (Hs c ltac:(by apply list_elem_of_In)).
  apply andb_true_iff in Hs as [H1 H2]. apply Z.leb_le in H1. apply Z.ltb_lt in H2. lia.
Qed.

Lemma sample_id s : cstrb (text s) = true -> (length (text s) <? 256)%nat = true -> id_valid (text s).
Proof. intros Hc Hl. split; [by apply cstrb_spec|by apply Nat.ltb_lt]. Qed.

(** One more call in a chain of calls. *)
Lemma built_after m c :
  built m -> call_valid c -> (length (m_payload m) <? 100)%nat = true ->
  is_Ok (run_add m c) = true -> built (after (run_add m c)).
Proof.
  intros B Hc Hl Hok. apply Nat.ltb_lt in Hl. destruct (run_add m c) as [[r m']|] eqn:E; [|done].
  eapply built_add; [done|done| |exact E]. unfold count_room. lia.
Qed.

Lemma address_built : built address.
Proof.
  unfold address, add_all. cbn [foldl address_fields].
  repeat (apply built_after; [|split; [by apply sample_id|]|vm_compute; reflexivity|vm_compute; reflexivity]).
  - apply built_new.
  - split; [by apply cstrb_spec|]. vm_compute. done.
  - done.
Qed.

Lemma person_flat_built : built person_flat.
Proof.
  unfold person_flat, add_all. cbn [foldl person_fields].
  repeat (apply built_after; [|split; [by apply sample_id|]|vm_compute; reflexivity|vm_compute; reflexivity]).
  - apply built_subject; [apply built_new|by apply cstrb_spec].
  - split; [by apply cstrb_spec|]. vm_compute. done.
  - done.
  - unfold int64_range. lia.
Qed.

Lemma person_built : built person.
Proof.
  unfold person. destruct (addMessageField person_flat (text "address") address) as [[r m]|] eqn:E.
  - refine (built_message _ _ _ _ _ person_flat_built address_built _ _ _ _ E);
      [by apply sample_id|vm_compute; done..].
  - exfalso. revert E. vm_compute. done.
Qed.

Lemma person_inv : message_wf person /\ keyed person.
Proof. apply built_inv, person_built. Qed.

(** ** Storages *)

(** A fresh storage of a heap of its own. *)
Definition store_of (n : Z) : ByteStorage := (ByteStorage_new empty_heap n).1.
Definition heap_of (n : Z) : heap := (ByteStorage_new empty_heap n).2.

Lemma empty_heap_wf : heap_wf empty_heap.
Proof. intros b [c Hc]. cbn in Hc. by rewrite lookup_empty in Hc. Qed.

Lemma store_of_rep n :
  0 <= n <= 2 ^ 60 ->
  mut_rep (heap_of n) (store_of n) 1 [] (replicate (Z.to_nat (round_storage n)) None).
Proof. intros Hn. apply (ByteStorage_new_rep empty_heap n); [apply empty_heap_wf|done|done]. Qed.

(** A block that holds [l], and a storage that reads it. *)
Definition reader_heap (l : list Z) : heap := Heap 2 {[1%positive := Some <$> l]}.
Definition reader (l : list Z) : ByteStorage :=
  mkByteStorage (Ptr 1 0) 0 (Z.of_nat (length l)) 1 (Ptr 1 0) (Ptr 1 0).

Lemma reader_unread l :
  Forall is_byte l -> Z.of_nat (length l) <= max_stored -> unread (reader_heap l) (reader l) l.
Proof.
  intros Hb Hl. exists 1%positive, 0%nat, l, 0%nat. split; [|split; [lia|done]].
  split; try done. exists [], []. split; [done|]. cbn. by rewrite app_nil_r, lookup_singleton_eq.
Qed.

Lemma person_unread rest :
  Forall is_byte rest -> (length rest <= 1000)%nat ->
  unread (reader_heap (wire_message person ++ rest)) (reader (wire_message person ++ rest))
    (wire_message person ++ rest).
Proof.
  intros Hb Hl. apply reader_unread.
  - apply Forall_app. split; [|done]. apply wire_message_bytes, person_inv.
  - rewrite length_app. change (length (wire_message person)) with 140%nat. unfold max_stored. lia.
Qed.

(** ** Messages *)

Lemma built_wf_witness : message_wf person /\ keyed person.
Proof. destruct (built_wf true true person person_built) as [W K]. split; [by apply W|by apply K]. Defined.

Lemma removeField_keyed_iff_witness :
  exists m', removeField (fun n => n) person (Some (text "age")) = Ok (true, m') /\ ~ keyed m'.
Proof.
  eexists. split; [vm_compute; reflexivity|]. intros K.
  apply (removeField_keyed_iff (fun n => n) person (text "age") 1) in K;
    [vm_compute in K; discriminate|done|apply person_inv|vm_compute; reflexivity|vm_compute; reflexivity].
Defined.

Lemma encode_fits_witness :
  exists b' h', encode person (heap_of 256) (store_of 256) = Ok (140, b', h').
Proof.
  destruct (encode_fits eq_refl person (heap_of 256) (store_of 256) 1 [] _ (store_of_rep 256 ltac:(lia)))
    as (b' & h' & sp & E & _).
  - apply (bool_decide_unpack _). vm_compute. exact I.
  - vm_compute. discriminate.
  - exists b', h'. exact E.
Defined.

Lemma encode_overflow_witness : encode person (heap_of 64) (store_of 64) = undefined UseAfterFree.
Proof.
  apply (encode_overflow eq_refl person (heap_of 64) (store_of 64) 1 [] _ (store_of_rep 64 ltac:(lia))).
  - apply (bool_decide_unpack _). vm_compute. exact I.
  - vm_compute. discriminate.
Defined.

Lemma decode_wire_message_witness :
  exists m' b', decode 6 (reader_heap (wire_message person ++ [1; 2])) Message_new
      (reader (wire_message person ++ [1; 2])) = Ok (true, m', b') /\
    m_subject m' = text "PEOPLE.NEW" /\ length (m_payload m') = 4%nat.
Proof.
  destruct (decode_wire_message 6 _ _ person [1; 2] (proj1 person_inv) (proj2 person_inv)
    ltac:(by vm_compute) (person_unread [1; 2] ltac:(repeat constructor; by vm_compute) ltac:(cbn; lia)))
    as (m' & b' & E & _ & _ & Hs & Hp & _).
  - apply (bool_decide_unpack _). vm_compute. exact I.
  - exists m', b'. split; [exact E|]. split; [exact Hs|]. rewrite Hp, length_fmap. reflexivity.
Defined.

Lemma encode_decode_witness :
  exists n b' h' sent, encode person (heap_of 256) (store_of 256) = Ok (n, b', h') /\
    load h' (bytes b').1 n = Ok sent.
Proof.
  destruct (encode_decode eq_refl 6 person (heap_of 256) (store_of 256) 1 _
    (reader_heap []) (reader []) [] (proj1 person_inv) (proj2 person_inv)
    ltac:(by vm_compute) (store_of_rep 256 ltac:(lia)))
    as (n & b' & h' & sent & E & _ & L & _).
  - apply (bool_decide_unpack _). vm_compute. exact I.
  - vm_compute. discriminate.
  - apply (bool_decide_unpack _). vm_compute. exact I.
  - exists n, b', h', sent. split; [exact E|exact L].
Defined.

Definition person_part : list Z := take 50 (wire_message person).

Lemma person_part_unread : unread (reader_heap person_part) (reader person_part) person_part.
Proof.
  apply reader_unread; [|vm_compute; discriminate]. apply Forall_take, wire_message_bytes, person_inv.
Qed.

Lemma decode_prefix_witness :
  decode 6 (reader_heap person_part) Message_new (reader person_part)
  = Ok (false, Message_new, reader person_part).
Proof.
  apply (decode_prefix 6 _ _ person Message_new 50 person_part_unread).
  - apply (bool_decide_unpack _). vm_compute. exact I.
  - vm_compute. reflexivity.
Defined.

Definition noise : list Z := replicate 20 7.

Lemma decode_corrupt_witness :
  decode 6 (reader_heap noise) Message_new (reader noise) = throw FpException.
Proof.
  apply (decode_corrupt 6 (reader_heap noise) (reader noise) 7 (replicate 19 7)).
  - apply reader_unread; [|vm_compute; discriminate].
    apply (bool_decide_unpack _). vm_compute. exact I.
  - vm_compute. discriminate.
  - rewrite length_replicate. lia.
Defined.

(** A message without fields. *)
Definition ping : Message := (setSubject Message_new (text "PING")).2.
Lemma ping_wf : message_wf ping.
Proof. apply built_inv, built_subject; [apply built_new|by apply cstrb_spec]. Qed.
Lemma ping_unread : unread (reader_heap (wire_message ping)) (reader (wire_message ping)) (wire_message ping).
Proof. apply reader_unread; [apply wire_message_bytes, ping_wf|vm_compute; discriminate]. Qed.

Lemma decode_empty_message_witness :
  exists m' b', decode 6 (reader_heap (wire_message ping)) Message_new (reader (wire_message ping))
    = Ok (false, m', b').
Proof.
  destruct (decode_empty_message 6 _ _ ping ping_wf eq_refl ping_unread) as (m' & b' & E & _).
  exists m', b'. exact E.
Defined.

Lemma decode_terminates_witness :
  decode 21 (reader_heap noise) Message_new (reader noise) <> Err OutOfFuel.
Proof.
  apply (decode_terminates (reader_heap noise)).
  - apply map_Forall_singleton. cbn. repeat constructor; by vm_compute.
  - vm_compute. reflexivity.
Defined.

(** ** Connections *)

Definition fresh_buffer (n : Z) : MessageBuffer := mkMessageBuffer 0 (store_of n).
Definition fresh_transport : TCPTransport := mkTransport true false (fresh_buffer 1500) [] 0.

Lemma fresh_buffer_rep n : 0 <= n <= 2 ^ 60 -> mb_rep (heap_of n) (fresh_buffer n) [].
Proof. intros Hn. split. exists 1%positive, [], (replicate (Z.to_nat (round_storage n)) None).
  split; [by apply store_of_rep|]. cbn. split; [lia|done]. Qed.

Lemma fresh_send_ready : send_ready (heap_of 1024) (fresh_buffer 1024) 1024.
Proof. split; [done|]. exists 1%positive, (replicate 1024 None).
  split; [apply (store_of_rep 1024); lia|apply length_replicate]. Qed.

Lemma person_sendable : sendable person.
Proof. split; [apply person_inv|]. split; [by vm_compute|vm_compute; reflexivity]. Qed.

(** Two messages in three reads, the cuts inside the messages. *)
Definition two_persons : list Message := [person; person].
Definition three_reads : list (list Z) :=
  [take 20 (stream two_persons); take 180 (drop 20 (stream two_persons)); drop 200 (stream two_persons)].

Lemma two_sendable : Forall sendable two_persons.
Proof. do 2 (apply Forall_cons_2; [apply person_sendable|]). apply Forall_nil_2. Qed.
Lemma two_fuel : fuel_for two_persons 6.
Proof.
  do 2 (apply Forall_cons_2; [apply (bool_decide_unpack _); vm_compute; exact I|]). apply Forall_nil_2.
Qed.
Lemma three_reads_mtu : Forall mtu_read three_reads.
Proof. do 3 (apply Forall_cons_2; [vm_compute; done|]). apply Forall_nil_2. Qed.

(** An event with the first two of these reads: the second message is not complete. *)
Lemma receiver_delivers_witness :
  exists ms1 ms2 part t' h', receiver 3 6 (heap_of 1500) fresh_transport
      ((RecvBytes <$> take 2 three_reads) ++ [RecvError true]) = Ok (t', h', []) /\
    two_persons = ms1 ++ ms2 /\ take 200 (stream two_persons) = stream ms1 ++ part /\
    delivered t' = received_message <$> ms1 /\ mb_rep h' (m_readBuffer t') (Some <$> part).
Proof.
  destruct (receiver_delivers 3 6 (heap_of 1500) fresh_transport [] (m_storedLength (m_storage (m_readBuffer fresh_transport)))
    two_persons (take 2 three_reads) (drop 200 (stream two_persons)) [] two_sendable two_fuel)
    as (ms1 & ms2 & part & t' & h' & E & Em & Ep & _ & _ & D & Rep & _).
  - cbn. lia.
  - split; [apply (fresh_buffer_rep 1500); lia|cbn; lia].
  - reflexivity.
  - exists 0%nat. split; [vm_compute; lia|reflexivity].
  - vm_compute. reflexivity.
  - apply Forall_take, three_reads_mtu.
  - vm_compute. discriminate.
  - vm_compute. discriminate.
  - exists ms1, ms2, part, t', h'. split; [exact E|]. split; [exact Em|]. split; [|split; [exact D|apply Rep]].
    refine (eq_trans _ Ep). vm_compute. reflexivity.
Defined.
(** The same, by evaluation: the first message is delivered and 200 bytes are accounted for. *)
Example first_person_delivered :
  (t ← receiver 3 6 (heap_of 1500) fresh_transport ((RecvBytes <$> take 2 three_reads) ++ [RecvError true]);
   Ok (length (delivered t.1.1))) = Ok 1%nat.
Proof. vm_compute. reflexivity. Qed.

Lemma send_receive_witness :
  exists s' mb' hs', send_all (heap_of 1024) (mkSocket true []) (fresh_buffer 1024) two_persons
    = Ok (s', mb', hs').
Proof.
  destruct (send_receive eq_refl (heap_of 1024) (mkSocket true []) (fresh_buffer 1024) 1024
    two_persons 3 6 (heap_of 1500) fresh_transport three_reads [] fresh_send_ready eq_refl)
    as (s' & mb' & hs' & E & _).
  - vm_compute. discriminate.
  - reflexivity.
  - do 2 (apply Forall_cons_2; [apply (bool_decide_unpack _); vm_compute; exact I|]). apply Forall_nil_2.
  - exact two_sendable.
  - exact two_fuel.
  - cbn. lia.
  - apply (fresh_buffer_rep 1500). lia.
  - reflexivity.
  - reflexivity.
  - exact three_reads_mtu.
  - vm_compute. discriminate.
  - exists s', mb', hs'. exact E.
Defined.

Lemma empty_message_blocks_witness :
  exists b', processData 6 (reader_heap (wire_message ping)) fresh_transport (reader (wire_message ping))
    = Ok (false, fresh_transport, b').
Proof.
  destruct (empty_message_blocks 6 (reader_heap (wire_message ping)) fresh_transport
    (reader (wire_message ping)) ping [] ping_wf eq_refl) as (b' & E & _).
  - rewrite app_nil_r. exact ping_unread.
  - exists b'. exact E.
Defined.

Lemma partial_send_out_of_bounds_witness :
  Socket_send [8; 12] (reader_heap noise) (mkSocket true []) (Ptr 1 0) 20 = undefined OutOfBounds.
Proof.
  apply (partial_send_out_of_bounds (reader_heap noise) (mkSocket true []) 1 [] noise 8 12 []).
  - reflexivity.
  - reflexivity.
  - cbn. lia.
  - lia.
Defined.

Lemma failed_send_keeps_message_witness :
  exists mb' h', sendMessage [-1] (heap_of 1024) (mkSocket true []) (fresh_buffer 1024) person
    = Ok (CANNOT_SEND, mkSocket false [], mb', h').
Proof.
  destruct (failed_send_keeps_message eq_refl (heap_of 1024) (mkSocket true []) (fresh_buffer 1024) 1024
    person fresh_send_ready eq_refl) as (mb' & h' & E & _).
  - apply (bool_decide_unpack _). vm_compute. exact I.
  - vm_compute. discriminate.
  - exists mb', h'. exact E.
Defined.

(** Two connections, one of which has subscribed to the subject. *)
Definition subscriber : Peer :=
  mkPeer 1 (match subscription_new (text "PEOPLE.*") with Ok s => [s] | Err _ => [] end) true [] [].
Definition bystander : Peer := mkPeer 2 [] true [] [].

Lemma router_forwards_witness :
  exists cs' b', process_buffers 2 20 (reader_heap (wire_message person ++ []))
      [subscriber; bystander] 1 (reader (wire_message person ++ [])) = Ok (IncompleteMessage, cs', b') /\
    p_out <$> cs' = [[wire_message person]; []].
Proof.
  destruct (router_forwards 2 20 _ [subscriber; bystander] 1 _ [person] [] []
    (Forall_cons_2 _ _ _ (conj person_sendable eq_refl) (Forall_nil_2 _)) (Forall_nil_2 _) eq_refl
    ltac:(apply Forall_cons_2; [apply Nat.ltb_lt; vm_compute; reflexivity|apply Forall_nil_2]) ltac:(cbn; lia)
    (person_unread [] (Forall_nil_2 _) ltac:(cbn; lia))) as (cs' & b' & E & _ & F).
  exists cs', b'. split; [exact E|].
  inversion F as [|? c1 ? l1 (_ & _ & H1) F1]; subst. inversion F1 as [|? c2 ? l2 (_ & _ & H2) F2]; subst.
  inversion F2; subst. cbn [fmap list_fmap]. rewrite H1, H2 by apply Forall_nil_2. vm_compute. reflexivity.
Defined.

Lemma register_subscribes_witness :
  exists sub p', subscription_new (text "PEOPLE.*") = Ok sub /\
    handle_admin_message bystander RegisterObserver
      (after (addDataField_string Message_new (text "subject") (text "PEOPLE.*"))) = Ok p' /\
    interested p' (subject_new (text "PEOPLE.NEW")) = true.
Proof.
  destruct (register_subscribes bystander Message_new (text "PEOPLE.*")
    (after (addDataField_string Message_new (text "subject") (text "PEOPLE.*")))
    (subject_new (text "PEOPLE.NEW")) keyed_new) as (sub & p' & E1 & E2 & _ & r & Hm & Hi).
  - by apply cstrb_spec.
  - vm_compute. reflexivity.
  - exists sub, p'. split; [exact E1|]. split; [exact E2|]. rewrite Hi.
    assert (Ok sub = subscription_new (text "PEOPLE.*")) as Es by done.
    vm_compute in Es. injection Es as Es. rewrite Es in Hm. vm_compute in Hm. injection Hm as <-. reflexivity.
Defined.

(** ** The listener *)

(** Two subscribers of one transport, of which one is interested in a person. *)
Definition subscriber_of (s : string) : Subscriber :=
  match Subscriber_new 1 (text s) with
  | Ok x => x | Err _ => mkSubscriber 1 [] (mkSubscription [] false 0)
  end.
Definition observers : list MessageEvent := [mkMessageEvent 1 1 0; mkMessageEvent 2 2 0].
Definition listener : Listener :=
  mkListener {[1%positive := mkTransportState (Some 1%positive) true []]} [(1%positive, true)] 1 1
    {[1%positive := (0%nat, 1%nat)]} {[1%positive := observers]}
    {[1%positive := subscriber_of "PEOPLE.*"; 2%positive := subscriber_of "PLACES.*"]} [].

Lemma handleMessage_notifies_witness :
  exists l', handleMessage listener 1 person = Ok l' /\ l_queued l' = [(1%positive, 1%positive, person)].
Proof.
  destruct (handleMessage_notifies listener 1 person observers) as (l' & obs' & E & Q & _).
  - reflexivity.
  - do 2 (apply Forall_cons_2; [eexists; vm_compute; reflexivity|]). apply Forall_nil_2.
  - exists l'. split; [exact E|]. rewrite Q.
    assert (List.filter (observes listener (subject_new (m_subject person))) observers = [mkMessageEvent 1 1 0]) as F
      by (vm_compute; reflexivity).
    rewrite F. reflexivity.
Defined.

Lemma people_text : text_ok (text "PEOPLE.*").
Proof. split; [by apply cstrb_spec|by vm_compute]. Qed.

(** The bytes of the administration message of the listener at address 7. *)
Definition admin_message (admin : string) : Message :=
  match observer_message 7 (text admin) (text "PEOPLE.*") with Ok m => m | Err _ => Message_new end.
Definition admin_wire (admin : string) : list Z := wire_message (admin_message admin).

Lemma admin_unread admin :
  forallb (fun c => (0 <=? c) && (c <? 256)) (admin_wire admin) = true ->
  (length (admin_wire admin) <? 1000)%nat = true ->
  unread (reader_heap (admin_wire admin)) (reader (admin_wire admin)) (admin_wire admin).
Proof.
  intros Hb Hl. apply Nat.ltb_lt in Hl. apply reader_unread; [|unfold max_stored; lia].
  apply Forall_forall. intros c Hc. rewrite forallb_forall in Hb.
  specialize (Hb c ltac:(by apply list_elem_of_In)). unfold is_byte. lia.
Qed.

(** The last message a transport has sent is the one handed to it. *)
Lemma sent_message l t x a l' m :
  l_transports l !! t = Some x -> send l t a = Ok l' ->
  l_transports l' !! t = Some (mkTransportState (tr_manager x) (tr_valid x) (tr_sent x ++ [m])) -> m = a.
Proof.
  intros Hx. unfold send, deref_transport. rewrite Hx. intros [= <-].
  cbn [l_transports set_transport]. rewrite lookup_insert_eq. intros [= E]. by apply app_inj_tail in E as [_ ->].
Qed.

Lemma subscription_reaches_router_witness :
  exists sub b',
    process_buffer 24 (reader_heap (admin_wire "_FP.REGISTER.OBSERVER")) [bystander] 2
      (reader (admin_wire "_FP.REGISTER.OBSERVER"))
    = Ok (CompleteMessage, [set_subscriptions bystander [sub]], b').
Proof.
  destruct (subscription_reaches_router 7 listener 1 (mkTransportState (Some 1%positive) true []) (text "PEOPLE.*")
    24 (reader_heap (admin_wire "_FP.REGISTER.OBSERVER")) (reader (admin_wire "_FP.REGISTER.OBSERVER")) []
    [] bystander []) as (m & l' & E & El & Hr).
  - reflexivity.
  - exact people_text.
  - lia.
  - apply Forall_nil_2.
  - rewrite app_nil_r in Hr. apply (sent_message listener 1 _ (admin_message "_FP.REGISTER.OBSERVER") l' m eq_refl) in El; [|exact E]. rewrite El in Hr.
    destruct (Hr (admin_unread "_FP.REGISTER.OBSERVER" eq_refl eq_refl)) as (sub & b' & _ & _ & R & _). exists sub, b'. exact R.
Defined.

Lemma unsubscription_lost_witness :
  exists b',
    process_buffer 24 (reader_heap (admin_wire "_FP.UNREGISTER.OBSERVER")) [subscriber] 1
      (reader (admin_wire "_FP.UNREGISTER.OBSERVER"))
    = Ok (CompleteMessage, [subscriber], b').
Proof.
  destruct (unsubscription_lost 7 listener 1 (mkTransportState (Some 1%positive) true []) (text "PEOPLE.*")
    24 (reader_heap (admin_wire "_FP.UNREGISTER.OBSERVER")) (reader (admin_wire "_FP.UNREGISTER.OBSERVER")) []
    [] subscriber []) as (m & l' & E & El & Hr).
  - reflexivity.
  - exact people_text.
  - lia.
  - apply Forall_nil_2.
  - rewrite app_nil_r in Hr. apply (sent_message listener 1 _ (admin_message "_FP.UNREGISTER.OBSERVER") l' m eq_refl) in El; [|exact E]. rewrite El in Hr.
    destruct (Hr (admin_unread "_FP.UNREGISTER.OBSERVER" eq_refl eq_refl)) as (b' & _ & R). exists b'. exact R.
Defined.

Lemma reconnect_resubscribes_witness :
  exists l', on_connected 7 listener 1 = Ok l' /\ l_connections l' = [(1%positive, true)].
Proof.
  destruct (reconnect_resubscribes 7 listener 1 (mkTransportState (Some 1%positive) true []) observers 0 true)
    as (l' & ms & E & _ & _ & Ec).
  - reflexivity.
  - reflexivity.
  - do 2 (apply Forall_cons_2; [eexists; split; [vm_compute; reflexivity|split; [by apply cstrb_spec|by vm_compute]]|]).
    apply Forall_nil_2.
  - reflexivity.
  - reflexivity.
  - exists l'. split; [exact E|exact Ec].
Defined.

Lemma notification_dangles_witness :
  exists l', on_connected 7 l' 1 = undefined UseAfterFree.
Proof.
  destruct (notification_dangles 7 (fun n => 2 * n)%nat
    (set_transport listener 2 (mkTransportState None false [])) 1 2
    (mkTransportState (Some 1%positive) true []) (mkTransportState None false []) (0%nat, 1%nat) 1)
    as (l' & _ & E & _); try reflexivity; [done|]. exists l'. exact E.
Defined.

(** ** Printing *)

Lemma dump_roundtrip_witness :
  exists s' t, ByteStorage_output (reader_heap (wire_message person)) (reader (wire_message person)) cout = Ok s' /\
    o_text s' = t /\ read_dump 141 t = wire_message person.
Proof.
  destruct (dump_roundtrip (reader_heap (wire_message person)) (reader (wire_message person)) (wire_message person) cout)
    as (s' & t & E & Et & R).
  - vm_compute. reflexivity.
  - apply wire_message_bytes, person_inv.
  - reflexivity.
  - split; reflexivity.
  - reflexivity.
  - vm_compute. discriminate.
  - exists s', t. split; [exact E|]. split; [exact Et|exact R].
Defined.

Lemma message_output_witness :
  (exists s', Message_output person cout = Ok s' /\ o_text s' = show_message person) /\
  (exists s', Message_output (received_message person) cout = Ok s' /\ o_text s' = show_message person).
Proof.
  destruct (message_output true true person cout person_built) as [(s' & E & T & _) R]; [split; reflexivity|].
  split; [by exists s'|]. destruct R as (s2 & E2 & T2 & _); [done|done|..].
  - vm_compute. repeat constructor.
  - by exists s2.
Defined.

Example show_person : show_message person = text
  "PEOPLE.NEW={name:string=Tom}, {age:int16=-21}, {since:date_time=1s 500000us}, {address:message=<no subject>={street:string=Main Street}, {number:uint16=12}}".
Proof. vm_compute. reflexivity. Qed.

(** A third of a float, a value too small for its decimals, and the infinite one. *)
Example show_floats :
  float_text 7 8 23 1051372203 = text "0.3333333" /\ float_text 7 8 23 813694976 = text "0.0000000" /\
  float_text 7 8 23 4286578688 = text "-inf".
Proof. vm_compute. done. Qed.
End samples.
