(* ===== verification/ShmFaults.v ===== *)
(** * ShmFaults: where the shared memory transport departs from its purpose

    A full queue loses a message that is reported as sent; a message longer than
    2048 bytes is encoded through a pointer into freed memory; a message that came
    over TCP has no counted pointer, which the connections over shared memory
    dereference; and a client that disconnects destroys the queue the router
    goes on using.  The last part applies the theorems on shared memory to
    concrete segments. *)
From S2P Require Import Prelude Heap ByteStorage Types Field Message Codec RoundTrip Subject RingBuffer Transport Router Samples Shm ShmInvariant ShmRoute ShmSafety.

Section faults.
Context {Q : Type} {push : Q -> shared_ptr -> bool * Q} {pop : Q -> outcome (option shared_ptr * Q)}
  `{!BoundedFifo Q shared_ptr queue_capacity push pop}.
Context (debug : bool).
Context `{Platform} (little_endian : big_endian = false).
Abbreviation segment := (Segment Q).

(** [sendMessage] into a full queue reports success, and the message is gone: the
    queues are as before and its memory has been given back. *)
Theorem shm_full_queue (s : segment) qs t a l m :
  seg_ok s qs [] -> st_connected t = true -> st_sendQueue t = Some a -> qs !! a = Some (Some l) ->
  length l = queue_capacity -> shm_sendable m ->
  exists s', shm_sendMessage push debug true true s t m = Ok (OK, s') /\ seg_ok s' qs [].
Proof.
  intros I Hc Hq Ha Hl Hm. destruct (shm_send_ok debug little_endian s qs [] t a l m true I Hc Hq Ha ltac:(apply Hm)) as (s' & p & blk & E & _ & I').
  rewrite decide_True in I' by done. eauto.
Qed.

(** A message longer than the 2048 bytes [sendMessage] reserves is written
    through a pointer into freed memory of the segment. *)
Theorem shm_long_message (s : segment) qs t m notified :
  seg_ok s qs [] -> st_connected t = true -> (2048 < length (wire_message m))%nat ->
  Z.of_nat (length (wire_message m)) <= max_stored ->
  shm_sendMessage push debug true notified s t m = undefined UseAfterFree.
Proof.
  intros I Hc Hl Hmax. unfold shm_sendMessage. rewrite Hc. cbn [andb].
  destruct (ByteStorage_new (sg_heap s) 2048) as [b h] eqn:Eb.
  pose proof (ByteStorage_new_rep _ 2048 _ _ (so_heap _ _ _ I) ltac:(lia) Eb) as R.
  rewrite (encode_moves little_endian m h b _ [] _ R); [done| |cbn [length]; lia].
  change (round_storage 2048) with 2048. rewrite length_replicate. lia.
Qed.

(** The handler of the socket of a connection never returns while the peer stays
    connected: no number of turns is enough. *)
Theorem socket_handler_spins reads n :
  (forall k, (Socket_read (reads k)).1.1 <> Closed) -> socket_handler n reads = Err OutOfFuel.
Proof.
  revert reads. induction n as [|n IH]; intros reads Hr; [done|]. cbn [socket_handler].
  pose proof (Hr 0%nat) as H0. destruct (Socket_read (reads 0%nat)).1.1; try (apply IH; intros k; apply Hr). by destruct H0.
Qed.

(** A wrapper without a pointer, at one connection over shared memory. *)
Lemma notify_null (s : segment) a q q' :
  queue_at s a = Ok q -> push q None = (true, q') ->
  notify push debug s a None = if debug then undefined NullDeref else Ok (set_queue s a (Some q')).
Proof. intros Hq Hp. unfold notify. destruct debug; [done|]. run_bind. rewrite Hq. run_bind. by rewrite Hp. Qed.

(** Forwarding a message that came over TCP to an interested client
    over shared memory: with logging the router dereferences a null pointer;
    without, the null pointer is queued, and the client dereferences it when it
    reads its queue. *)
Theorem tcp_to_shm_null h (s : segment) qs c pid cq sq subj msgData t n fuel :
  seg_ok s qs [] -> cn_shm c = Some (pid, cq, sq) -> qs !! cq = Some (Some []) ->
  interested (cn_peer c) subj = true -> st_recvQueue t = Some cq ->
  if debug then tcp_forward push debug h s [c] subj msgData = undefined NullDeref
  else exists s', tcp_forward push debug h s [c] subj msgData = Ok ([c], s') /\
    shm_receive pop (S n) fuel s' t = undefined NullDeref.
Proof.
  intros I Hc Hcq Hi Ht. destruct (queue_ok _ _ _ _ _ I Hcq) as (q & Hq & Ha & R).
  pose proof (fifo_push _ _ None R) as Hp. rewrite decide_False in Hp by done. destruct Hp as (q' & Hp & R').
  unfold tcp_forward. cbn [forward_wrapper]. rewrite is_interested_total, Hi. run_bind.
  unfold connection_sendBuffer. rewrite Hc. cbn [getSharedPtrBuffer m_shared_ptr].
  rewrite (notify_null s cq q q' Hq Hp). destruct debug; [done|]. run_bind. eexists. split; [done|].
  unfold shm_receive. rewrite Ht. cbn [retrieve]. unfold queue_at. cbn [sg_queues set_queue].
  rewrite list_lookup_insert_eq by by eapply lookup_lt_Some. run_bind.
  destruct (fifo_pop _ _ R') as (q2 & -> & _). done.
Qed.

(** When a client disconnects it destroys the queue that the router writes to
    for it: the next message the router forwards to that client, and the
    destructor of its connection in the router, use the destroyed queue. *)
Theorem shm_disconnect_dangles (s : segment) qs t r c sq subj w l cs mem :
  seg_ok s qs [] -> st_recvQueue t = Some r -> qs !! r = Some (Some []) ->
  cn_shm c = Some (st_pid t, r, sq) -> sq <> r -> qs !! sq = Some (Some l) ->
  interested (cn_peer c) subj = true -> live s (m_shared_ptr w) -> m_shared_ptr w <> None ->
  exists s', shm_disconnect pop s t = Ok (mkSHM (st_pid t) false true None None, s') /\
    forward_wrapper push debug mem s' (c :: cs) subj w = undefined UseAfterFree /\
    (l = [] -> shm_peer_destroy pop s' c = undefined UseAfterFree).
Proof.
  intros I Ht Hr Hc Hne Hsq Hi Hl Hw. destruct (queue_ok _ _ _ _ _ I Hr) as (q & Hq & Ha & R).
  destruct (queue_ok _ _ _ _ _ I Hsq) as (v & Hv & Hva & Rv).
  pose proof (fifo_pop _ _ R) as Hp. cbn in Hp.
  assert (forall x s0, pop x = Ok (None, x) -> drain pop queue_capacity s0 x = Ok s0) as Hdrain.
  { intros x s0 Hx. change queue_capacity with (S 1023). cbn [drain]. by rewrite Hx. }
  unfold shm_disconnect. rewrite Ht. unfold SharedMemoryBuffer_destroy. rewrite Hq. run_bind. rewrite Hdrain by done. run_bind.
  eexists. split; [done|]. split.
  - cbn [forward_wrapper]. rewrite is_interested_total, Hi. run_bind. unfold connection_sendBuffer. rewrite Hc.
    unfold notify, getSharedPtrBuffer. destruct (m_shared_ptr w) as [k|]; [|done]. destruct Hl as [[c0 n] Hk].
    assert (exists x, (if debug then deref (mkSegment (sg_heap s) (sg_next s) (sg_control s) (<[r:=None]> (sg_queues s))
      (delete (ClientQueue (st_pid t)) (sg_names s))) (Some k) else Ok (mkContainer null 0)) = Ok x) as [x ->].
    { destruct debug; [|eauto]. cbn. rewrite Hk. eauto. }
    run_bind. unfold queue_at. cbn [sg_queues]. by rewrite list_lookup_insert_eq by by eapply lookup_lt_Some.
  - intros ->. pose proof (fifo_pop _ _ Rv) as Hpv. cbn in Hpv. unfold shm_peer_destroy. rewrite Hc.
    unfold SharedMemoryBuffer_destroy, queue_at. cbn [sg_queues]. rewrite list_lookup_insert_ne, Hva by done. run_bind.
    rewrite Hdrain by done. run_bind. cbn [sg_queues].
    rewrite list_lookup_insert_ne by done. by rewrite list_lookup_insert_eq by by eapply lookup_lt_Some.
Qed.
End faults.

(** ** At concrete segments *)

Section shm_samples.
#[local] Instance shm_little_endian : Platform := false.

(** The simplest queue of the capacity of [spsc_queue]. *)
Definition list_push (q : list shared_ptr) (p : shared_ptr) : bool * list shared_ptr :=
  if decide (length q = queue_capacity) then (false, q) else (true, q ++ [p]).
Definition list_pop (q : list shared_ptr) : outcome (option shared_ptr * list shared_ptr) :=
  match q with [] => Ok (None, []) | p :: q => Ok (Some p, q) end.

#[local, refine] Instance list_fifo : BoundedFifo (list shared_ptr) shared_ptr queue_capacity list_push list_pop := {
  fifo_rep q l := q = l /\ (length q <= queue_capacity)%nat
}.
Proof.
  - by intros s q [-> ?].
  - intros s q x [-> Hl]. unfold list_push. case_decide; [done|]. eexists. split; [done|]. split; [done|].
    rewrite length_app. cbn [length]. lia.
  - intros s q [-> Hl]. destruct q as [|x q]; [done|]. exists q. split; [done|]. split; [done|]. cbn [length] in Hl. lia.
Defined.

Lemma short_rep (q : list shared_ptr) : (length q <= 1)%nat -> slot_rep (Some q) (Some q).
Proof. intros Hq. split; [done|]. unfold queue_capacity. lia. Qed.

Definition four_queues : list (option (list shared_ptr)) := replicate 4 (Some []).
Definition shm_sample : Segment (list shared_ptr) := mkSegment empty_heap 1%positive ∅ four_queues ∅.

Lemma shm_sample_ok : seg_ok shm_sample four_queues [].
Proof.
  split.
  - repeat (apply Forall2_cons_2; [apply short_rep; cbn [length]; lia|]). apply Forall2_nil_2.
  - intros k. reflexivity.
  - by intros k [? E].
  - done.
  - done.
  - by intros blk [? E].
  - apply empty_heap_wf.
Qed.

(** Two clients over shared memory and one over TCP; the second and the third
    have subscribed. *)
Definition shm_sender : SHMTransport := mkSHM 7 true false (Some 0%nat) (Some 1%nat).
Definition shm_receiver : SHMTransport := mkSHM 8 true false (Some 2%nat) (Some 3%nat).
Definition shm_connections : list Connection :=
  [mkConnection bystander (Some (7, 0%nat, 1%nat)); mkConnection subscriber (Some (8, 2%nat, 3%nat));
   mkConnection subscriber None].

Lemma person_shm : shm_ordinary person.
Proof.
  split; [|reflexivity]. split; [apply person_inv|]. split; [done|]. apply Nat.leb_le. vm_compute. reflexivity.
Qed.

Lemma shm_sample_router : router_ok four_queues shm_connections 0 1.
Proof.
  split.
  - by exists (mkConnection bystander (Some (7, 0%nat, 1%nat))), 7, 0%nat.
  - reflexivity.
  - repeat constructor; cbn; eauto.
  - apply (bool_decide_unpack _). vm_compute. exact I.
  - intros c Hc. repeat (apply elem_of_cons in Hc as [-> | Hc]; [done|]). by apply elem_of_nil in Hc.
Qed.

Lemma shm_route_witness :
  exists s1 s2 s3, shm_send_all (push := list_push) false shm_sample shm_sender [person] = Ok ([OK], s1) /\
    notificationHandler list_push list_pop false 3 20 0 true s1 shm_connections =
      Ok (forward_connections [person] <$> shm_connections, s2, true) /\
    shm_receive list_pop 3 20 s2 shm_receiver = Ok (1%nat, [received_message person], s3).
Proof.
  destruct (shm_route false eq_refl shm_sample four_queues shm_sender [person] shm_connections 0 1 3 20 shm_sample_ok
    eq_refl eq_refl shm_sample_router (Forall_cons_2 _ _ _ person_shm (Forall_nil_2 _))) as (s1 & s2 & E1 & E2 & _ & H).
  - apply Nat.leb_le. vm_compute. reflexivity.
  - cbn. lia.
  - constructor; [apply Nat.ltb_lt; vm_compute; reflexivity|constructor].
  - constructor; [apply Nat.leb_le; vm_compute; reflexivity|constructor].
  - destruct (H (mkConnection subscriber (Some (8, 2%nat, 3%nat))) 2%nat shm_receiver) as (s3 & E3).
    + right. left.
    + reflexivity.
    + reflexivity.
    + reflexivity.
    + exists s1, s2, s3. split; [exact E1|]. split; [exact E2|]. refine (eq_trans E3 _). vm_compute. reflexivity.
Defined.

(** A client that has opened its queues and sent a message. *)
Definition opened_segment : Segment (list shared_ptr) :=
  (SharedMemoryBuffer_new [] (SharedMemoryBuffer_new [] empty_segment (ClientQueue 7)).2 (ServerQueue 7)).2.
Definition sent_segment : Segment (list shared_ptr) :=
  match shm_sendMessage list_push false true true opened_segment shm_sender person with
  | Ok (_, s) => s
  | Err _ => opened_segment
  end.

Lemma shm_memory_safe_witness :
  exists c n blk cs, sg_control sent_segment !! 1%positive = Some (c, n) /\ (0 < n)%nat /\ c_ptr c = Ptr blk 0 /\
    h_blocks (sg_heap sent_segment) !! blk = Some cs.
Proof.
  apply (proj1 (shm_memory_safe (BoundedFifo0 := list_fifo) [] (conj eq_refl (Nat.le_0_l _)) false eq_refl sent_segment
    ltac:(eapply rtc_l; [apply (StepOpen _ _ _ (ClientQueue 7))|]; eapply rtc_l; [apply (StepOpen _ _ _ (ServerQueue 7))|];
      eapply rtc_l; [|apply rtc_refl]; apply (StepSend _ _ _ true true shm_sender person OK);
      [apply person_shm|vm_compute; reflexivity])) 1%nat [Some 1%positive] 1%positive []).
  - vm_compute. reflexivity.
  - reflexivity.
Defined.

Lemma tcp_to_shm_null_witness :
  exists s', tcp_forward list_push false (reader_heap []) shm_sample [mkConnection subscriber (Some (8, 2%nat, 3%nat))]
      (subject_new (text "PEOPLE.NEW")) (reader []) = Ok ([mkConnection subscriber (Some (8, 2%nat, 3%nat))], s') /\
    shm_receive list_pop 2 20 s' shm_receiver = undefined NullDeref.
Proof.
  apply (tcp_to_shm_null false (reader_heap []) shm_sample four_queues _ 8 2 3 _ _ shm_receiver 1 20 shm_sample_ok).
  - reflexivity.
  - reflexivity.
  - vm_compute. reflexivity.
  - reflexivity.
Defined.

(** The sample segment with one buffer that is held. *)
Definition held_sample : Segment (list shared_ptr) :=
  mkSegment (reader_heap (wire_message person)) 2%positive
    {[1%positive := (mkContainer (Ptr 1 0) 140, 1%nat)]} [Some []; Some [Some 1%positive]; Some []; Some []] ∅.

Lemma held_sample_ok : seg_ok held_sample [Some []; Some [Some 1%positive]; Some []; Some []] [].
Proof.
  split.
  - repeat (apply Forall2_cons_2; [apply short_rep; cbn [length]; lia|]). apply Forall2_nil_2.
  - intros k. destruct (decide (k = 1%positive)) as [->|Hne]; [cbn; rewrite lookup_singleton_eq; split; [lia|reflexivity]|].
    cbn. rewrite lookup_singleton_ne by done. unfold refs. cbn. unfold count_in, one_if. cbn.
    rewrite bool_decide_eq_false_2 by congruence. done.
  - intros k [? E]. cbn in E. apply lookup_singleton_Some in E as [<- _]. cbn. lia.
  - intros k c n E. cbn in E. apply lookup_singleton_Some in E as [<- [= <- <-]]. exists 1%positive. eexists. split; [done|].
    cbn. apply lookup_singleton_eq.
  - intros k1 k2 c1 c2 n1 n2 E1 E2 _. cbn in *. apply lookup_singleton_Some in E1 as [<- _], E2 as [<- _]. done.
  - intros blk [? E]. cbn in E. apply lookup_singleton_Some in E as [<- _]. exists 1%positive. cbn.
    rewrite lookup_singleton_eq. eauto.
  - intros b [? E]. cbn in E. apply lookup_singleton_Some in E as [<- _]. cbn. lia.
Qed.

Lemma shm_disconnect_dangles_witness :
  exists s', shm_disconnect list_pop held_sample shm_receiver = Ok (mkSHM 8 false true None None, s') /\
    forward_wrapper list_push true sg_heap s' [mkConnection subscriber (Some (8, 2%nat, 3%nat))]
      (subject_new (text "PEOPLE.NEW")) (mkWrapper (reader []) (Some 1%positive)) = undefined UseAfterFree /\
    shm_peer_destroy list_pop s' (mkConnection subscriber (Some (8, 2%nat, 3%nat))) = undefined UseAfterFree.
Proof.
  destruct (shm_disconnect_dangles true held_sample _ shm_receiver 2 (mkConnection subscriber (Some (8, 2%nat, 3%nat))) 3
    (subject_new (text "PEOPLE.NEW")) (mkWrapper (reader []) (Some 1%positive)) [] [] sg_heap held_sample_ok)
    as (s' & E1 & E2 & E3).
  - reflexivity.
  - reflexivity.
  - reflexivity.
  - lia.
  - reflexivity.
  - vm_compute. reflexivity.
  - by eexists.
  - done.
  - exists s'. split; [exact E1|]. split; [exact E2|]. by apply E3.
Defined.

Lemma shm_full_queue_witness :
  exists s', shm_sendMessage list_push false true true
      (set_queue shm_sample 1 (Some (replicate queue_capacity None))) shm_sender person = Ok (OK, s') /\
    seg_ok s' (<[1%nat := Some (replicate queue_capacity None)]> four_queues) [].
Proof.
  apply (shm_full_queue false eq_refl _ _ _ 1 (replicate queue_capacity None)).
  - apply (set_queue_ok shm_sample four_queues [] [] 1 [] (replicate queue_capacity None) (replicate queue_capacity None) shm_sample_ok).
    + reflexivity.
    + split; [done|]. by rewrite length_replicate.
    + intros k. change (count_in k [] + count_in k [])%nat with 0%nat. rewrite Nat.add_0_r. unfold count_in. by apply sum_replicate.
  - reflexivity.
  - reflexivity.
  - reflexivity.
  - apply length_replicate.
  - apply person_shm.
Defined.
End shm_samples.
