(* ===== verification/SystemSamples.v ===== *)
(** * SystemSamples: the router and the whole system at concrete inputs

    Two peers of a router: a subscriber with the two observers of Samples.v and
    a publisher of a person. *)
From S2P Require Import Prelude Heap ByteStorage MessageBuffer Types Field Message Codec RoundTrip Built Subject Url Transport Router Listener Poll Sockets Endpoints Bootstrap EndToEnd PubSub Samples.

Section system.
#[local] Instance little_endian_system : Platform := false.

(** ** The router *)

Definition state_of {A} (o : outcome (bootstrap * A)) : bootstrap := match o with Ok (b, _) => b | Err _ => bootstrap_new end.
Definition two_waiting : list input := [Waiting (Some (Socket_of 5 true)) []; Waiting (Some (Socket_of 6 true)) []].
Definition two_peers : bootstrap := state_of (dispatch 4 30 bootstrap_new two_waiting).

Lemma two_peers_ok : dispatch 4 30 bootstrap_new two_waiting = Ok (two_peers, true).
Proof. reflexivity. Qed.

(** The second peer sends three bytes, the first goes. *)
Definition one_goes : list (list input) :=
  [two_waiting; [Readable 2 [RecvBytes [1; 2; 3]; RecvError true]; Readable 1 [RecvZero]]; [Signal]].

Lemma router_run_inv_witness :
  router_inv (state_of (run 4 30 bootstrap_new one_goes)) /\ length (m_connections (state_of (run 4 30 bootstrap_new one_goes))) = 1%nat.
Proof.
  destruct (router_run_inv 4 30 one_goes (state_of (run 4 30 bootstrap_new one_goes)) EventErased) as (I & L & _);
    [vm_compute; reflexivity|]. split; [exact I|]. rewrite decide_True in L by reflexivity.
  assert (Pos.to_nat (b_next (state_of (run 4 30 bootstrap_new one_goes))) = 3%nat) as Hn by (vm_compute; reflexivity). lia.
Defined.

(** The second peer sends what is no message, and ends its connection. *)
Lemma router_isolates_witness :
  exists c', c' ∈ m_connections (state_of (run 4 30 two_peers [[Readable 2 [RecvBytes noise]]; [Signal]])) /\
    peer_address c' = 1%positive /\ p_connected c' = true.
Proof.
  destruct (router_isolates 4 30 [[Readable 2 [RecvBytes noise]]; [Signal]] two_peers
    (state_of (run 4 30 two_peers [[Readable 2 [RecvBytes noise]]; [Signal]])) EventErased (mkPeer 1 [] true [] []))
    as (c' & used & Hc & Ha & _ & _ & Hs & Hcon).
  - repeat (apply Forall_cons_2 || apply Forall_nil_2); cbn; [by intros ?|by intros ?].
  - vm_compute. left.
  - vm_compute. reflexivity.
  - exists c'. split; [exact Hc|]. split; [exact Ha|]. destruct used; [exact Hcon|discriminate].
Defined.

Lemma signal_ends_run_witness :
  run 4 30 two_peers [[Signal; Readable 2 [RecvError true]]; [Readable 1 [RecvZero]]]
  = Ok (state_of (dispatch 4 30 two_peers [Signal; Readable 2 [RecvError true]]), LoopEnded).
Proof.
  apply (signal_ends_run 4 30 two_peers [] [Readable 2 [RecvError true]]); [reflexivity|vm_compute; reflexivity].
Defined.

(** ** Streams *)

(** Something for the two peers, nothing for any other address. *)
Definition for_two {A} (x y : list A) (a : positive) : list A := match a with 1%positive => x | 2%positive => y | _ => [] end.

Lemma two_cases (P : positive -> Prop) : P 1%positive -> P 2%positive -> (forall a, a <> 1%positive -> a <> 2%positive -> P a) -> forall a, P a.
Proof. intros H1 H2 H3 a. destruct (decide (a = 1%positive)) as [->|]; [done|]. destruct (decide (a = 2%positive)) as [->|]; auto. Qed.

Lemma for_two_other {A} (x y : list A) a : a <> 1%positive -> a <> 2%positive -> for_two x y a = [].
Proof. intros H1 H2. destruct a as [[]|[]|]; done. Qed.

Lemma received_other a events : Forall (fun e => e.1 <> a) events -> received_from a events = [].
Proof. induction 1 as [|e events He _ IH]; [done|]. rewrite received_cons, IH. by rewrite decide_False. Qed.

(** The buffers of the two peers. *)
Lemma two_peers_events : m_socketEvents two_peers =
  {[1%positive := (fresh_buffer 4500, heap_of 4500); 2%positive := (fresh_buffer 4500, heap_of 4500)]}.
Proof. vm_compute. reflexivity. Qed.

Lemma two_peers_buffer a buffer : m_socketEvents two_peers !! a = Some buffer ->
  buffer = (fresh_buffer 4500, heap_of 4500) /\ (a = 1%positive \/ a = 2%positive).
Proof.
  rewrite two_peers_events. rewrite lookup_insert_Some, lookup_singleton_Some. intros [[<- <-]|(_ & <- & <-)]; auto.
Qed.

Lemma two_peers_none a : m_socketEvents two_peers !! a = None -> a <> 1%positive /\ a <> 2%positive.
Proof. rewrite two_peers_events. rewrite lookup_insert_None, lookup_singleton_None. intuition. Qed.

Definition small (ms : list Message) : bool :=
  (length ms <? 4)%nat && (Z.of_nat (length (stream ms)) <? 1400) &&
  forallb (fun m => (length (m_subject m) <? 30)%nat && (list_sum (fields_in <$> m_payload m) <=? 30)%nat) ms.

Lemma small_spec ms : small ms = true -> Forall (fits_fuel 30) ms /\ (length ms < 4)%nat /\ Z.of_nat (length (stream ms)) < 1400.
Proof.
  unfold small. rewrite !andb_true_iff, forallb_forall, Nat.ltb_lt, Z.ltb_lt. intros [[H1 H2] H3]. split; [|done].
  apply Forall_forall. intros m Hm. specialize (H3 m ltac:(by apply list_elem_of_In)).
  apply andb_true_iff in H3 as [H3 H4]. apply Nat.ltb_lt in H3. apply Nat.leb_le in H4. by split.
Qed.

Lemma two_peers_room x y : Forall sendable x -> Forall sendable y -> small x = true -> small y = true ->
  room_for 4 30 two_peers (for_two x y).
Proof.
  intros Sx Sy Hx%small_spec Hy%small_spec a buffer Hb. apply two_peers_buffer in Hb as [-> Ha]. cbn [fst snd].
  split; [apply (fresh_buffer_rep 4500); lia|]. change (m_storedLength (m_storage (fresh_buffer 4500))) with 0.
  unfold max_stored, MTU_SIZE. destruct Ha as [-> | ->]; cbn [for_two]; intuition lia.
Qed.

(** The first 50 bytes of a person from one peer, a whole person from the other. *)
Definition part_and_whole : list (positive * list (list Z)) :=
  [(1%positive, [take 50 (wire_message person)]); (2%positive, [wire_message person])].

Lemma router_refines_witness :
  exists order b1, from 2 order = [person] /\
    run 4 30 two_peers (readables <$> [part_and_whole]) =
      (cs ← route_all order (m_connections two_peers); Ok (with_connections b1 cs, StillWaiting)).
Proof.
  destruct (router_refines 4 30 two_peers [part_and_whole] (for_two [person] [person])
    (for_two (drop 50 (wire_message person)) [])) as (order & ms' & b1 & Ho & Hf & He & E).
  - reflexivity.
  - repeat (apply Forall_cons_2 || apply Forall_nil_2); vm_compute; split; done.
  - apply room_for_fed.
    + apply two_peers_room; [apply Forall_cons_2; [exact person_sendable|apply Forall_nil_2]..|vm_compute; reflexivity|vm_compute; reflexivity].
    + apply two_cases; [vm_compute; reflexivity|vm_compute; reflexivity|]. intros a H1 H2.
      rewrite !for_two_other, received_other by (done || (repeat (apply Forall_cons_2 || apply Forall_nil_2); cbn; congruence)).
      reflexivity.
  - exists order, b1. split; [|exact E]. specialize (Ho 2%positive).
    rewrite (He 2%positive), app_nil_r in Ho; [by symmetry|rewrite two_peers_events; by eexists|reflexivity].
Defined.

(** ** Publish and subscribe *)

Lemma sent_over_fresh ms : Forall (fun m => length (wire_message m) <= 1024)%nat ms -> sent_over ms (stream ms).
Proof.
  intros Hfit. destruct (send_all_spec eq_refl ms (heap_of 1024) (mkSocket true []) (fresh_buffer 1024) 1024
    fresh_send_ready eq_refl ltac:(vm_compute; discriminate) Hfit) as (mb' & h' & E & _).
  exists (heap_of 1024), (mkSocket true []), (fresh_buffer 1024), 1024%nat. do 3 eexists.
  split; [exact fresh_send_ready|]. do 2 (split; [reflexivity|]). split; [vm_compute; discriminate|].
  split; [exact Hfit|]. split; [exact E|]. reflexivity.
Qed.

(** The registrations of the two observers of [listener]. *)
Definition register_of (s : string) : Message :=
  match observer_message 7 (text "_FP.REGISTER.OBSERVER") (text s) with Ok m => m | Err _ => Message_new end.
Definition registers : list Message := [register_of "PEOPLE.*"; register_of "PLACES.*"].
Definition observed_texts : list (list Z) := [text "PEOPLE.*"; text "PLACES.*"].

Lemma listener_texts : Forall2 (observer_text listener) observers observed_texts.
Proof.
  repeat constructor; exists 1%positive; (eexists; split; [split; [by apply cstrb_spec|by vm_compute]|split; [vm_compute; reflexivity|reflexivity]]).
Qed.
Lemma listener_registers : Forall2 (registration 7 listener) observers registers.
Proof. repeat constructor; (eexists; split; [reflexivity|vm_compute; reflexivity]). Qed.

Lemma registers_sendable : Forall sendable registers.
Proof.
  assert (forall s, text_ok (text s) -> observer_message 7 (text "_FP.REGISTER.OBSERVER") (text s) = Ok (register_of s) ->
    (Z.of_nat (length (wire_message (register_of s))) <? 2 ^ 60) = true -> sendable (register_of s)) as K.
  { intros s Hs E Hl%Z.ltb_lt. destruct (observer_message_spec 7 _ _ register_admin Hs) as (m & Em & B & _ & Hne & _).
    assert (Ok m = Ok (register_of s)) as Er by (rewrite <- Em; exact E). injection Er as ->.
    split; [apply built_inv, B|by split]. }
  apply Forall_cons_2; [|apply Forall_cons_2; [|apply Forall_nil_2]]; apply K;
    (split; [by apply cstrb_spec|by vm_compute]) || (vm_compute; reflexivity).
Qed.

Definition registering : list (list (positive * list (list Z))) := [[(1%positive, [stream registers])]].
Definition publishing : list (list (positive * list (list Z))) :=
  [[(2%positive, [take 100 (wire_message person)])]; [(2%positive, [drop 100 (wire_message person)])]].

Lemma sent_over_two x y events :
  Forall (fun e => e.1 = 1%positive \/ e.1 = 2%positive) events ->
  received_from 1 events = stream x -> received_from 2 events = stream y ->
  Forall (fun m => length (wire_message m) <= 1024)%nat x -> Forall (fun m => length (wire_message m) <= 1024)%nat y ->
  forall a, sent_over (for_two x y a) (received_from a events).
Proof.
  intros He H1 H2 Hx Hy. apply two_cases.
  - rewrite H1. by apply sent_over_fresh.
  - rewrite H2. by apply sent_over_fresh.
  - intros a Ha Hb. rewrite for_two_other, received_other; [|eapply Forall_impl; [exact He|]; intros e [-> | ->]; done|done..].
    by apply (sent_over_fresh []).
Qed.

Lemma short_message m : (length (wire_message m) <=? 1024)%nat = true -> (length (wire_message m) <= 1024)%nat.
Proof. apply Nat.leb_le. Qed.

Lemma publish_subscribe_witness :
  exists b1 b2 c2, run 4 30 two_peers (readables <$> registering) = Ok (b1, StillWaiting) /\
    run 4 30 b1 (readables <$> publishing) = Ok (b2, StillWaiting) /\ c2 ∈ m_connections b2 /\ peer_address c2 = 1%positive.
Proof.
  assert (forall a, (if decide (a = 1%positive) then registers else []) = for_two registers [] a) as Hif.
  { apply two_cases; [done|done|]. intros a Ha Hb. by rewrite decide_False, for_two_other. }
  destruct (publish_subscribe eq_refl 4 30 7 listener 1 observers observed_texts registers two_peers []
    (mkPeer 1 [] true [] []) [mkPeer 2 [] true [] []] (for_two [] [person]) registering publishing)
    as (b1 & b2 & c2 & order & E1 & E2 & Hin & Ha & _).
  - reflexivity.
  - exact listener_texts.
  - exact listener_registers.
  - reflexivity.
  - apply (dispatch_inv 4 30 two_waiting bootstrap_new two_peers true router_inv_new eq_refl two_peers_ok).
  - vm_compute. reflexivity.
  - reflexivity.
  - reflexivity.
  - reflexivity.
  - apply Forall_nil_2.
  - intros a buffer Hb. cbn [peer_address]. rewrite Hif.
    assert (for_two registers [] a ++ for_two [] [person] a = for_two registers [person] a) as ->.
    { apply two_peers_buffer in Hb as [_ [-> | ->]]; cbn [for_two]; [by rewrite app_nil_r|done]. }
    revert a buffer Hb. apply two_peers_room; [exact registers_sendable|apply Forall_cons_2; [exact person_sendable|apply Forall_nil_2]|
      vm_compute; reflexivity..].
  - apply two_cases; [apply Forall_nil_2|apply Forall_cons_2; [split; [exact person_sendable|reflexivity]|apply Forall_nil_2]|].
    intros a H1 H2. rewrite for_two_other by done. apply Forall_nil_2.
  - intros a [H1 H2]%two_peers_none. by apply for_two_other.
  - repeat (apply Forall_cons_2 || apply Forall_nil_2); vm_compute; split; done.
  - repeat (apply Forall_cons_2 || apply Forall_nil_2); vm_compute; split; done.
  - intros a. cbn [peer_address]. rewrite Hif. revert a. apply sent_over_two; [by repeat constructor; left|vm_compute; reflexivity|vm_compute; reflexivity| |apply Forall_nil_2].
    do 2 (apply Forall_cons_2; [apply short_message; vm_compute; reflexivity|]). apply Forall_nil_2.
  - apply sent_over_two; [repeat constructor; by right|vm_compute; reflexivity|vm_compute; reflexivity|apply Forall_nil_2|].
    apply Forall_cons_2; [apply short_message; vm_compute; reflexivity|]. apply Forall_nil_2.
  - exists b1, b2, c2. split; [exact E1|]. split; [exact E2|]. split; [exact Hin|exact Ha].
Defined.

(** The same system computed: the queue of the interested observer gets the
    person as it is received, the other observer nothing. *)
Definition subscriber_out (b : bootstrap) : list Z := concat (p_out (default (mkPeer 1 [] false [] []) (head (m_connections b)))).
Definition whole_way : outcome (list (positive * positive * Message)) :=
  '(b, _) ← run 4 30 two_peers (readables <$> registering);
  '(b, _) ← run 4 30 b (readables <$> publishing);
  '(t, _, _) ← receiver 3 6 (heap_of 1500) fresh_transport [RecvBytes (subscriber_out b); RecvError true];
  l ← handle_all listener 1 (delivered t);
  Ok (l_queued l).

Example whole_way_computed : whole_way = Ok [(1%positive, 1%positive, received_message person)].
Proof. vm_compute. reflexivity. Qed.
End system.
