(* ===== verification/ProgramSamples.v ===== *)
(** * ProgramSamples: the main functions at concrete inputs *)
From Stdlib Require Import Ascii String.
From S2P Require Import Prelude Heap ByteStorage MessageBuffer Types Field Message Codec RoundTrip Built Subject Options Printing Output Transport Router Listener Sockets Endpoints Bootstrap Logger Programs Samples Performance Statistics PerfPrograms.
#[local] Open Scope string_scope.
#[local] Open Scope list_scope.
#[local] Open Scope Z_scope.

Section programs.
#[local] Instance little_endian_programs : Platform := false.

Definition quiet_logger : logger := logger_new false cout.
Definition same_time (_ : nat) : clock := morning.
Definition complaint (_ : list string) : list Z := bytes_of_string "wrong option".
Definition good_line : list string := ["--config"; "x.cfg"; "-s"; "7343"; "-d"].

(** The router on a kernel that grants what it is asked. *)
Definition router_at (argv : list string) (waits : list (list input)) : outcome (option Z * logger) :=
  fprouter_main (A := unit) same_time [49] complaint true false (fun _ _ => Some [tt]) (fun _ => tt) (fun _ => None) (fun _ => Ok tt)
    4 30 (bytes_of_string "1.0") 99 [] (busy (replicate 20 true)) tt waits argv quiet_logger.


(** fpsend and a listener of level INFO, over a stream that is read in two parts. *)
Definition send_line : list string := ["-u"; "tcp://localhost:7000"; "-s"; "NEWS"; "--loglevel"; "INFO"].
Definition connected_client (_ : list Z) : outcome tcp_client := Ok (heap_of 1024, mkSocket true [], fresh_buffer 1024).
Definition sent_to (argv : list string) : outcome (Z * logger * option tcp_client) :=
  fpsend_main same_time [49] complaint (tcp_ops whole) connected_client [] argv quiet_logger.
Definition news_bytes : list Z :=
  match sent_to send_line with Ok (_, _, Some (_, s, _)) => sk_out s | _ => [] end.
Definition news_reads : list (list Z) := [take 20 news_bytes; drop 20 news_bytes].
Definition listening (lv : level) : logger := LOG_LEVEL lv quiet_logger.

Definition listen_line (subject : string) : list string := ["-u"; "tcp://localhost:7000"; "-s"; subject; "-l"; "INFO"].
(** fplisten over what the transport delivers. *)
Definition listened (argv : list string) (arrivals : list (option Message)) : outcome (option Z * logger) :=
  fplisten_main same_time [49] complaint 77 (fun n => S (2 * n)) (fun _ : unit => true) (fun _ => Ok tt) [] argv arrivals quiet_logger.

Lemma fpsend_to_fplisten_witness :
  exists t' h' ll' line, receiver 2 1 (heap_of 1500) fresh_transport ((RecvBytes <$> news_reads) ++ [RecvError true]) = Ok (t', h', []) /\
    listened (listen_line "NEWS") (Some <$> delivered t') = Ok (None, ll') /\
    o_text (m_output_stream ll') = [] ++ line /\
    tom_line [49] (LOG_LEVEL info quiet_logger) (bytes_of_string "NEWS") (bytes_of_string ": [07:05:09.000042] ") line.
Proof.
  destruct (parse tool_options send_line) as [o|f] eqn:Ep; [|vm_compute in Ep; discriminate].
  assert (chosen_level o = Some info /\ get_at o "subject" 0 = Some "NEWS") as [El Es] by (vm_compute in Ep; injection Ep as <-; by vm_compute).
  destruct (parse tool_options (listen_line "NEWS")) as [o'|f] eqn:Ep'; [|vm_compute in Ep'; discriminate].
  assert (chosen_level o' = Some info /\ get_at o' "subject" 0 = Some "NEWS") as [El' Es'] by (vm_compute in Ep'; injection Ep' as <-; by vm_compute).
  assert (text_ok (bytes_of_string "NEWS")) as Ht by (split; [apply (bool_decide_unpack _); vm_compute; exact I|vm_compute; done]).
  destruct (fpsend_to_fplisten same_time [49] complaint 77 (fun n => S (2 * n)) eq_refl connected_client [] send_line quiet_logger o info "NEWS"
    (heap_of 1024) (mkSocket true []) (fresh_buffer 1024) 1024) as (l' & h' & s' & mb' & E & T);
    [by intros i; split| | |reflexivity|exact Ep|exact El|exact Es|discriminate|exact Ht| |reflexivity|reflexivity|reflexivity| |by vm_compute| |].
  - by repeat constructor.
  - intros argv. by repeat constructor.
  - by repeat constructor.
  - exact fresh_send_ready.
  - cbn. lia.
  - assert (sk_out s' = news_bytes) as Eo by (change (sent_to send_line = Ok (0, l', Some (h', s', mb'))) in E; unfold news_bytes; by rewrite E).
    destruct (T unit (fun _ => true) (fun _ => Ok tt) [] (listen_line "NEWS") quiet_logger o' info "NEWS" tt
      2%nat 1%nat (heap_of 1500) fresh_transport news_reads []) as (t' & h'' & prefix & Er & Ex & P & _);
      [reflexivity|exact Ep'|exact El'|exact Es'|exact Ht|reflexivity|lia|lia|apply (fresh_buffer_rep 1500); lia|done|done|by rewrite Eo|
       by apply (bool_decide_unpack _); vm_compute|by vm_compute|].
    destruct (P (eq_refl : covers (bytes_of_string "NEWS") (bytes_of_string "NEWS")) ltac:(cbn; lia)) as (ll' & line & E' & Tx & L). vm_compute in Ex. injection Ex as <-.
    exists t', h'', ll', line. split; [exact Er|]. split; [exact E'|]. by split.
Defined.

Definition printed (argv : list string) : outcome (list Z) :=
  t ← receiver 2 1 (heap_of 1500) fresh_transport ((RecvBytes <$> news_reads) ++ [RecvError true]);
  '(_, l) ← listened argv (Some <$> delivered t.1.1); Ok (o_text (m_output_stream l)).

Example news_line : printed (listen_line "NEWS") = Ok (bytes_of_string "I: [07:05:09.000042] NEWS={name:string=tom}" ++ [10]).
Proof. vm_compute. reflexivity. Qed.
Example news_wildcard : printed (listen_line "*") = printed (listen_line "NEWS").
Proof. vm_compute. reflexivity. Qed.
Example other_subject : printed (listen_line "WEATHER") = Ok [].
Proof. vm_compute. reflexivity. Qed.
Example silent_by_default : printed ["-u"; "tcp://localhost:7000"; "-s"; "NEWS"] = Ok [].
Proof. vm_compute. reflexivity. Qed.

(** The performance source with two messages, at a hundred a second. *)
Definition source_line : list string := ["-u"; "tcp://localhost:7000"; "--count"; "2"].
Lemma source_main_measures_witness : exists events rs l',
  source_main (H0 := by_sorting) same_time [49] complaint (fun _ => [63]) (fun _ : unit => true) (fun _ => Ok tt) [] source_line events quiet_logger
    = Ok (Some 0, rs, l') /\
  Forall2 (answers [9; 6]) source_tasks rs.
Proof.
  destruct (parse source_options source_line) as [o|f] eqn:Ep; [|vm_compute in Ep; discriminate].
  assert (chosen_level o = Some warning /\ get_or extract_size o "count" (Ok 1000) 0 = Ok 2 /\ get_or extract_size o "rate" (Ok 100) 0 = Ok 100)
    as (El & Ec & Er) by (vm_compute in Ep; injection Ep as <-; by vm_compute).
  destruct (perf_new 2) as [p0|f] eqn:E0; [|vm_compute in E0; discriminate].
  destruct (perf_steps 2 two_messages p0) as [p|f] eqn:E; [|vm_compute in E0; injection E0 as <-; vm_compute in E; discriminate].
  assert (sent_at p = [5000100; 6000200] /\ answered_at p = [5010900; 6007000] /\ shutdown (p_source p) = true) as (Es & Ea & Esd)
    by (vm_compute in E0; injection E0 as <-; vm_compute in E; by injection E as <-).
  destruct (source_main_measures (H0 := by_sorting) same_time [49] complaint (fun _ => [63])) with (valid := fun _ : unit => true)
    (connect := fun _ : list Z => Ok tt) (stde := @nil Z) (argv := source_line) (o := o) (lv := warning) (t := tt) (count := 2) (rate := 100)
    (actions := two_messages) (p0 := p0) (p := p) (l := quiet_logger) as (events & rs & l' & Em & Hr);
    [by intros i; split|by repeat constructor|intros d; by repeat constructor|by repeat constructor|reflexivity|exact Ep|exact El|exact Ec|exact Er
    |unfold max_results; lia|done|reflexivity|reflexivity|by repeat (constructor; [cbn; lia|])|exact E0|exact E|exact Esd|].
  exists events, rs, l'. split; [exact Em|]. rewrite Es, Ea in Hr. exact Hr.
Defined.
End programs.
